(* ===== verification/_CoqProject ===== *)
-Q . S2P
Prelude.v
RustStr.v
BTree.v
RustPath.v
External.v
StateMachine.v
ToolCall.v
Approval.v
Lease.v
Step.v
Turn.v
Task.v
Session.v
Stream.v
Routing.v
Admission.v
Run.v
Mode.v
RunMode.v
Config.v
Assurance.v
Kernel.v
Capacity.v
Cron.v
AutoDef.v
Schedule.v
Filter.v
Registry.v
Webhook.v
Ledger.v
ChildBudget.v
BudgetPolicy.v
InputQueue.v
Denials.v
Conflict.v
Agent.v
ToolProjection.v
ShellAcc.v
ShellRead.v
ShellClass.v
ShellTotal.v
ShellNest.v
Gate.v
WsText.v
WsPath.v
WsTree.v
Workspace.v
WsAtomic.v
WsExample.v
Resume.v
DiffInv.v
Tiers.v
Projects.v
Trajectory.v
Feasibility.v
Compaction.v
Summary.v
Sandbox.v
Egress.v
Hooks.v
VerifPlan.v
Tools.v
Pipeline.v
CorePort.v
