(* ===== verification/Prelude.v ===== *)
(** * Modbit: a verification development of the Core's decision logic

    Modbit runs coding agents under supervision. Its Core is event sourced: every
    fact about a task is an event, the store folds the events of each aggregate
    into a row, and every effect an agent asks for crosses a deterministic
    authority boundary before it runs. This library models the Rust code that
    decides: the aggregates of [src/crates/domain], the authority boundary of
    [src/crates/policy], the path of a tool call through [src/crates/tools] and the
    Core's port to the kernel, the file service of [src/crates/workspace], the
    policy and egress broker of [src/crates/sandbox], the acceptance gate of
    [src/crates/verification], the epochs of [src/crates/compaction], and the decision
    procedures of [src/crates/core-runtime] and [src/crates/automation].

    ** How the parts interact

    The model proposes a tool call. The tools it was offered are a projection kept
    inside a budget of bytes ([ToolProjection]). The pipeline ([Pipeline]) reads
    the arguments, looks the tool up in the registry ([Tools]), validates and
    classifies the call, scans it for credentials, fires the task's hooks
    ([Hooks]), which may stop or rewrite it, and asks the policy port. A shell
    call is classified from what its command line would run ([ShellAcc],
    [ShellRead], [ShellClass]). The Core's port ([CorePort]) turns the question
    into a kernel request; the kernel ([Kernel]) decides it from the capability
    lease ([Lease]), the organization's envelope, the task's mode ([Mode]), the
    layered configuration ([Config]) and, if the call must be asked about, an
    approval ([Approval]) or the task's run mode and its durable rules
    ([RunMode]). Only then is the dispatch journaled and the effector run; the call
    is an aggregate ([ToolCall]) of a turn ([Turn]) of a run ([Run]), dispatched by
    a step ([Step]), and its receipt enters a hash chain ([Ledger]). A stop after
    too many refusals is the denial watch's ([Denials]). A Core that was restarted
    reconstructs what a task left open from the logs of its calls and continues
    from the boundary they give ([Resume]). Tools that touch files go
    through the workspace service ([Workspace]): each path is resolved through the
    links on its way and checked ([WsPath]), each write is atomic, under a
    precondition and recorded in a revision, edits are located by a match ladder
    ([WsText]), and several changes make one transaction. A command that runs in a
    sandbox has its writes decided by a compiled policy ([Sandbox]) and its network
    by the broker on the host ([Egress]), which dials only what the rules and the
    organisation's list admit and gives credentials the guest never sees to an HTTP client.

    A task ([Task]) of a session ([Session]) takes its inputs from a queue
    ([InputQueue]); what the model says arrives as a stream ([Stream]). When the
    transcript outgrows the model's window, a range of it is replaced by an epoch
    ([Compaction]), beside which a summary written by a model may stand if it
    passes the checks against the range ([Summary]). A run may
    split its work over child agents along a work graph ([Agent]), with budgets
    taken from the parent's ([ChildBudget], [BudgetPolicy]) and write scopes that
    must not conflict ([Conflict]). A candidate change is given a realized risk
    ([Assurance]), its diff is held against the invariants of changes ([DiffInv]),
    checks are planned for it ([VerifPlan], [Tiers]), and the evidence about it is
    weighed against the assurance that risk requires ([Gate]). Which model serves a
    run is fixed by a conditional plan ([Routing]) that is selected on confident
    evidence ([Feasibility]) and validated and admitted before anything is
    dispatched ([Admission]); runs share the machine through a pool of tickets
    ([Capacity]). What the tasks of a session did is digested from their logs
    ([Trajectory]); the folders a user works in are projects ([Projects]).
    Automations ([AutoDef], [Registry]) start runs on schedules ([Cron],
    [Schedule]) or on signed deliveries ([Webhook]) that pass a filter ([Filter]).

    ** Files and the code they model

    - [Prelude.v]: results, methods that mutate their receiver, machine integers,
      slice adaptors, hint database and tactics.
    - [RustStr.v], [BTree.v], [RustPath.v]: what the code uses of the standard
      library: string methods and integer parsing on [string] (a Rust string by its
      bytes), ordered maps, sets and stable sorting as ordered lists, and
      [std::path] on Unix.
    - [External.v]: third-party code as classes (JSON values, SHA-256, identifier
      text, Unicode lower case, escaping), with a concrete instance of each for
      the witnesses. Laws are hypotheses of the theorems that need them. A JSON
      document whose constructors the code matches on is [AutoDef.jvalue].
    - [StateMachine.v]: [domain/src/state.rs] (the [StateMachine] trait as a class)
      and the fold of [event-store/src/projections.rs], with the induction
      principles the aggregates share ([project_invariant], [project_history],
      [applied_monotone], ...).
    - [ToolCall.v], [Approval.v], [Lease.v], [Step.v], [Turn.v], [Run.v], [Task.v],
      [Session.v], [Stream.v], [Agent.v], [Mode.v], [Routing.v]: the file of the
      same name under [domain/src]. The state of an aggregate is the struct, events
      are the constructors of the event enum, [X_create] and [X_apply] are
      [X::create] and [X::apply]; [X_apply] is a method on [&mut self], so it
      returns the state it leaves behind on an error too. [Stream.v] also has the
      projector's arm, [Agent.v] the whole work graph.
    - [RunMode.v]: [domain/src/runmode.rs] and [policy/src/runmode.rs] (rules, the
      script splitter, program pins, the run decision). [Config.v],
      [Assurance.v], [Kernel.v]: [policy/src/config.rs], [assurance.rs],
      [kernel.rs]. [BudgetPolicy.v]: [policy/src/budget.rs]. [Ledger.v]:
      [policy/src/ledger.rs], [policy/src/epoch.rs], [domain/src/epoch.rs].
    - [Admission.v], [Capacity.v], [InputQueue.v], [Denials.v], [Conflict.v],
      [ToolProjection.v]: [admission.rs], [capacity.rs], [input_queue.rs],
      [denials.rs], [conflict.rs], [projection.rs] of [core-runtime/src].
      [ChildBudget.v]: its [budget.rs] and the clamp and regrant of
      [services/modbit-core/src/spawn.rs].
    - [Cron.v], [AutoDef.v], [Schedule.v], [Filter.v], [Registry.v], [Webhook.v]:
      [cron.rs], [definition.rs], [schedule.rs], [filter.rs], [registry.rs],
      [webhook.rs] of [automation/src].
    - [ShellAcc.v], [ShellRead.v], [ShellClass.v]: [tools/src/shell_class.rs]. A
      classifier returns the list of the calls it makes ([Act]); [ShellClass.effects]
      runs the recursive ones. [ShellTotal.v] proves that this ends, [ShellNest.v]
      what it finds.
    - [Hooks.v], [Tools.v], [Pipeline.v]: [hooks.rs], [registry.rs] with
      [policy.rs] (and the tool macro of [direct.rs]) and [pipeline.rs] of
      [tools/src]. Processes, models, clocks, hooks, journals and sinks act on an
      abstract world [W] the definitions are run against; [Pipeline] also records
      the calls it makes to them, so that their order can be stated.
    - [Gate.v]: [verification/src/gate.rs]; each section of [evaluate] is a
      definition that returns the evidence, references and reasons it adds.
    - [Resume.v]: [protocol-state/src/lib.rs]. [DiffInv.v], [Tiers.v],
      [VerifPlan.v]: [invariants.rs], [tiers.rs], [plan.rs] of
      [verification/src]; the working tree the plan looks at is the class
      [VerifPlan.Root]. [Feasibility.v]: [providers/src/feasibility.rs], with [f64]
      as the standard library's specification floats.
    - [WsText.v], [WsPath.v], [Workspace.v]: the pure part of
      [workspace/src/service.rs], [paths.rs], and [revision.rs] with the rest of
      [service.rs]. The operations of [std::fs] are the class [WsPath.FileSystem],
      what the theorems need of them the class [WsPath.FsLaws]; [WsTree.v] is a
      file system with links that satisfies it, [WsAtomic.v] has the theorems,
      [WsExample.v] runs the service on small trees.
    - [Sandbox.v], [Egress.v]: [policy.rs] and [egress.rs] of [sandbox/src]. The
      resolver and the sockets are the class [Egress.EgressDialer]; a request the
      broker serves returns the addresses it tried and what it carries on.
    - [Projects.v]: [domain/src/project.rs], the project arms of
      [event-store/src/projections.rs] and the commands of
      [services/modbit-core/src/projects.rs]; what the commands ask of the disk is
      the class [Paths]. [Trajectory.v]: [core-runtime/src/trajectory.rs].
    - [Compaction.v], [Summary.v]: [lib.rs] and [summary.rs] of [compaction/src]. What
      [compact] does is one definition per step; the JSON texts are the classes
      [TranscriptJson] and [SummaryJson].
    - [CorePort.v]: [KernelPort] of [services/modbit-core/src/tools.rs], and the
      theorems about pipeline, port, kernel, run mode and classifier together.

    ** What the theorems show

    - The whole path. An effect of the Core is one the kernel's specification
      allows for the very arguments it runs on, as far as they name paths the lease is
      checked for ([core_effect_within_authority]); no destructive command runs unasked
      behind the wrappers and shells the classifier knows
      ([destructive_command_approved]); the effector runs once, after the decision
      and the journal ([effect_authorized]), and not at all for a refused call.
    - Authority. The kernel allows a call exactly when a declarative specification
      does ([kernel_allow_exact], a refinement of the whole decision); emergency
      stop, computer control, unattended profiles and task modes behave as
      promised whatever the other inputs are; selectors match exactly the language
      of their pattern; the default lease agrees with the default envelope.
    - Shell commands. A script of quoted words is read as exactly its commands, if none
      begins with a keyword; a command inside the wrappers and shells of [ShellNest.runs]
      counts as if it ran alone, and [ShellNest.unseen_commands] lists ways of running
      one that are not seen; an install is exempt only if nothing else the classifier
      finds reaches out; the classification is total.
    - Hooks. A hook only tightens, and its denials, rewrites and context are what the
      record says; a permission hook decides nothing but whether the call is refused; the
      custody check is exact on the string values of a call, not on its keys.
    - Who approves. An approval authorizes only what the log shows a person
      approved, once and in time; a run mode approves only calls its rules cover
      or that fall in no class that asks; a validated rule never covers a wrapper
      or a computer tool; quoted scripts are split into exactly their commands.
    - Configuration and risk. Lower layers tighten and never loosen; allow lists
      intersect; MCP names resolve to the highest undenied definition; a stricter
      assurance policy never lowers a realized risk, layers and later revisions
      only strengthen, and advisory signals change nothing. The acceptance gate
      accepts, rejects and leaves open exactly what is stated of the evidence, which is
      less than "any failure rejects" ([gate_verdict_exact]).
    - Lifecycles and logs. Every aggregate the store projects satisfies its
      invariant, by induction over the log; dispatch needs a policy decision;
      terminal states are final; lease generations never go back; a task can
      always still be completed; receipts are tamper evident; the input queue
      refines a queue; the denial watch and the stream are their specifications.
    - Restarts. A resumed run reconciles exactly the calls that were sent and have
      no result before anything else, and enters again only calls that were never
      sent, as the logs tell ([resume_boundary_exact]); the last part of a log of
      terminal updates can be read twice ([terminal_replay_idempotent]).
    - Changes and checks. A diff is denied exactly by the rules stated for it, unless its
      evaluation panics, which is characterised too ([diff_denied_exact]); a task can add checks to a plan and take none away
      ([plan_only_grows]); nothing structural is claimed of a language without a
      recorded pass ([structural_claim_rests_on_record]).
    - Plans, money, capacity. The plan selected is the one the evidence justifies,
      and every other has a reason ([selection_justified]). A validated plan is
      rooted, acyclic and inside its budget without wrap-around; activations are admitted once and inside the
      budget; the pool never oversubscribes; children stay within what the parent
      had as long as none is resumed; workers admitted together do not conflict by the
      rules stated, which speak of indexed files and entries without a star; the work graph stays
      grounded and acyclic.
    - Files. A checked path leads below the root, over no link, and to nothing
      protected; an edit is made at the one place its target is found, a patch is
      its ranges; a transaction, where no link stands at a name the service
      uses for itself, performs its operations or is undone up to line endings, and says
      what it could not undo.
    - Sandboxes. The guest writes exactly below the workspace and outside what is
      protected, on normal forms of paths ([guest_write_exact]); whatever the guest
      asks, the broker tries only resolved addresses that a rule and the
      organisation's list admit and that are public unless a rule names an address,
      and gives a secret out only for a live grant, in a request for the grant's target
      glued to a path the guest chose ([egress_confined]); IPv4 addresses
      are public outside a table of blocks ([public_v4_exact]).
    - Compaction. Through any number of epochs an approval or a decision in a manifest
      is one the Core gave, an instruction the words of a user ([facts_warranted]);
      what an epoch preserves and what of it the projection shows is stated exactly
      ([epoch_facts_exact], [projection_newest_first]); every replaced entry can be
      read back ([transcript_index_exact]); a late result is installed only over the
      entries it summarised ([async_install_exact]); a summary is accepted exactly
      when it passes five stated checks against the range ([validate_exact]).
    - Projects and digests. Whatever commands are run, the tables of projects are
      the fold of their log, live projects of a workspace differ in their names,
      and a task is held by at most one project ([projects_reachable_inv]); the digest of a task counts exactly what its log
      says ([task_metrics_exact]), and a goal is reported as recurring exactly when
      enough tasks share it ([recurring_goals_exact]).
    - Time and automations. The calendar arithmetic is the Gregorian calendar; a
      parsed cron expression holds exactly the listed values; the next firing is
      the first; a schedule fires each slot once and accounts for the rest; what is
      live was approved; signatures bind and deliveries are accepted once.

    ** Bounds and fuel

    Integers are [Z] with the width at each operation: [wrap64] for plain addition
    on [u64], saturating and checked operations where the code has them. Fuel is
    the bound of the code or of its data, with a lemma that it is enough:
    [Routing.walk] visits each slot at most once ([walk_total]), [Cron.set_bits]
    runs once per value of the range ([set_bits_exact]), [Cron.next_from_day] over
    the 2928 days and [Cron.min_gap_loop] over the 200000 rounds that bound the
    loops in the code, [Schedule.plan_loop] over its 50000 slots, [Agent.visit] and
    [Agent.blocks_loop] over the nodes ([visit_total], [blocks_loop_spec]),
    [ToolProjection.drop_loop] over the tools, the loops of [ShellRead] over the
    characters left, and [ShellClass.effects] with [call_bound], a bound on the
    calls a command line can lead to ([shell_classification_total]). Strings are
    bytes; operations the code defines on Unicode scalar values agree with the
    bytewise ones for the ASCII characters it looks for, and [RustStr.chars] splits
    a string where it counts characters. The paths are those of a Unix build.

    ** What is not modelled, and the plan

    Not modelled: SQLite, files, processes, network, providers, the bodies of the
    tools, the desktop and cloud applications, and the asynchronous orchestration
    around the modelled decisions ([core-runtime/src/harness.rs],
    [services/modbit-core/src/runtime.rs] and [server.rs]): they move data between
    the parts above and the outside. What could follow, in this order: the task's
    approvals and receipts around the pipeline in
    [services/modbit-core/src/tools.rs], the price tables of
    [providers/src/economics.rs], and the readers of MCP configuration
    ([mcp/src/config.rs]). *)

From stdpp Require Export base option list numbers strings sets.
From coqutil Require Export Datatypes.RecordSetters.
Export OCamlLikeNotations.

#[global] Open Scope Z_scope.

(** ** Results

    Rust's [Result<A, E>]; the error type comes first so that [result E]
    is a monad and the question mark operator is the bind [x ← r; k]. *)
Inductive result (E A : Type) : Type :=
  | Ok (a : A)
  | Err (e : E).
Arguments Ok {E A} a.
Arguments Err {E A} e.

#[export] Instance result_ret E : MRet (result E) := λ A a, Ok a.
#[export] Instance result_bind E : MBind (result E) := λ A B f r,
  match r with Ok a => f a | Err e => Err e end.
#[export] Instance result_fmap E : FMap (result E) := λ A B f r,
  match r with Ok a => Ok (f a) | Err e => Err e end.

#[export] Instance result_eq_dec `{EqDecision E, EqDecision A} : EqDecision (result E A).
Proof. solve_decision. Defined.

Definition is_ok {E A} (r : result E A) : bool :=
  match r with Ok _ => true | Err _ => false end.

(** [Result::ok]. *)
Definition result_ok {E A} (r : result E A) : option A :=
  match r with Ok a => Some a | Err _ => None end.

(** [Result::map_err]. *)
Definition map_err {E F A} (f : E → F) (r : result E A) : result F A :=
  match r with Ok a => Ok a | Err e => Err (f e) end.

(** [Option::is_some]. *)
Definition is_some {A} (o : option A) : bool :=
  match o with Some _ => true | None => false end.

(** [Option::ok_or]. *)
Definition ok_or {E A} (o : option A) (e : E) : result E A :=
  match o with Some a => Ok a | None => Err e end.

Lemma bind_ok {E A B} (f : A → result E B) (r : result E A) b :
  r ≫= f = Ok b ↔ ∃ a, r = Ok a ∧ f a = Ok b.
Proof. destruct r as [a|e]; cbn; [naive_solver|]. split; [done|naive_solver]. Qed.

(** ** Methods taking [&mut self]

    [SE S E A] runs against a state, returns the state it leaves behind and
    a result; an early [return Err(..)] keeps every field written before it. *)
Definition SE (S E A : Type) : Type := S → S * result E A.

#[export] Instance se_ret S E : MRet (SE S E) := λ A a s, (s, Ok a).
#[export] Instance se_bind S E : MBind (SE S E) := λ A B f m s,
  match m s with
  | (s', Ok a) => f a s'
  | (s', Err e) => (s', Err e)
  end.
Definition se_get {S E} : SE S E S := λ s, (s, Ok s).
Definition se_mod {S E} (f : S → S) : SE S E unit := λ s, (f s, Ok tt).
Definition se_err {S E A} (e : E) : SE S E A := λ s, (s, Err e).
Definition se_lift {S E A} (r : result E A) : SE S E A := λ s, (s, r).

Declare Scope modbit_scope.
Delimit Scope modbit_scope with modbit.
#[global] Open Scope modbit_scope.

(** Equality tests the code writes as [==]. *)
Notation "a =s b" := (String.eqb a b) (at level 70, no associativity) : modbit_scope.

(** ** Machine integers

    Integers are kept in [Z] with the width written at each operation. *)
Definition u8_max : Z := 255.
Definition u16_max : Z := 65535.
Definition u32_max : Z := 4294967295.
Definition u64_max : Z := 18446744073709551615.
Definition i64_min : Z := -9223372036854775808.
Definition i64_max : Z := 9223372036854775807.

Definition in_u32 (x : Z) : Prop := 0 ≤ x ≤ u32_max.
Definition in_u64 (x : Z) : Prop := 0 ≤ x ≤ u64_max.
Definition in_i64 (x : Z) : Prop := i64_min ≤ x ≤ i64_max.

#[export] Instance in_u32_dec x : Decision (in_u32 x).
Proof. unfold in_u32. apply _. Defined.
#[export] Instance in_u64_dec x : Decision (in_u64 x).
Proof. unfold in_u64. apply _. Defined.

(** Plain [+] on [u64] in a release build. *)
Definition wrap64 (x : Z) : Z := x `mod` (u64_max + 1).
Definition wrap32 (x : Z) : Z := x `mod` (u32_max + 1).

(** [saturating_add], [saturating_sub], [saturating_mul] at a given maximum. *)
Definition sat_add (m a b : Z) : Z := Z.min m (a + b).
Definition sat_sub (a b : Z) : Z := Z.max 0 (a - b).
Definition sat_mul (m a b : Z) : Z := Z.min m (a * b).

(** [checked_add] at a given maximum. *)
Definition checked_add (m a b : Z) : option Z :=
  if a + b <=? m then Some (a + b) else None.

Ltac unfold_width :=
  unfold in_u32, in_u64, in_i64, sat_add, sat_sub, sat_mul, checked_add,
    u8_max, u16_max, u32_max, u64_max, i64_min, i64_max in *.

Lemma sat_add_in m a b : 0 ≤ a → 0 ≤ b → 0 ≤ m → 0 ≤ sat_add m a b ≤ m.
Proof. unfold_width; lia. Qed.

Lemma sat_sub_in m a b : 0 ≤ a ≤ m → 0 ≤ b → 0 ≤ sat_sub a b ≤ m.
Proof. unfold_width; lia. Qed.

Lemma wrap64_small x : in_u64 x → wrap64 x = x.
Proof. unfold in_u64, wrap64. intros. apply Z.mod_small. lia. Qed.

Lemma wrap64_succ x y : wrap64 (wrap64 x + y) = wrap64 (x + y).
Proof. unfold wrap64. apply Zplus_mod_idemp_l. Qed.

(** ** Slices: the iterator adaptors the code uses *)

(** [iter().position(p)]. *)
Fixpoint position {A} (p : A → bool) (l : list A) : option nat :=
  match l with
  | [] => None
  | x :: l => if p x then Some O else S <$> position p l
  end.

(** [Vec::remove(i)] on an index in range; out of range the code panics, and
    every caller passes an index [position] returned. *)
Definition vec_remove {A} (i : nat) (l : list A) : list A := take i l ++ drop (S i) l.

(** [Vec::insert(i, x)]. *)
Definition vec_insert {A} (i : nat) (x : A) (l : list A) : list A := take i l ++ x :: drop i l.

(** [iter_mut().find(p)] followed by a write through the reference. *)
Fixpoint update_first {A} (p : A → bool) (f : A → A) (l : list A) : list A :=
  match l with
  | [] => []
  | x :: l => if p x then f x :: l else x :: update_first p f l
  end.

(** [slice::contains] on strings. *)
Definition contains_str (l : list string) (s : string) : bool := existsb (String.eqb s) l.
Arguments contains_str : simpl never.

(** [strs.join(sep)]. *)
Fixpoint join (sep : string) (l : list string) : string :=
  match l with
  | [] => ""
  | [x] => x
  | x :: l => x +:+ sep +:+ join sep l
  end.

(** ** Automation *)

Create HintDb modbit discriminated.
#[export] Hint Resolve sat_add_in sat_sub_in : modbit.

(** Case on the scrutinee of a match or a conditional in the goal or in a
    hypothesis, keeping the equation. *)
Ltac destruct_match :=
  match goal with
  | H : context [match ?x with _ => _ end] |- _ =>
      lazymatch x with context [match _ with _ => _ end] => fail | _ => destruct x eqn:? end
  | |- context [match ?x with _ => _ end] =>
      lazymatch x with context [match _ with _ => _ end] => fail | _ => destruct x eqn:? end
  end.


(** Turn boolean tests in the context into propositions. *)
Ltac bool_to_prop :=
  repeat match goal with
  | H : (_ && _)%bool = true |- _ => apply andb_true_iff in H; destruct H
  | H : (_ || _)%bool = false |- _ => apply orb_false_iff in H; destruct H
  | H : negb _ = true |- _ => apply negb_true_iff in H
  | H : negb _ = false |- _ => apply negb_false_iff in H
  | H : String.eqb _ _ = true |- _ => apply String.eqb_eq in H
  | H : String.eqb _ _ = false |- _ => apply String.eqb_neq in H
  | H : (_ <=? _) = true |- _ => apply Z.leb_le in H
  | H : (_ <=? _) = false |- _ => apply Z.leb_gt in H
  | H : (_ <? _) = true |- _ => apply Z.ltb_lt in H
  | H : (_ <? _) = false |- _ => apply Z.ltb_ge in H
  | H : (_ =? _) = true |- _ => apply Z.eqb_eq in H
  | H : (_ =? _) = false |- _ => apply Z.eqb_neq in H
  | H : bool_decide _ = true |- _ => apply bool_decide_eq_true in H
  | H : bool_decide _ = false |- _ => apply bool_decide_eq_false in H
  end.

(** ** Shared list lemmas *)

Lemma find_some_iff {A} (p : A → bool) l x :
  List.find p l = Some x →
  ∃ l1 l2, l = l1 ++ x :: l2 ∧ p x = true ∧ Forall (λ y, p y = false) l1.
Proof.
  induction l as [|y l IH]; cbn; [done|].
  destruct (p y) eqn:E; intros H; simplify_eq.
  - exists [], l. repeat split; [done|constructor].
  - destruct (IH H) as (l1 & l2 & -> & Hx & Hl). exists (y :: l1), l2. auto.
Qed.

Lemma find_none_forall {A} (p : A → bool) l :
  List.find p l = None ↔ Forall (λ y, p y = false) l.
Proof.
  induction l as [|y l IH]; cbn; [split; auto|].
  rewrite Forall_cons. destruct (p y); [|rewrite IH]; naive_solver.
Qed.

Lemma existsb_false {A} (p : A → bool) l :
  existsb p l = false ↔ Forall (λ y, p y = false) l.
Proof.
  induction l as [|y l IH]; cbn; [split; auto|].
  rewrite Forall_cons, orb_false_iff, IH. done.
Qed.

Lemma existsb_true {A} (p : A → bool) l : existsb p l = true ↔ ∃ x, x ∈ l ∧ p x = true.
Proof.
  rewrite existsb_exists. split; intros (x & H & ?); exists x; split; auto;
    by apply list_elem_of_In.
Qed.

Lemma forallb_true {A} (p : A → bool) l : forallb p l = true ↔ ∀ x, x ∈ l → p x = true.
Proof.
  rewrite forallb_forall. split; intros H x Hx; apply H; by apply list_elem_of_In.
Qed.

Lemma contains_str_true l s : contains_str l s = true ↔ s ∈ l.
Proof.
  unfold contains_str. rewrite existsb_true. split.
  - intros (x & Hx & E%String.eqb_eq). by subst.
  - intros H. exists s. by rewrite String.eqb_refl.
Qed.

Lemma contains_str_false l s : contains_str l s = false ↔ s ∉ l.
Proof. rewrite <- contains_str_true. destruct (contains_str l s); naive_solver. Qed.

Lemma position_some {A} (p : A → bool) l i :
  position p l = Some i →
  ∃ x l1 l2, l = l1 ++ x :: l2 ∧ length l1 = i ∧ p x = true ∧ Forall (λ y, p y = false) l1.
Proof.
  revert i; induction l as [|y l IH]; intros i; cbn; [done|].
  destruct (p y) eqn:E; intros H; simplify_eq.
  - exists y, [], l. repeat split; [done|constructor].
  - destruct (position p l) as [j|]; simplify_eq/=.
    destruct (IH j eq_refl) as (x & l1 & l2 & -> & <- & Hx & Hl).
    exists x, (y :: l1), l2. auto.
Qed.

Lemma position_none {A} (p : A → bool) l :
  position p l = None ↔ Forall (λ y, p y = false) l.
Proof.
  induction l as [|y l IH]; cbn; [split; auto|].
  rewrite Forall_cons. destruct (p y).
  - split; [done|naive_solver].
  - rewrite <- IH. destruct (position p l); naive_solver.
Qed.

Lemma vec_remove_app {A} (l1 l2 : list A) x :
  vec_remove (length l1) (l1 ++ x :: l2) = l1 ++ l2.
Proof.
  unfold vec_remove. rewrite take_app_length. f_equal.
  change (x :: l2) with ([x] ++ l2). rewrite app_assoc, drop_app_length'; [done|].
  rewrite length_app. cbn. lia.
Qed.

Lemma vec_insert_perm {A} i (x : A) l : vec_insert i x l ≡ₚ x :: l.
Proof. unfold vec_insert. by rewrite <- Permutation_middle, take_drop. Qed.

Lemma update_first_split {A} (p : A → bool) f l :
  (update_first p f l = l ∧ Forall (λ y, p y = false) l) ∨
  (∃ l1 x l2, l = l1 ++ x :: l2 ∧ p x = true ∧ Forall (λ y, p y = false) l1 ∧
     update_first p f l = l1 ++ f x :: l2).
Proof.
  induction l as [|y l IH]; cbn; [by left|].
  destruct (p y) eqn:E.
  - right. exists [], y, l. repeat split; [done|constructor].
  - destruct IH as [[-> ?]|(l1 & x & l2 & -> & ? & ? & ->)].
    + left; auto.
    + right. exists (y :: l1), x, l2. auto.
Qed.

Lemma update_first_map {A B} (g : A → B) (p : A → bool) f l :
  (∀ x, g (f x) = g x) → g <$> update_first p f l = g <$> l.
Proof.
  intros Hg. induction l as [|y l IH]; cbn; [done|].
  destruct (p y); cbn; by rewrite ?Hg, ?IH.
Qed.

Lemma foldl_app_one {A B} (f : B → A → B) b l x :
  foldl f b (l ++ [x]) = f (foldl f b l) x.
Proof. by rewrite foldl_app. Qed.

(** An invariant of a loop that knows what it has visited. *)
Lemma foldl_visited {A B} (P : list A → B → Prop) (f : B → A → B) l b :
  (∀ pre x post acc, l = pre ++ x :: post → P pre acc → P (pre ++ [x]) (f acc x)) →
  P [] b → P l (foldl f b l).
Proof.
  intros Hstep Hb.
  assert (∀ post pre acc, l = pre ++ post → P pre acc → P l (foldl f acc post)) as Hgen.
  { induction post as [|x post IH]; intros pre acc Hl Hp; cbn.
    - by rewrite Hl, app_nil_r.
    - apply (IH (pre ++ [x])); [by rewrite <- app_assoc|]. by eapply Hstep. }
  by apply (Hgen l []).
Qed.
