(* ===== verification/RustStr.v ===== *)
(** * The string operations of the Rust standard library the code uses

    A Rust [str] is its UTF-8 byte sequence, here a [string] whose characters
    are the bytes 0 to 255; [len] counts bytes. An operation that looks for an
    ASCII character works on the bytes, because no byte of a multi-byte
    character is ASCII. [trim] and [split_whitespace] know the encodings of
    every Unicode white-space character. *)

From Stdlib Require Export Ascii.
From stdpp Require Export pretty.
From S2P Require Import Prelude.
#[local] Open Scope Z_scope.

(** ** Bytes *)

Definition byte_of (a : ascii) : Z := Z.of_N (N_of_ascii a).

Definition is_ascii_digit (a : ascii) : bool := (48 <=? byte_of a) && (byte_of a <=? 57).
Definition is_ascii_upper (a : ascii) : bool := (65 <=? byte_of a) && (byte_of a <=? 90).
Definition is_ascii_lower (a : ascii) : bool := (97 <=? byte_of a) && (byte_of a <=? 122).
Definition is_ascii_alpha (a : ascii) : bool := is_ascii_upper a || is_ascii_lower a.
Definition is_ascii_alnum (a : ascii) : bool := is_ascii_alpha a || is_ascii_digit a.

Definition ascii_lower (a : ascii) : ascii :=
  if is_ascii_upper a then ascii_of_N (Z.to_N (byte_of a + 32)) else a.

(** White space of one, two and three bytes: U+0009 to U+000D, U+0020; U+0085,
    U+00A0; U+1680, U+2000 to U+200A, U+2028, U+2029, U+202F, U+205F, U+3000. *)
Definition is_ws1 (a : ascii) : bool :=
  let x := byte_of a in ((9 <=? x) && (x <=? 13)) || (x =? 32).
Definition is_ws2 (a b : ascii) : bool :=
  (byte_of a =? 194) && ((byte_of b =? 133) || (byte_of b =? 160)).
Definition is_ws3 (a b c : ascii) : bool :=
  let x := byte_of a in let y := byte_of b in let z := byte_of c in
  ((x =? 225) && (y =? 154) && (z =? 128)) ||
  ((x =? 226) && (y =? 128) &&
     (((128 <=? z) && (z <=? 138)) || (z =? 168) || (z =? 169) || (z =? 175))) ||
  ((x =? 226) && (y =? 129) && (z =? 159)) ||
  ((x =? 227) && (y =? 128) && (z =? 128)).

(** ** Characters and searching *)

Definition str_len (s : string) : Z := Z.of_nat (String.length s).

(** [s.chars()]: each character by its bytes; a continuation byte belongs to the
    character before it. *)
Definition is_continuation (a : ascii) : bool := (128 <=? byte_of a) && (byte_of a <? 192).

Fixpoint chars (s : string) : list string :=
  match s with
  | "" => []
  | String a s =>
      match chars s with
      | (String b _ as c) :: cs =>
          if is_continuation b then String a c :: cs else String a "" :: c :: cs
      | cs => String a "" :: cs
      end
  end.

(** [s.chars().take(n).collect::<String>()]. *)
Definition take_chars (n : nat) (s : string) : string := foldr String.app "" (take n (chars s)).

Fixpoint str_all (p : ascii → bool) (s : string) : bool :=
  match s with
  | "" => true
  | String a s => p a && str_all p s
  end.

Definition str_any (p : ascii → bool) (s : string) : bool := negb (str_all (λ a, negb (p a)) s).

(** [s.contains('c')]. *)
Definition contains_char (c : ascii) (s : string) : bool := str_any (Ascii.eqb c) s.

Definition str_is_empty (s : string) : bool :=
  match s with "" => true | _ => false end.

(** [s.starts_with(p)]. *)
Fixpoint starts_with (p s : string) : bool :=
  match p, s with
  | "", _ => true
  | String a p, String b s => Ascii.eqb a b && starts_with p s
  | String _ _, "" => false
  end.

(** [s.strip_prefix(p)]. *)
Fixpoint strip_prefix (p s : string) : option string :=
  match p, s with
  | "", _ => Some s
  | String a p, String b s => if Ascii.eqb a b then strip_prefix p s else None
  | String _ _, "" => None
  end.

(** [s.contains(p)] for a text. *)
Fixpoint str_contains (p s : string) : bool :=
  starts_with p s || match s with "" => false | String _ s => str_contains p s end.

(** [s.strip_suffix(suf)]. *)
Fixpoint strip_suffix (suf s : string) : option string :=
  if s =s suf then Some ""
  else match s with
       | "" => None
       | String a s => String a <$> strip_suffix suf s
       end.

Definition ends_with (suf s : string) : bool :=
  match strip_suffix suf s with Some _ => true | None => false end.

(** ** Splitting *)

(** [s.split_once('c')]. *)
Fixpoint split_once (c : ascii) (s : string) : option (string * string) :=
  match s with
  | "" => None
  | String a s =>
      if Ascii.eqb a c then Some ("", s)
      else '(l, r) ← split_once c s; Some (String a l, r)
  end.

(** [s.rsplit_once('c')]. *)
Fixpoint rsplit_once (c : ascii) (s : string) : option (string * string) :=
  match s with
  | "" => None
  | String a s =>
      match rsplit_once c s with
      | Some (l, r) => Some (String a l, r)
      | None => if Ascii.eqb a c then Some ("", s) else None
      end
  end.

(** [s.split(p)]: a predicate on ASCII characters. *)
Fixpoint split_by (p : ascii → bool) (s : string) : list string :=
  match s with
  | "" => [""]
  | String a s =>
      if p a then "" :: split_by p s
      else match split_by p s with
           | [] => [String a ""]
           | w :: ws => String a w :: ws
           end
  end.

Definition split_on (c : ascii) : string → list string := split_by (λ a, Ascii.eqb a c).

(** [s.rsplit(p).next()], which is always there. *)
Definition rsplit_first (p : ascii → bool) (s : string) : string :=
  List.last (split_by p s) "".

(** ** Trimming *)

Fixpoint trim_start (s : string) : string :=
  match s with
  | "" => ""
  | String a s1 =>
      if is_ws1 a then trim_start s1
      else match s1 with
           | "" => s
           | String b s2 =>
               if is_ws2 a b then trim_start s2
               else match s2 with
                    | "" => s
                    | String c s3 => if is_ws3 a b c then trim_start s3 else s
                    end
           end
  end.

(** The same on the reversed bytes: the last byte of a character comes first. *)
Fixpoint trim_start_rev (s : string) : string :=
  match s with
  | "" => ""
  | String a s1 =>
      if is_ws1 a then trim_start_rev s1
      else match s1 with
           | "" => s
           | String b s2 =>
               if is_ws2 b a then trim_start_rev s2
               else match s2 with
                    | "" => s
                    | String c s3 => if is_ws3 c b a then trim_start_rev s3 else s
                    end
           end
  end.

Definition str_rev (s : string) : string :=
  String.string_of_list_ascii (rev (String.list_ascii_of_string s)).

Definition trim_end (s : string) : string := str_rev (trim_start_rev (str_rev s)).
Definition trim (s : string) : string := trim_end (trim_start s).

Fixpoint trim_start_by (p : ascii → bool) (s : string) : string :=
  match s with
  | "" => ""
  | String a s' => if p a then trim_start_by p s' else s
  end.

(** [s.trim_end_matches(p)] for a predicate on ASCII characters. *)
Definition trim_end_by (p : ascii → bool) (s : string) : string :=
  str_rev (trim_start_by p (str_rev s)).

(** [s.trim_end_matches(suf)] for a non-empty text: every strip shortens [s],
    so its length bounds the number of strips. *)
Fixpoint trim_end_str_fuel (fuel : nat) (suf s : string) : string :=
  match fuel with
  | O => s
  | S fuel => match strip_suffix suf s with
              | Some r => trim_end_str_fuel fuel suf r
              | None => s
              end
  end.
Definition trim_end_str (suf s : string) : string :=
  trim_end_str_fuel (String.length s) suf s.

(** [s.trim_start_matches("./")]. *)
Fixpoint trim_dot_slash (s : string) : string :=
  match s with
  | String "." (String "/" s') => trim_dot_slash s'
  | _ => s
  end.

(** [s.split_whitespace()]: the maximal runs without white space. *)
Fixpoint split_ws (s : string) : list string :=
  match s with
  | "" => [""]
  | String a s1 =>
      let keep rest := match rest with
                       | [] => [String a ""]
                       | w :: ws => String a w :: ws
                       end in
      if is_ws1 a then "" :: split_ws s1
      else match s1 with
           | String b s2 =>
               if is_ws2 a b then "" :: split_ws s2
               else match s2 with
                    | String c s3 =>
                        if is_ws3 a b c then "" :: split_ws s3 else keep (split_ws s1)
                    | "" => keep (split_ws s1)
                    end
           | "" => keep (split_ws s1)
           end
  end.

Definition split_whitespace (s : string) : list string :=
  List.filter (λ w, negb (str_is_empty w)) (split_ws s).

(** ** Case, replacement, numbers *)

Fixpoint str_map (f : ascii → ascii) (s : string) : string :=
  match s with
  | "" => ""
  | String a s => String (f a) (str_map f s)
  end.

Definition to_ascii_lowercase : string → string := str_map ascii_lower.
Definition eq_ignore_ascii_case (a b : string) : bool :=
  to_ascii_lowercase a =s to_ascii_lowercase b.

(** [s.replace('a', "b")] for one ASCII character by another. *)
Definition replace_char (x y : ascii) : string → string :=
  str_map (λ a, if Ascii.eqb a x then y else a).

Fixpoint digits_value (acc : Z) (s : string) : option Z :=
  match s with
  | "" => Some acc
  | String a s =>
      if is_ascii_digit a then digits_value (acc * 10 + (byte_of a - 48)) s else None
  end.

(** [s.parse::<uN>()] with the type's maximum: an optional plus sign, at least
    one digit, no overflow. *)
Definition parse_unsigned (max : Z) (s : string) : option Z :=
  let digits := match s with String "+" r => r | _ => s end in
  if str_is_empty digits then None
  else n ← digits_value 0 digits; if n <=? max then Some n else None.

Definition parse_u32 : string → option Z := parse_unsigned u32_max.
Definition parse_u64 : string → option Z := parse_unsigned u64_max.

(** ** UTF-8 *)

Definition byte_in (lo hi : Z) (a : ascii) : bool := (lo <=? byte_of a) && (byte_of a <=? hi).

(** For a leading byte, the ranges its continuation bytes must be in. *)
Definition continuation_ranges (a : ascii) : option (list (Z * Z)) :=
  let b := byte_of a in
  if b <? 128 then Some []
  else if b <? 194 then None
  else if b <? 224 then Some [(128, 191)]
  else if b =? 224 then Some [(160, 191); (128, 191)]
  else if b =? 237 then Some [(128, 159); (128, 191)]
  else if b <? 240 then Some [(128, 191); (128, 191)]
  else if b =? 240 then Some [(144, 191); (128, 191); (128, 191)]
  else if b <? 244 then Some [(128, 191); (128, 191); (128, 191)]
  else if b =? 244 then Some [(128, 143); (128, 191); (128, 191)]
  else None.

(** [std::str::from_utf8] succeeds: [due] are the ranges of the continuation bytes
    still to come. *)
Fixpoint utf8_from (due : list (Z * Z)) (s : string) : bool :=
  match s, due with
  | "", [] => true
  | "", _ :: _ => false
  | String a s, (lo, hi) :: due => byte_in lo hi a && utf8_from due s
  | String a s, [] =>
      match continuation_ranges a with
      | Some due => utf8_from due s
      | None => false
      end
  end.

Definition is_utf8 (s : string) : bool := utf8_from [] s.

(** ** Pieces of a text by byte offset *)

Fixpoint str_take (n : nat) (s : string) : string :=
  match n, s with
  | S n, String a s => String a (str_take n s)
  | _, _ => ""
  end.

Fixpoint str_drop (n : nat) (s : string) : string :=
  match n, s with
  | S n, String _ s => str_drop n s
  | _, _ => s
  end.

(** [s.replace_range(start..end, new)]. *)
Definition replace_range (s : string) (start end_ : nat) (new : string) : string :=
  str_take start s +:+ new +:+ str_drop end_ s.

(** ** Occurrences of a pattern that is not empty

    From the left and without overlaps: [skip] bytes still belong to the last
    occurrence. *)
Fixpoint match_from (pos skip : nat) (pat s : string) : list nat :=
  match s with
  | "" => []
  | String _ s' =>
      match skip with
      | S skip => match_from (S pos) skip pat s'
      | O =>
          if starts_with pat s then
            pos :: match_from (S pos) (String.length pat - 1) pat s'
          else match_from (S pos) 0 pat s'
      end
  end.

(** The offsets of [s.match_indices(pat)]; [s.matches(pat).count()] is its length. *)
Definition match_indices (pat s : string) : list nat := match_from 0 0 pat s.

(** [s.replace(pat, to)]. *)
Fixpoint replace_from (skip : nat) (pat to s : string) : string :=
  match s with
  | "" => ""
  | String a s' =>
      match skip with
      | S skip => replace_from skip pat to s'
      | O =>
          if starts_with pat s then to +:+ replace_from (String.length pat - 1) pat to s'
          else String a (replace_from 0 pat to s')
      end
  end.
Definition replace_str (pat to s : string) : string := replace_from 0 pat to s.

(** ** Lines *)

Definition NL : ascii := "010".
Definition CR : ascii := "013".

(** [s.split_inclusive('\n')]. *)
Fixpoint split_inclusive (s : string) : list string :=
  match s with
  | "" => []
  | String a s =>
      if Ascii.eqb a NL then String a "" :: split_inclusive s
      else match split_inclusive s with
           | l :: ls => String a l :: ls
           | [] => [String a ""]
           end
  end.

(** [str::lines]: a line ends with a newline, or a carriage return and a newline;
    what is after the last newline is a line when it is not empty. *)
Fixpoint lines_of (pieces : list string) : list string :=
  match pieces with
  | [] => []
  | [last] => if str_is_empty last then [] else [last]
  | line :: pieces => default line (strip_suffix (String CR "") line) :: lines_of pieces
  end.
Definition lines (s : string) : list string := lines_of (split_on NL s).

(** ** Lemmas *)

Lemma split_once_some c s l r :
  split_once c s = Some (l, r) → s = l +:+ String c r ∧ contains_char c l = false.
Proof.
  revert l; induction s as [|a s IH]; intros l; cbn; [done|].
  destruct (Ascii.eqb_spec a c) as [->|Hne]; intros H; simplify_eq; [done|].
  destruct (split_once c s) as [[l' r']|] eqn:E; simplify_eq/=.
  destruct (IH l' eq_refl) as [-> Hc]. split; [done|].
  unfold contains_char, str_any in *. cbn.
  destruct (Ascii.eqb_spec c a); [congruence|done].
Qed.

Lemma split_once_none c s : split_once c s = None ↔ contains_char c s = false.
Proof.
  unfold contains_char, str_any. induction s as [|a s IH]; cbn; [done|].
  destruct (Ascii.eqb_spec a c) as [->|Hne].
  - rewrite Ascii.eqb_refl. done.
  - destruct (Ascii.eqb_spec c a); [congruence|]. cbn. rewrite <- IH.
    destruct (split_once c s) as [[]|]; done.
Qed.

Lemma split_by_nonempty p s : split_by p s ≠ [].
Proof.
  destruct s as [|a s]; cbn; [done|]. destruct (p a); [done|].
  by destruct (split_by p s).
Qed.

Lemma split_on_join c s : join (String c "") (split_on c s) = s.
Proof.
  unfold split_on. induction s as [|a s IH]; cbn; [done|].
  pose proof (split_by_nonempty (λ a, Ascii.eqb a c) s) as Hne.
  destruct (Ascii.eqb_spec a c) as [->|].
  - destruct (split_by _ s) eqn:E; [done|]. cbn in *. by rewrite IH.
  - destruct (split_by _ s) as [|w [|w' ws]] eqn:E; [done|..]; exact (f_equal (String a) IH).
Qed.

Lemma starts_with_app p s : starts_with p (p +:+ s) = true.
Proof.
  induction p as [|a p IH]; [done|].
  change (Ascii.eqb a a && starts_with p (p +:+ s) = true)%bool.
  by rewrite Ascii.eqb_refl, IH.
Qed.

Lemma starts_with_true p s : starts_with p s = true ↔ ∃ r, s = p +:+ r.
Proof.
  split; [|intros [r ->]; apply starts_with_app].
  revert s; induction p as [|a p IH]; intros s; cbn; [eauto|].
  destruct s as [|b s]; [done|]. intros [->%Ascii.eqb_eq H]%andb_true_iff.
  destruct (IH _ H) as [r ->]. by exists r.
Qed.

Lemma strip_suffix_some suf s r : strip_suffix suf s = Some r → s = r +:+ suf.
Proof.
  revert r; induction s as [|a s IH]; intros r; cbn.
  - destruct suf; cbn; intros; by simplify_eq.
  - destruct suf as [|b suf].
    + destruct (strip_suffix "" s) as [r'|]; intros; simplify_eq/=. by rewrite (IH r').
    + destruct (Ascii.eqb_spec a b) as [->|]; [destruct (String.eqb_spec s suf) as [->|]|];
        intros H; simplify_eq/=; [done|..];
        destruct (strip_suffix (String b suf) s) as [r'|]; simplify_eq/=; by rewrite (IH r').
Qed.

Lemma parse_unsigned_range m s n : parse_unsigned m s = Some n → n ≤ m.
Proof.
  unfold parse_unsigned. destruct (str_is_empty _); [done|].
  destruct (digits_value _ _); cbn; [|done].
  destruct (Z.leb_spec z m); intros; by simplify_eq.
Qed.

Lemma digits_value_nonneg acc s n : 0 ≤ acc → digits_value acc s = Some n → 0 ≤ n.
Proof.
  revert acc; induction s as [|a s IH]; cbn; intros acc Hacc H; [by simplify_eq|].
  destruct (is_ascii_digit a) eqn:E; [|done].
  eapply IH; [|exact H]. unfold is_ascii_digit in E. bool_to_prop. lia.
Qed.

Lemma parse_unsigned_in m s n : parse_unsigned m s = Some n → 0 ≤ n ≤ m.
Proof.
  intros H. split; [|by eapply parse_unsigned_range].
  unfold parse_unsigned in H. destruct (str_is_empty _); [done|].
  destruct (digits_value 0 _) eqn:E; cbn in H; [|done].
  destruct (z <=? m); simplify_eq. by eapply digits_value_nonneg in E.
Qed.

Example parse_u32_cases :
  parse_u32 "59" = Some 59 ∧ parse_u32 "+007" = Some 7 ∧ parse_u32 "4294967296" = None ∧
  parse_u32 "" = None ∧ parse_u32 "+" = None ∧ parse_u32 "-1" = None.
Proof. by vm_compute. Qed.

Example trim_cases :
  trim "  a b	" = "a b" ∧ split_whitespace " 5  4 * " = ["5"; "4"; "*"] ∧ trim "" = "".
Proof. by vm_compute. Qed.

(** A string holding an ordinary ASCII character is not blank. *)
Definition is_plain (a : ascii) : bool := (33 <=? byte_of a) && (byte_of a <=? 126).

Lemma plain_no_ws a b c :
  is_plain a = true →
  is_ws1 a = false ∧ is_ws2 a b = false ∧ is_ws2 b a = false ∧
  is_ws3 a b c = false ∧ is_ws3 b a c = false ∧ is_ws3 b c a = false.
Proof.
  unfold is_plain, is_ws1, is_ws2, is_ws3. intros H. bool_to_prop.
  repeat match goal with
  | |- context [byte_of a =? ?k] =>
      replace (byte_of a =? k) with false by (symmetry; apply Z.eqb_neq; lia)
  | |- context [9 <=? byte_of a] => replace (byte_of a <=? 13) with false by
      (symmetry; apply Z.leb_gt; lia); rewrite (andb_false_r (9 <=? byte_of a))
  | |- context [128 <=? byte_of a] =>
      replace (128 <=? byte_of a) with false by (symmetry; apply Z.leb_gt; lia)
  end.
  repeat (rewrite ?andb_false_r, ?andb_false_l, ?orb_false_r; cbn). split_and!; reflexivity.
Qed.

Fixpoint str_last (s : string) : option ascii :=
  match s with
  | "" => None
  | String a "" => Some a
  | String _ s => str_last s
  end.

Lemma trim_start_rev_last s a :
  str_last s = Some a → is_plain a = true → trim_start_rev s ≠ "".
Proof.
  intros Hl Hp. remember (String.length s) as n eqn:En. revert s En Hl.
  induction n as [n IH] using lt_wf_ind; intros s -> Hl.
  destruct s as [|x [|y [|z s]]]; cbn in *.
  - done.
  - simplify_eq. by destruct (plain_no_ws a a a Hp) as (-> & _).
  - simplify_eq. destruct (plain_no_ws a x x Hp) as (E1 & E2 & E3 & _).
    rewrite E1, E2. by destruct (is_ws1 x).
  - destruct (is_ws1 x) eqn:E1.
    { apply (IH (S (S (String.length s)))%nat ltac:(lia) (String y (String z s))); done. }
    destruct (is_ws2 y x) eqn:E2.
    { apply (IH (S (String.length s)) ltac:(lia) (String z s)); done. }
    destruct (is_ws3 z y x) eqn:E3; [|done].
    destruct s as [|w s].
    { simplify_eq. destruct (plain_no_ws a y x Hp) as (_ & _ & _ & E & _). congruence. }
    apply (IH (String.length (String w s)) ltac:(cbn; lia) (String w s)); done.
Qed.

Lemma str_last_app s a : str_last (s +:+ String a "") = Some a.
Proof. induction s as [|b s IH]; [done|]. cbn. destruct s; [done|exact IH]. Qed.

Lemma list_ascii_app s t :
  String.string_of_list_ascii (s ++ t) =
  String.string_of_list_ascii s +:+ String.string_of_list_ascii t.
Proof. induction s as [|a s IH]; [done|]. cbn. by rewrite IH. Qed.

Lemma str_rev_empty s : str_rev s = "" → s = "".
Proof.
  destruct s as [|a s]; [done|]. unfold str_rev. cbn. rewrite list_ascii_app. intros H.
  assert (str_last (String.string_of_list_ascii (rev (String.list_ascii_of_string s))
            +:+ String a "") = Some a) as Hx by apply str_last_app.
  cbn in H. rewrite H in Hx. done.
Qed.

Lemma trim_plain_head a s : is_plain a = true → str_is_empty (trim (String a s)) = false.
Proof.
  intros Hp. unfold trim.
  assert (trim_start (String a s) = String a s) as ->.
  { cbn. destruct s as [|b [|c s]].
    - by destruct (plain_no_ws a a a Hp) as (-> & _).
    - by destruct (plain_no_ws a b b Hp) as (-> & -> & _).
    - by destruct (plain_no_ws a b c Hp) as (-> & -> & _ & -> & _). }
  unfold trim_end. destruct (str_rev (trim_start_rev (str_rev (String a s)))) eqn:E; [|done].
  apply str_rev_empty in E. exfalso. eapply trim_start_rev_last; [|exact Hp|exact E].
  unfold str_rev. cbn. rewrite list_ascii_app. apply str_last_app.
Qed.

Lemma str_app_cons a s t : String a s +:+ t = String a (s +:+ t).
Proof. done. Qed.

Lemma list_ascii_of_app s t :
  String.list_ascii_of_string (s +:+ t) =
  String.list_ascii_of_string s ++ String.list_ascii_of_string t.
Proof. induction s as [|a s IH]; [done|]. rewrite str_app_cons. cbn. by rewrite IH. Qed.

Lemma str_rev_app s t : str_rev (s +:+ t) = str_rev t +:+ str_rev s.
Proof. unfold str_rev. by rewrite list_ascii_of_app, rev_app_distr, list_ascii_app. Qed.

Lemma str_rev_involutive s : str_rev (str_rev s) = s.
Proof.
  unfold str_rev. rewrite String.list_ascii_of_string_of_list_ascii, rev_involutive.
  apply String.string_of_list_ascii_of_string.
Qed.

Lemma trim_end_plain s a : is_plain a = true → trim_end (s +:+ String a "") = s +:+ String a "".
Proof.
  intros Hp. unfold trim_end. rewrite <- (str_rev_involutive (s +:+ String a "")) at 2. f_equal.
  rewrite str_rev_app. change (str_rev (String a "")) with (String a ""). rewrite str_app_cons.
  change ("" +:+ str_rev s) with (str_rev s). cbn.
  destruct (str_rev s) as [|b [|c r]].
  - by destruct (plain_no_ws a a a Hp) as (-> & _).
  - by destruct (plain_no_ws a b b Hp) as (-> & _ & -> & _).
  - by destruct (plain_no_ws a b c Hp) as (-> & _ & -> & _ & _ & _);
      destruct (plain_no_ws a c b Hp) as (_ & _ & _ & _ & _ & ->).
Qed.

Lemma str_app_assoc s t u : (s +:+ t) +:+ u = s +:+ (t +:+ u).
Proof. induction s as [|a s IH]; [done|]. by rewrite !str_app_cons, IH. Qed.

Lemma strip_prefix_iff p s r : strip_prefix p s = Some r ↔ s = p +:+ r.
Proof.
  revert s; induction p as [|a p IH]; intros s; cbn.
  - split; [by intros [= <-]|]. by intros ->.
  - destruct s as [|b s]; [split; [done|by rewrite str_app_cons]|].
    rewrite str_app_cons. destruct (Ascii.eqb_spec a b) as [->|Hne].
    + rewrite IH. split; [by intros ->|by intros [= ->]].
    + split; [done|congruence].
Qed.

Lemma ends_with_iff suf s : ends_with suf s = true ↔ ∃ r, s = r +:+ suf.
Proof.
  unfold ends_with. split.
  - destruct (strip_suffix suf s) as [r|] eqn:E; [|done]. intros _. exists r.
    by apply strip_suffix_some.
  - intros [r ->]. induction r as [|a r IH].
    + change ("" +:+ suf) with suf. destruct suf as [|b suf]; [done|]. cbn.
      by rewrite Ascii.eqb_refl, String.eqb_refl.
    + rewrite str_app_cons. cbn. destruct suf as [|b suf].
      * by destruct (strip_suffix "" (r +:+ "")).
      * destruct (Ascii.eqb a b), (r +:+ String b suf =s suf); try done;
          by destruct (strip_suffix (String b suf) (r +:+ String b suf)).
Qed.

Lemma str_app_inv_r r1 r2 s : r1 +:+ s = r2 +:+ s → r1 = r2.
Proof.
  intros H. apply (f_equal String.list_ascii_of_string) in H. rewrite !list_ascii_of_app in H.
  apply app_inv_tail, (f_equal String.string_of_list_ascii) in H.
  by rewrite !String.string_of_list_ascii_of_string in H.
Qed.

Lemma strip_suffix_iff suf s r : strip_suffix suf s = Some r ↔ s = r +:+ suf.
Proof.
  split; [apply strip_suffix_some|]. intros ->.
  assert (ends_with suf (r +:+ suf) = true) as He by (apply ends_with_iff; eauto).
  unfold ends_with in He. destruct (strip_suffix suf (r +:+ suf)) as [r'|] eqn:E; [|done].
  apply strip_suffix_some, str_app_inv_r in E. by rewrite E.
Qed.

Lemma str_app_nil_r s : s +:+ "" = s.
Proof. induction s as [|a s IH]; [done|]. by rewrite !str_app_cons, IH. Qed.

(** Two texts with the same last character end alike. *)
Lemma ends_with_last suf s a b :
  str_last suf = Some b → str_last s = Some a → ends_with suf s = true → a = b.
Proof.
  unfold ends_with. intros Hb Ha. destruct (strip_suffix suf s) as [r|] eqn:E; [|done].
  intros _. apply strip_suffix_some in E as ->.
  assert (Hl : str_last (r +:+ suf) = str_last suf); [|congruence].
  clear Ha. induction r as [|c r IH]; [done|]. rewrite str_app_cons. cbn. rewrite IH.
  destruct (r +:+ suf) eqn:Er; [|done].
  destruct r; [|done]. change ("" +:+ suf) with suf in Er. by subst.
Qed.

Lemma str_all_app p s t : str_all p (s +:+ t) = str_all p s && str_all p t.
Proof.
  induction s as [|a s IH]; [done|]. rewrite str_app_cons. cbn. by rewrite IH, andb_assoc.
Qed.

Lemma contains_char_app c s t : contains_char c (s +:+ t) = contains_char c s || contains_char c t.
Proof. unfold contains_char, str_any. by rewrite str_all_app, negb_andb. Qed.

Lemma split_once_app c l r : contains_char c l = false → split_once c (l +:+ String c r) = Some (l, r).
Proof.
  unfold contains_char, str_any. induction l as [|a l IH].
  - intros _. change ("" +:+ String c r) with (String c r). cbn. by rewrite Ascii.eqb_refl.
  - rewrite str_app_cons. cbn. rewrite negb_andb, negb_involutive, Ascii.eqb_sym. intros [-> Hl]%orb_false_iff. by rewrite IH.
Qed.

(** ** Decimal text

    The text of a number is its digits, and parses back to it. *)

Lemma pretty_char_digit d : (d < 10)%N →
  is_ascii_digit (pretty_N_char d) = true ∧ byte_of (pretty_N_char d) - 48 = Z.of_N d.
Proof.
  intros Hd. assert (d ∈ [0; 1; 2; 3; 4; 5; 6; 7; 8; 9]%N) as Hin
    by (rewrite !elem_of_cons; lia).
  repeat (apply elem_of_cons in Hin as [->|Hin]; [done|]). by apply elem_of_nil in Hin.
Qed.

Lemma pretty_go_value x s : digits_value 0 (pretty_N_go x s) = digits_value (Z.of_N x) s.
Proof.
  revert s. induction (N.lt_wf_0 x) as [x _ IH]; intros s.
  destruct (decide (x = 0)%N) as [->|Hx]; [by rewrite pretty_N_go_0|].
  rewrite pretty_N_go_step by lia. rewrite IH by (apply N.div_lt; lia). cbn [digits_value].
  destruct (pretty_char_digit (x mod 10)%N) as [-> ->]; [apply N.mod_lt; lia|].
  f_equal. rewrite N2Z.inj_div, N2Z.inj_mod. pose proof (Z.div_mod (Z.of_N x) 10 ltac:(lia)). lia.
Qed.

Lemma pretty_go_digits x s :
  str_all is_ascii_digit s = true → str_all is_ascii_digit (pretty_N_go x s) = true.
Proof.
  revert s. induction (N.lt_wf_0 x) as [x _ IH]; intros s Hs.
  destruct (decide (x = 0)%N) as [->|Hx]; [by rewrite pretty_N_go_0|].
  rewrite pretty_N_go_step by lia. apply IH; [apply N.div_lt; lia|]. cbn.
  destruct (pretty_char_digit (x mod 10)%N) as [-> _]; [apply N.mod_lt; lia|done].
Qed.

Lemma pretty_go_nonempty x s : (0 < x)%N → ∃ a t, pretty_N_go x s = String a t.
Proof.
  revert s. induction (N.lt_wf_0 x) as [x _ IH]; intros s Hx. rewrite pretty_N_go_step by done.
  destruct (decide (x / 10 = 0)%N) as [E|Hne].
  - rewrite E, pretty_N_go_0. eauto.
  - apply IH; [apply N.div_lt; lia|by apply N.neq_0_lt_0].
Qed.

Lemma pretty_digits n : 0 ≤ n → str_all is_ascii_digit (pretty n) = true.
Proof.
  destruct n as [|p|p]; intros Hn; [done| |lia].
  change (pretty (Z.pos p)) with (pretty_N_go (N.pos p) ""). by apply pretty_go_digits.
Qed.

Lemma digits_no_char c s :
  is_ascii_digit c = false → str_all is_ascii_digit s = true → contains_char c s = false.
Proof.
  intros Hc. unfold contains_char, str_any. induction s as [|a s IH]; cbn; [done|].
  intros [Ha Hs]%andb_true_iff. specialize (IH Hs). rewrite negb_andb, negb_involutive, IH, orb_false_r.
  destruct (Ascii.eqb_spec c a) as [->|]; [congruence|done].
Qed.

Lemma parse_pretty m n : 0 ≤ n ≤ m → parse_unsigned m (pretty n) = Some n.
Proof.
  intros Hn. assert (Hm : ∀ k, k ≤ m → (if k <=? m then Some k else None) = Some k).
  { intros k Hk. by rewrite (proj2 (Z.leb_le k m) Hk). }
  destruct n as [|p|p]; [apply (Hm 0); lia| |lia].
  pose proof (pretty_digits (Z.pos p) ltac:(lia)) as Hd.
  assert (Hv : digits_value 0 (pretty (Z.pos p)) = Some (Z.pos p))
    by apply (pretty_go_value (N.pos p) "").
  destruct (pretty_go_nonempty (N.pos p) "") as (a & t & Ht); [lia|].
  change (pretty_N_go (N.pos p) "") with (pretty (Z.pos p)) in Ht. rewrite Ht in *.
  assert (Hplus : match a with "+"%char => t | _ => String a t end = String a t).
  { cbn in Hd. apply andb_true_iff in Hd as [Ha _].
    destruct a as [[] [] [] [] [] [] [] []]; try reflexivity; discriminate Ha. }
  unfold parse_unsigned. cbv zeta.
  rewrite Hplus. cbn [str_is_empty]. rewrite Hv. apply Hm. lia.
Qed.

(** ** Clauses: a list of texts joined by a separator *)

Lemma trim_start_head a s : is_plain a = true → trim_start (String a s) = String a s.
Proof.
  intros Hp. cbn. destruct s as [|b [|c s]].
  - by destruct (plain_no_ws a a a Hp) as (-> & _).
  - by destruct (plain_no_ws a b b Hp) as (-> & -> & _).
  - by destruct (plain_no_ws a b c Hp) as (-> & -> & _ & -> & _).
Qed.

Lemma str_snoc s : s = "" ∨ ∃ t a, s = t +:+ String a "".
Proof.
  induction s as [|b s IH]; [by left|]. right. destruct IH as [->|(t & a & ->)].
  - by exists "", b.
  - by exists (String b t), a.
Qed.

Lemma trim_plain s : str_all is_plain s = true → trim s = s.
Proof.
  intros Hs. unfold trim. destruct (str_snoc s) as [->|(t & a & ->)]; [done|].
  assert (Ha : is_plain a = true).
  { rewrite str_all_app in Hs. cbn in Hs. bool_to_prop. done. }
  replace (trim_start (t +:+ String a "")) with (t +:+ String a ""); [by apply trim_end_plain|].
  destruct t as [|b t]; symmetry; [by apply trim_start_head|].
  rewrite str_app_cons in *. cbn in Hs. bool_to_prop. by apply trim_start_head.
Qed.

Lemma digits_plain s : str_all is_ascii_digit s = true → str_all is_plain s = true.
Proof.
  induction s as [|a s IH]; cbn; [done|]. intros [Ha Hs]%andb_true_iff. rewrite (IH Hs), andb_true_r.
  unfold is_plain, is_ascii_digit in *. bool_to_prop. apply andb_true_iff. split; apply Z.leb_le; lia.
Qed.

Lemma split_by_cons_app p s t :
  str_all (λ a, negb (p a)) s = true →
  split_by p (s +:+ t) =
  match split_by p t with [] => [s] | w :: ws => (s +:+ w) :: ws end.
Proof.
  intros Hs. pose proof (split_by_nonempty p t). destruct (split_by p t) as [|w ws] eqn:E; [done|].
  induction s as [|a s IH]; [done|]. rewrite !str_app_cons. cbn in *. bool_to_prop.
  rewrite H0. by rewrite IH.
Qed.

Lemma split_on_join_inv c l :
  l ≠ [] → Forall (λ s, contains_char c s = false) l → split_on c (join (String c "") l) = l.
Proof.
  intros Hne Hl. unfold split_on. induction Hl as [|s l Hs Hl IH]; [done|].
  assert (Hall : str_all (λ a, negb (Ascii.eqb a c)) s = true).
  { clear -Hs. unfold contains_char, str_any in Hs. apply negb_false_iff in Hs.
    induction s as [|a s IHs]; [done|]. cbn in *. bool_to_prop.
    rewrite Ascii.eqb_sym, H. by rewrite IHs. }
  destruct l as [|x l].
  - cbn [join]. rewrite <- (str_app_nil_r s) at 1. rewrite split_by_cons_app by done. cbn.
    by rewrite str_app_nil_r.
  - change (join (String c "") (s :: x :: l)) with (s +:+ String c (join (String c "") (x :: l))).
    rewrite split_by_cons_app by done. cbn [split_by]. rewrite Ascii.eqb_refl, str_app_nil_r.
    by rewrite IH.
Qed.

(** [s.parse::<i64>()]. *)
Definition parse_i64 (s : string) : option Z :=
  match s with
  | String "-" r =>
      if str_is_empty r then None
      else n ← digits_value 0 r; if n <=? - i64_min then Some (- n) else None
  | _ => parse_unsigned i64_max s
  end.

Lemma parse_i64_digit a s : is_ascii_digit a = true → parse_i64 (String a s) = parse_unsigned i64_max (String a s).
Proof.
  intros Ha. destruct a as [[] [] [] [] [] [] [] []]; try reflexivity; discriminate Ha.
Qed.

Lemma parse_i64_pretty n : in_i64 n → parse_i64 (pretty n) = Some n.
Proof.
  unfold in_i64, i64_min. intros Hn. destruct (decide (0 ≤ n)) as [Hp|Hp].
  - pose proof (parse_pretty i64_max n ltac:(lia)) as Hpp. pose proof (pretty_digits n Hp) as Hd.
    destruct (pretty n) as [|a s]; [done|]. cbn in Hd. apply andb_true_iff in Hd as [Ha _].
    by rewrite parse_i64_digit.
  - destruct n as [|p|p]; [lia..|].
    change (pretty (Z.neg p)) with (String "-" (pretty_N_go (N.pos p) "")). cbn [parse_i64].
    destruct (pretty_go_nonempty (N.pos p) "") as (a & t & Ht); [lia|].
    pose proof (pretty_go_value (N.pos p) "") as Hv. rewrite Ht in *. cbn [str_is_empty].
    rewrite Hv. cbn [digits_value mbind option_bind].
    destruct (Z.leb_spec (Z.of_N (N.pos p)) (- i64_min)); [done|]. unfold i64_min in *. lia.
Qed.

(** The text of a signed number: a sign and digits. *)
Definition is_signed_digit (a : ascii) : bool := is_ascii_digit a || Ascii.eqb a "-".

Lemma pretty_signed (n : Z) : str_all is_signed_digit (pretty n) = true.
Proof.
  assert (∀ s, str_all is_ascii_digit s = true → str_all is_signed_digit s = true) as Hs.
  { unfold is_signed_digit. induction s as [|a s IH]; cbn; [done|].
    intros [-> H]%andb_true_iff. by rewrite IH. }
  destruct n as [|p|p]; [done|apply Hs, pretty_digits; lia|].
  change (pretty (Z.neg p)) with (String "-" (pretty_N_go (N.pos p) "")). cbn.
  by apply Hs, pretty_go_digits.
Qed.

Lemma str_all_impl (p q : ascii → bool) s :
  (∀ a, p a = true → q a = true) → str_all p s = true → str_all q s = true.
Proof.
  intros H. induction s as [|a s IH]; cbn; [done|]. rewrite !andb_true_iff. intros [? ?]. auto.
Qed.

Lemma str_all_no_char (p : ascii → bool) c s :
  p c = false → str_all p s = true → contains_char c s = false.
Proof.
  intros Hc. unfold contains_char, str_any. induction s as [|a s IH]; cbn; [done|].
  intros [Ha Hs]%andb_true_iff. specialize (IH Hs). rewrite negb_andb, negb_involutive, IH, orb_false_r.
  destruct (Ascii.eqb_spec c a) as [->|]; [congruence|done].
Qed.

Lemma pretty_inj (n m : Z) : pretty n = pretty m → n = m.
Proof. apply (inj pretty). Qed.

(** *** Pieces and occurrences *)

Lemma str_take_drop n s : str_take n s +:+ str_drop n s = s.
Proof.
  revert n; induction s as [|a s IH]; intros [|n]; try done.
  exact (f_equal (String a) (IH n)).
Qed.

Lemma str_take_length n s : String.length (str_take n s) = Nat.min n (String.length s).
Proof. revert n; induction s as [|a s IH]; intros [|n]; cbn; [done..|]. by rewrite IH. Qed.

Lemma str_length_app s t : String.length (s +:+ t) = (String.length s + String.length t)%nat.
Proof. induction s as [|a s IH]; [done|]. exact (f_equal S IH). Qed.

Lemma str_drop_app n s t :
  (n ≤ String.length s)%nat → str_drop n (s +:+ t) = str_drop n s +:+ t.
Proof.
  revert n; induction s as [|a s IH]; intros [|n] Hn; cbn in *; try done; [lia|]. apply IH. lia.
Qed.

Lemma str_take_app n s t :
  (n ≤ String.length s)%nat → str_take n (s +:+ t) = str_take n s.
Proof.
  revert n; induction s as [|a s IH]; intros [|n] Hn; try done; [cbn in Hn; lia|].
  rewrite str_app_cons. cbn. f_equal. apply IH. cbn in Hn. lia.
Qed.

Lemma str_drop_app_length s t : str_drop (String.length s) (s +:+ t) = t.
Proof. induction s as [|a s IH]; [by destruct t|]. exact IH. Qed.

Lemma str_take_app_length s t : str_take (String.length s) (s +:+ t) = s.
Proof. induction s as [|a s IH]; [by destruct t|]. exact (f_equal (String a) IH). Qed.

Lemma str_drop_drop n m s : str_drop n (str_drop m s) = str_drop (m + n) s.
Proof. revert m; induction s as [|a s IH]; intros [|m]; try done; [by destruct n|]. apply IH. Qed.

Lemma match_from_sound pat s : ∀ pos skip i,
  i ∈ match_from pos skip pat s →
  ∃ j, i = (pos + j)%nat ∧ (skip ≤ j)%nat ∧ starts_with pat (str_drop j s) = true.
Proof.
  induction s as [|a s IH]; intros pos skip i; [by intros ?%not_elem_of_nil|].
  cbn [match_from]. destruct skip as [|skip].
  - destruct (starts_with pat (String a s)) eqn:E.
    + intros [->|Hi]%elem_of_cons; [exists 0%nat; split_and!; [lia|lia|exact E]|].
      apply IH in Hi as (j & -> & ? & ?). exists (S j). split_and!; [lia|lia|done].
    + intros (j & -> & ? & ?)%IH. exists (S j). split_and!; [lia|lia|done].
  - intros (j & -> & ? & ?)%IH. exists (S j). split_and!; [lia|lia|done].
Qed.

(** An occurrence the search does not report overlaps one that starts before it. *)
Lemma match_from_complete pat s : pat ≠ "" → ∀ pos skip j,
  (skip ≤ j)%nat → starts_with pat (str_drop j s) = true →
  ∃ k, (pos + k)%nat ∈ match_from pos skip pat s ∧ (k ≤ j < k + String.length pat)%nat.
Proof.
  intros Hp. assert (0 < String.length pat)%nat as Hlen by (destruct pat; [done|cbn; lia]).
  induction s as [|a s IH]; intros pos skip j Hj Hs.
  { by destruct pat, j. }
  cbn [match_from]. destruct skip as [|skip].
  2: { destruct j as [|j]; [lia|]. destruct (IH (S pos) skip j ltac:(lia) Hs) as (k & Hk & ?).
       exists (S k). replace (pos + S k)%nat with (S pos + k)%nat by lia. split; [done|lia]. }
  destruct (starts_with pat (String a s)) eqn:E.
  - destruct (decide (j < String.length pat)%nat) as [Hl|Hl].
    { exists 0%nat. rewrite Nat.add_0_r. split; [by left|lia]. }
    destruct j as [|j]; [lia|].
    destruct (IH (S pos) (String.length pat - 1)%nat j ltac:(lia) Hs) as (k & Hk & ?).
    exists (S k). replace (pos + S k)%nat with (S pos + k)%nat by lia. split; [by right|lia].
  - destruct j as [|j]; [cbn [str_drop] in Hs; congruence|].
    destruct (IH (S pos) 0%nat j ltac:(lia) Hs) as (k & Hk & ?).
    exists (S k). replace (pos + S k)%nat with (S pos + k)%nat by lia. split; [done|lia].
Qed.

Lemma split_inclusive_concat s : foldr String.app "" (split_inclusive s) = s.
Proof.
  induction s as [|a s IH]; [done|]. cbn. destruct (Ascii.eqb a NL).
  - cbn. by rewrite IH.
  - destruct (split_inclusive s) as [|l ls]; cbn in *; [by rewrite <- IH|].
    exact (f_equal (String a) IH).
Qed.

(** *** Valid UTF-8 *)

Lemma continuation_ranges_in a due : continuation_ranges a = Some due →
  byte_of a < 245 ∧ Forall (λ r, 128 ≤ r.1 ∧ r.2 ≤ 191) due ∧ (due = [] → byte_of a < 128).
Proof.
  unfold continuation_ranges. cbv zeta.
  repeat match goal with |- context [if ?b then _ else _] => destruct b eqn:?; bool_to_prop end;
    intros [= <-]; (split_and!; [lia|repeat (constructor; [cbn; lia|]); constructor|done || lia]).
Qed.

(** The byte 255 is in no text. *)
Lemma utf8_no_ff s : ∀ due, Forall (λ r, 128 ≤ r.1 ∧ r.2 ≤ 191) due → utf8_from due s = true →
  contains_char "255" s = false.
Proof.
  unfold contains_char, str_any. induction s as [|a s IH]; intros due Hd Hu; [done|].
  assert (byte_of a < 255 ∧ ∃ due', Forall (λ r, 128 ≤ r.1 ∧ r.2 ≤ 191) due' ∧ utf8_from due' s = true)
    as (Ha & due' & Hd' & Hu').
  { destruct due as [|[lo hi] due]; cbn in Hu.
    - destruct (continuation_ranges a) as [due|] eqn:E; [|done].
      apply continuation_ranges_in in E as (Hb & Hr & _). split; [lia|eauto].
    - apply andb_true_iff in Hu as [Hb Hu]. unfold byte_in in Hb. bool_to_prop.
      inversion Hd; subst. cbn in *. split; [lia|eauto]. }
  cbn [str_all]. destruct (Ascii.eqb_spec "255" a) as [<-|_]; [by vm_compute in Ha|]. by eapply IH.
Qed.

Lemma chars_concat s : foldr String.app "" (chars s) = s.
Proof.
  induction s as [|a s IH]; [done|]. cbn [chars]. rewrite <- IH at 2.
  destruct (chars s) as [|[|b c] cs]; [done..|]. by destruct (is_continuation b).
Qed.

(** A character is one byte below 128 or bytes from 128. *)
Definition ascii_or_wide (c : string) : Prop :=
  (∃ a, c = String a "" ∧ byte_of a < 128) ∨ str_all (λ a, 128 <=? byte_of a) c = true.

Lemma utf8_chars s : ∀ due, Forall (λ r, 128 ≤ r.1 ∧ r.2 ≤ 191) due → utf8_from due s = true →
  Forall ascii_or_wide (chars s).
Proof.
  induction s as [|a s IH]; intros due Hd Hu; [constructor|].
  assert (∃ due', Forall (λ r, 128 ≤ r.1 ∧ r.2 ≤ 191) due' ∧ utf8_from due' s = true ∧
    (due' = [] ∨ 128 ≤ byte_of a)) as (due' & Hd' & Hu' & Ha).
  { destruct due as [|[lo hi] due]; cbn in Hu.
    - destruct (continuation_ranges a) as [due|] eqn:E; [|done].
      pose proof (continuation_ranges_in _ _ E) as (_ & Hr & _). exists due. split_and!; [done..|].
      unfold continuation_ranges in E. cbv zeta in E. destruct (_ <? 128) eqn:?; bool_to_prop; [|lia].
      injection E as <-. by left.
    - apply andb_true_iff in Hu as [Hb Hu]. unfold byte_in in Hb. bool_to_prop.
      inversion Hd; subst. exists due. cbn in *. split_and!; [done..|right; lia]. }
  specialize (IH _ Hd' Hu'). assert (ascii_or_wide (String a "")) as Hone.
  { destruct (Z.lt_ge_cases (byte_of a) 128); [left; eauto|right]. cbn.
    rewrite andb_true_r. by apply Z.leb_le. }
  cbn [chars]. rewrite <- (chars_concat s) in Hu'.
  destruct (chars s) as [|[|b c] cs]; [by constructor..|].
  inversion IH as [|? ? Hc Hcs]; subst. destruct (is_continuation b) eqn:Eb; [|by constructor].
  constructor; [|done]. right. unfold is_continuation in Eb. bool_to_prop.
  destruct Ha as [-> |Ha].
  - exfalso. change (foldr _ _ _) with (String b (c +:+ foldr String.app "" cs)) in Hu'. cbn in Hu'.
    unfold continuation_ranges in Hu'. cbv zeta in Hu'.
    assert ((byte_of b <? 128) = false) as E1 by (apply Z.ltb_ge; lia).
    assert ((byte_of b <? 194) = true) as E2 by (apply Z.ltb_lt; lia).
    by rewrite E1, E2 in Hu'.
  - destruct Hc as [(x & [= -> ->] & Hx)|Hc]; [lia|]. cbn [str_all] in *. rewrite Hc.
    rewrite andb_true_r. by apply Z.leb_le.
Qed.

(** *** Trimming and cutting take no new bytes *)

Lemma str_all_trim_start p s : str_all p s = true → str_all p (trim_start s) = true.
Proof.
  remember (String.length s) as n eqn:En. assert (String.length s ≤ n)%nat as Hn by lia. clear En.
  revert s Hn. induction n as [|n IH]; intros [|a s] Hn; cbn in Hn; [done|lia|done|].
  intros Hp. cbn [trim_start]. pose proof Hp as Hp'. cbn [str_all] in Hp. apply andb_true_iff in Hp as [_ Hp].
  destruct (is_ws1 a); [apply IH; [lia|done]|]. destruct s as [|b s]; [done|]. cbn in Hn.
  pose proof Hp as Hq. cbn [str_all] in Hq. apply andb_true_iff in Hq as [_ Hq].
  destruct (is_ws2 a b); [apply IH; [lia|done]|]. destruct s as [|c s]; [done|]. cbn in Hn.
  destruct (is_ws3 a b c); [|done]. apply IH; [lia|]. cbn [str_all] in Hq. by apply andb_true_iff in Hq as [_ Hq].
Qed.

Lemma str_all_trim_start_rev p s : str_all p s = true → str_all p (trim_start_rev s) = true.
Proof.
  remember (String.length s) as n eqn:En. assert (String.length s ≤ n)%nat as Hn by lia. clear En.
  revert s Hn. induction n as [|n IH]; intros [|a s] Hn; cbn in Hn; [done|lia|done|].
  intros Hp. cbn [trim_start_rev]. pose proof Hp as Hp'. cbn [str_all] in Hp. apply andb_true_iff in Hp as [_ Hp].
  destruct (is_ws1 a); [apply IH; [lia|done]|]. destruct s as [|b s]; [done|]. cbn in Hn.
  pose proof Hp as Hq. cbn [str_all] in Hq. apply andb_true_iff in Hq as [_ Hq].
  destruct (is_ws2 b a); [apply IH; [lia|done]|]. destruct s as [|c s]; [done|]. cbn in Hn.
  destruct (is_ws3 c b a); [|done]. apply IH; [lia|]. cbn [str_all] in Hq. by apply andb_true_iff in Hq as [_ Hq].
Qed.

Lemma str_all_rev p s : str_all p (str_rev s) = str_all p s.
Proof.
  induction s as [|a s IH]; [done|]. change (String a s) with (String a "" +:+ s).
  rewrite str_rev_app, !str_all_app, IH, andb_comm. done.
Qed.

Lemma str_all_trim p s : str_all p s = true → str_all p (trim s) = true.
Proof.
  intros Hp. unfold trim, trim_end. rewrite str_all_rev. apply str_all_trim_start_rev.
  rewrite str_all_rev. by apply str_all_trim_start.
Qed.

Lemma str_all_concat p l : str_all p (foldr String.app "" l) = forallb (str_all p) l.
Proof. induction l as [|s l IH]; [done|]. cbn [foldr forallb]. by rewrite str_all_app, IH. Qed.

Lemma str_all_take_chars p n s : str_all p s = true → str_all p (take_chars n s) = true.
Proof.
  rewrite <- (chars_concat s) at 1. unfold take_chars. rewrite !str_all_concat, !forallb_forall.
  intros Hp c Hc%list_elem_of_In%elem_of_take. apply Hp, list_elem_of_In. destruct Hc as (i & Hi & _).
  by apply list_elem_of_lookup_2 in Hi.
Qed.
