(* ===== verification/BTree.v ===== *)
(** * Ordered collections and sorting

    Rust's [BTreeMap<String, V>] and [BTreeSet<String>] as key-ordered lists, so
    that a loop over a map visits its keys in the order the code visits them,
    and the slice sorts: [sort_by] is stable, so insertion sort gives the same
    list, and [dedup] drops a value equal to the one before it. *)

From stdpp Require Import sorting.
From S2P Require Import Prelude RustStr.
#[local] Open Scope Z_scope.

Definition bmap (V : Type) : Type := list (string * V).
Definition bset : Type := list string.

Lemma string_compare_refl s : String.compare s s = Eq.
Proof.
  induction s as [|a s IH]; cbn; [done|].
  replace (Ascii.compare a a) with Eq; [done|].
  symmetry. unfold Ascii.compare. apply N.compare_refl.
Qed.

Definition string_lt (a b : string) : Prop := String.compare a b = Lt.

Lemma string_lt_trans : Transitive string_lt.
Proof.
  unfold string_lt. intros a. induction a as [|x a IH]; intros [|y b] [|z c]; cbn; try done.
  destruct (Ascii.compare x y) eqn:Exy, (Ascii.compare y z) eqn:Eyz; intros Hab Hbc; try done;
    unfold Ascii.compare in *;
    rewrite ?N.compare_eq_iff, ?N.compare_lt_iff in *;
    destruct (N.compare_spec (N_of_ascii x) (N_of_ascii z)); try done; try lia.
  by apply (IH b c).
Qed.

Lemma string_lt_irrefl a : ¬ string_lt a a.
Proof. unfold string_lt. by rewrite string_compare_refl. Qed.

Section bmap.
Context {V : Type}.

Fixpoint bget (k : string) (m : bmap V) : option V :=
  match m with
  | [] => None
  | (k', v) :: m => if k =s k' then Some v else bget k m
  end.

Fixpoint binsert (k : string) (v : V) (m : bmap V) : bmap V :=
  match m with
  | [] => [(k, v)]
  | (k', v') :: m' =>
      match String.compare k k' with
      | Eq => (k, v) :: m'
      | Lt => (k, v) :: m
      | Gt => (k', v') :: binsert k v m'
      end
  end.

Definition bremove (k : string) (m : bmap V) : bmap V :=
  List.filter (λ kv, negb (kv.1 =s k)) m.

(** [BTreeMap::from_iter]: a later entry with an equal key replaces. *)
Definition bmap_of (l : list (string * V)) : bmap V :=
  foldl (λ m kv, binsert kv.1 kv.2 m) [] l.

Lemma bget_insert k v m : bget k (binsert k v m) = Some v.
Proof.
  induction m as [|[k' v'] m IH]; cbn; [by rewrite String.eqb_refl|].
  destruct (String.compare k k') eqn:E; cbn; rewrite ?String.eqb_refl; try done.
  destruct (String.eqb_spec k k') as [->|]; [|done].
  by rewrite string_compare_refl in E.
Qed.

Lemma bget_insert_ne k k2 v m : k2 ≠ k → bget k2 (binsert k v m) = bget k2 m.
Proof.
  intros Hne. apply String.eqb_neq in Hne.
  induction m as [|[k' v'] m IH]; cbn; [by rewrite Hne|].
  destruct (String.compare k k') eqn:E; cbn; rewrite ?Hne, ?IH; try done.
  apply String.compare_eq_iff in E as ->. by rewrite Hne.
Qed.

Lemma bget_none k m : bget k m = None ↔ k ∉ m.*1.
Proof.
  induction m as [|[k' v'] m IH]; cbn; [set_solver|].
  destruct (String.eqb_spec k k') as [->|]; [set_solver|]. rewrite IH. set_solver.
Qed.

Lemma bremove_insert k v m : bremove k (binsert k v m) = bremove k m.
Proof.
  unfold bremove. induction m as [|[k' v'] m IH]; cbn; [by rewrite String.eqb_refl|].
  destruct (String.compare k k') eqn:E; cbn; rewrite ?String.eqb_refl; cbn.
  - apply String.compare_eq_iff in E as ->. by rewrite String.eqb_refl.
  - done.
  - by rewrite IH.
Qed.

(** The maps the code builds are ordered, so their keys are distinct. *)
Definition bmap_wf (m : bmap V) : Prop := StronglySorted string_lt m.*1.

Lemma elem_of_binsert_keys k v m x : x ∈ (binsert k v m).*1 ↔ x = k ∨ x ∈ m.*1.
Proof.
  induction m as [|[k' v'] m IH]; cbn; [set_solver|].
  destruct (String.compare k k') eqn:E; cbn; [|set_solver..].
  apply String.compare_eq_iff in E as ->. set_solver.
Qed.

Lemma binsert_wf k v m : bmap_wf m → bmap_wf (binsert k v m).
Proof.
  unfold bmap_wf. induction m as [|[k' v'] m IH]; cbn; [by repeat constructor|].
  rewrite StronglySorted_cons, Forall_forall. intros [Hk Hm].
  destruct (String.compare k k') eqn:E; cbn; rewrite ?StronglySorted_cons, !Forall_forall.
  - by apply String.compare_eq_iff in E as ->.
  - split; [|done]. intros x [->|Hx]%elem_of_cons; [done|].
    eapply string_lt_trans; [exact E|by apply Hk].
  - split; [|by apply IH]. intros x [->|Hx]%elem_of_binsert_keys; [|by apply Hk].
    unfold string_lt. by rewrite String.compare_antisym, E.
Qed.

Lemma bmap_of_wf l : bmap_wf (bmap_of l).
Proof.
  unfold bmap_of. assert (Hgen : ∀ m, bmap_wf m → bmap_wf (foldl (λ m kv, binsert kv.1 kv.2 m) m l)).
  { induction l as [|[k v] l IH]; intros m Hm; cbn; [done|]. by apply IH, binsert_wf. }
  apply Hgen. constructor.
Qed.

Lemma bmap_wf_NoDup m : bmap_wf m → NoDup m.*1.
Proof.
  unfold bmap_wf. induction 1 as [|k ks Hs IH Hk]; constructor; [|done].
  intros Hin. rewrite Forall_forall in Hk. by apply (string_lt_irrefl k), Hk.
Qed.

Lemma bremove_wf k m : bmap_wf m → bmap_wf (bremove k m).
Proof.
  unfold bmap_wf, bremove. induction m as [|[k' v'] m IH]; cbn; [done|].
  rewrite StronglySorted_cons, Forall_forall. intros [Hk Hm].
  destruct (k' =s k); cbn; [by apply IH|].
  rewrite StronglySorted_cons, Forall_forall. split; [|by apply IH].
  intros x (kv & -> & Hx)%list_elem_of_fmap. apply Hk, list_elem_of_fmap_2.
  by apply list_elem_of_In, List.filter_In in Hx as [?%list_elem_of_In _].
Qed.

(** With distinct keys, building a map and looking it up is looking up the list. *)
Lemma bget_bmap_of l k : NoDup l.*1 → bget k (bmap_of l) = bget k l.
Proof.
  unfold bmap_of. intros Hnd.
  assert (Hgen : ∀ m, bget k (foldl (λ m kv, binsert kv.1 kv.2 m) m l) =
                      match bget k l with Some v => Some v | None => bget k m end).
  { induction l as [|[k' v'] l IH]; intros m; cbn; [done|].
    cbn in Hnd. apply NoDup_cons in Hnd as [Hk Hnd]. rewrite (IH Hnd).
    destruct (String.eqb_spec k k') as [->|Hne].
    - rewrite (proj2 (bget_none k' l)) by done. apply bget_insert.
    - destruct (bget k l); [done|]. by apply bget_insert_ne. }
  rewrite Hgen. by destruct (bget k l).
Qed.

Lemma bget_remove k m : bget k (bremove k m) = None.
Proof.
  induction m as [|[k' v'] m IH]; cbn; [done|].
  destruct (String.eqb_spec k' k) as [->|Hne]; cbn; [done|].
  destruct (String.eqb_spec k k'); [congruence|apply IH].
Qed.

Lemma bget_remove_ne k k2 m : k2 ≠ k → bget k2 (bremove k m) = bget k2 m.
Proof.
  intros Hne. induction m as [|[k' v'] m IH]; cbn; [done|].
  destruct (String.eqb_spec k' k) as [->|Hk]; cbn.
  - destruct (String.eqb_spec k2 k); [done|]. apply IH.
  - destruct (k2 =s k'); [done|]. apply IH.
Qed.

Lemma bget_elem k v m : bget k m = Some v → (k, v) ∈ m.
Proof.
  induction m as [|[k' v'] m IH]; cbn; [done|].
  destruct (String.eqb_spec k k') as [->|]; intros; simplify_eq; set_solver.
Qed.

Lemma bget_unique k v m : NoDup m.*1 → (k, v) ∈ m → bget k m = Some v.
Proof.
  induction m as [|[k' v'] m IH]; cbn; [set_solver|]. rewrite NoDup_cons.
  intros [Hk Hm] [?|?]%elem_of_cons; simplify_eq.
  - by rewrite String.eqb_refl.
  - destruct (String.eqb_spec k k') as [->|]; [|by apply IH].
    destruct Hk. by apply (list_elem_of_fmap_2 fst) in H.
Qed.

End bmap.

Lemma bget_map {V W} (f : V → W) (m : bmap V) k :
  bget k (map (λ kv, (kv.1, f kv.2)) m) = f <$> bget k m.
Proof. induction m as [|[k' v'] m IH]; cbn; [done|]. by destruct (k =s k'). Qed.

(** ** Sets *)

Definition bset_contains (s : bset) (x : string) : bool := contains_str s x.
Definition bset_inter (s t : bset) : bset := List.filter (bset_contains t) s.
Definition bset_diff (s t : bset) : bset := List.filter (λ x, negb (bset_contains t x)) s.

Fixpoint bset_insert (x : string) (s : bset) : bset :=
  match s with
  | [] => [x]
  | y :: s' =>
      match String.compare x y with
      | Eq => s
      | Lt => x :: s
      | Gt => y :: bset_insert x s'
      end
  end.

(** [iter().collect::<BTreeSet<_>>()]. *)
Definition bset_of (l : list string) : bset := foldl (λ s x, bset_insert x s) [] l.

Lemma elem_of_list_filter_bool {A} (p : A → bool) l x :
  x ∈ List.filter p l ↔ x ∈ l ∧ p x = true.
Proof. rewrite !list_elem_of_In. apply filter_In. Qed.

Lemma elem_of_bset_inter s t x : x ∈ bset_inter s t ↔ x ∈ s ∧ x ∈ t.
Proof.
  unfold bset_inter, bset_contains. by rewrite elem_of_list_filter_bool, contains_str_true.
Qed.

Lemma elem_of_bset_insert x s y : y ∈ bset_insert x s ↔ y = x ∨ y ∈ s.
Proof.
  induction s as [|z s IH]; cbn; [set_solver|].
  destruct (String.compare x z) eqn:E; [|set_solver..].
  apply String.compare_eq_iff in E as ->. set_solver.
Qed.

Lemma elem_of_bset_of l y : y ∈ bset_of l ↔ y ∈ l.
Proof.
  unfold bset_of. assert (∀ s, y ∈ foldl (λ s x, bset_insert x s) s l ↔ y ∈ s ∨ y ∈ l) as ->;
    [|set_solver].
  induction l as [|x l IH]; intros s; cbn; [set_solver|].
  rewrite IH, elem_of_bset_insert. set_solver.
Qed.

(** ** Sorting *)

Section sort.
Context {A : Type} (lt : A → A → bool).

(** Insert before the first element strictly greater, so equal elements keep
    their order. *)
Fixpoint sorted_insert (x : A) (l : list A) : list A :=
  match l with
  | [] => [x]
  | y :: l' => if lt x y then x :: l else y :: sorted_insert x l'
  end.

(** [slice::sort_by] for the order whose strict part is [lt]. *)
Definition sort_by (l : list A) : list A := foldl (λ acc x, sorted_insert x acc) [] l.

Lemma sorted_insert_perm x l : sorted_insert x l ≡ₚ x :: l.
Proof.
  induction l as [|y l IH]; cbn; [done|]. destruct (lt x y); [done|].
  rewrite IH. by rewrite Permutation_swap.
Qed.

Lemma sort_by_perm l : sort_by l ≡ₚ l.
Proof.
  unfold sort_by.
  assert (∀ acc, foldl (λ acc x, sorted_insert x acc) acc l ≡ₚ acc ++ l) as Hgen; [|by apply Hgen].
  induction l as [|x l IH]; intros acc; cbn; [by rewrite app_nil_r|].
  rewrite IH, sorted_insert_perm. by rewrite <- Permutation_middle.
Qed.

Lemma elem_of_sort_by l x : x ∈ sort_by l ↔ x ∈ l.
Proof. by rewrite sort_by_perm. Qed.

(** An order that begins with the comparison of [f] sorts by [f]. *)
Lemma sort_by_monotone (f : A → Z) l :
  (∀ x y, lt x y = true → f x ≤ f y) → (∀ x y, lt x y = false → f y ≤ f x) →
  StronglySorted (λ x y, f x ≤ f y) (sort_by l).
Proof.
  intros Ht Hf. unfold sort_by.
  assert (∀ x k, StronglySorted (λ x y, f x ≤ f y) k → StronglySorted (λ x y, f x ≤ f y) (sorted_insert x k))
    as Hi.
  { intros x k. induction 1 as [|y k Hk IH Hy]; cbn; [by repeat constructor|].
    destruct (lt x y) eqn:E.
    - apply Ht in E. constructor; [by constructor|]. constructor; [done|].
      eapply Forall_impl; [exact Hy|]. cbn. lia.
    - apply Hf in E. constructor; [done|]. rewrite sorted_insert_perm. by constructor. }
  assert (StronglySorted (λ x y, f x ≤ f y) []) as Hn by constructor.
  revert Hn. generalize (@nil A). induction l as [|x l IH]; intros acc Ha; cbn; [done|].
  by apply IH, Hi.
Qed.

End sort.

(** A stable sort by a flag puts the elements without it first. *)
Lemma sort_by_flag {A} (h : A → bool) l :
  sort_by (λ x y, negb (h x) && h y) l = List.filter (λ x, negb (h x)) l ++ List.filter h l.
Proof.
  unfold sort_by.
  assert (∀ x a b, forallb (λ y, negb (h y)) a = true → forallb h b = true →
    sorted_insert (λ x y, negb (h x) && h y) x (a ++ b) =
    if h x then a ++ b ++ [x] else (a ++ [x]) ++ b) as Hi.
  { intros x a b. induction a as [|y a IH]; cbn.
    - intros _ Hb. destruct b as [|y b]; [by destruct (h x)|]. cbn in *.
      apply andb_true_iff in Hb as [Hy Hb]. rewrite Hy. destruct (h x) eqn:Hx; [|done]. cbn. f_equal.
      clear Hy y. induction b as [|z b IHb]; cbn in *; [done|]. rewrite Hx. cbn.
      apply andb_true_iff in Hb as [_ Hb]. by rewrite IHb.
    - intros [Hy Ha]%andb_true_iff Hb. apply negb_true_iff in Hy. rewrite Hy, andb_false_r, IH by done.
      by destruct (h x). }
  assert (∀ a b, forallb (λ y, negb (h y)) a = true → forallb h b = true →
    foldl (λ acc x, sorted_insert (λ x y, negb (h x) && h y) x acc) (a ++ b) l =
    (a ++ List.filter (λ x, negb (h x)) l) ++ b ++ List.filter h l) as Hg;
    [|by apply (Hg [] [])].
  induction l as [|x l IH]; intros a b Ha Hb; cbn; [by rewrite !app_nil_r|].
  rewrite Hi by done. destruct (h x) eqn:Hx; cbn [negb].
  - rewrite IH; [by rewrite <- (assoc_L (++) b)|done|]. rewrite forallb_app, Hb. cbn. by rewrite Hx.
  - rewrite IH; [by rewrite <- !(assoc_L (++))| |done]. rewrite forallb_app, Ha. cbn. by rewrite Hx.
Qed.

(** The derived order of [Vec<String>]: lexicographic. *)
Fixpoint strings_compare (a b : list string) : comparison :=
  match a, b with
  | [], [] => Eq
  | [], _ :: _ => Lt
  | _ :: _, [] => Gt
  | x :: a, y :: b => match String.compare x y with Eq => strings_compare a b | c => c end
  end.

(** [Ordering::then_with]. *)
Definition then_with (a b : comparison) : comparison := match a with Eq => b | _ => a end.

Definition is_lt (c : comparison) : bool := match c with Lt => true | _ => false end.

(** [Vec::dedup]. *)
Fixpoint dedup `{EqDecision A} (l : list A) : list A :=
  match l with
  | [] => []
  | x :: l' =>
      match dedup l' with
      | y :: l'' => if bool_decide (x = y) then x :: l'' else x :: y :: l''
      | [] => [x]
      end
  end.

Lemma elem_of_dedup `{EqDecision A} (l : list A) x : x ∈ dedup l ↔ x ∈ l.
Proof.
  induction l as [|y l IH]; cbn; [done|].
  destruct (dedup l) as [|z l'] eqn:E.
  - set_solver.
  - case_bool_decide; subst; set_solver.
Qed.
