(* ===== verification/RustPath.v ===== *)
(** * [std::path] on Unix

    A [Path] is its text; equality and [starts_with] compare components, the
    lexical [push], [pop] and [join] work on the text. *)

From S2P Require Import Prelude RustStr.
#[local] Open Scope Z_scope.

Inductive Component :=
  | Component_RootDir
  | Component_CurDir
  | Component_ParentDir
  | Component_Normal (s : string).

#[export] Instance Component_eq_dec : EqDecision Component.
Proof. solve_decision. Defined.

Definition component_of (s : string) : Component :=
  if s =s ".." then Component_ParentDir else Component_Normal s.

Definition path_is_absolute (p : string) : bool := starts_with "/" p.

(** [Path::components]: repeated separators and [.] are skipped, except a
    leading [.] of a relative path. *)
Definition components (p : string) : list Component :=
  let pieces := split_on "/" p in
  let body := List.filter (λ s, negb (str_is_empty s) && negb (s =s ".")) pieces in
  if path_is_absolute p then Component_RootDir :: (component_of <$> body)
  else match pieces with
       | "." :: _ => Component_CurDir :: (component_of <$> body)
       | _ => component_of <$> body
       end.

Definition as_os_str (c : Component) : string :=
  match c with
  | Component_RootDir => "/"
  | Component_CurDir => "."
  | Component_ParentDir => ".."
  | Component_Normal s => s
  end.

(** [Path == Path]. *)
Definition path_eqb (a b : string) : bool := bool_decide (components a = components b).

Fixpoint list_prefix `{EqDecision A} (p l : list A) : bool :=
  match p, l with
  | [], _ => true
  | x :: p, y :: l => bool_decide (x = y) && list_prefix p l
  | _ :: _, [] => false
  end.

(** [Path::starts_with]. *)
Definition path_starts_with (p base : string) : bool :=
  list_prefix (components base) (components p).

(** [PathBuf::push]. *)
Definition path_push (p q : string) : string :=
  if path_is_absolute q then q
  else if str_is_empty p || ends_with "/" p then p +:+ q
  else p +:+ "/" +:+ q.

(** [Path::join]. *)
Definition path_join (p q : string) : string := path_push p q.

(** A path as the buffer holds it after pushing its components in turn. *)
Definition path_of (cs : list Component) : string :=
  foldl (λ p c, path_push p (as_os_str c)) "" cs.

Lemma list_prefix_spec `{EqDecision A} (p l : list A) :
  list_prefix p l = true ↔ ∃ r, l = p ++ r.
Proof.
  revert l; induction p as [|x p IH]; intros [|y l]; cbn; try by (split; eauto).
  - split; [done|by intros [r ?]].
  - rewrite andb_true_iff, bool_decide_eq_true, IH. split.
    + intros [-> [r ->]]. by exists r.
    + intros [r ?]. simplify_eq. eauto.
Qed.
