(* ===== verification/External.v ===== *)
(** * Code outside the repository

    The third-party crates the modelled code calls: [serde_json] values,
    [sha2] with [hex], [uuid]. They are parameters of the model, one class per
    crate, so a definition that uses them takes the class as an argument. The
    concrete instances at the end of the file are for worked examples only. *)

From S2P Require Import Prelude RustStr.
#[local] Open Scope Z_scope.

(** [serde_json::Value], read through its accessors and built by [json!].
    [v["k"]] is [get] with an absent key read as [Null], on which every
    accessor answers [None]; so [v["k"].as_str()] is [json_get v "k" ≫= as_str]. *)
Class Json := {
  Value : Type;
  json_get : Value → string → option Value;
  as_str : Value → option string;
  as_bool : Value → option bool;
  as_array : Value → option (list Value);
  json_of_str : string → Value;
  json_of_bool : bool → Value;
  json_of_list : list Value → Value;
  json_object : list (string * Value) → Value;
  json_set : Value → string → Value → Value;
  json_to_string : Value → string
}.

(** [hex::encode(Sha256::digest(bytes))]. *)
Class Sha256 := sha256_hex : string → string.

(** The hyphenated text of a 128-bit identifier ([uuid::Uuid::hyphenated]). *)
Class IdText := id_text : Z → string.

(** The Unicode tables behind [str::to_lowercase]. *)
Class Lowercase := to_lowercase : string → string.

(** The Unicode tables behind [str::escape_debug]. *)
Class EscapeDebug := escape_debug : string → string.

(** The Unicode tables behind the [Debug] text of a [str]. *)
Class DebugStr := debug_str : string → string.

(** The [Debug] text of a [Vec<String>] and of a [BTreeSet<String>]. *)
Definition debug_vec `{DebugStr} (l : list string) : string :=
  "[" +:+ Prelude.join ", " (debug_str <$> l) +:+ "]".
Definition debug_set `{DebugStr} (l : list string) : string :=
  "{" +:+ Prelude.join ", " (debug_str <$> l) +:+ "}".

(** ** Instances for worked examples *)

Module Example.

Inductive value :=
  | JNull
  | JBool (b : bool)
  | JStr (s : string)
  | JArr (l : list value)
  | JObj (m : list (string * value)).

Fixpoint assoc (k : string) (m : list (string * value)) : option value :=
  match m with
  | [] => None
  | (k', v) :: m => if k =s k' then Some v else assoc k m
  end.

Definition json : Json := {|
  Value := value;
  json_get v k := match v with JObj m => assoc k m | _ => None end;
  as_str v := match v with JStr s => Some s | _ => None end;
  as_bool v := match v with JBool b => Some b | _ => None end;
  as_array v := match v with JArr l => Some l | _ => None end;
  json_of_str := JStr;
  json_of_bool := JBool;
  json_of_list := JArr;
  json_object := JObj;
  json_set v k x := match v with JObj m => JObj ((k, x) :: m) | _ => v end;
  json_to_string _ := "{}"
|}.

(** The identity is injective, the constant has the width of a digest. *)
Definition sha256 : Sha256 := λ s, s.
Definition sha64 : Sha256 := λ _,
  "0123456789abcdef0123456789abcdef0123456789abcdef0123456789abcdef".
Definition idtext : IdText := λ z, pretty z.
Definition lowercase : Lowercase := to_ascii_lowercase.
Definition escape : EscapeDebug := λ s, s.
Definition debug : DebugStr := λ s, s.

End Example.
