(* ===== verification/StateMachine.v ===== *)
(** * State machines and event-sourced aggregates

    [crates/domain/src/state.rs]: the [StateMachine] trait, and the way
    [crates/event-store/src/projections.rs] folds a log of events into an
    aggregate. Both are classes here; the laws every table obeys and the
    invariants of a projection are proved once, against the classes, and each
    aggregate discharges them with an instance. *)

From stdpp Require Import relations.
From S2P Require Import Prelude RustStr.
#[local] Open Scope Z_scope.

(** ** The trait *)

Record InvalidTransition := {
  it_aggregate : string;
  it_from : string;
  it_to : string
}.

#[export] Instance InvalidTransition_eq_dec : EqDecision InvalidTransition.
Proof. solve_decision. Defined.

(** [StateMachine]: [sm_debug] is the derived [Debug] text. *)
Class StateMachine (St : Type) := {
  sm_aggregate : string;
  can_transition : St → St → bool;
  is_terminal : St → bool;
  sm_debug : St → string
}.

(** [StateMachine::transition], the trait's provided method. *)
Definition transition `{StateMachine St} (self to : St) : result InvalidTransition St :=
  if can_transition self to then Ok to
  else Err {| it_aggregate := sm_aggregate;
              it_from := sm_debug self;
              it_to := sm_debug to |}.

(** What a table promises its clients: exactly the terminal states have no
    way out. *)
Class LawfulMachine (St : Type) `{StateMachine St} : Prop :=
  terminal_iff : ∀ s : St, is_terminal s = true ↔ ∀ t, can_transition s t = false.

Section machine.
Context `{StateMachine St}.

Definition step (s t : St) : Prop := can_transition s t = true.

Lemma transition_ok s t u : transition s t = Ok u ↔ can_transition s t = true ∧ u = t.
Proof. unfold transition. destruct (can_transition s t); naive_solver. Qed.

Lemma transition_err s t : (∃ e, transition s t = Err e) ↔ can_transition s t = false.
Proof. unfold transition. destruct (can_transition s t); naive_solver. Qed.

Context `{!LawfulMachine St}.

Lemma terminal_no_step s t : is_terminal s = true → ¬ step s t.
Proof. unfold step. intros Ht. by rewrite (proj1 (terminal_iff s) Ht). Qed.

Lemma terminal_rtc s t : is_terminal s = true → rtc step s t → t = s.
Proof. intros Hs Hr. inv Hr as [|? ? ? Hx]; [done|]. by apply terminal_no_step in Hx. Qed.

End machine.

(** ** Aggregates *)

(** One aggregate: [create] from its first event, [apply] for the rest, both
    with the event's timestamp. *)
Class Aggregate (A Ev : Type) := {
  agg_create : Z → Ev → Z → result InvalidTransition A;
  agg_apply : Ev → Z → SE A InvalidTransition unit
}.

(** A stored event: the envelope's [sequence], the event, its time. *)
Record stored (Ev : Type) := Stored { st_seq : Z; st_event : Ev; st_at : Z }.
Arguments Stored {Ev} _ _ _.
Arguments st_seq {Ev} _.
Arguments st_event {Ev} _.
Arguments st_at {Ev} _.

(** One arm of [projections::apply]: load the row or build it, apply the event
    unless it is the first of its aggregate; an error aborts the transaction,
    so the row before it stays. *)
Definition project `{Aggregate A Ev} (id : Z) (row : option A) (ev : stored Ev)
    : result InvalidTransition A :=
  a ← match row with
      | Some a => Ok a
      | None => agg_create id (st_event ev) (st_at ev)
      end;
  if 1 <? st_seq ev then
    match agg_apply (st_event ev) (st_at ev) a with
    | (a', Ok _) => Ok a'
    | (_, Err e) => Err e
    end
  else Ok a.

(** A whole log of one aggregate, projected in order (as [rebuild] does). *)
Fixpoint project_log `{Aggregate A Ev} (id : Z) (row : option A) (log : list (stored Ev))
    : result InvalidTransition (option A) :=
  match log with
  | [] => Ok row
  | ev :: log => a ← project id row ev; project_log id (Some a) log
  end.

(** Sequence numbers as the store assigns them: consecutive. *)
Fixpoint numbered {Ev} (from : Z) (log : list (stored Ev)) : Prop :=
  match log with
  | [] => True
  | ev :: log => st_seq ev = from ∧ numbered (from + 1) log
  end.

Section aggregate.
Context `{Aggregate A Ev}.

(** The events applied to an existing row, all accepted. *)
Inductive applied : A → list (stored Ev) → A → Prop :=
  | applied_nil a : applied a [] a
  | applied_cons a a' b ev log :
      agg_apply (st_event ev) (st_at ev) a = (a', Ok tt) →
      applied a' log b → applied a (ev :: log) b.

Lemma project_log_some id a log b n :
  1 < n → numbered n log → project_log id (Some a) log = Ok b →
  ∃ b', b = Some b' ∧ applied a log b'.
Proof.
  revert a n; induction log as [|ev log IH]; intros a n Hn Hnum Hp; cbn in *.
  - simplify_eq. eauto using applied.
  - destruct Hnum as [Hseq Hnum]. unfold project in Hp. cbn in Hp.
    destruct (Z.ltb_spec 1 (st_seq ev)); [|lia].
    destruct (agg_apply _ _ a) as [a' [[]|e]] eqn:E; cbn in Hp; [|done].
    destruct (IH a' (n + 1)) as (b' & -> & Hb); [lia|done..|].
    exists b'. split; [done|]. by econstructor.
Qed.

(** A projected row was created by the first event and every later event was
    accepted by [apply]. *)
Lemma project_log_inv id log b :
  numbered 1 log → project_log id None log = Ok (Some b) →
  ∃ ev log' a, log = ev :: log' ∧ agg_create id (st_event ev) (st_at ev) = Ok a ∧
    applied a log' b.
Proof.
  destruct log as [|ev log]; cbn; [done|]. intros [Hseq Hnum] Hp.
  unfold project in Hp. destruct (agg_create _ _ _) as [a|e] eqn:Ec; cbn in Hp; [|done].
  destruct (Z.ltb_spec 1 (st_seq ev)); [lia|]. cbn in Hp.
  destruct (project_log_some id a log (Some b) 2) as (b' & ? & ?); [lia|done..|].
  simplify_eq. eauto 10.
Qed.

(** The invariant rule for aggregates. *)
Lemma applied_invariant (Inv : A → Prop) a log b :
  (∀ a ev at_ a', Inv a → agg_apply ev at_ a = (a', Ok tt) → Inv a') →
  applied a log b → Inv a → Inv b.
Proof. intros Hstep. induction 1; eauto. Qed.

Lemma project_invariant (Inv : A → Prop) id log b :
  (∀ ev at_ a, agg_create id ev at_ = Ok a → Inv a) →
  (∀ a ev at_ a', Inv a → agg_apply ev at_ a = (a', Ok tt) → Inv a') →
  numbered 1 log → project_log id None log = Ok (Some b) → Inv b.
Proof.
  intros Hc Ha Hn Hp. destruct (project_log_inv _ _ _ Hn Hp) as (ev & l & a & -> & E & Hb).
  eapply applied_invariant; eauto.
Qed.

(** The same with the events seen so far. *)
Lemma applied_history (Inv : list (stored Ev) → A → Prop) pre a log b :
  (∀ pre a ev a', Inv pre a → agg_apply (st_event ev) (st_at ev) a = (a', Ok tt) →
     Inv (pre ++ [ev]) a') →
  applied a log b → Inv pre a → Inv (pre ++ log) b.
Proof.
  intros Hstep Hap. revert pre; induction Hap as [a|a a' b ev log Hx Hap IH]; intros pre Ha.
  - by rewrite app_nil_r.
  - replace (pre ++ ev :: log) with ((pre ++ [ev]) ++ log) by by rewrite <- app_assoc.
    eauto.
Qed.

Lemma project_history (Inv : list (stored Ev) → A → Prop) id log b :
  (∀ ev a, agg_create id (st_event ev) (st_at ev) = Ok a → Inv [ev] a) →
  (∀ pre a ev a', Inv pre a → agg_apply (st_event ev) (st_at ev) a = (a', Ok tt) →
     Inv (pre ++ [ev]) a') →
  numbered 1 log → project_log id None log = Ok (Some b) → Inv log b.
Proof.
  intros Hc Ha Hn Hp. destruct (project_log_inv _ _ _ Hn Hp) as (ev & l & a & -> & E & Hb).
  apply (applied_history Inv [ev] a l b); eauto.
Qed.

(** A field no accepted event changes, and one that only grows. *)
Lemma applied_preserved {B} (f : A → B) a log b :
  (∀ a ev at_ a', agg_apply ev at_ a = (a', Ok tt) → f a' = f a) →
  applied a log b → f b = f a.
Proof. intros Hstep. induction 1 as [|? ? ? ? ? Hx ? IH]; [done|]. rewrite IH. eauto. Qed.

Lemma applied_monotone (f : A → Z) a log b :
  (∀ a ev at_ a', agg_apply ev at_ a = (a', Ok tt) → f a ≤ f a') →
  applied a log b → f a ≤ f b.
Proof. intros Hstep. induction 1 as [|? ? ? ? ? Hx%Hstep ? IH]; lia. Qed.

(** A counter every accepted event increments, modulo its width. *)
Lemma applied_counts (f : A → Z) a log b :
  (∀ a ev at_ a', agg_apply ev at_ a = (a', Ok tt) → f a' = wrap64 (f a + 1)) →
  f a = wrap64 (f a) → applied a log b → f b = wrap64 (f a + Z.of_nat (length log)).
Proof.
  intros Hstep Ha Hap. revert Ha.
  induction Hap as [a|a a' b ev log Hx%Hstep Hap IH]; intros Ha; cbn.
  - by rewrite Z.add_0_r.
  - rewrite IH, Hx.
    + rewrite wrap64_succ. f_equal. lia.
    + rewrite Hx. unfold wrap64. by rewrite Z.mod_mod.
Qed.

Lemma applied_app a log1 log2 c :
  applied a (log1 ++ log2) c ↔ ∃ b, applied a log1 b ∧ applied b log2 c.
Proof.
  revert a; induction log1 as [|ev log1 IH]; intros a; cbn.
  - split; [intros; exists a; split; [constructor|done]|].
    intros (b & Hb & ?). by inv Hb.
  - split.
    + intros Hx. inv Hx. apply IH in H5 as (b & ? & ?). exists b. split; [by econstructor|done].
    + intros (b & Hb & ?). inv Hb. econstructor; [done|]. apply IH. eauto.
Qed.

End aggregate.

(** Run an [apply] in a hypothesis: unfold the monad and the record updates. *)
Ltac se_run H :=
  cbv [mbind mret result_bind result_ret se_bind se_ret se_get se_mod se_err se_lift
       transition apply_update constant] in H;
  cbn in H.

(** Case on every test that decides the outcome of [H]. *)
Ltac se_cases H :=
  repeat (match type of H with
          | context [match ?x with _ => _ end] =>
              lazymatch x with
              | context [match _ with _ => _ end] => fail
              | _ => destruct x eqn:?
              end
          end; cbn in H; try discriminate H).
