(* ===== verification/ToolCall.v ===== *)
(** * Tool calls

    [crates/domain/src/toolcall.rs] and [crates/domain/src/epoch.rs]: effect
    classes, reversibility, the tool-call aggregate and the effect receipt.
    Identifiers are 128-bit integers, timestamps milliseconds in [i64]. *)

From S2P Require Import Prelude RustStr StateMachine.
#[local] Open Scope Z_scope.

(** ** Effect classes *)

Inductive EffectClass :=
  | EffectClass_ReadOnly
  | EffectClass_ReversibleWrite
  | EffectClass_ProtectedWrite
  | EffectClass_ExternalSideEffect
  | EffectClass_SecretAccess
  | EffectClass_Destructive.

#[export] Instance EffectClass_eq_dec : EqDecision EffectClass.
Proof. solve_decision. Defined.

(** The derived [Ord]: declaration order. *)
Definition effect_rank (e : EffectClass) : Z :=
  match e with
  | EffectClass_ReadOnly => 0
  | EffectClass_ReversibleWrite => 1
  | EffectClass_ProtectedWrite => 2
  | EffectClass_ExternalSideEffect => 3
  | EffectClass_SecretAccess => 4
  | EffectClass_Destructive => 5
  end.
Definition effect_le (a b : EffectClass) : Prop := effect_rank a ≤ effect_rank b.
(** [a > b]. *)
Definition effect_gt (a b : EffectClass) : bool := effect_rank b <? effect_rank a.

#[export] Instance effect_le_po : PartialOrder effect_le.
Proof.
  unfold effect_le. split; [split|].
  - intros x. lia.
  - intros x y z ? ?. lia.
  - intros [] [] ? ?; cbn in *; lia || done.
Qed.

Lemma effect_gt_false a b : effect_gt a b = false ↔ effect_le a b.
Proof. unfold effect_gt, effect_le. by rewrite Z.ltb_ge. Qed.

Definition effect_debug (e : EffectClass) : string :=
  match e with
  | EffectClass_ReadOnly => "ReadOnly"
  | EffectClass_ReversibleWrite => "ReversibleWrite"
  | EffectClass_ProtectedWrite => "ProtectedWrite"
  | EffectClass_ExternalSideEffect => "ExternalSideEffect"
  | EffectClass_SecretAccess => "SecretAccess"
  | EffectClass_Destructive => "Destructive"
  end.

Inductive Reversibility :=
  | Reversibility_Reversible
  | Reversibility_PartiallyReversible
  | Reversibility_Compensatable
  | Reversibility_Irreversible.

#[export] Instance Reversibility_eq_dec : EqDecision Reversibility.
Proof. solve_decision. Defined.

(** [Reversibility::of]. *)
Definition Reversibility_of (effect : EffectClass) (has_compensation : bool) : Reversibility :=
  match effect with
  | EffectClass_ReadOnly | EffectClass_ReversibleWrite => Reversibility_Reversible
  | EffectClass_ProtectedWrite => Reversibility_PartiallyReversible
  | EffectClass_ExternalSideEffect =>
      if has_compensation then Reversibility_Compensatable else Reversibility_Irreversible
  | EffectClass_SecretAccess | EffectClass_Destructive => Reversibility_Irreversible
  end.

Definition Reversibility_label (r : Reversibility) : string :=
  match r with
  | Reversibility_Reversible => "REVERSIBLE"
  | Reversibility_PartiallyReversible => "PARTIALLY_REVERSIBLE"
  | Reversibility_Compensatable => "COMPENSATABLE"
  | Reversibility_Irreversible => "IRREVERSIBLE"
  end.

(** ** The lifecycle *)

Inductive ToolCallState :=
  | ToolCallState_Proposed
  | ToolCallState_Validated
  | ToolCallState_PolicyChecked
  | ToolCallState_ApprovalPending
  | ToolCallState_Dispatched
  | ToolCallState_Streaming
  | ToolCallState_Succeeded
  | ToolCallState_Failed
  | ToolCallState_Cancelled
  | ToolCallState_UnknownOutcome.

#[export] Instance ToolCallState_eq_dec : EqDecision ToolCallState.
Proof. solve_decision. Defined.

Definition ToolCallState_can_transition (self to : ToolCallState) : bool :=
  match self, to with
  | ToolCallState_Proposed, ToolCallState_Validated
  | ToolCallState_Validated, ToolCallState_PolicyChecked
  | ToolCallState_Validated, ToolCallState_ApprovalPending
  | ToolCallState_ApprovalPending, ToolCallState_PolicyChecked
  | ToolCallState_PolicyChecked, ToolCallState_Dispatched
  | ToolCallState_Dispatched, ToolCallState_Streaming
  | (ToolCallState_Dispatched | ToolCallState_Streaming),
      (ToolCallState_Succeeded | ToolCallState_Failed | ToolCallState_UnknownOutcome)
  | (ToolCallState_Proposed | ToolCallState_Validated | ToolCallState_PolicyChecked
     | ToolCallState_ApprovalPending | ToolCallState_Dispatched | ToolCallState_Streaming),
      ToolCallState_Cancelled
  | (ToolCallState_Proposed | ToolCallState_Validated | ToolCallState_ApprovalPending),
      ToolCallState_Failed => true
  | _, _ => false
  end.

Definition ToolCallState_is_terminal (self : ToolCallState) : bool :=
  match self with
  | ToolCallState_Succeeded | ToolCallState_Failed
  | ToolCallState_Cancelled | ToolCallState_UnknownOutcome => true
  | _ => false
  end.

Definition ToolCallState_debug (s : ToolCallState) : string :=
  match s with
  | ToolCallState_Proposed => "Proposed"
  | ToolCallState_Validated => "Validated"
  | ToolCallState_PolicyChecked => "PolicyChecked"
  | ToolCallState_ApprovalPending => "ApprovalPending"
  | ToolCallState_Dispatched => "Dispatched"
  | ToolCallState_Streaming => "Streaming"
  | ToolCallState_Succeeded => "Succeeded"
  | ToolCallState_Failed => "Failed"
  | ToolCallState_Cancelled => "Cancelled"
  | ToolCallState_UnknownOutcome => "UnknownOutcome"
  end.

#[export] Instance ToolCallState_machine : StateMachine ToolCallState := {|
  sm_aggregate := "ToolCall";
  can_transition := ToolCallState_can_transition;
  is_terminal := ToolCallState_is_terminal;
  sm_debug := ToolCallState_debug
|}.

(** ** The aggregate *)

(** [epoch::AuthorizationStamp]. *)
Record AuthorizationStamp := {
  stamp_epoch : Z;
  stamp_snapshot_hash : string
}.

#[export] Instance AuthorizationStamp_eq_dec : EqDecision AuthorizationStamp.
Proof. solve_decision. Defined.

Record ToolCall := {
  tc_tool_call_id : Z;
  tc_task_id : Z;
  tc_step_id : option Z;
  tc_tool_name : string;
  tc_tool_version : string;
  tc_effect_class : EffectClass;
  tc_capability_lease_id : option Z;
  tc_arguments_hash : string;
  tc_state : ToolCallState;
  tc_generation : Z;
  tc_dispatched_at : option Z;
  tc_completed_at : option Z;
  tc_result_ref : option string;
  tc_unknown_outcome_reason : option string;
  tc_policy_decision : option string;
  tc_approval_id : option Z;
  tc_run_id : option Z;
  tc_turn_id : option Z;
  tc_call_id : option string;
  tc_arguments_ref : option string
}.

Record EffectReceipt := {
  er_effect_id : Z;
  er_previous_receipt_hash : option string;
  er_task_id : Z;
  er_tool_call_id : Z;
  er_capability_lease_id : option Z;
  er_intent_hash : string;
  er_policy_decision : string;
  er_approval_id : option Z;
  er_execution_target : string;
  er_evidence_ref : option string;
  er_status : string;
  er_occurred_at : Z;
  er_reversibility : option Reversibility;
  er_compensates : option Z;
  er_authorization : option AuthorizationStamp;
  er_receipt_hash : string
}.

Inductive ToolCallEvent :=
  | ToolCallProposed (task_id : Z) (step_id : option Z) (tool_name tool_version : string)
      (effect_class : EffectClass) (capability_lease_id : option Z) (arguments_hash : string)
      (run_id turn_id : option Z) (call_id arguments_ref : option string)
  | ToolCallValidated
  | ToolCallPolicyDecision (allowed : bool) (decision : string) (approval_required : bool)
      (authorization : option AuthorizationStamp)
  | ToolCallApprovalRequested (approval_id : Z) (decision : string)
  | ToolCallDispatched
  | EffectReceiptAppended (receipt : EffectReceipt)
  | ToolCallSucceeded (result_ref : string)
  | ToolCallFailed (failure_code : string) (result_ref : option string)
  | ToolCallCancelled
  | ToolCallUnknownOutcome (reason : string).

(** [ToolCallEvent::event_type]. *)
Definition ToolCallEvent_event_type (e : ToolCallEvent) : string :=
  match e with
  | ToolCallProposed _ _ _ _ _ _ _ _ _ _ _ => "ToolCallProposed"
  | ToolCallValidated => "ToolCallValidated"
  | ToolCallPolicyDecision _ _ _ _ => "ToolCallPolicyDecision"
  | ToolCallApprovalRequested _ _ => "ToolCallApprovalRequested"
  | ToolCallDispatched => "ToolCallDispatched"
  | EffectReceiptAppended _ => "EffectReceiptAppended"
  | ToolCallSucceeded _ => "ToolCallSucceeded"
  | ToolCallFailed _ _ => "ToolCallFailed"
  | ToolCallCancelled => "ToolCallCancelled"
  | ToolCallUnknownOutcome _ => "ToolCallUnknownOutcome"
  end.

Definition toolcall_invalid (from : ToolCallState) (to : string) : InvalidTransition :=
  {| it_aggregate := "ToolCall"; it_from := ToolCallState_debug from; it_to := to |}.

(** [ToolCall::create]. *)
Definition ToolCall_create (id : Z) (event : ToolCallEvent) (_at : Z)
    : result InvalidTransition ToolCall :=
  match event with
  | ToolCallProposed task_id step_id tool_name tool_version effect_class capability_lease_id
      arguments_hash run_id turn_id call_id arguments_ref =>
      Ok {| tc_tool_call_id := id;
            tc_task_id := task_id;
            tc_step_id := step_id;
            tc_tool_name := tool_name;
            tc_tool_version := tool_version;
            tc_effect_class := effect_class;
            tc_capability_lease_id := capability_lease_id;
            tc_arguments_hash := arguments_hash;
            tc_state := ToolCallState_Proposed;
            tc_generation := 1;
            tc_dispatched_at := None;
            tc_completed_at := None;
            tc_result_ref := None;
            tc_unknown_outcome_reason := None;
            tc_policy_decision := None;
            tc_approval_id := None;
            tc_run_id := run_id;
            tc_turn_id := turn_id;
            tc_call_id := call_id;
            tc_arguments_ref := arguments_ref |}
  | other => Err {| it_aggregate := "ToolCall"; it_from := "<none>";
                    it_to := ToolCallEvent_event_type other |}
  end.

(** [ToolCall::apply]. The first match yields the target state, or [None] for
    the receipt, which returns early. *)
Definition ToolCall_apply (event : ToolCallEvent) (at_ : Z)
    : SE ToolCall InvalidTransition unit :=
  self ← se_get;
  to ← match event with
       | ToolCallProposed _ _ _ _ _ _ _ _ _ _ _ =>
           se_err (toolcall_invalid (tc_state self) "ToolCallProposed")
       | ToolCallValidated => mret (Some ToolCallState_Validated)
       | ToolCallPolicyDecision allowed decision approval_required _ =>
           se_mod (λ c, { c with tc_policy_decision := Some decision });;
           mret (Some (if allowed then ToolCallState_PolicyChecked
                       else if (approval_required : bool) then ToolCallState_ApprovalPending
                       else ToolCallState_Failed))
       | ToolCallApprovalRequested approval_id decision =>
           se_mod (λ c, { c with tc_policy_decision := Some decision;
                                 tc_approval_id := Some approval_id });;
           mret (Some ToolCallState_ApprovalPending)
       | ToolCallDispatched => mret (Some ToolCallState_Dispatched)
       | EffectReceiptAppended _ =>
           match tc_state self with
           | ToolCallState_Dispatched | ToolCallState_Streaming =>
               se_mod (λ c, { c with tc_generation ::= λ g, wrap64 (g + 1) });; mret None
           | _ => se_err (toolcall_invalid (tc_state self) "EffectReceiptAppended")
           end
       | ToolCallSucceeded result_ref =>
           _ ← se_lift (transition (tc_state self) ToolCallState_Succeeded);
           se_mod (λ c, { c with tc_result_ref := Some result_ref });;
           mret (Some ToolCallState_Succeeded)
       | ToolCallFailed _ result_ref =>
           _ ← se_lift (transition (tc_state self) ToolCallState_Failed);
           se_mod (λ c, { c with tc_result_ref := result_ref });;
           mret (Some ToolCallState_Failed)
       | ToolCallCancelled => mret (Some ToolCallState_Cancelled)
       | ToolCallUnknownOutcome reason =>
           match tc_effect_class self with
           | EffectClass_ReadOnly =>
               se_err {| it_aggregate := "ToolCall";
                         it_from := ToolCallState_debug (tc_state self) +:+ " (READ_ONLY)";
                         it_to := "UnknownOutcome (only effectful tools)" |}
           | _ =>
               _ ← se_lift (transition (tc_state self) ToolCallState_UnknownOutcome);
               se_mod (λ c, { c with tc_unknown_outcome_reason := Some reason });;
               mret (Some ToolCallState_UnknownOutcome)
           end
       end;
  match to with
  | None => mret tt
  | Some to =>
      s ← se_lift (transition (tc_state self) to);
      se_mod (λ c, { c with tc_state := s });;
      match to with
      | ToolCallState_Dispatched => se_mod (λ c, { c with tc_dispatched_at := Some at_ })
      | _ => mret tt
      end;;
      (if is_terminal to
       then se_mod (λ c, { c with tc_completed_at := Some at_ }) else mret tt);;
      se_mod (λ c, { c with tc_generation ::= λ g, wrap64 (g + 1) })
  end.

#[export] Instance ToolCall_aggregate : Aggregate ToolCall ToolCallEvent := {|
  agg_create := ToolCall_create;
  agg_apply := ToolCall_apply
|}.

(** ** Properties *)

#[export] Instance ToolCallState_lawful : LawfulMachine ToolCallState.
Proof.
  intros []; cbn; split; try done; try (by intros _ []); intros H;
    by specialize (H ToolCallState_Cancelled).
Qed.

(** The states a call can only be in after it was sent to the effector. *)
Definition past_dispatch (s : ToolCallState) : bool :=
  match s with
  | ToolCallState_Dispatched | ToolCallState_Streaming
  | ToolCallState_Succeeded | ToolCallState_UnknownOutcome => true
  | _ => false
  end.

(** What every projected tool call satisfies: the completion time is there
    exactly in a terminal state, a call past dispatch has a dispatch time, a
    read-only call has no unknown outcome, and an outcome is unknown exactly
    when there is a reason. *)
Definition toolcall_inv (c : ToolCall) : Prop :=
  (is_terminal (tc_state c) = true ↔ is_Some (tc_completed_at c)) ∧
  (past_dispatch (tc_state c) = true → is_Some (tc_dispatched_at c)) ∧
  (tc_effect_class c = EffectClass_ReadOnly → tc_state c ≠ ToolCallState_UnknownOutcome) ∧
  (tc_state c = ToolCallState_UnknownOutcome ↔ is_Some (tc_unknown_outcome_reason c)) ∧
  tc_state c ≠ ToolCallState_Streaming.

Lemma toolcall_inv_create id ev at_ c : ToolCall_create id ev at_ = Ok c → toolcall_inv c.
Proof.
  destruct ev; intros; simplify_eq/=. unfold toolcall_inv; cbn.
  repeat split; try done; by intros [].
Qed.

(** The state an event moves the call to; [None] for the two that move none. *)
Definition toolcall_target (ev : ToolCallEvent) : option ToolCallState :=
  match ev with
  | ToolCallProposed _ _ _ _ _ _ _ _ _ _ _ | EffectReceiptAppended _ => None
  | ToolCallValidated => Some ToolCallState_Validated
  | ToolCallPolicyDecision true _ _ _ => Some ToolCallState_PolicyChecked
  | ToolCallPolicyDecision false _ true _ => Some ToolCallState_ApprovalPending
  | ToolCallPolicyDecision false _ false _ => Some ToolCallState_Failed
  | ToolCallApprovalRequested _ _ => Some ToolCallState_ApprovalPending
  | ToolCallDispatched => Some ToolCallState_Dispatched
  | ToolCallSucceeded _ => Some ToolCallState_Succeeded
  | ToolCallFailed _ _ => Some ToolCallState_Failed
  | ToolCallCancelled => Some ToolCallState_Cancelled
  | ToolCallUnknownOutcome _ => Some ToolCallState_UnknownOutcome
  end.

(** What an accepted event does to the fields the properties speak of. *)
Lemma toolcall_apply_ok c ev at_ c' :
  ToolCall_apply ev at_ c = (c', Ok tt) →
  tc_effect_class c' = tc_effect_class c ∧
  tc_generation c' = wrap64 (tc_generation c + 1) ∧
  match toolcall_target ev with
  | None =>
      past_dispatch (tc_state c) = true ∧ tc_state c' = tc_state c ∧
      tc_dispatched_at c' = tc_dispatched_at c ∧ tc_completed_at c' = tc_completed_at c ∧
      tc_unknown_outcome_reason c' = tc_unknown_outcome_reason c
  | Some to =>
      can_transition (tc_state c) to = true ∧ tc_state c' = to ∧
      tc_dispatched_at c' = (if decide (to = ToolCallState_Dispatched) then Some at_
                             else tc_dispatched_at c) ∧
      tc_completed_at c' = (if is_terminal to then Some at_ else tc_completed_at c) ∧
      (if decide (to = ToolCallState_UnknownOutcome)
       then tc_effect_class c ≠ EffectClass_ReadOnly ∧ is_Some (tc_unknown_outcome_reason c')
       else tc_unknown_outcome_reason c' = tc_unknown_outcome_reason c)
  end.
Proof.
  destruct c as [? ? ? ? ? ef ? ? st ? da ca ? un ? ? ? ? ? ?]. intros H.
  unfold ToolCall_apply in H. se_run H. cbn.
  destruct ev as [| |[] ? []| | | | | | |]; cbn in *;
    se_cases H; try discriminate H; injection H as <-; cbn; split_and!; eauto;
    case_decide; naive_solver.
Qed.

Lemma toolcall_inv_apply c ev at_ c' :
  toolcall_inv c → ToolCall_apply ev at_ c = (c', Ok tt) → toolcall_inv c'.
Proof.
  unfold toolcall_inv. intros (H1 & H2 & H3 & H4 & H5) (Ee & _ & H)%toolcall_apply_ok.
  destruct (toolcall_target ev) as [to|] eqn:Et.
  - destruct H as (Hc & -> & -> & -> & Hu). rewrite Ee.
    assert (to ≠ ToolCallState_Streaming) by (by destruct ev as [| |[] ? []| | | | | | |]; simplify_eq/=).
    assert (is_terminal (tc_state c) = false) as Hnt.
    { destruct (is_terminal (tc_state c)) eqn:Ht; [|done].
      by destruct (terminal_no_step _ to Ht). }
    rewrite Hnt in H1. clear ev Et Ee.
    destruct (tc_state c) eqn:Es, to; try done; cbn in *; repeat case_decide; simplify_eq;
      intuition eauto; rewrite Hu in *; naive_solver.
  - destruct H as (Hp & -> & -> & -> & ->). by rewrite Ee.
Qed.

(** A call that reached [PolicyChecked] or went past dispatch has an allowing
    decision among the events seen. *)
Definition toolcall_allowed (pre : list (stored ToolCallEvent)) (c : ToolCall) : Prop :=
  tc_state c = ToolCallState_PolicyChecked ∨ past_dispatch (tc_state c) = true →
  ∃ e d r a, e ∈ pre ∧ st_event e = ToolCallPolicyDecision true d r a.

Lemma toolcall_allowed_create id ev c :
  ToolCall_create id (st_event ev) (st_at ev) = Ok c → toolcall_allowed [ev] c.
Proof.
  unfold toolcall_allowed. destruct (st_event ev); intros; simplify_eq/=. naive_solver.
Qed.

Lemma toolcall_target_checked ev :
  toolcall_target ev = Some ToolCallState_PolicyChecked →
  ∃ d r a, ev = ToolCallPolicyDecision true d r a.
Proof. destruct ev as [| |[] ? []| | | | | | |]; intros; simplify_eq/=; by do 3 eexists. Qed.

Lemma past_dispatch_step s t :
  can_transition s t = true → past_dispatch t = true →
  s = ToolCallState_PolicyChecked ∨ past_dispatch s = true.
Proof. destruct s, t; cbn; intros; simplify_eq; auto. Qed.

Lemma toolcall_allowed_apply pre c ev c' :
  toolcall_allowed pre c → ToolCall_apply (st_event ev) (st_at ev) c = (c', Ok tt) →
  toolcall_allowed (pre ++ [ev]) c'.
Proof.
  unfold toolcall_allowed. intros Hc (_ & _ & H)%toolcall_apply_ok Hs.
  assert ((tc_state c = ToolCallState_PolicyChecked ∨ past_dispatch (tc_state c) = true) ∨
          ∃ d r a, st_event ev = ToolCallPolicyDecision true d r a) as [Hx|(d & r & a & Hx)].
  - destruct (toolcall_target (st_event ev)) as [to|] eqn:Et; [|left; right; apply H].
    destruct H as (Hcan & Hst & _). rewrite Hst in Hs. destruct Hs as [->|Hs].
    + right. by apply toolcall_target_checked.
    + left. by apply (past_dispatch_step _ to).
  - destruct (Hc Hx) as (e & d & r & a & He & ?).
    exists e, d, r, a. split; [|done]. apply elem_of_app. auto.
  - exists ev, d, r, a. split; [|done]. apply elem_of_app. right. apply list_elem_of_singleton. done.
Qed.

(** Every tool call the store projects from a numbered log satisfies the
    lifecycle invariant: it has a completion time exactly when its state is
    terminal, a dispatch time when it is past dispatch, an unknown outcome only
    when the tool is not read-only and exactly when a reason is recorded; and no
    event ever brings it to [Streaming]. *)
Theorem toolcall_projection_invariant id log c :
  numbered 1 log → project_log id None log = Ok (Some c) → toolcall_inv c.
Proof.
  apply project_invariant.
  - intros ev at_ a. apply toolcall_inv_create.
  - intros a ev at_ a'. apply toolcall_inv_apply.
Qed.

(** A tool call is dispatched only after policy allowed it: in a log the
    store accepts, every [ToolCallDispatched] comes after a
    [ToolCallPolicyDecision] with [allowed] set. *)
Theorem toolcall_dispatch_needs_policy id l1 d l2 (c : ToolCall) :
  numbered 1 (l1 ++ d :: l2) →
  project_log id None (l1 ++ d :: l2) = Ok (Some c) →
  st_event d = ToolCallDispatched →
  ∃ e dec req auth, e ∈ l1 ∧ st_event e = ToolCallPolicyDecision true dec req auth.
Proof.
  intros Hn Hp Hd. destruct (project_log_inv _ _ _ Hn Hp) as (ev & l & a & El & Hc & Ha).
  destruct l1 as [|ev' l1]; simplify_eq/=.
  - rewrite Hd in Hc. done.
  - apply applied_app in Ha as (b & Hb & Hr). inv Hr as [|? b' ? ? ? Hstep _].
    assert (toolcall_allowed ([ev] ++ l1) b) as Hal.
    { apply (applied_history toolcall_allowed [ev] a l1 b);
        eauto using toolcall_allowed_create, toolcall_allowed_apply. }
    cbn in Hstep. rewrite Hd in Hstep. apply toolcall_apply_ok in Hstep as (_ & _ & Hcan & _).
    apply Hal. left. by destruct (tc_state b).
Qed.

(** Nothing is retried after the end: in a terminal state every event is
    refused, and the refusal leaves the state, the generation, the times and the
    result as they were. *)
Theorem toolcall_terminal_final c ev at_ :
  is_terminal (tc_state c) = true →
  ∃ c' e, ToolCall_apply ev at_ c = (c', Err e) ∧
    tc_state c' = tc_state c ∧ tc_generation c' = tc_generation c ∧
    tc_dispatched_at c' = tc_dispatched_at c ∧ tc_completed_at c' = tc_completed_at c ∧
    tc_result_ref c' = tc_result_ref c.
Proof.
  destruct c as [? ? ? ? ? ef ? ? st ? da ca ? un ? ? ? ? ? ?]. intros Ht.
  destruct ev as [| |[] ? []| | | | | | |]; destruct st; try discriminate Ht; try destruct ef;
    cbn; do 2 eexists; repeat split.
Qed.

(** Worked examples. *)
Definition toolcall_log (allowed : bool) : list (stored ToolCallEvent) :=
  [ Stored 1 (ToolCallProposed 1 None "fs.write" "1" EffectClass_ReversibleWrite None "h"
                None None None None) 1;
    Stored 2 ToolCallValidated 2;
    Stored 3 (ToolCallPolicyDecision allowed "d" false None) 3;
    Stored 4 ToolCallDispatched 4;
    Stored 5 (ToolCallSucceeded "r") 5 ].

Example toolcall_log_denied : is_ok (project_log (A := ToolCall) 7 None (toolcall_log false)) = false.
Proof. by vm_compute. Qed.

Lemma toolcall_projection_invariant_witness :
  ∃ c, project_log 7 None (toolcall_log true) = Ok (Some c) ∧ toolcall_inv c.
Proof.
  eexists. split; [vm_compute; reflexivity|].
  apply (toolcall_projection_invariant 7 (toolcall_log true)); [repeat split|].
  vm_compute. reflexivity.
Defined.

Lemma toolcall_dispatch_needs_policy_witness :
  ∃ e dec req auth, e ∈ take 3 (toolcall_log true) ∧
    st_event e = ToolCallPolicyDecision true dec req auth.
Proof.
  eapply (toolcall_dispatch_needs_policy 7 (take 3 (toolcall_log true))
            (Stored 4 ToolCallDispatched 4) [Stored 5 (ToolCallSucceeded "r") 5]);
    [repeat split | vm_compute; reflexivity | reflexivity].
Defined.

Lemma toolcall_terminal_final_witness :
  ∃ c c' e, ToolCall_apply ToolCallDispatched 9 c = (c', Err e) ∧
    tc_state c = ToolCallState_Failed ∧ tc_state c' = ToolCallState_Failed.
Proof.
  destruct (ToolCall_create 7 (ToolCallProposed 1 None "fs.read" "1" EffectClass_ReadOnly None
              "h" None None None None) 1) as [c0|] eqn:E; [|discriminate E].
  pose (c := { c0 with tc_state := ToolCallState_Failed }).
  destruct (toolcall_terminal_final c ToolCallDispatched 9 eq_refl) as (c' & e & H & Hs & _).
  exists c, c', e. split; [exact H|]. split; [reflexivity|exact Hs].
Defined.
