(* ===== verification/Approval.v ===== *)
(** * Approvals

    [crates/domain/src/approval.rs]: an approval binds the intent of one tool
    call; it is asked for, resolved once, and authorizes one execution of that
    exact intent before its expiry. *)

From S2P Require Import Prelude RustStr StateMachine ToolCall.
#[local] Open Scope Z_scope.

Inductive ApprovalState :=
  | ApprovalState_Requested
  | ApprovalState_Approved
  | ApprovalState_Denied
  | ApprovalState_Expired.

#[export] Instance ApprovalState_eq_dec : EqDecision ApprovalState.
Proof. solve_decision. Defined.

Definition ApprovalState_can_transition (self to : ApprovalState) : bool :=
  match self, to with
  | ApprovalState_Requested,
      (ApprovalState_Approved | ApprovalState_Denied | ApprovalState_Expired) => true
  | _, _ => false
  end.

Definition ApprovalState_is_terminal (self : ApprovalState) : bool :=
  match self with ApprovalState_Requested => false | _ => true end.

Definition ApprovalState_debug (s : ApprovalState) : string :=
  match s with
  | ApprovalState_Requested => "Requested"
  | ApprovalState_Approved => "Approved"
  | ApprovalState_Denied => "Denied"
  | ApprovalState_Expired => "Expired"
  end.

#[export] Instance ApprovalState_machine : StateMachine ApprovalState := {|
  sm_aggregate := "Approval";
  can_transition := ApprovalState_can_transition;
  is_terminal := ApprovalState_is_terminal;
  sm_debug := ApprovalState_debug
|}.

Record Approval := {
  ap_approval_id : Z;
  ap_task_id : Z;
  ap_tool_call_id : Z;
  ap_tool_name : string;
  ap_effect_class : EffectClass;
  ap_intent_hash : string;
  ap_scope_json : string;
  ap_state : ApprovalState;
  ap_generation : Z;
  ap_requested_at : Z;
  ap_resolved_at : option Z;
  ap_resolver : option string;
  ap_expires_at : option Z;
  ap_consumed_at : option Z
}.

Inductive ApprovalEvent :=
  | ApprovalRequested (task_id tool_call_id : Z) (tool_name : string)
      (effect_class : EffectClass) (intent_hash scope_json : string) (expires_at : option Z)
  | ApprovalResolved (approved : bool) (resolver reason : string)
  | ApprovalExpired.

Definition ApprovalEvent_event_type (e : ApprovalEvent) : string :=
  match e with
  | ApprovalRequested _ _ _ _ _ _ _ => "ApprovalRequested"
  | ApprovalResolved _ _ _ => "ApprovalResolved"
  | ApprovalExpired => "ApprovalExpired"
  end.

(** [Approval::create]. *)
Definition Approval_create (id : Z) (event : ApprovalEvent) (at_ : Z)
    : result InvalidTransition Approval :=
  match event with
  | ApprovalRequested task_id tool_call_id tool_name effect_class intent_hash scope_json
      expires_at =>
      Ok {| ap_approval_id := id;
            ap_task_id := task_id;
            ap_tool_call_id := tool_call_id;
            ap_tool_name := tool_name;
            ap_effect_class := effect_class;
            ap_intent_hash := intent_hash;
            ap_scope_json := scope_json;
            ap_state := ApprovalState_Requested;
            ap_generation := 1;
            ap_requested_at := at_;
            ap_resolved_at := None;
            ap_resolver := None;
            ap_expires_at := expires_at;
            ap_consumed_at := None |}
  | other => Err {| it_aggregate := "Approval"; it_from := "<none>";
                    it_to := ApprovalEvent_event_type other |}
  end.

(** [Approval::apply]. The resolver is written before the transition is
    checked, so a refused resolution still overwrites it. *)
Definition Approval_apply (event : ApprovalEvent) (at_ : Z)
    : SE Approval InvalidTransition unit :=
  self ← se_get;
  to ← match event with
       | ApprovalRequested _ _ _ _ _ _ _ =>
           se_err {| it_aggregate := "Approval";
                     it_from := ApprovalState_debug (ap_state self);
                     it_to := "ApprovalRequested" |}
       | ApprovalResolved approved resolver _ =>
           se_mod (λ a, { a with ap_resolver := Some resolver });;
           mret (if (approved : bool) then ApprovalState_Approved else ApprovalState_Denied)
       | ApprovalExpired => mret ApprovalState_Expired
       end;
  s ← se_lift (transition (ap_state self) to);
  se_mod (λ a, { a with ap_state := s;
                        ap_resolved_at := Some at_;
                        ap_generation ::= λ g, wrap64 (g + 1) }).

(** [Approval::is_consumed]. *)
Definition Approval_is_consumed (a : Approval) : bool :=
  bool_decide (ap_state a = ApprovalState_Approved) && bool_decide (is_Some (ap_consumed_at a)).

(** [Option::is_none_or(|e| now < e)]. *)
Definition unexpired (expires_at : option Z) (now : Z) : bool :=
  match expires_at with None => true | Some e => now <? e end.

(** [Approval::authorizes]. *)
Definition Approval_authorizes (a : Approval) (intent_hash : string) (now : Z) : bool :=
  bool_decide (ap_state a = ApprovalState_Approved) &&
  bool_decide (ap_consumed_at a = None) &&
  (ap_intent_hash a =s intent_hash) &&
  unexpired (ap_expires_at a) now.

#[export] Instance Approval_aggregate : Aggregate Approval ApprovalEvent := {|
  agg_create := Approval_create;
  agg_apply := Approval_apply
|}.

(** ** Properties *)

#[export] Instance ApprovalState_lawful : LawfulMachine ApprovalState.
Proof.
  intros []; cbn; split; try done; try (by intros _ []); intros H;
    by specialize (H ApprovalState_Expired).
Qed.

(** What an accepted event does. *)
Lemma approval_apply_ok a ev at_ a' :
  Approval_apply ev at_ a = (a', Ok tt) →
  ap_state a = ApprovalState_Requested ∧ ap_state a' ≠ ApprovalState_Requested ∧
  ap_resolved_at a' = Some at_ ∧
  ap_intent_hash a' = ap_intent_hash a ∧ ap_expires_at a' = ap_expires_at a ∧
  ap_consumed_at a' = ap_consumed_at a ∧
  (ap_state a' = ApprovalState_Approved →
     ∃ resolver reason, ev = ApprovalResolved true resolver reason ∧
       ap_resolver a' = Some resolver).
Proof.
  destruct a as [? ? ? ? ? ? ? st ? ? ? ? ? ?]. intros H. unfold Approval_apply in H. se_run H.
  destruct ev as [|[]|]; cbn in H; try discriminate H;
    destruct st; cbn in H; try discriminate H; injection H as <-; cbn;
    split_and!; try done; eauto.
Qed.

(** The request an approval was created from, and the events since. *)
Definition approval_history (log : list (stored ApprovalEvent)) (a : Approval) : Prop :=
  (∃ ev rest t c n e s x, log = ev :: rest ∧
     st_event ev = ApprovalRequested t c n e (ap_intent_hash a) s x ∧ x = ap_expires_at a) ∧
  ap_consumed_at a = None ∧
  (ap_state a = ApprovalState_Approved →
     ∃ ev resolver reason, ev ∈ log ∧ st_event ev = ApprovalResolved true resolver reason ∧
       ap_resolver a = Some resolver ∧ ap_resolved_at a = Some (st_at ev)).

Lemma approval_history_create id ev a :
  Approval_create id (st_event ev) (st_at ev) = Ok a → approval_history [ev] a.
Proof.
  destruct (st_event ev) eqn:E; cbn; intros; simplify_eq. split_and!; [|done..].
  do 8 eexists. split_and!; [done|exact E|done].
Qed.

Lemma approval_history_apply pre a ev a' :
  approval_history pre a → Approval_apply (st_event ev) (st_at ev) a = (a', Ok tt) →
  approval_history (pre ++ [ev]) a'.
Proof.
  intros ((e0 & rest & t & c & n & e & s & x & -> & He & Hx) & Hc & _) Hap.
  destruct (approval_apply_ok _ _ _ _ Hap) as (_ & _ & Hr & Hi & Hex & Hco & Happ).
  rewrite <- Hi in He. rewrite <- Hex in Hx. split_and!.
  - exists e0, (rest ++ [ev]), t, c, n, e, s, x. done.
  - by rewrite Hco.
  - intros Hst. destruct (Happ Hst) as (rs & rn & Hev & Hrs).
    exists ev, rs, rn. split_and!; auto. apply elem_of_app. right. by apply list_elem_of_singleton.
Qed.

(** C26: an approval authorizes only what a person approved: if a projected
    approval authorizes [intent] at [now], then the log that made it starts with
    a request for exactly that intent, a later [ApprovalResolved] approved it,
    and [now] is before the expiry the request named. *)
Theorem approval_authorizes_sound id log a intent now :
  numbered 1 log → project_log id None log = Ok (Some a) →
  Approval_authorizes a intent now = true →
  (∃ ev rest t c n e s x, log = ev :: rest ∧
     st_event ev = ApprovalRequested t c n e intent s x ∧ unexpired x now = true) ∧
  (∃ ev resolver reason, ev ∈ log ∧ st_event ev = ApprovalResolved true resolver reason).
Proof.
  intros Hn Hp Hau.
  assert (approval_history log a) as ((ev & rest & t & c & n & e & s & x & -> & He & ->) & _ & Ha).
  { eapply (project_history approval_history); eauto using approval_history_create.
    intros. by eapply approval_history_apply. }
  unfold Approval_authorizes in Hau. bool_to_prop. subst. split.
  - do 8 eexists. split_and!; eauto.
  - destruct Ha as (ev' & rs & rn & ? & ? & _); [done|]. eauto.
Qed.

(** An approval is resolved at most once: once it is no longer requested,
    [apply] refuses every event and leaves the decision, its time and the bound
    intent unchanged. *)
Theorem approval_resolved_once a ev at_ :
  ap_state a ≠ ApprovalState_Requested →
  ∃ a' e, Approval_apply ev at_ a = (a', Err e) ∧ ap_state a' = ap_state a ∧
    ap_resolved_at a' = ap_resolved_at a ∧ ap_generation a' = ap_generation a ∧
    ∀ intent now, Approval_authorizes a' intent now = Approval_authorizes a intent now.
Proof.
  destruct a as [? ? ? ? ? ? ? st ? ? ? ? ? ?]; cbn. intros Hst.
  destruct ev as [|[]|], st; try done; cbn; do 2 eexists; split_and!; reflexivity.
Qed.

(** Worked examples. *)
Definition approval_log : list (stored ApprovalEvent) :=
  [ Stored 1 (ApprovalRequested 1 2 "git.worktree.close" EffectClass_Destructive "h1" "{}"
                (Some 100)) 1;
    Stored 2 (ApprovalResolved true "user" "ok") 3 ].

Lemma approval_authorizes_sound_witness :
  ∃ a, project_log 9 None approval_log = Ok (Some a) ∧
    Approval_authorizes a "h1" 50 = true ∧ Approval_authorizes a "h2" 50 = false ∧
    Approval_authorizes a "h1" 100 = false ∧
    ∃ ev resolver reason, ev ∈ approval_log ∧ st_event ev = ApprovalResolved true resolver reason.
Proof.
  eexists. split; [vm_compute; reflexivity|]. split_and!; [reflexivity..|].
  eapply (approval_authorizes_sound 9 approval_log _ "h1" 50);
    [repeat split|vm_compute; reflexivity|reflexivity].
Defined.

Lemma approval_resolved_once_witness :
  ∃ a a' e, ap_state a = ApprovalState_Denied ∧
    Approval_apply (ApprovalResolved true "user" "again") 7 a = (a', Err e) ∧
    ap_state a' = ApprovalState_Denied.
Proof.
  destruct (Approval_create 9 (ApprovalRequested 1 2 "t" EffectClass_Destructive "h" "{}" None) 1)
    as [a0|] eqn:E; [|discriminate E].
  pose (a := { a0 with ap_state := ApprovalState_Denied }).
  destruct (approval_resolved_once a (ApprovalResolved true "user" "again") 7)
    as (a' & e & H & Hs & _); [discriminate|].
  exists a, a', e. split; [reflexivity|]. split; [exact H|exact Hs].
Defined.
