(* ===== verification/Lease.v ===== *)
(** * Capability leases

    [crates/domain/src/lease.rs]: the authority a tool call must present. *)

From S2P Require Import Prelude RustStr StateMachine ToolCall Approval.
#[local] Open Scope Z_scope.

Inductive LeaseState :=
  | LeaseState_Active
  | LeaseState_Revoked.

#[export] Instance LeaseState_eq_dec : EqDecision LeaseState.
Proof. solve_decision. Defined.

Definition LeaseState_can_transition (self to : LeaseState) : bool :=
  match self, to with LeaseState_Active, LeaseState_Revoked => true | _, _ => false end.

Definition LeaseState_is_terminal (self : LeaseState) : bool :=
  match self with LeaseState_Revoked => true | _ => false end.

Definition LeaseState_debug (s : LeaseState) : string :=
  match s with LeaseState_Active => "Active" | LeaseState_Revoked => "Revoked" end.

#[export] Instance LeaseState_machine : StateMachine LeaseState := {|
  sm_aggregate := "CapabilityLease";
  can_transition := LeaseState_can_transition;
  is_terminal := LeaseState_is_terminal;
  sm_debug := LeaseState_debug
|}.

Record CapabilityLease := {
  cl_lease_id : Z;
  cl_tenant_id : Z;
  cl_task_id : Z;
  cl_agent_id : option string;
  cl_resources : list string;
  cl_operations : list string;
  cl_effect_ceiling : EffectClass;
  cl_execution_profile : string;
  cl_generation : Z;
  cl_state : LeaseState;
  cl_expires_at : option Z;
  cl_revoked_at : option Z;
  cl_revoke_reason : option string
}.

Inductive CapabilityLeaseEvent :=
  | CapabilityLeaseGranted (tenant_id task_id : Z) (agent_id : option string)
      (resources operations : list string) (effect_ceiling : EffectClass)
      (execution_profile : string) (generation : Z) (expires_at : option Z)
  | CapabilityLeaseRevoked (reason : string).

Definition CapabilityLeaseEvent_event_type (e : CapabilityLeaseEvent) : string :=
  match e with
  | CapabilityLeaseGranted _ _ _ _ _ _ _ _ _ => "CapabilityLeaseGranted"
  | CapabilityLeaseRevoked _ => "CapabilityLeaseRevoked"
  end.

(** [CapabilityLease::create]. *)
Definition CapabilityLease_create (id : Z) (event : CapabilityLeaseEvent) (_at : Z)
    : result InvalidTransition CapabilityLease :=
  match event with
  | CapabilityLeaseGranted tenant_id task_id agent_id resources operations effect_ceiling
      execution_profile generation expires_at =>
      Ok {| cl_lease_id := id;
            cl_tenant_id := tenant_id;
            cl_task_id := task_id;
            cl_agent_id := agent_id;
            cl_resources := resources;
            cl_operations := operations;
            cl_effect_ceiling := effect_ceiling;
            cl_execution_profile := execution_profile;
            cl_generation := generation;
            cl_state := LeaseState_Active;
            cl_expires_at := expires_at;
            cl_revoked_at := None;
            cl_revoke_reason := None |}
  | other => Err {| it_aggregate := "CapabilityLease"; it_from := "<none>";
                    it_to := CapabilityLeaseEvent_event_type other |}
  end.

(** [CapabilityLease::apply]. *)
Definition CapabilityLease_apply (event : CapabilityLeaseEvent) (at_ : Z)
    : SE CapabilityLease InvalidTransition unit :=
  self ← se_get;
  match event with
  | CapabilityLeaseGranted _ _ _ _ _ _ _ _ _ =>
      se_err {| it_aggregate := "CapabilityLease";
                it_from := LeaseState_debug (cl_state self);
                it_to := "CapabilityLeaseGranted" |}
  | CapabilityLeaseRevoked reason =>
      s ← se_lift (transition (cl_state self) LeaseState_Revoked);
      se_mod (λ l, { l with cl_state := s;
                            cl_revoked_at := Some at_;
                            cl_revoke_reason := Some reason })
  end.

(** [CapabilityLease::is_valid]. *)
Definition CapabilityLease_is_valid (l : CapabilityLease) (now : Z) : bool :=
  bool_decide (cl_state l = LeaseState_Active) && unexpired (cl_expires_at l) now.

(** [CapabilityLease::covers]. *)
Definition CapabilityLease_covers (l : CapabilityLease) (required : list string) : bool :=
  forallb (λ r, existsb (λ o, o =s r) (cl_operations l)) required.

#[export] Instance CapabilityLease_aggregate : Aggregate CapabilityLease CapabilityLeaseEvent := {|
  agg_create := CapabilityLease_create;
  agg_apply := CapabilityLease_apply
|}.

(** ** Properties *)

#[export] Instance LeaseState_lawful : LawfulMachine LeaseState.
Proof.
  intros []; cbn; split; try done; try (by intros _ []); intros H;
    by specialize (H LeaseState_Revoked).
Qed.

(** What a lease grants: everything the kernel reads besides the state. *)
Definition lease_grant (l : CapabilityLease) :=
  (cl_resources l, cl_operations l, cl_effect_ceiling l, cl_execution_profile l,
   cl_expires_at l, cl_generation l).

Lemma lease_apply_ok l ev at_ l' :
  CapabilityLease_apply ev at_ l = (l', Ok tt) →
  (∃ reason, ev = CapabilityLeaseRevoked reason) ∧
  cl_state l = LeaseState_Active ∧ cl_state l' = LeaseState_Revoked ∧
  lease_grant l' = lease_grant l.
Proof.
  destruct l as [? ? ? ? ? ? ? ? ? st ? ? ?]. intros H. unfold CapabilityLease_apply in H. se_run H.
  destruct ev; cbn in H; [discriminate H|].
  destruct st; cbn in H; [|discriminate H]. injection H as <-. eauto.
Qed.

Lemma lease_covers_true l required :
  CapabilityLease_covers l required = true ↔ ∀ r, r ∈ required → r ∈ cl_operations l.
Proof.
  unfold CapabilityLease_covers. rewrite forallb_true. split; intros H r Hr.
  - apply H in Hr. apply existsb_true in Hr as (o & Ho & E%String.eqb_eq). by subst.
  - apply existsb_true. exists r. split; [auto|]. apply String.eqb_refl.
Qed.

(** A lease never grows: the operations, resources, effect ceiling,
    profile, expiry and generation of a projected lease are those of the grant
    that opened its log, and once the log holds anything after the grant (a
    revocation is the only event accepted) the lease is valid at no time. *)
Theorem lease_grant_fixed id log l :
  numbered 1 log → project_log id None log = Ok (Some l) →
  ∃ ev rest t k a rs ops ceil prof gen exp,
    log = ev :: rest ∧
    st_event ev = CapabilityLeaseGranted t k a rs ops ceil prof gen exp ∧
    lease_grant l = (rs, ops, ceil, prof, exp, gen) ∧
    (rest ≠ [] → ∀ now, CapabilityLease_is_valid l now = false).
Proof.
  intros Hn Hp. destruct (project_log_inv _ _ _ Hn Hp) as (ev & rest & l0 & -> & Hc & Ha).
  assert (lease_grant l = lease_grant l0) as Hg.
  { apply (applied_preserved lease_grant l0 rest); [|done].
    by intros x e w x' (_ & _ & _ & Hx)%lease_apply_ok. }
  destruct (st_event ev) eqn:E; cbn in Hc; [|discriminate Hc]. injection Hc as <-.
  do 11 eexists. split_and!; [done|exact E|by rewrite Hg|].
  intros Hne now. unfold CapabilityLease_is_valid.
  rewrite bool_decide_eq_false_2; [done|].
  destruct rest as [|e1 rest]; [done|]. inv Ha as [|? l1 ? ? ? H1 H2].
  apply lease_apply_ok in H1 as (_ & _ & Hr & _).
  assert (cl_state l = LeaseState_Revoked) as ->; [|done].
  apply (applied_invariant (λ x, cl_state x = LeaseState_Revoked) l1 rest l); [|done..].
  intros x e w x' _ (_ & _ & Hx & _)%lease_apply_ok. done.
Qed.

Definition lease_log (revoked : bool) : list (stored CapabilityLeaseEvent) :=
  Stored 1 (CapabilityLeaseGranted 1 2 None ["fs.read:/repo/**"] ["fs.read"]
              EffectClass_ReadOnly "plan" 1 None) 1 ::
  if revoked then [Stored 2 (CapabilityLeaseRevoked "stop") 5] else [].

Lemma lease_grant_fixed_witness :
  ∃ l, project_log 3 None (lease_log true) = Ok (Some l) ∧
    cl_operations l = ["fs.read"] ∧ CapabilityLease_is_valid l 0 = false.
Proof.
  eexists. split; [vm_compute; reflexivity|]. split; [reflexivity|].
  edestruct (lease_grant_fixed 3 (lease_log true))
    as (ev & rest & t & k & a & rs & ops & ceil & prof & gen & exp & Hl & _ & _ & H);
    [repeat split|vm_compute; reflexivity|].
  apply H. injection Hl as _ <-. discriminate.
Defined.
