(* ===== verification/Step.v ===== *)
(** * Run steps

    [crates/domain/src/step.rs]: the typed atomic steps of a turn. *)

From S2P Require Import Prelude RustStr StateMachine.
#[local] Open Scope Z_scope.

Inductive VerificationStage :=
  | VerificationStage_Baseline
  | VerificationStage_Targeted
  | VerificationStage_Completion
  | VerificationStage_Rerun.

Inductive StepType :=
  | StepType_ContextCompile
  | StepType_ModelInvoke
  | StepType_ToolCall
  | StepType_ProcedureRun
  | StepType_ApprovalWait
  | StepType_Verification (stage : VerificationStage) (candidate_revision : string)
  | StepType_Checkpoint
  | StepType_Handoff
  | StepType_UserQuestion
  | StepType_Plan
  | StepType_RepairAttempt
  | StepType_SelfReview
  | StepType_RequestProfile
  | StepType_PlanCompile
  | StepType_ContinuationActivate
  | StepType_AcceptanceGate
  | StepType_Review
  | StepType_RealizedRisk
  | StepType_AccountingReconcile.

(** [StepType::is_effectful]. *)
Definition StepType_is_effectful (t : StepType) : bool :=
  match t with
  | StepType_ToolCall | StepType_ProcedureRun | StepType_Handoff => true
  | _ => false
  end.

Inductive StepState :=
  | StepState_Pending
  | StepState_Running
  | StepState_Succeeded
  | StepState_Failed
  | StepState_Cancelled
  | StepState_UnknownOutcome.

#[export] Instance StepState_eq_dec : EqDecision StepState.
Proof. solve_decision. Defined.

Definition StepState_can_transition (self to : StepState) : bool :=
  match self, to with
  | StepState_Pending, StepState_Running
  | StepState_Running, (StepState_Succeeded | StepState_Failed | StepState_UnknownOutcome)
  | (StepState_Pending | StepState_Running), StepState_Cancelled => true
  | _, _ => false
  end.

Definition StepState_is_terminal (self : StepState) : bool :=
  match self with StepState_Pending | StepState_Running => false | _ => true end.

Definition StepState_debug (s : StepState) : string :=
  match s with
  | StepState_Pending => "Pending"
  | StepState_Running => "Running"
  | StepState_Succeeded => "Succeeded"
  | StepState_Failed => "Failed"
  | StepState_Cancelled => "Cancelled"
  | StepState_UnknownOutcome => "UnknownOutcome"
  end.

#[export] Instance StepState_machine : StateMachine StepState := {|
  sm_aggregate := "RunStep";
  can_transition := StepState_can_transition;
  is_terminal := StepState_is_terminal;
  sm_debug := StepState_debug
|}.

Record RunStep := {
  rs_step_id : Z;
  rs_turn_id : Z;
  rs_step_type : StepType;
  rs_ordinal : Z;
  rs_state : StepState;
  rs_generation : Z;
  rs_input_ref : option string;
  rs_output_ref : option string;
  rs_failure_code : option string;
  rs_started_at : option Z;
  rs_ended_at : option Z
}.

Inductive StepEvent :=
  | StepScheduled (turn_id : Z) (step_type : StepType) (ordinal : Z) (input_ref : option string)
  | StepStarted
  | StepSucceeded (output_ref : option string)
  | StepFailed (failure_code : string) (output_ref : option string)
  | StepCancelled
  | StepUnknownOutcome (reason : string).

Definition StepEvent_event_type (e : StepEvent) : string :=
  match e with
  | StepScheduled _ _ _ _ => "StepScheduled"
  | StepStarted => "StepStarted"
  | StepSucceeded _ => "StepSucceeded"
  | StepFailed _ _ => "StepFailed"
  | StepCancelled => "StepCancelled"
  | StepUnknownOutcome _ => "StepUnknownOutcome"
  end.

(** [RunStep::create]. *)
Definition RunStep_create (step_id : Z) (event : StepEvent) (_at : Z)
    : result InvalidTransition RunStep :=
  match event with
  | StepScheduled turn_id step_type ordinal input_ref =>
      Ok {| rs_step_id := step_id;
            rs_turn_id := turn_id;
            rs_step_type := step_type;
            rs_ordinal := ordinal;
            rs_state := StepState_Pending;
            rs_generation := 1;
            rs_input_ref := input_ref;
            rs_output_ref := None;
            rs_failure_code := None;
            rs_started_at := None;
            rs_ended_at := None |}
  | other => Err {| it_aggregate := "RunStep"; it_from := "<none>";
                    it_to := StepEvent_event_type other |}
  end.

Section apply.
(** The [Debug] text of a step type appears in one error message; it is the
    derived formatter of a type with string fields. *)
Context (step_type_debug : StepType → string).

(** [RunStep::apply]. *)
Definition RunStep_apply (event : StepEvent) (at_ : Z) : SE RunStep InvalidTransition unit :=
  self ← se_get;
  to ← match event with
       | StepScheduled _ _ _ _ =>
           se_err {| it_aggregate := "RunStep"; it_from := StepState_debug (rs_state self);
                     it_to := "StepScheduled" |}
       | StepStarted => mret StepState_Running
       | StepSucceeded output_ref =>
           _ ← se_lift (transition (rs_state self) StepState_Succeeded);
           se_mod (λ s, { s with rs_output_ref := output_ref });;
           mret StepState_Succeeded
       | StepFailed failure_code output_ref =>
           _ ← se_lift (transition (rs_state self) StepState_Failed);
           se_mod (λ s, { s with rs_failure_code := Some failure_code;
                                 rs_output_ref := output_ref });;
           mret StepState_Failed
       | StepCancelled => mret StepState_Cancelled
       | StepUnknownOutcome reason =>
           if StepType_is_effectful (rs_step_type self) then
             _ ← se_lift (transition (rs_state self) StepState_UnknownOutcome);
             se_mod (λ s, { s with rs_failure_code := Some ("UNKNOWN_OUTCOME:" +:+ reason) });;
             mret StepState_UnknownOutcome
           else
             se_err {| it_aggregate := "RunStep";
                       it_from := StepState_debug (rs_state self) +:+ " (" +:+
                                  step_type_debug (rs_step_type self) +:+ ")";
                       it_to := "UnknownOutcome (only effectful steps)" |}
       end;
  s ← se_lift (transition (rs_state self) to);
  se_mod (λ x, { x with rs_state := s });;
  match to with
  | StepState_Running => se_mod (λ x, { x with rs_started_at := Some at_ })
  | _ => mret tt
  end;;
  (if is_terminal to then se_mod (λ x, { x with rs_ended_at := Some at_ }) else mret tt);;
  se_mod (λ x, { x with rs_generation ::= λ g, wrap64 (g + 1) }).

#[export] Instance RunStep_aggregate : Aggregate RunStep StepEvent := {|
  agg_create := RunStep_create;
  agg_apply := RunStep_apply
|}.

(** ** Properties *)

#[export] Instance StepState_lawful : LawfulMachine StepState.
Proof.
  intros []; cbn; split; try done; try (by intros _ []); intros H;
    by specialize (H StepState_Cancelled).
Qed.

(** A step ended exactly when its state is terminal, ran when it has an outcome
    of its own, and its outcome is unknown only when it is effectful. *)
Definition step_inv (s : RunStep) : Prop :=
  (is_terminal (rs_state s) = true ↔ is_Some (rs_ended_at s)) ∧
  (rs_state s = StepState_Pending → rs_started_at s = None) ∧
  (rs_state s ∈ [StepState_Running; StepState_Succeeded; StepState_Failed;
                 StepState_UnknownOutcome] → is_Some (rs_started_at s)) ∧
  (rs_state s = StepState_UnknownOutcome → StepType_is_effectful (rs_step_type s) = true) ∧
  (rs_state s ∈ [StepState_Failed; StepState_UnknownOutcome] ↔ is_Some (rs_failure_code s)).

Lemma step_inv_create id ev at_ s : RunStep_create id ev at_ = Ok s → step_inv s.
Proof.
  destruct ev; cbn; intros; simplify_eq. unfold step_inv; cbn.
  split_and!; try done; try (split; [set_solver|by intros []]). set_solver.
Qed.

Lemma step_inv_apply s ev at_ s' :
  step_inv s → RunStep_apply ev at_ s = (s', Ok tt) → step_inv s'.
Proof.
  destruct s as [? ? ty ? st ? ? ? fc sa ea]. unfold step_inv; cbn.
  intros (H1 & H2 & H3 & H4 & H5) H. unfold RunStep_apply in H. se_run H.
  destruct ev, st; cbn in H; try discriminate H; try (destruct (StepType_is_effectful ty) eqn:?);
    try discriminate H; injection H as <-; cbn; split_and!; try done;
    try (split; [set_solver || eauto|intros [? ?]; set_solver]); set_solver.
Qed.

(** Every run step the store projects satisfies the lifecycle invariant;
    in particular an outcome is unknown only for an effectful step (a tool call,
    a procedure, a handoff), and a failure code is recorded exactly for a failed
    or unknown outcome. *)
Theorem step_projection_invariant id log s :
  numbered 1 log → project_log id None log = Ok (Some s) → step_inv s.
Proof.
  apply project_invariant; [apply step_inv_create|].
  intros a ev at_ a'. apply step_inv_apply.
Qed.

(** A refused step event changes nothing. *)
Theorem step_apply_atomic s ev at_ s' e : RunStep_apply ev at_ s = (s', Err e) → s' = s.
Proof.
  destruct s as [? ? ty ? st ? ? ? fc sa ea]. intros H. unfold RunStep_apply in H. se_run H.
  destruct ev, st; cbn in H; try (destruct (StepType_is_effectful ty) eqn:?);
    try discriminate H; by injection H.
Qed.

End apply.

Definition step_log (kind : StepType) : list (stored StepEvent) :=
  [ Stored 1 (StepScheduled 5 kind 1 None) 1; Stored 2 StepStarted 2;
    Stored 3 (StepUnknownOutcome "transport lost") 3 ].

Lemma step_projection_invariant_witness :
  let debug := λ _, "ToolCall" in
  ∃ s, project_log (H := RunStep_aggregate debug) 4 None (step_log StepType_ToolCall)
         = Ok (Some s) ∧ step_inv s ∧ rs_state s = StepState_UnknownOutcome.
Proof.
  eexists. split; [vm_compute; reflexivity|]. split; [|reflexivity].
  eapply (step_projection_invariant (λ _, "ToolCall") 4 (step_log StepType_ToolCall));
    [repeat split|vm_compute; reflexivity].
Defined.

Definition idle_step : RunStep :=
  {| rs_step_id := 4; rs_turn_id := 5; rs_step_type := StepType_ContextCompile; rs_ordinal := 1;
     rs_state := StepState_Running; rs_generation := 2; rs_input_ref := None;
     rs_output_ref := None; rs_failure_code := None; rs_started_at := Some 2;
     rs_ended_at := None |}.

Lemma step_apply_atomic_witness :
  ∃ e, RunStep_apply (λ _, "ContextCompile") (StepUnknownOutcome "x") 3 idle_step
       = (idle_step, Err e).
Proof.
  destruct (RunStep_apply (λ _, "ContextCompile") (StepUnknownOutcome "x") 3 idle_step)
    as [s' [[]|e]] eqn:H; [discriminate H|].
  exists e. by rewrite <- (step_apply_atomic _ _ _ _ _ _ H).
Defined.
