(* ===== verification/Turn.v ===== *)
(** * Turns

    [crates/domain/src/turn.rs]: one model interaction cycle, with its repair
    loop back to streaming. *)

From S2P Require Import Prelude RustStr External StateMachine.
#[local] Open Scope Z_scope.

Inductive TurnState :=
  | TurnState_Prepared
  | TurnState_Streaming
  | TurnState_Executing
  | TurnState_Verifying
  | TurnState_Completed
  | TurnState_Interrupted
  | TurnState_Failed.

#[export] Instance TurnState_eq_dec : EqDecision TurnState.
Proof. solve_decision. Defined.

Definition TurnState_can_transition (self to : TurnState) : bool :=
  match self, to with
  | TurnState_Prepared, TurnState_Streaming
  | TurnState_Streaming, TurnState_Executing
  | TurnState_Streaming, TurnState_Verifying
  | TurnState_Executing, TurnState_Streaming
  | TurnState_Executing, TurnState_Verifying
  | TurnState_Verifying, TurnState_Completed
  | TurnState_Verifying, TurnState_Streaming
  | (TurnState_Prepared | TurnState_Streaming | TurnState_Executing | TurnState_Verifying),
      (TurnState_Interrupted | TurnState_Failed) => true
  | _, _ => false
  end.

Definition TurnState_is_terminal (self : TurnState) : bool :=
  match self with
  | TurnState_Completed | TurnState_Interrupted | TurnState_Failed => true
  | _ => false
  end.

Definition TurnState_debug (s : TurnState) : string :=
  match s with
  | TurnState_Prepared => "Prepared"
  | TurnState_Streaming => "Streaming"
  | TurnState_Executing => "Executing"
  | TurnState_Verifying => "Verifying"
  | TurnState_Completed => "Completed"
  | TurnState_Interrupted => "Interrupted"
  | TurnState_Failed => "Failed"
  end.

#[export] Instance TurnState_machine : StateMachine TurnState := {|
  sm_aggregate := "Turn";
  can_transition := TurnState_can_transition;
  is_terminal := TurnState_is_terminal;
  sm_debug := TurnState_debug
|}.

#[export] Instance TurnState_lawful : LawfulMachine TurnState.
Proof.
  intros []; cbn; split; try done; try (by intros _ []); intros H;
    by specialize (H TurnState_Failed).
Qed.

Definition turn_invalid (from : TurnState) (to : string) : InvalidTransition :=
  {| it_aggregate := "Turn"; it_from := TurnState_debug from; it_to := to |}.

Section turn.
Context {J : Json}.

Record Turn := {
  tu_turn_id : Z;
  tu_run_id : Z;
  tu_ordinal : Z;
  tu_state : TurnState;
  tu_model_route : option Value;
  tu_tool_projection_hash : option string;
  tu_context_pack_id : option string;
  tu_generation : Z;
  tu_started_at : Z;
  tu_ended_at : option Z
}.

Inductive TurnEvent :=
  | TurnPrepared (run_id ordinal plan_version : Z)
  | ContextPackCompiled (context_pack_id : string)
  | ToolProjectionSelected (tool_projection_hash : string) (projected withheld : list string)
      (leg_role mode : string) (projected_bytes requested_bytes max_projection_bytes : Z)
      (dropped : list string)
  | ModelInvocationStarted (model_route : Value)
  | ModelUsageRecorded (input_tokens output_tokens cached_input_tokens : Z) (route : Value)
      (reported : bool)
  | ModelInvocationCompleted (requested_actions : bool)
  | TurnVerifying
  | TurnCompleted
  | TurnInterrupted
  | TurnFailed (failure_code : string).

Definition TurnEvent_event_type (e : TurnEvent) : string :=
  match e with
  | TurnPrepared _ _ _ => "TurnPrepared"
  | ContextPackCompiled _ => "ContextPackCompiled"
  | ToolProjectionSelected _ _ _ _ _ _ _ _ _ => "ToolProjectionSelected"
  | ModelInvocationStarted _ => "ModelInvocationStarted"
  | ModelUsageRecorded _ _ _ _ _ => "ModelUsageRecorded"
  | ModelInvocationCompleted _ => "ModelInvocationCompleted"
  | TurnVerifying => "TurnVerifying"
  | TurnCompleted => "TurnCompleted"
  | TurnInterrupted => "TurnInterrupted"
  | TurnFailed _ => "TurnFailed"
  end.

(** [Turn::create]. *)
Definition Turn_create (turn_id : Z) (event : TurnEvent) (at_ : Z)
    : result InvalidTransition Turn :=
  match event with
  | TurnPrepared run_id ordinal _ =>
      Ok {| tu_turn_id := turn_id;
            tu_run_id := run_id;
            tu_ordinal := ordinal;
            tu_state := TurnState_Prepared;
            tu_model_route := None;
            tu_tool_projection_hash := None;
            tu_context_pack_id := None;
            tu_generation := 1;
            tu_started_at := at_;
            tu_ended_at := None |}
  | other => Err {| it_aggregate := "Turn"; it_from := "<none>";
                    it_to := TurnEvent_event_type other |}
  end.

(** [Turn::apply]. *)
Definition Turn_apply (event : TurnEvent) (at_ : Z) : SE Turn InvalidTransition unit :=
  self ← se_get;
  next ← match event with
         | TurnPrepared _ _ _ => se_err (turn_invalid (tu_state self) "TurnPrepared")
         | ContextPackCompiled context_pack_id =>
             match tu_state self with
             | TurnState_Prepared =>
                 se_mod (λ t, { t with tu_context_pack_id := Some context_pack_id });; mret None
             | _ => se_err (turn_invalid (tu_state self) "ContextPackCompiled")
             end
         | ToolProjectionSelected tool_projection_hash _ _ _ _ _ _ _ _ =>
             match tu_state self with
             | TurnState_Prepared =>
                 se_mod (λ t, { t with tu_tool_projection_hash := Some tool_projection_hash });;
                 mret None
             | _ => se_err (turn_invalid (tu_state self) "ToolProjectionSelected")
             end
         | ModelInvocationStarted model_route =>
             _ ← se_lift (transition (tu_state self) TurnState_Streaming);
             se_mod (λ t, { t with tu_model_route := Some model_route });;
             mret (Some TurnState_Streaming)
         | ModelUsageRecorded _ _ _ _ _ =>
             match tu_state self with
             | TurnState_Streaming | TurnState_Executing => mret None
             | _ => se_err (turn_invalid (tu_state self) "ModelUsageRecorded")
             end
         | ModelInvocationCompleted requested_actions =>
             mret (Some (if (requested_actions : bool) then TurnState_Executing
                         else TurnState_Verifying))
         | TurnVerifying => mret (Some TurnState_Verifying)
         | TurnCompleted => mret (Some TurnState_Completed)
         | TurnInterrupted => mret (Some TurnState_Interrupted)
         | TurnFailed _ => mret (Some TurnState_Failed)
         end;
  match next with
  | Some to =>
      s ← se_lift (transition (tu_state self) to);
      se_mod (λ t, { t with tu_state := s });;
      (if is_terminal to then se_mod (λ t, { t with tu_ended_at := Some at_ }) else mret tt)
  | None => mret tt
  end;;
  se_mod (λ t, { t with tu_generation ::= λ g, wrap64 (g + 1) }).

#[export] Instance Turn_aggregate : Aggregate Turn TurnEvent := {|
  agg_create := Turn_create;
  agg_apply := Turn_apply
|}.

(** ** Properties *)

(** A turn ended exactly in a terminal state; a turn that ever streamed has a
    model route; a completed one was streamed and verified. *)
Definition turn_inv (t : Turn) : Prop :=
  (is_terminal (tu_state t) = true ↔ is_Some (tu_ended_at t)) ∧
  (tu_state t = TurnState_Prepared → tu_model_route t = None) ∧
  (tu_state t ∈ [TurnState_Streaming; TurnState_Executing; TurnState_Verifying;
                 TurnState_Completed] → is_Some (tu_model_route t)).

Lemma turn_inv_create id ev at_ t : Turn_create id ev at_ = Ok t → turn_inv t.
Proof.
  destruct ev; cbn; intros; simplify_eq. unfold turn_inv; cbn. split_and!; [|done|set_solver].
  split; [done|by intros []].
Qed.

Lemma turn_inv_apply t ev at_ t' :
  turn_inv t → Turn_apply ev at_ t = (t', Ok tt) → turn_inv t'.
Proof.
  destruct t as [? ? ? st mr ? ? ? ? ea]. unfold turn_inv; cbn.
  intros (H1 & H2 & H3) H. unfold Turn_apply in H. se_run H.
  destruct ev as [| | | | |[]| | | |], st; cbn in H; try discriminate H;
    injection H as <-; cbn; split_and!; try done;
    try (split; [eauto|done]); try set_solver; eauto.
Qed.

(** Every turn the store projects satisfies the lifecycle invariant: it
    ended exactly in a terminal state, and it has a model route in every state
    after streaming began. *)
Theorem turn_projection_invariant id log t :
  numbered 1 log → project_log id None log = Ok (Some t) → turn_inv t.
Proof.
  apply project_invariant; [apply turn_inv_create|].
  intros a ev at_ a'. apply turn_inv_apply.
Qed.

(** The context pack and the tool projection of a turn are frozen when the
    model is invoked: from the moment a turn left [Prepared], no accepted
    sequence of events changes either, it never becomes prepared again, and a
    late context pack is refused without a trace. *)
Theorem turn_inputs_frozen t log t' :
  tu_state t ≠ TurnState_Prepared → applied t log t' →
  tu_context_pack_id t' = tu_context_pack_id t ∧
  tu_tool_projection_hash t' = tu_tool_projection_hash t ∧
  tu_state t' ≠ TurnState_Prepared ∧
  ∀ pack at_, ∃ e, Turn_apply (ContextPackCompiled pack) at_ t' = (t', Err e).
Proof.
  intros Hne Hap.
  assert (tu_context_pack_id t' = tu_context_pack_id t ∧
          tu_tool_projection_hash t' = tu_tool_projection_hash t ∧
          tu_state t' ≠ TurnState_Prepared) as (? & ? & Hst).
  2: { split_and!; [done..|]. intros pack at_. clear -Hst.
       destruct t' as [? ? ? st ? ? ? ? ? ?]. cbn in Hst. destruct st; try done; eexists; reflexivity. }
  induction Hap as [t|t u t' ev log Hx Hap IH]; [done|].
  assert (tu_context_pack_id u = tu_context_pack_id t ∧
          tu_tool_projection_hash u = tu_tool_projection_hash t ∧
          tu_state u ≠ TurnState_Prepared) as (<- & <- & Hu); [|by apply IH].
  clear IH Hap. destruct t as [? ? ? st mr ? ? ? ? ea]. cbn in *. unfold Turn_apply in Hx.
  se_run Hx. destruct (st_event ev) as [| | | | |[]| | | |], st; cbn in Hx; try done;
    injection Hx as <-; done.
Qed.

(** A refused turn event changes nothing. *)
Theorem turn_apply_atomic t ev at_ t' e : Turn_apply ev at_ t = (t', Err e) → t' = t.
Proof.
  destruct t as [? ? ? st mr ? ? ? ? ea]. intros H. unfold Turn_apply in H. se_run H.
  destruct ev as [| | | | |[]| | | |], st; cbn in H; try discriminate H; by injection H.
Qed.

End turn.

Definition turn_log {J : Json} (v : Value) : list (stored TurnEvent) :=
  [ Stored 1 (TurnPrepared 5 1 0) 1; Stored 2 (ContextPackCompiled "cp1") 2;
    Stored 3 (ModelInvocationStarted v) 3; Stored 4 (ModelInvocationCompleted true) 4;
    Stored 5 (ModelInvocationStarted v) 5; Stored 6 (ModelInvocationCompleted false) 6;
    Stored 7 TurnCompleted 7 ].

Lemma turn_projection_invariant_witness :
  ∃ t, project_log (A := @Turn Example.json) 4 None (turn_log (J := Example.json) (json_of_str "x")) = Ok (Some t) ∧
    turn_inv t ∧ tu_state t = TurnState_Completed.
Proof.
  eexists. split; [vm_compute; reflexivity|]. split; [|reflexivity].
  eapply (turn_projection_invariant (J := Example.json) 4 (turn_log (J := Example.json) (json_of_str "x")));
    [repeat split|vm_compute; reflexivity].
Defined.

Definition streaming_turn : @Turn Example.json :=
  {| tu_turn_id := 4; tu_run_id := 5; tu_ordinal := 1; tu_state := TurnState_Streaming;
     tu_model_route := Some (json_of_str "m"); tu_tool_projection_hash := Some "h";
     tu_context_pack_id := Some "cp1"; tu_generation := 3; tu_started_at := 1;
     tu_ended_at := None |}.

Lemma turn_inputs_frozen_witness :
  ∃ t', applied streaming_turn [Stored 4 TurnInterrupted 8] t' ∧
    tu_context_pack_id t' = Some "cp1".
Proof.
  eexists. split.
  - eapply applied_cons; [vm_compute; reflexivity|constructor].
  - apply (turn_inputs_frozen streaming_turn [Stored 4 TurnInterrupted 8]); [done|].
    eapply applied_cons; [vm_compute; reflexivity|constructor].
Defined.

Lemma turn_apply_atomic_witness :
  ∃ e, Turn_apply (ContextPackCompiled "late") 9 streaming_turn = (streaming_turn, Err e).
Proof.
  destruct (Turn_apply (ContextPackCompiled "late") 9 streaming_turn)
    as [t' [[]|e]] eqn:H; [discriminate H|].
  exists e. by rewrite <- (turn_apply_atomic _ _ _ _ _ H).
Defined.
