(* ===== verification/Task.v ===== *)
(** * Tasks

    [crates/domain/src/task.rs]: the aggregate every run of an agent belongs to.
    [TaskEvent] has every constructor of the source's enum; a constructor whose
    payload no modelled code reads stands without it. *)

From S2P Require Import Prelude RustStr StateMachine.
#[local] Open Scope Z_scope.

Inductive WaitReason :=
  | UserInput
  | Approval
  | Capacity
  | External
  | Provider
  | Paused.

#[export] Instance WaitReason_eq_dec : EqDecision WaitReason.
Proof. solve_decision. Defined.

Definition WaitReason_debug (r : WaitReason) : string :=
  match r with
  | UserInput => "UserInput"
  | Approval => "Approval"
  | Capacity => "Capacity"
  | External => "External"
  | Provider => "Provider"
  | Paused => "Paused"
  end.

Inductive TaskOrigin :=
  | Origin_Desktop
  | Origin_Cli
  | Origin_IdeAdapter
  | Origin_ForgeIssue
  | Origin_ForgeWebhook
  | Origin_Fork
  | Origin_Review
  | Origin_Subagent
  | Origin_Replay
  | Origin_Automation.

Inductive InputMode :=
  | Steer
  | Collect
  | FollowUp.

#[export] Instance InputMode_eq_dec : EqDecision InputMode.
Proof. solve_decision. Defined.

Inductive TaskState :=
  | TaskState_Created
  | TaskState_Queued
  | TaskState_Running
  | TaskState_Waiting (reason : WaitReason)
  | TaskState_ReadyForReview
  | TaskState_Completed
  | TaskState_Failed
  | TaskState_Cancelled.

#[export] Instance TaskState_eq_dec : EqDecision TaskState.
Proof. solve_decision. Defined.

Definition TaskState_can_transition (self to : TaskState) : bool :=
  match self, to with
  | TaskState_Created, TaskState_Queued
  | TaskState_Queued, TaskState_Running
  | TaskState_Running, TaskState_Waiting _
  | TaskState_Waiting _, TaskState_Running
  | TaskState_Running, TaskState_ReadyForReview
  | TaskState_ReadyForReview, TaskState_Completed
  | TaskState_ReadyForReview, TaskState_Running
  | (TaskState_Created | TaskState_Queued | TaskState_Running | TaskState_Waiting _
     | TaskState_ReadyForReview), (TaskState_Failed | TaskState_Cancelled) => true
  | _, _ => false
  end.

Definition TaskState_is_terminal (self : TaskState) : bool :=
  match self with
  | TaskState_Completed | TaskState_Failed | TaskState_Cancelled => true
  | _ => false
  end.

Definition TaskState_debug (s : TaskState) : string :=
  match s with
  | TaskState_Created => "Created"
  | TaskState_Queued => "Queued"
  | TaskState_Running => "Running"
  | TaskState_Waiting r => "Waiting(" +:+ WaitReason_debug r +:+ ")"
  | TaskState_ReadyForReview => "ReadyForReview"
  | TaskState_Completed => "Completed"
  | TaskState_Failed => "Failed"
  | TaskState_Cancelled => "Cancelled"
  end.

#[export] Instance TaskState_machine : StateMachine TaskState := {|
  sm_aggregate := "Task";
  can_transition := TaskState_can_transition;
  is_terminal := TaskState_is_terminal;
  sm_debug := TaskState_debug
|}.

#[export] Instance TaskState_lawful : LawfulMachine TaskState.
Proof.
  intros []; cbn; split; try done; try (by intros _ []); intros H;
    by specialize (H TaskState_Failed).
Qed.

Record Task := {
  ta_task_id : Z;
  ta_session_id : Z;
  ta_goal_text : string;
  ta_workspace_id : Z;
  ta_workspace_root : option string;
  ta_base_revision : option string;
  ta_execution_profile : string;
  ta_policy_profile_id : option string;
  ta_origin : TaskOrigin;
  ta_state : TaskState;
  ta_generation : Z;
  ta_created_at : Z;
  ta_started_at : option Z;
  ta_completed_at : option Z;
  ta_failure_code : option string
}.

Inductive TaskEvent :=
  | TaskCreated (session_id : Z) (goal_text : string) (workspace_id : Z)
      (workspace_root base_revision : option string) (execution_profile : string)
      (policy_profile_id : option string) (origin : TaskOrigin)
  | TaskQueued | TaskForked | TaskStarted
  | TaskWaiting (reason : WaitReason)
  | TaskResumed | TaskReadyForReview | TaskReturnedToWork | TaskCompleted
  | TaskFailed (failure_code : string)
  | TaskCancelled
  | TaskSteered (text provenance : string) (untrusted : bool) (input_ids : list string)
  | TaskPauseRequested | TaskResumeRequested | TaskPaused | TaskCancelRequested
  | TaskNeedsAttention
  | TaskInputQueued (input_id : string) (mode : InputMode) (text provenance : string)
      (untrusted : bool)
  | SendBehaviorSet (while_running send_now : string)
  | TaskInputEdited (input_id text : string) (mode : option InputMode) (model : string)
  | TaskInputRemoved (input_id reason : string)
  | TaskInputReordered (input_id before_input_id : string)
  | TaskInterruptRequested (interrupt_id kind input_id reason : string)
  | TaskInterruptApplied (interrupt_id outcome : string) (stream_aborted : bool)
      (cancelled_calls unknown_outcome_calls : list string) (next : string)
  | RunModeSet | AllowRuleAdded | AllowRuleRevoked | UserQuestionAsked | UserQuestionAnswered
  | AttachmentIngested | TaskModeSet | ModeSwitchProposed | ModeSwitchDecided
  | TaskPostureApplied | ExecutionPreferenceSet | ExecutionPreferenceApplied | PlanRecorded
  | PlanRevised | PlanAnnotated | UserPatchApplied | ExternalDiagnosticsRecorded
  | ExternalDiagnosticsRejected | ForgePullRequestOpened | ForgePullRequestUpdated
  | ForgeCommentPosted | TaskCreatedFromIssue | TaskTriggeredByAutomation
  | BrowserSessionOpened | BrowserHostAttached | BrowserNavigated | BrowserSessionClosed
  | BrowserControlChanged | BrowserPageObserved | BrowserActionPerformed
  | BrowserRegionCaptured | BrowserPageChanged | BrowserOutcomeUnknown
  | BrowserOutcomeReconciled | ComputerSessionStarted | ComputerObserved
  | ComputerActionPerformed | ComputerLatched | ComputerLatchResolved | ComputerSessionClosed
  | ComputerUserAborted | ComputerArtifactExpired | SecurityEventRecorded | SloStageRecorded
  | BrowserCredentialFilled | SandboxLeaseAcquired | TaskHandedOff | TaskHandoffAdmitted
  | TaskWorkspaceRebound (workspace_root reason execution_profile : string)
  | SandboxReleased | SandboxLost | SandboxRestored | EnvironmentPinned | EnvironmentStale
  | EnvironmentRebuilt | UnsupportedLanguageOptInRecorded | ContextDocumentAttached
  | SelectionRecorded | SelfReviewRecorded | ToolsActivated | ToolProjectionConfigured
  | ProgramStarted | ProgramEnded | SkillSelected | SkillRejected | SkillIndexRecorded
  | SkillConfigurationCompiled | RulesSelected | AgentNodeCreated | AgentNodeTransitioned
  | AgentBindingChanged | SubagentAdmitted | TaskBudgetsSet | TaskBudgetRaiseDecided
  | SubagentAdmissionRefused | SubagentCapsuleBound | SubagentResultRecorded
  | SubagentProtectedEffect | ReviewEnvironmentAdmitted | ReviewEnvironmentBound
  | ReviewerResultRecorded | RevisionActivated | ReviewEnvironmentDisposed | WorkNodesChanged
  | CapacityTicketGranted | CapacityTicketReleased | CapacityDenied | MediaBridged
  | ContextEpochOpened | CompactionStarted | CompactionCommitted | CompactionRejectedStale
  | ReproductionRecorded | ScopeExpansionRecorded | ProtectedPathsUnlocked | RetrievalRecorded
  | ContextPackRecorded | RepairAttemptRecorded | RepairAttemptConcluded | RepairEscalated
  | HarnessBudgetExhausted | NoProgressDetected | ReviewDecisionRecorded | CheckpointStarted
  | CheckpointCommitted | CheckpointRejectedStale | CheckpointRestored
  | CheckpointRestoreStarted | CheckpointRestoreRolledBack | CheckpointNamed
  | CheckpointSkipped | CheckpointGcStarted | CheckpointCollected | CheckpointGcCompleted
  | TerminalCreated | TerminalOutputAdvanced | ProcessExited | TerminalControlRecorded
  | BackgroundProcessEnded | BackgroundWakeDelivered | PausedCapacityReleased
  | ProtocolStateResumed | ToolCallReconciled | UsageReconciled | CiEvidenceRecorded
  | ReviewCommentsIngested | PolicyGenerationChanged | CapabilitySnapshotRecorded
  | ProcessServiceObserved | RequestOutcomeRecorded | HooksResolved | HookInvoked
  | RequestSnapshotRecorded | CounterfactualReplayStarted.

(** [TaskEvent::event_type]. *)
Definition TaskEvent_event_type (e : TaskEvent) : string :=
  match e with
  | TaskCreated _ _ _ _ _ _ _ _ => "TaskCreated"
  | TaskQueued => "TaskQueued"
  | TaskForked => "TaskForked"
  | TaskStarted => "TaskStarted"
  | TaskWaiting _ => "TaskWaiting"
  | TaskResumed => "TaskResumed"
  | TaskReadyForReview => "TaskReadyForReview"
  | TaskReturnedToWork => "TaskReturnedToWork"
  | TaskCompleted => "TaskCompleted"
  | TaskFailed _ => "TaskFailed"
  | TaskCancelled => "TaskCancelled"
  | TaskSteered _ _ _ _ => "TaskSteered"
  | TaskPauseRequested => "TaskPauseRequested"
  | TaskResumeRequested => "TaskResumeRequested"
  | TaskPaused => "TaskPaused"
  | TaskCancelRequested => "TaskCancelRequested"
  | TaskNeedsAttention => "TaskNeedsAttention"
  | TaskInputQueued _ _ _ _ _ => "TaskInputQueued"
  | SendBehaviorSet _ _ => "SendBehaviorSet"
  | TaskInputEdited _ _ _ _ => "TaskInputEdited"
  | TaskInputRemoved _ _ => "TaskInputRemoved"
  | TaskInputReordered _ _ => "TaskInputReordered"
  | TaskInterruptRequested _ _ _ _ => "TaskInterruptRequested"
  | TaskInterruptApplied _ _ _ _ _ _ => "TaskInterruptApplied"
  | RunModeSet => "RunModeSet"
  | AllowRuleAdded => "AllowRuleAdded"
  | AllowRuleRevoked => "AllowRuleRevoked"
  | UserQuestionAsked => "UserQuestionAsked"
  | UserQuestionAnswered => "UserQuestionAnswered"
  | AttachmentIngested => "AttachmentIngested"
  | TaskModeSet => "TaskModeSet"
  | ModeSwitchProposed => "ModeSwitchProposed"
  | ModeSwitchDecided => "ModeSwitchDecided"
  | TaskPostureApplied => "TaskPostureApplied"
  | ExecutionPreferenceSet => "ExecutionPreferenceSet"
  | ExecutionPreferenceApplied => "ExecutionPreferenceApplied"
  | PlanRecorded => "PlanRecorded"
  | PlanRevised => "PlanRevised"
  | PlanAnnotated => "PlanAnnotated"
  | UserPatchApplied => "UserPatchApplied"
  | ExternalDiagnosticsRecorded => "ExternalDiagnosticsRecorded"
  | ExternalDiagnosticsRejected => "ExternalDiagnosticsRejected"
  | ForgePullRequestOpened => "ForgePullRequestOpened"
  | ForgePullRequestUpdated => "ForgePullRequestUpdated"
  | ForgeCommentPosted => "ForgeCommentPosted"
  | TaskCreatedFromIssue => "TaskCreatedFromIssue"
  | TaskTriggeredByAutomation => "TaskTriggeredByAutomation"
  | BrowserSessionOpened => "BrowserSessionOpened"
  | BrowserHostAttached => "BrowserHostAttached"
  | BrowserNavigated => "BrowserNavigated"
  | BrowserSessionClosed => "BrowserSessionClosed"
  | BrowserControlChanged => "BrowserControlChanged"
  | BrowserPageObserved => "BrowserPageObserved"
  | BrowserActionPerformed => "BrowserActionPerformed"
  | BrowserRegionCaptured => "BrowserRegionCaptured"
  | BrowserPageChanged => "BrowserPageChanged"
  | BrowserOutcomeUnknown => "BrowserOutcomeUnknown"
  | BrowserOutcomeReconciled => "BrowserOutcomeReconciled"
  | ComputerSessionStarted => "ComputerSessionStarted"
  | ComputerObserved => "ComputerObserved"
  | ComputerActionPerformed => "ComputerActionPerformed"
  | ComputerLatched => "ComputerLatched"
  | ComputerLatchResolved => "ComputerLatchResolved"
  | ComputerSessionClosed => "ComputerSessionClosed"
  | ComputerUserAborted => "ComputerUserAborted"
  | ComputerArtifactExpired => "ComputerArtifactExpired"
  | SecurityEventRecorded => "SecurityEventRecorded"
  | SloStageRecorded => "SloStageRecorded"
  | BrowserCredentialFilled => "BrowserCredentialFilled"
  | SandboxLeaseAcquired => "SandboxLeaseAcquired"
  | TaskHandedOff => "TaskHandedOff"
  | TaskHandoffAdmitted => "TaskHandoffAdmitted"
  | TaskWorkspaceRebound _ _ _ => "TaskWorkspaceRebound"
  | SandboxReleased => "SandboxReleased"
  | SandboxLost => "SandboxLost"
  | SandboxRestored => "SandboxRestored"
  | EnvironmentPinned => "EnvironmentPinned"
  | EnvironmentStale => "EnvironmentStale"
  | EnvironmentRebuilt => "EnvironmentRebuilt"
  | UnsupportedLanguageOptInRecorded => "UnsupportedLanguageOptInRecorded"
  | ContextDocumentAttached => "ContextDocumentAttached"
  | SelectionRecorded => "SelectionRecorded"
  | SelfReviewRecorded => "SelfReviewRecorded"
  | ToolsActivated => "ToolsActivated"
  | ToolProjectionConfigured => "ToolProjectionConfigured"
  | ProgramStarted => "ProgramStarted"
  | ProgramEnded => "ProgramEnded"
  | SkillSelected => "SkillSelected"
  | SkillRejected => "SkillRejected"
  | SkillIndexRecorded => "SkillIndexRecorded"
  | SkillConfigurationCompiled => "SkillConfigurationCompiled"
  | RulesSelected => "RulesSelected"
  | AgentNodeCreated => "AgentNodeCreated"
  | AgentNodeTransitioned => "AgentNodeTransitioned"
  | AgentBindingChanged => "AgentBindingChanged"
  | SubagentAdmitted => "SubagentAdmitted"
  | TaskBudgetsSet => "TaskBudgetsSet"
  | TaskBudgetRaiseDecided => "TaskBudgetRaiseDecided"
  | SubagentAdmissionRefused => "SubagentAdmissionRefused"
  | SubagentCapsuleBound => "SubagentCapsuleBound"
  | SubagentResultRecorded => "SubagentResultRecorded"
  | SubagentProtectedEffect => "SubagentProtectedEffect"
  | ReviewEnvironmentAdmitted => "ReviewEnvironmentAdmitted"
  | ReviewEnvironmentBound => "ReviewEnvironmentBound"
  | ReviewerResultRecorded => "ReviewerResultRecorded"
  | RevisionActivated => "RevisionActivated"
  | ReviewEnvironmentDisposed => "ReviewEnvironmentDisposed"
  | WorkNodesChanged => "WorkNodesChanged"
  | CapacityTicketGranted => "CapacityTicketGranted"
  | CapacityTicketReleased => "CapacityTicketReleased"
  | CapacityDenied => "CapacityDenied"
  | MediaBridged => "MediaBridged"
  | ContextEpochOpened => "ContextEpochOpened"
  | CompactionStarted => "CompactionStarted"
  | CompactionCommitted => "CompactionCommitted"
  | CompactionRejectedStale => "CompactionRejectedStale"
  | ReproductionRecorded => "ReproductionRecorded"
  | ScopeExpansionRecorded => "ScopeExpansionRecorded"
  | ProtectedPathsUnlocked => "ProtectedPathsUnlocked"
  | RetrievalRecorded => "RetrievalRecorded"
  | ContextPackRecorded => "ContextPackRecorded"
  | RepairAttemptRecorded => "RepairAttemptRecorded"
  | RepairAttemptConcluded => "RepairAttemptConcluded"
  | RepairEscalated => "RepairEscalated"
  | HarnessBudgetExhausted => "HarnessBudgetExhausted"
  | NoProgressDetected => "NoProgressDetected"
  | ReviewDecisionRecorded => "ReviewDecisionRecorded"
  | CheckpointStarted => "CheckpointStarted"
  | CheckpointCommitted => "CheckpointCommitted"
  | CheckpointRejectedStale => "CheckpointRejectedStale"
  | CheckpointRestored => "CheckpointRestored"
  | CheckpointRestoreStarted => "CheckpointRestoreStarted"
  | CheckpointRestoreRolledBack => "CheckpointRestoreRolledBack"
  | CheckpointNamed => "CheckpointNamed"
  | CheckpointSkipped => "CheckpointSkipped"
  | CheckpointGcStarted => "CheckpointGcStarted"
  | CheckpointCollected => "CheckpointCollected"
  | CheckpointGcCompleted => "CheckpointGcCompleted"
  | TerminalCreated => "TerminalCreated"
  | TerminalOutputAdvanced => "TerminalOutputAdvanced"
  | ProcessExited => "ProcessExited"
  | TerminalControlRecorded => "TerminalControlRecorded"
  | BackgroundProcessEnded => "BackgroundProcessEnded"
  | BackgroundWakeDelivered => "BackgroundWakeDelivered"
  | PausedCapacityReleased => "PausedCapacityReleased"
  | ProtocolStateResumed => "ProtocolStateResumed"
  | ToolCallReconciled => "ToolCallReconciled"
  | UsageReconciled => "UsageReconciled"
  | CiEvidenceRecorded => "CiEvidenceRecorded"
  | ReviewCommentsIngested => "ReviewCommentsIngested"
  | PolicyGenerationChanged => "PolicyGenerationChanged"
  | CapabilitySnapshotRecorded => "CapabilitySnapshotRecorded"
  | ProcessServiceObserved => "ProcessServiceObserved"
  | RequestOutcomeRecorded => "RequestOutcomeRecorded"
  | HooksResolved => "HooksResolved"
  | HookInvoked => "HookInvoked"
  | RequestSnapshotRecorded => "RequestSnapshotRecorded"
  | CounterfactualReplayStarted => "CounterfactualReplayStarted"
  end.

Definition task_invalid (from : TaskState) (to : string) : InvalidTransition :=
  {| it_aggregate := "Task"; it_from := TaskState_debug from; it_to := to |}.

(** [Task::create]. *)
Definition Task_create (task_id : Z) (event : TaskEvent) (at_ : Z)
    : result InvalidTransition Task :=
  match event with
  | TaskCreated session_id goal_text workspace_id workspace_root base_revision
      execution_profile policy_profile_id origin =>
      Ok {| ta_task_id := task_id;
            ta_session_id := session_id;
            ta_goal_text := goal_text;
            ta_workspace_id := workspace_id;
            ta_workspace_root := workspace_root;
            ta_base_revision := base_revision;
            ta_execution_profile := execution_profile;
            ta_policy_profile_id := policy_profile_id;
            ta_origin := origin;
            ta_state := TaskState_Created;
            ta_generation := 1;
            ta_created_at := at_;
            ta_started_at := None;
            ta_completed_at := None;
            ta_failure_code := None |}
  | other => Err {| it_aggregate := "Task"; it_from := "<none>";
                    it_to := TaskEvent_event_type other |}
  end.

(** The [match] of [Task::apply]: the next state, when the event has one. *)
Definition Task_next (event : TaskEvent) : SE Task InvalidTransition (option TaskState) :=
  self ← se_get;
  match event with
  | TaskCreated _ _ _ _ _ _ _ _ => se_err (task_invalid (ta_state self) "TaskCreated")
  | TaskQueued => mret (Some TaskState_Queued)
  | TaskStarted => mret (Some TaskState_Running)
  | TaskWaiting reason => mret (Some (TaskState_Waiting reason))
  | TaskResumed =>
      match ta_state self with
      | TaskState_Waiting _ => mret (Some TaskState_Running)
      | _ => se_err (task_invalid (ta_state self) "TaskResumed")
      end
  | TaskReadyForReview => mret (Some TaskState_ReadyForReview)
  | TaskReturnedToWork =>
      match ta_state self with
      | TaskState_ReadyForReview => mret (Some TaskState_Running)
      | _ => se_err (task_invalid (ta_state self) "TaskReturnedToWork")
      end
  | TaskCompleted => mret (Some TaskState_Completed)
  | TaskFailed failure_code =>
      _ ← se_lift (transition (ta_state self) TaskState_Failed);
      se_mod (λ t, { t with ta_failure_code := Some failure_code });;
      mret (Some TaskState_Failed)
  | TaskCancelled => mret (Some TaskState_Cancelled)
         | TaskSteered _ _ _ _ | TaskNeedsAttention | TaskInputQueued _ _ _ _ _
         | SendBehaviorSet _ _ | TaskInputEdited _ _ _ _ | TaskInputRemoved _ _
         | TaskInputReordered _ _ | TaskInterruptRequested _ _ _ _
         | TaskInterruptApplied _ _ _ _ _ _ | UserQuestionAsked | UserQuestionAnswered
         | AttachmentIngested | TaskModeSet | TaskPostureApplied | ModeSwitchProposed
         | ModeSwitchDecided | ExecutionPreferenceSet | ExecutionPreferenceApplied
         | PlanRecorded | PlanRevised | PlanAnnotated | UserPatchApplied
         | ExternalDiagnosticsRecorded | ExternalDiagnosticsRejected | ForgePullRequestOpened
         | ForgePullRequestUpdated | ForgeCommentPosted | TaskCreatedFromIssue
         | TaskTriggeredByAutomation | BrowserSessionOpened | BrowserHostAttached
         | BrowserNavigated | BrowserSessionClosed | BrowserControlChanged
         | BrowserPageObserved | BrowserActionPerformed | BrowserRegionCaptured
         | BrowserPageChanged | BrowserOutcomeUnknown | BrowserOutcomeReconciled
         | SecurityEventRecorded | SloStageRecorded | TaskPauseRequested | TaskResumeRequested
         | TaskPaused | TaskCancelRequested | BrowserCredentialFilled | SandboxLeaseAcquired
         | TaskHandedOff | TaskHandoffAdmitted | SelfReviewRecorded | ToolsActivated
         | ToolProjectionConfigured | ProgramStarted | ProgramEnded | SkillSelected
         | SkillRejected | SkillIndexRecorded | SkillConfigurationCompiled | RulesSelected
         | MediaBridged | CapacityTicketGranted | CapacityTicketReleased | CapacityDenied
         | AgentNodeCreated | AgentNodeTransitioned | AgentBindingChanged | WorkNodesChanged
         | SubagentAdmitted | TaskBudgetsSet | TaskBudgetRaiseDecided
         | SubagentAdmissionRefused | SubagentCapsuleBound | SubagentResultRecorded
         | SubagentProtectedEffect | ReviewEnvironmentAdmitted | ReviewEnvironmentBound
         | ReviewerResultRecorded | RevisionActivated | ReviewEnvironmentDisposed
         | ContextEpochOpened | CompactionStarted | CompactionCommitted
         | CompactionRejectedStale | ReproductionRecorded | SelectionRecorded
         | ContextDocumentAttached | UnsupportedLanguageOptInRecorded | ScopeExpansionRecorded
         | ProtectedPathsUnlocked | RetrievalRecorded | ContextPackRecorded
         | RepairAttemptRecorded | RepairAttemptConcluded | RepairEscalated
         | HarnessBudgetExhausted | NoProgressDetected | ReviewDecisionRecorded | TaskForked
         | TerminalCreated | TerminalOutputAdvanced | ProcessExited | TerminalControlRecorded
         | ProtocolStateResumed | ToolCallReconciled | PolicyGenerationChanged
         | CapabilitySnapshotRecorded =>
      if is_terminal (ta_state self)
      then se_err (task_invalid (ta_state self) (TaskEvent_event_type event))
      else mret None
         | CheckpointStarted | CheckpointCommitted | CheckpointRejectedStale
         | CheckpointRestored | CheckpointRestoreStarted | CheckpointRestoreRolledBack
         | CheckpointNamed | CheckpointSkipped | CheckpointGcStarted | CheckpointCollected
         | CheckpointGcCompleted | BackgroundProcessEnded | BackgroundWakeDelivered
         | PausedCapacityReleased | RunModeSet | AllowRuleAdded | AllowRuleRevoked
         | ComputerSessionStarted | ComputerObserved | ComputerActionPerformed
         | ComputerLatched | ComputerLatchResolved | ComputerSessionClosed
         | ComputerUserAborted | ComputerArtifactExpired | ProcessServiceObserved
         | SandboxReleased | CiEvidenceRecorded | ReviewCommentsIngested | UsageReconciled
         | RequestOutcomeRecorded | HooksResolved | HookInvoked | RequestSnapshotRecorded
         | CounterfactualReplayStarted | SandboxLost | SandboxRestored | EnvironmentPinned
         | EnvironmentStale | EnvironmentRebuilt => mret None
  | TaskWorkspaceRebound workspace_root _ execution_profile =>
      if is_terminal (ta_state self)
      then se_err (task_invalid (ta_state self) (TaskEvent_event_type event))
      else
        se_mod (λ t, { t with ta_workspace_root := Some workspace_root });;
        (if execution_profile =s "" then mret tt
         else se_mod (λ t, { t with ta_execution_profile := execution_profile }));;
        mret None
  end.

(** [Task::apply]. *)
Definition Task_apply (event : TaskEvent) (at_ : Z) : SE Task InvalidTransition unit :=
  next ← Task_next event;
  match next with
  | Some to =>
      self ← se_get;
      s ← se_lift (transition (ta_state self) to);
      se_mod (λ t, { t with ta_state := s });;
      (if bool_decide (to = TaskState_Running) && negb (is_some (ta_started_at self))
       then se_mod (λ t, { t with ta_started_at := Some at_ }) else mret tt);;
      (if is_terminal to then se_mod (λ t, { t with ta_completed_at := Some at_ }) else mret tt)
  | None => mret tt
  end;;
  se_mod (λ t, { t with ta_generation ::= λ g, wrap64 (g + 1) }).

#[export] Instance Task_aggregate : Aggregate Task TaskEvent := {|
  agg_create := Task_create;
  agg_apply := Task_apply
|}.

(** ** Properties *)

(** What [Task_next] does to a task it accepts: the state, the times and the
    generation are left alone, a failure code appears exactly with [Failed],
    and a closed task gets no next state that it could enter. *)
Lemma Task_next_ok ev t t1 next :
  Task_next ev t = (t1, Ok next) →
  ta_state t1 = ta_state t ∧ ta_started_at t1 = ta_started_at t ∧
  ta_completed_at t1 = ta_completed_at t ∧ ta_generation t1 = ta_generation t ∧
  next ≠ Some TaskState_Created ∧
  (next = Some TaskState_Failed → is_Some (ta_failure_code t1)) ∧
  (next ≠ Some TaskState_Failed → ta_failure_code t1 = ta_failure_code t).
Proof.
  unfold Task_next. intros H. se_run H.
  destruct ev; cbn in H; se_cases H; simplify_eq; cbn; split_and!; try done; by eauto.
Qed.

(** The times and the failure code of a task agree with its state. *)
Definition task_inv (t : Task) : Prop :=
  (is_terminal (ta_state t) = true ↔ is_Some (ta_completed_at t)) ∧
  (ta_state t = TaskState_Failed ↔ is_Some (ta_failure_code t)) ∧
  match ta_state t with
  | TaskState_Created | TaskState_Queued => ta_started_at t = None
  | TaskState_Failed | TaskState_Cancelled => True
  | _ => is_Some (ta_started_at t)
  end.

Lemma task_inv_create id ev at_ t : Task_create id ev at_ = Ok t → task_inv t.
Proof.
  destruct ev; cbn; intros; simplify_eq. unfold task_inv; cbn.
  split_and!; try done; (split; [done|by intros []]).
Qed.

(** What an accepted event does to a task, by its next state. *)
Lemma Task_apply_ok ev at_ t t' :
  Task_apply ev at_ t = (t', Ok tt) →
  ∃ t1 next, Task_next ev t = (t1, Ok next) ∧
    ta_generation t' = wrap64 (ta_generation t + 1) ∧
    ta_failure_code t' = ta_failure_code t1 ∧
    match next with
    | None => t' = { t1 with ta_generation ::= λ g, wrap64 (g + 1) }
    | Some to =>
        can_transition (ta_state t) to = true ∧ ta_state t' = to ∧
        ta_started_at t' =
          (if bool_decide (to = TaskState_Running) && negb (is_some (ta_started_at t))
           then Some at_ else ta_started_at t) ∧
        ta_completed_at t' = (if is_terminal to then Some at_ else ta_completed_at t)
    end.
Proof.
  intros H. unfold Task_apply, mbind at 1, se_bind at 1 in H.
  destruct (Task_next ev t) as [t1 [next|e]] eqn:E; [|done].
  pose proof (Task_next_ok _ _ _ _ E) as (Hs & Hst & Hc & Hg & _).
  exists t1, next. split; [done|]. clear E. destruct t1. cbn in Hs, Hst, Hc, Hg. subst.
  destruct next as [to|]; se_run H; [|by simplify_eq/=].
  destruct (TaskState_can_transition (ta_state t) to) eqn:Ect; [|done]. cbn in H.
  destruct (_ && _), (TaskState_is_terminal to) eqn:Et; simplify_eq/=; by rewrite ?Et.
Qed.

Lemma task_inv_apply t ev at_ t' :
  task_inv t → Task_apply ev at_ t = (t', Ok tt) → task_inv t'.
Proof.
  intros (H1 & H2 & H3) (t1 & next & E & _ & Hfc & Hn)%Task_apply_ok.
  pose proof (Task_next_ok _ _ _ _ E) as (Hs & Hst & Hc & _ & Hncr & Hf & Hnf).
  destruct next as [to|].
  - destruct Hn as (Hct & Hto & Hsa & Hca). unfold task_inv. rewrite Hto, Hca, Hsa, Hfc.
    split_and!.
    + destruct to; cbn; try (split; [by eauto|done]); destruct (ta_state t); try done; apply H1.
    + destruct (decide (to = TaskState_Failed)) as [->|Hne]; [naive_solver|].
      rewrite Hnf, <- H2 by congruence. split; [done|]. intros Hx. by rewrite Hx in Hct.
    + destruct to; try done; destruct (ta_state t); try done; cbn;
        destruct (ta_started_at t); by eauto.
  - subst t'. destruct t1. cbn in Hs, Hst, Hc, Hnf. unfold task_inv. cbn. subst.
    by rewrite Hnf by done.
Qed.

(** Every task the store projects has consistent times: it completed exactly
    when its state is terminal, it carries a failure code exactly when it
    failed, it has no start time before its first run and one in every state
    that a run leads to. *)
Theorem task_projection_invariant id log t :
  numbered 1 log → project_log id None log = Ok (Some t) → task_inv t.
Proof.
  apply project_invariant; [apply task_inv_create|].
  intros a ev at_ a'. apply task_inv_apply.
Qed.

(** The records that land whatever the state of their task: the checkpoint
    ledger, background processes, the person's policy records, native control,
    services, and the accounting of a request and of its substrate. *)
Definition ledger_events : list string :=
  [ "CheckpointStarted"; "CheckpointCommitted"; "CheckpointRejectedStale";
    "CheckpointRestored"; "CheckpointRestoreStarted"; "CheckpointRestoreRolledBack";
    "CheckpointNamed"; "CheckpointSkipped"; "CheckpointGcStarted"; "CheckpointCollected";
    "CheckpointGcCompleted"; "BackgroundProcessEnded"; "BackgroundWakeDelivered";
    "PausedCapacityReleased"; "RunModeSet"; "AllowRuleAdded"; "AllowRuleRevoked";
    "ComputerSessionStarted"; "ComputerObserved"; "ComputerActionPerformed";
    "ComputerLatched"; "ComputerLatchResolved"; "ComputerSessionClosed";
    "ComputerUserAborted"; "ComputerArtifactExpired"; "ProcessServiceObserved";
    "SandboxReleased"; "CiEvidenceRecorded"; "ReviewCommentsIngested"; "UsageReconciled";
    "RequestOutcomeRecorded"; "HooksResolved"; "HookInvoked"; "RequestSnapshotRecorded";
    "CounterfactualReplayStarted"; "SandboxLost"; "SandboxRestored"; "EnvironmentPinned";
    "EnvironmentStale"; "EnvironmentRebuilt" ].

Definition is_ledger_event (ev : TaskEvent) : bool :=
  contains_str ledger_events (TaskEvent_event_type ev).

Lemma Task_apply_closed ev at_ t :
  is_terminal (ta_state t) = true →
  if is_ledger_event ev
  then Task_apply ev at_ t = ({ t with ta_generation ::= λ g, wrap64 (g + 1) }, Ok tt)
  else ∃ e, Task_apply ev at_ t = (t, Err e).
Proof.
  destruct t as [? ? ? ? ? ? ? ? ? st ? ? ? ? ?]. cbn. intros Ht.
  destruct st; try discriminate Ht; destruct ev; cbn; first [reflexivity | eexists; reflexivity].
Qed.

(** A closed task stays closed. Whatever log follows, a task that completed,
    failed or was cancelled accepts exactly the records of [ledger_events];
    they change nothing but its generation, which counts them, and every other
    event is refused and leaves no trace. *)
Theorem task_closed_final t log t' :
  is_terminal (ta_state t) = true → ta_generation t = wrap64 (ta_generation t) →
  applied t log t' →
  Forall (λ ev, is_ledger_event (st_event ev) = true) log ∧
  t' = { t with ta_generation := wrap64 (ta_generation t + Z.of_nat (length log)) } ∧
  ∀ ev at_, is_ledger_event ev = false → ∃ e, Task_apply ev at_ t' = (t', Err e).
Proof.
  intros Ht Hg Hap.
  assert (∃ g, t' = { t with ta_generation := g }) as (g & Hg').
  { clear Hg. induction Hap as [t|t u t' ev log Hx Hap IH]; [exists (ta_generation t); by destruct t|].
    pose proof (Task_apply_closed (st_event ev) (st_at ev) t Ht) as Hc. cbn in Hx.
    destruct (is_ledger_event _); [|destruct Hc as (e & Hc); congruence].
    rewrite Hc in Hx. simplify_eq. destruct (IH Ht) as (g & ->). by exists g. }
  split_and!.
  - clear Hg Hg'. induction Hap as [t|t u t' ev log Hx Hap IH]; constructor.
    + pose proof (Task_apply_closed (st_event ev) (st_at ev) t Ht) as Hc. cbn in Hx.
      destruct (is_ledger_event _); [done|destruct Hc as (e & Hc); congruence].
    + apply IH. pose proof (Task_apply_closed (st_event ev) (st_at ev) t Ht) as Hc. cbn in Hx.
      destruct (is_ledger_event _); [|destruct Hc as (e & Hc); congruence].
      rewrite Hc in Hx. by simplify_eq.
  - assert (ta_generation t' = g) as Hgg by (by subst).
    rewrite Hg', <- Hgg. f_equal.
    rewrite (applied_counts ta_generation t log t'); [done| |done|done].
    intros a ev at_ a' (? & ? & _ & Hn & _)%Task_apply_ok. done.
  - intros ev at_ Hl. pose proof (Task_apply_closed ev at_ t') as Hc. rewrite Hl in Hc.
    apply Hc. by subst.
Qed.

(** The lifecycle events that take an open task to [Completed], in order. *)
Definition completing (s : TaskState) : list TaskEvent :=
  match s with
  | TaskState_Created => [TaskQueued; TaskStarted; TaskReadyForReview; TaskCompleted]
  | TaskState_Queued => [TaskStarted; TaskReadyForReview; TaskCompleted]
  | TaskState_Running => [TaskReadyForReview; TaskCompleted]
  | TaskState_Waiting _ => [TaskResumed; TaskReadyForReview; TaskCompleted]
  | TaskState_ReadyForReview => [TaskCompleted]
  | _ => []
  end.

(** C33: no open task is stuck. From every state of a task that is not terminal,
    the events of its lifecycle lead to [Completed] in at most four accepted
    steps, whenever they happen, and at every moment it can be cancelled and
    failed: both are accepted at once. *)
Theorem task_completable t ats :
  is_terminal (ta_state t) = false → length ats = length (completing (ta_state t)) →
  (∃ t', applied t (zip_with (Stored 0) (completing (ta_state t)) ats) t' ∧
     ta_state t' = TaskState_Completed) ∧
  (length (completing (ta_state t)) ≤ 4)%nat ∧
  (∀ at_, ∃ t', Task_apply TaskCancelled at_ t = (t', Ok tt) ∧
     ta_state t' = TaskState_Cancelled ∧ ta_completed_at t' = Some at_) ∧
  (∀ at_ code, ∃ t', Task_apply (TaskFailed code) at_ t = (t', Ok tt) ∧
     ta_state t' = TaskState_Failed ∧ ta_failure_code t' = Some code).
Proof.
  destruct t as [? ? ? ? ? ? ? ? ? st ? ? sa ? ?]. cbn. intros Ht Hl.
  split_and!.
  - destruct st; try discriminate Ht; cbn in Hl |- *;
      do 5 (try destruct ats as [|? ats]; try discriminate Hl); cbn;
      destruct sa; cbn; eexists; (split; [repeat (eapply applied_cons; [reflexivity|]); apply applied_nil|reflexivity]).
  - destruct st; cbn; lia.
  - intros at_. destruct st; try discriminate Ht; eexists; split; try reflexivity; done.
  - intros at_ code. destruct st; try discriminate Ht; eexists; split; try reflexivity; done.
Qed.

(** ** Examples *)

Definition task_log : list (stored TaskEvent) :=
  [ Stored 1 (TaskCreated 1 "fix the build" 2 (Some "/w") None "local_trusted" None Origin_Cli) 10;
    Stored 2 TaskQueued 11; Stored 3 TaskStarted 12; Stored 4 (TaskWaiting Approval) 13;
    Stored 5 TaskResumed 14; Stored 6 (TaskFailed "X") 15; Stored 7 CheckpointNamed 16 ].

Lemma task_projection_invariant_witness :
  ∃ t, project_log (A := Task) 9 None task_log = Ok (Some t) ∧ task_inv t ∧
    ta_failure_code t = Some "X" ∧ ta_started_at t = Some 12.
Proof.
  eexists. split; [reflexivity|]. split; [|split; reflexivity].
  apply (task_projection_invariant 9 task_log); [repeat split|reflexivity].
Defined.

Definition cancelled_task : Task :=
  {| ta_task_id := 9; ta_session_id := 1; ta_goal_text := "g"; ta_workspace_id := 2;
     ta_workspace_root := None; ta_base_revision := None; ta_execution_profile := "p";
     ta_policy_profile_id := None; ta_origin := Origin_Cli; ta_state := TaskState_Cancelled;
     ta_generation := 7; ta_created_at := 1; ta_started_at := None;
     ta_completed_at := Some 4; ta_failure_code := None |}.

Lemma task_closed_final_witness :
  let log := [Stored 8 CheckpointNamed 5; Stored 9 RunModeSet 6] in
  ∃ t', applied cancelled_task log t' ∧ t' = { cancelled_task with ta_generation := 9 }.
Proof.
  cbv zeta. eexists.
  assert (applied cancelled_task [Stored 8 CheckpointNamed 5; Stored 9 RunModeSet 6]
            { cancelled_task with ta_generation := 9 }) as Hap
    by (repeat (eapply applied_cons; [reflexivity|]); apply applied_nil).
  split; [exact Hap|].
  apply (task_closed_final cancelled_task _ _ eq_refl eq_refl Hap).
Defined.

Lemma task_completable_witness :
  let t := { cancelled_task with ta_state := TaskState_Waiting Paused } in
  ∃ t', applied t [Stored 0 TaskResumed 5; Stored 0 TaskReadyForReview 6;
                   Stored 0 TaskCompleted 7] t' ∧ ta_state t' = TaskState_Completed.
Proof.
  exact (proj1 (task_completable
    { cancelled_task with ta_state := TaskState_Waiting Paused } [5; 6; 7] eq_refl eq_refl)).
Defined.
