(* ===== verification/Session.v ===== *)
(** * Sessions

    [crates/domain/src/session.rs]: the durable container of a person's tasks,
    with the lease of its single writer, the emergency stop the kernel reads and
    the generation of its history. *)

From stdpp Require Import sorting.
From S2P Require Import Prelude RustStr StateMachine.
#[local] Open Scope Z_scope.

Inductive SessionState := SessionState_Active | SessionState_Suspended | SessionState_Archived.

#[export] Instance SessionState_eq_dec : EqDecision SessionState.
Proof. solve_decision. Defined.

Definition SessionState_can_transition (self to : SessionState) : bool :=
  match self, to with
  | SessionState_Active, SessionState_Suspended
  | SessionState_Suspended, SessionState_Active
  | SessionState_Active, SessionState_Archived
  | SessionState_Suspended, SessionState_Archived => true
  | _, _ => false
  end.

Definition SessionState_is_terminal (self : SessionState) : bool :=
  match self with SessionState_Archived => true | _ => false end.

Definition SessionState_debug (s : SessionState) : string :=
  match s with
  | SessionState_Active => "Active"
  | SessionState_Suspended => "Suspended"
  | SessionState_Archived => "Archived"
  end.

#[export] Instance SessionState_machine : StateMachine SessionState := {|
  sm_aggregate := "Session";
  can_transition := SessionState_can_transition;
  is_terminal := SessionState_is_terminal;
  sm_debug := SessionState_debug
|}.

#[export] Instance SessionState_lawful : LawfulMachine SessionState.
Proof.
  intros []; cbn; split; try done; try (by intros _ []); intros H;
    by specialize (H SessionState_Archived).
Qed.

Record Session := {
  ss_session_id : Z;
  ss_tenant_id : Z;
  ss_user_id : Z;
  ss_space_id : Z;
  ss_state : SessionState;
  ss_generation : Z;
  ss_created_at : Z;
  ss_updated_at : Z;
  ss_current_task_id : option Z;
  ss_lease_generation : Z;
  ss_lease_owner : option string;
  ss_emergency_stopped_at : option Z;
  ss_branch_generation : Z
}.

Inductive SessionEvent :=
  | SessionCreated (tenant_id user_id space_id : Z)
  | SessionSuspended
  | SessionResumed
  | SessionArchived
  | SessionFocusChanged (task_id : option Z)
  | SessionLeaseAcquired (lease_generation : Z) (owner : string)
  | EmergencyStopActivated (reason : string)
  | RepositoryTrusted (workspace_root scope : string)
  | ExtensionLoaded (extension_id name version path manifest_digest manifest_json : string)
      (hooks : list string) (signature : string) (quarantined : option string)
  | ExtensionTrusted (extension_id name manifest_digest : string)
  | ExtensionUnloaded (extension_id name : string) (removed : list string)
  | SessionEnding (running_tasks : list string) (resume_on_reopen : bool)
      (hooks_run hooks_failed : Z)
  | SessionBranched (branch_generation : Z) (kind reason : string)
  | OutcomeStatisticsMaterialized (stats_version snapshot_digest snapshot_ref : string)
      (source_digests : list string) (samples keys low_confidence_keys : Z)
  | OutcomeBaselinePublished
      (bundle_digest bundle_ref repository_revision build_digest environment_digest : string)
      (tasks verified_tasks tasks_with_unknown_usage : Z).

Definition SessionEvent_event_type (e : SessionEvent) : string :=
  match e with
  | SessionCreated _ _ _ => "SessionCreated"
  | SessionSuspended => "SessionSuspended"
  | SessionResumed => "SessionResumed"
  | SessionArchived => "SessionArchived"
  | SessionFocusChanged _ => "SessionFocusChanged"
  | SessionLeaseAcquired _ _ => "SessionLeaseAcquired"
  | EmergencyStopActivated _ => "EmergencyStopActivated"
  | RepositoryTrusted _ _ => "RepositoryTrusted"
  | ExtensionLoaded _ _ _ _ _ _ _ _ _ => "ExtensionLoaded"
  | ExtensionTrusted _ _ _ => "ExtensionTrusted"
  | ExtensionUnloaded _ _ _ => "ExtensionUnloaded"
  | SessionEnding _ _ _ _ => "SessionEnding"
  | SessionBranched _ _ _ => "SessionBranched"
  | OutcomeStatisticsMaterialized _ _ _ _ _ _ _ => "OutcomeStatisticsMaterialized"
  | OutcomeBaselinePublished _ _ _ _ _ _ _ _ => "OutcomeBaselinePublished"
  end.

(** [Session::create]. *)
Definition Session_create (session_id : Z) (event : SessionEvent) (at_ : Z)
    : result InvalidTransition Session :=
  match event with
  | SessionCreated tenant_id user_id space_id =>
      Ok {| ss_session_id := session_id;
            ss_tenant_id := tenant_id;
            ss_user_id := user_id;
            ss_space_id := space_id;
            ss_state := SessionState_Active;
            ss_generation := 1;
            ss_created_at := at_;
            ss_updated_at := at_;
            ss_current_task_id := None;
            ss_lease_generation := 0;
            ss_lease_owner := None;
            ss_emergency_stopped_at := None;
            ss_branch_generation := 0 |}
  | other => Err {| it_aggregate := "Session"; it_from := "<none>";
                    it_to := SessionEvent_event_type other |}
  end.

(** The [match] of [Session::apply]: the state to move to, if any, after the
    writes of the event's own fields. *)
Definition Session_next (event : SessionEvent) (at_ : Z)
    : SE Session InvalidTransition (option SessionState) :=
  self ← se_get;
  let refuse (from to : string) :=
    se_err {| it_aggregate := "Session"; it_from := from; it_to := to |} in
  match event with
  | SessionCreated _ _ _ => refuse (SessionState_debug (ss_state self)) "SessionCreated"
  | OutcomeBaselinePublished _ _ _ _ _ _ _ _
  | OutcomeStatisticsMaterialized _ _ _ _ _ _ _
  | RepositoryTrusted _ _
  | ExtensionLoaded _ _ _ _ _ _ _ _ _
  | ExtensionUnloaded _ _ _
  | ExtensionTrusted _ _ _
  | SessionEnding _ _ _ _ =>
      if is_terminal (ss_state self)
      then refuse (SessionState_debug (ss_state self)) (SessionEvent_event_type event)
      else mret None
  | SessionBranched branch_generation _ _ =>
      if is_terminal (ss_state self) || (branch_generation <=? ss_branch_generation self)
      then refuse (SessionState_debug (ss_state self) +:+ " (branch " +:+
                     pretty (ss_branch_generation self) +:+ ")")
             ("SessionBranched (branch " +:+ pretty branch_generation +:+ ")")
      else se_mod (λ s, { s with ss_branch_generation := branch_generation });; mret None
  | SessionSuspended => mret (Some SessionState_Suspended)
  | SessionResumed => mret (Some SessionState_Active)
  | SessionArchived => mret (Some SessionState_Archived)
  | SessionFocusChanged task_id =>
      if is_terminal (ss_state self)
      then refuse (SessionState_debug (ss_state self)) "SessionFocusChanged"
      else se_mod (λ s, { s with ss_current_task_id := task_id });; mret None
  | SessionLeaseAcquired lease_generation owner =>
      if is_terminal (ss_state self) || (lease_generation <=? ss_lease_generation self)
      then refuse ("lease generation " +:+ pretty (ss_lease_generation self))
             ("stale lease generation " +:+ pretty lease_generation)
      else se_mod (λ s, { s with ss_lease_generation := lease_generation;
                                 ss_lease_owner := Some owner });; mret None
  | EmergencyStopActivated _ =>
      se_mod (λ s, { s with ss_emergency_stopped_at := Some at_ });; mret None
  end.

(** [Session::apply]. *)
Definition Session_apply (event : SessionEvent) (at_ : Z) : SE Session InvalidTransition unit :=
  next ← Session_next event at_;
  (match next with
   | Some to =>
       self ← se_get;
       s ← se_lift (transition (ss_state self) to);
       se_mod (λ x, { x with ss_state := s })
   | None => mret tt
   end);;
  se_mod (λ s, { s with ss_generation ::= λ g, wrap64 (g + 1); ss_updated_at := at_ }).

#[export] Instance Session_aggregate : Aggregate Session SessionEvent := {|
  agg_create := Session_create;
  agg_apply := Session_apply
|}.

(** ** Properties *)

(** The lease generations, branch generations and stops of a log, in order. *)
Definition leases (log : list (stored SessionEvent)) : list (Z * string) :=
  omap (λ e, match st_event e with SessionLeaseAcquired g o => Some (g, o) | _ => None end) log.
Definition branches (log : list (stored SessionEvent)) : list Z :=
  omap (λ e, match st_event e with SessionBranched g _ _ => Some g | _ => None end) log.
Definition stops (log : list (stored SessionEvent)) : list Z :=
  omap (λ e, match st_event e with EmergencyStopActivated _ => Some (st_at e) | _ => None end) log.

(** A list that counts up from above [n]. *)
Definition rising (n : Z) (l : list Z) : Prop := StronglySorted Z.lt (n :: l).

Lemma rising_snoc n l x : rising n l → default n (last l) < x → rising n (l ++ [x]).
Proof.
  unfold rising. revert n. induction l as [|y l IH]; intros n Hs Hx; cbn [app].
  - cbn in Hx. repeat constructor. done.
  - inversion Hs as [|? ? Hs' Hf]; subst.
    assert (Hl : default y (last l) < x).
    { destruct l as [|z l]; [done|]. change (last (y :: z :: l)) with (last (z :: l)) in Hx.
      destruct (last (z :: l)) eqn:E; [done|]. by apply last_None in E. }
    specialize (IH y Hs' Hl). constructor; [done|]. constructor.
    + by inversion Hf.
    + inversion IH as [|? ? _ Hf']; subst. inversion Hf as [|? ? Hny _]; subst.
      eapply Forall_impl; [exact Hf'|]. cbn. lia.
Qed.

(** What the log of a session says about its row. *)
Record session_history (log : list (stored SessionEvent)) (s : Session) : Prop := {
  sh_leases : rising 0 (leases log).*1;
  sh_lease : (ss_lease_generation s, ss_lease_owner s) =
    match last (leases log) with Some (g, o) => (g, Some o) | None => (0, None) end;
  sh_branches : rising 0 (branches log);
  sh_branch : ss_branch_generation s = default 0 (last (branches log));
  sh_stop : ss_emergency_stopped_at s = last (stops log);
  sh_archived : ss_state s = SessionState_Archived ↔
    ∃ pre ev post, log = pre ++ ev :: post ∧ st_event ev = SessionArchived ∧
      Forall (λ e, ∃ r, st_event e = EmergencyStopActivated r) post
}.

Lemma session_history_create id ev s :
  Session_create id (st_event ev) (st_at ev) = Ok s → session_history [ev] s.
Proof.
  destruct (st_event ev) eqn:E; cbn; intros H; try discriminate H. injection H as <-.
  unfold leases, branches, stops.
  split; cbn; rewrite ?E; cbn; try reflexivity; try (by repeat constructor).
  split; [discriminate|]. intros ([|x pre] & e & post & Hl & He & _); simplify_list_eq; [congruence|].
  by destruct pre.
Qed.

(** What an accepted event does to each part of the row. *)
Lemma session_apply_ok s ev at_ s' :
  Session_apply ev at_ s = (s', Ok tt) →
  (match ev with
   | SessionLeaseAcquired g o =>
       ss_lease_generation s < g ∧ ss_lease_generation s' = g ∧ ss_lease_owner s' = Some o
   | _ => ss_lease_generation s' = ss_lease_generation s ∧ ss_lease_owner s' = ss_lease_owner s
   end) ∧
  (match ev with
   | SessionBranched g _ _ => ss_branch_generation s < g ∧ ss_branch_generation s' = g
   | _ => ss_branch_generation s' = ss_branch_generation s
   end) ∧
  (match ev with
   | EmergencyStopActivated _ => ss_emergency_stopped_at s' = Some at_
   | _ => ss_emergency_stopped_at s' = ss_emergency_stopped_at s
   end) ∧
  (ss_state s' = SessionState_Archived ↔
     ev = SessionArchived ∨
     ss_state s = SessionState_Archived ∧ ∃ r, ev = EmergencyStopActivated r) ∧
  (ss_state s = SessionState_Archived → ∃ r, ev = EmergencyStopActivated r).
Proof.
  destruct s as [? ? ? ? st ? ? ? ? lg ? ? bg]. intros H. unfold Session_apply, Session_next in H. se_run H.
  destruct ev, st; se_cases H; simplify_eq; cbn; bool_to_prop; cbn in *; try discriminate;
    split_and!; try lia; try done; naive_solver.
Qed.

Lemma leases_snoc pre ev : leases (pre ++ [ev]) = leases pre ++
  match st_event ev with SessionLeaseAcquired g o => [(g, o)] | _ => [] end.
Proof. unfold leases. rewrite omap_app. cbn. by destruct (st_event ev). Qed.

Lemma branches_snoc pre ev : branches (pre ++ [ev]) = branches pre ++
  match st_event ev with SessionBranched g _ _ => [g] | _ => [] end.
Proof. unfold branches. rewrite omap_app. cbn. by destruct (st_event ev). Qed.

Lemma stops_snoc pre ev : stops (pre ++ [ev]) = stops pre ++
  match st_event ev with EmergencyStopActivated _ => [st_at ev] | _ => [] end.
Proof. unfold stops. rewrite omap_app. cbn. by destruct (st_event ev). Qed.

Lemma session_history_apply pre s ev s' :
  session_history pre s → Session_apply (st_event ev) (st_at ev) s = (s', Ok tt) →
  session_history (pre ++ [ev]) s'.
Proof.
  intros [Hl Hlo Hb Hbo Hst Har] (H1 & H2 & H3 & H4 & _)%session_apply_ok.
  assert (Hlg : ss_lease_generation s = default 0 (last (leases pre).*1)).
  { rewrite fmap_last. destruct (last (leases pre)) as [[g o]|]; simplify_eq/=; done. }
  split; rewrite ?leases_snoc, ?branches_snoc, ?stops_snoc.
  - destruct (st_event ev); rewrite ?app_nil_r; try exact Hl.
    rewrite fmap_app. cbn. apply rising_snoc; [exact Hl|]. rewrite <- Hlg. apply H1.
  - destruct (st_event ev); rewrite ?app_nil_r; try (destruct H1 as [-> ->]; exact Hlo).
    rewrite last_snoc. by destruct H1 as (_ & -> & ->).
  - destruct (st_event ev); rewrite ?app_nil_r; try exact Hb.
    apply rising_snoc; [exact Hb|]. rewrite <- Hbo. apply H2.
  - destruct (st_event ev); rewrite ?app_nil_r; try (rewrite H2; exact Hbo).
    rewrite last_snoc. by destruct H2 as (_ & ->).
  - destruct (st_event ev); rewrite ?app_nil_r; try (rewrite H3; exact Hst).
    by rewrite last_snoc.
  - rewrite H4. split.
    + intros [He|[Hs [r He]]].
      * exists pre, ev, []. split_and!; [done|done|constructor].
      * apply Har in Hs as (p & e & post & -> & Hx & Hf). exists p, e, (post ++ [ev]).
        split_and!; [by rewrite <- app_assoc|done|]. apply Forall_app. split; [done|].
        repeat constructor. by exists r.
    + intros (p & e & post & Heq & Hx & Hf).
      destruct post as [|x post' _] using rev_ind.
      * apply app_inj_tail in Heq as [_ ->]. by left.
      * rewrite app_comm_cons, app_assoc in Heq. apply app_inj_tail in Heq as [-> ->].
        apply Forall_app in Hf as [Hf Hlast]. right. split.
        -- apply Har. by exists p, e, post'.
        -- by apply Forall_inv in Hlast.
Qed.

(** What the log of a session says is what its row holds. The single-writer
    lease only moves forward: the generations acquired are strictly increasing
    from 1, and the row names the last of them and its owner; so do the
    generations of the history. The emergency stop is the time of the last stop
    in the log: no event lifts it. The session is archived exactly if the log
    archived it, after which only emergency stops follow. *)
Theorem session_projected id log s :
  numbered 1 log → project_log id None log = Ok (Some s) → session_history log s.
Proof.
  intros Hn Hp. eapply (project_history session_history); [| |exact Hn|exact Hp].
  - intros ev a. apply session_history_create.
  - intros pre a ev a'. apply session_history_apply.
Qed.

Definition session_log : list (stored SessionEvent) :=
  [Stored 1 (SessionCreated 1 2 3) 10;
   Stored 2 (SessionLeaseAcquired 1 "desktop") 11;
   Stored 3 (EmergencyStopActivated "stop") 12;
   Stored 4 (SessionLeaseAcquired 5 "cli") 13;
   Stored 5 SessionResumed 14].

(** Resuming an active session is refused; without it the log projects. *)
Example session_resume_refused :
  project_log 9 None session_log =
  Err {| it_aggregate := "Session"; it_from := "Active"; it_to := "Active" |}.
Proof. reflexivity. Qed.

Lemma session_projected_witness :
  ∃ s, project_log 9 None (take 4 session_log) = Ok (Some s) ∧
    ss_lease_generation s = 5 ∧ ss_emergency_stopped_at s = Some 12 ∧
    session_history (take 4 session_log) s.
Proof.
  eexists. split; [vm_compute; reflexivity|]. split; [reflexivity|]. split; [reflexivity|].
  apply (session_projected 9); [repeat split|vm_compute; reflexivity].
Defined.
