(* ===== verification/Stream.v ===== *)
(** * Assistant streams

    [crates/domain/src/stream.rs]: the events of one streamed model output, and
    the check the projector of [crates/event-store/src/projections.rs] makes before
    one is stored. Identifiers are numbers; a text is its bytes. *)

From S2P Require Import Prelude RustStr.
#[local] Open Scope Z_scope.

Definition MAX_DELTA_BYTES : Z := 2048.
Definition MIN_DELTA_INTERVAL_MS : Z := 50.
Definition MAX_STREAM_BYTES : Z := 4 * 1024 * 1024.

Definition DELTA : string := "AssistantTextDelta".
Definition COMPLETED : string := "AssistantMessageCompleted".
Definition ABORTED : string := "AssistantMessageAborted".

Inductive StreamKind := StreamKind_Text | StreamKind_Reasoning.

Inductive AbortSource :=
  | AbortSource_UserInterrupt | AbortSource_Runtime | AbortSource_Provider | AbortSource_Recovery.

Definition AbortSource_label (self : AbortSource) : string :=
  match self with
  | AbortSource_UserInterrupt => "USER_INTERRUPT"
  | AbortSource_Runtime => "RUNTIME"
  | AbortSource_Provider => "PROVIDER"
  | AbortSource_Recovery => "RECOVERY"
  end.

Inductive Retention := CollapsibleOnComplete.

Record TextRef := { tr_object_hash : string; tr_byte_length : Z }.

Inductive StreamEvent :=
  | AssistantTextDelta (stream_id : Z) (kind : StreamKind) (sequence run_id turn_id step_id : Z)
      (text provenance : string) (retention : Retention)
  | AssistantMessageCompleted (stream_id : Z) (kind : StreamKind) (delta_count : Z)
      (text_ref : TextRef) (content_hash : string)
  | AssistantMessageAborted (stream_id : Z) (kind : StreamKind) (source : AbortSource)
      (code reason : string) (delta_count bytes_streamed : Z).

Definition StreamEvent_event_type (e : StreamEvent) : string :=
  match e with
  | AssistantTextDelta _ _ _ _ _ _ _ _ _ => DELTA
  | AssistantMessageCompleted _ _ _ _ _ => COMPLETED
  | AssistantMessageAborted _ _ _ _ _ _ _ => ABORTED
  end.

Definition StreamEvent_stream_id (e : StreamEvent) : Z :=
  match e with
  | AssistantTextDelta stream_id _ _ _ _ _ _ _ _
  | AssistantMessageCompleted stream_id _ _ _ _
  | AssistantMessageAborted stream_id _ _ _ _ _ _ => stream_id
  end.

Definition closes (event_type : string) : bool := (event_type =s COMPLETED) || (event_type =s ABORTED).

(** [check_next]; [sequence - 1] is on [u64] and the store counts from 1. *)
Definition check_next (aggregate sequence : Z) (previous : option string) (event : StreamEvent)
    : result string unit :=
  if negb (StreamEvent_stream_id event =? aggregate) then
    Err "the event names a stream other than the aggregate it is appended to"
  else if (match previous with Some p => closes p | None => false end) then
    Err "the stream is closed; nothing follows its completion or abort record"
  else
    match event with
    | AssistantTextDelta _ _ s _ _ _ text _ _ =>
        if negb (s =? sequence) then
          Err ("delta sequence " +:+ pretty s +:+ " is out of order; the stream is at " +:+
               pretty sequence)
        else if MAX_DELTA_BYTES <? str_len text then
          Err ("a delta of " +:+ pretty (str_len text) +:+ " bytes exceeds the " +:+
               pretty MAX_DELTA_BYTES +:+ "-byte bound")
        else if str_is_empty text then Err "a delta carries text"
        else Ok tt
    | AssistantMessageCompleted _ _ delta_count _ _ =>
        if sequence =? 1 then Err "a stream cannot complete before its first delta"
        else if negb (delta_count =? wrap64 (sequence - 1)) then
          Err ("the completion record counts " +:+ pretty delta_count +:+
               " deltas; the stream holds " +:+ pretty (wrap64 (sequence - 1)))
        else Ok tt
    | AssistantMessageAborted _ _ _ _ _ delta_count _ =>
        if negb (delta_count =? wrap64 (sequence - 1)) then
          Err ("the abort record counts " +:+ pretty delta_count +:+
               " deltas; the stream holds " +:+ pretty (wrap64 (sequence - 1)))
        else Ok tt
    end.

(** The arm of the projector for streams, over the events of one aggregate: the
    store numbers them from 1 and hands over the type of the one before. *)
Fixpoint store_stream (aggregate sequence : Z) (previous : option string) (log : list StreamEvent)
    : result string unit :=
  match log with
  | [] => Ok tt
  | e :: log =>
      _ ← check_next aggregate sequence previous e;
      store_stream aggregate (sequence + 1) (Some (StreamEvent_event_type e)) log
  end.

(** ** What a stored stream looks like *)

(** Deltas of [id], numbered from [n], each with some text inside the bound. *)
Fixpoint deltas_from (id n : Z) (l : list StreamEvent) : Prop :=
  match l with
  | [] => True
  | AssistantTextDelta i _ s _ _ _ text _ _ :: l =>
      i = id ∧ s = n ∧ text ≠ "" ∧ str_len text ≤ MAX_DELTA_BYTES ∧ deltas_from id (n + 1) l
  | _ :: _ => False
  end.

(** The record that closes a stream after [n] deltas. *)
Definition closing (id n : Z) (e : StreamEvent) : Prop :=
  match e with
  | AssistantTextDelta _ _ _ _ _ _ _ _ _ => False
  | AssistantMessageCompleted i _ count _ _ => i = id ∧ count = n ∧ 0 < n
  | AssistantMessageAborted i _ _ _ _ count _ => i = id ∧ count = n
  end.

Definition stream_shape (id n : Z) (log : list StreamEvent) : Prop :=
  ∃ ds fin, log = ds ++ fin ∧ deltas_from id (n + 1) ds ∧
    (fin = [] ∨ ∃ e, fin = [e] ∧ closing id (n + Z.of_nat (length ds)) e).

Lemma store_closed id n p log :
  closes p = true → store_stream id n (Some p) log = Ok tt ↔ log = [].
Proof.
  intros Hp. destruct log as [|e log]; [done|]. cbn. unfold check_next.
  destruct (negb _); cbn; [done|]. by rewrite Hp.
Qed.

Lemma deltas_from_cons id n e l :
  deltas_from id n (e :: l) ↔ deltas_from id n [e] ∧ deltas_from id (n + 1) l.
Proof. destruct e; cbn; tauto. Qed.

(** A stream is read from the front: a delta and a stream from the next number,
    or a closing record at the end. *)
Lemma stream_shape_cons id n e log :
  stream_shape id n (e :: log) ↔
  deltas_from id (n + 1) [e] ∧ stream_shape id (n + 1) log ∨ closing id n e ∧ log = [].
Proof.
  split.
  - intros ([|d ds] & fin & E & Hd & Hf).
    + right. destruct Hf as [->|(x & -> & Hx)]; [discriminate E|]. injection E as -> ->.
      cbn in Hx. by rewrite Z.add_0_r in Hx.
    + left. injection E as -> ->. apply deltas_from_cons in Hd as [Hd Hds]. split; [done|].
      exists ds, fin. split_and!; [done|done|]. cbn [length] in Hf.
      by replace (n + 1 + Z.of_nat (length ds)) with (n + Z.of_nat (S (length ds))) by lia.
  - intros [(Hd & ds & fin & -> & Hds & Hf)|(Hc & ->)].
    + exists (e :: ds), fin. split_and!; [done|by apply deltas_from_cons|]. cbn [length].
      by replace (n + Z.of_nat (S (length ds))) with (n + 1 + Z.of_nat (length ds)) by lia.
    + exists [], [e]. split_and!; [done|done|]. right. exists e. split; [done|].
      cbn. by rewrite Z.add_0_r.
Qed.

Lemma store_stream_exact id n p log :
  0 ≤ n → n + Z.of_nat (length log) ≤ u64_max →
  (match p with Some t => closes t = false | None => True end) →
  store_stream id (n + 1) p log = Ok tt ↔ stream_shape id n log.
Proof.
  revert n p. induction log as [|e log IH]; intros n p Hn Hlen Hp.
  { split; [intros _|done]. exists [], []. split_and!; [done|done|by left]. }
  assert (Hpc : (match p with Some t => closes t | None => false end) = false) by by destruct p.
  cbn [length] in Hlen. rewrite stream_shape_cons. cbn [store_stream]. unfold check_next. rewrite Hpc.
  assert (Hw : wrap64 (n + 1 - 1) = n) by (rewrite wrap64_small; unfold in_u64, u64_max in *; lia).
  destruct e as [i k s r t st text pr re|i k c tr h|i k src code why c b];
    cbn [StreamEvent_stream_id deltas_from closing];
    (destruct (Z.eqb_spec i id) as [->|Hi]; cbn [negb mbind result_bind]; [|split; [done|tauto]]).
  - destruct (Z.eqb_spec s (n + 1)) as [->|Hs]; cbn [negb]; [|split; [done|tauto]].
    destruct (Z.ltb_spec MAX_DELTA_BYTES (str_len text)) as [Hl|Hl]; [split; [done|lia]|].
    destruct text as [|a text]; [split; [done|tauto]|]. cbn [str_is_empty mbind result_bind].
    rewrite (IH (n + 1)) by (lia || reflexivity). split; [intros ?; left; by split_and!|tauto].
  - destruct (Z.eqb_spec (n + 1) 1); [split; [done|lia]|]. rewrite Hw.
    destruct (Z.eqb_spec c n) as [->|]; cbn [negb mbind result_bind]; [|split; [done|tauto]].
    rewrite store_closed by reflexivity. split; [intros ->; right; split_and!; lia || done|tauto].
  - rewrite Hw. destruct (Z.eqb_spec c n) as [->|]; cbn [negb mbind result_bind]; [|split; [done|tauto]].
    rewrite store_closed by reflexivity. split; [intros ->; by right|tauto].
Qed.

(** The store accepts exactly the well-formed streams: the deltas of one
    stream, numbered from 1 without gaps, none of them empty or above 2 KiB,
    followed by nothing or by one closing record that counts them, which completes
    the stream only if there was a delta. *)
Theorem stored_stream_exact id log :
  Z.of_nat (length log) ≤ u64_max →
  store_stream id 1 None log = Ok tt ↔ stream_shape id 0 log.
Proof. intros H. apply (store_stream_exact id 0 None log); [done|lia|done]. Qed.

Definition two_deltas : list StreamEvent :=
  [AssistantTextDelta 7 StreamKind_Text 1 1 1 1 "Hel" "model" CollapsibleOnComplete;
   AssistantTextDelta 7 StreamKind_Text 2 1 1 1 "lo" "model" CollapsibleOnComplete;
   AssistantMessageCompleted 7 StreamKind_Text 2 {| tr_object_hash := "h"; tr_byte_length := 5 |} "h"].

Lemma stored_stream_exact_witness :
  stream_shape 7 0 two_deltas ∧ store_stream 7 1 None (two_deltas ++ two_deltas) ≠ Ok tt.
Proof.
  split; [|discriminate]. apply (stored_stream_exact 7 two_deltas); [vm_compute; discriminate|reflexivity].
Defined.
