(* ===== verification/Routing.v ===== *)
(** * Conditional execution plans

    [crates/domain/src/routing.rs]: money, budgets, the slots of a plan, and the
    validation every plan passes before anything dispatches from it. *)

From S2P Require Import Prelude RustStr External.
#[local] Open Scope Z_scope.

Definition ROUTING_SCHEMA_VERSION : Z := 2.
Definition MIN_DECODABLE_VERSION : Z := 1.

(** Why a routing record is refused. *)
Inductive Invalid :=
  | Invalid_IncompatibleVersion (field : string) (found supported : Z)
  | Invalid_Missing (field : string)
  | Invalid_OutOfRange (field expected found : string)
  | Invalid_Duplicate (field value : string)
  | Invalid_UnresolvedReference (field reference : string)
  | Invalid_ForeignTenant (field : string) (found expected : Z)
  | Invalid_StaleGeneration (field : string) (offered current : Z).

(** ** Money *)

Record Money := {
  minor_units : Z;
  currency : string;
  scale : Z
}.

#[export] Instance Money_eq_dec : EqDecision Money.
Proof. solve_decision. Defined.

(** [Money::zero]. *)
Definition Money_zero (currency : string) (scale : Z) : Money :=
  {| minor_units := 0; currency := currency; scale := scale |}.

(** [Money::validate]. *)
Definition Money_validate (self : Money) (field : string) : result Invalid unit :=
  if str_is_empty (currency self) then Err (Invalid_Missing (field +:+ ".currency"))
  else if negb (str_all (λ c, is_ascii_upper c && is_ascii_alpha c) (currency self)) then
    Err (Invalid_OutOfRange (field +:+ ".currency") "uppercase ASCII letters" (currency self))
  else if 4 <? scale self then
    Err (Invalid_OutOfRange (field +:+ ".scale") "at most 4" (pretty (scale self)))
  else Ok tt.

(** [Money::checked_add]. *)
Definition Money_checked_add (self other : Money) (field : string) : result Invalid Money :=
  if negb (currency self =s currency other) || negb (scale self =? scale other) then
    Err (Invalid_OutOfRange field
           (currency self +:+ " at scale " +:+ pretty (scale self))
           (currency other +:+ " at scale " +:+ pretty (scale other)))
  else
    units ← ok_or (checked_add u64_max (minor_units self) (minor_units other))
              (Invalid_OutOfRange field "a sum below u64::MAX"
                 (pretty (minor_units self) +:+ " + " +:+ pretty (minor_units other)));
    Ok {| minor_units := units; currency := currency self; scale := scale self |}.

(** ** Plan records *)

Record LegacyDecode := {
  source_shape : string;
  template_label : string;
  source_version : Z;
  unknown_fields : list string;
  legacy_note : string
}.

Record Provenance := {
  policy_version : string;
  registry_generation : string;
  profiler_version : string;
  statistics_version : string;
  compiler_version : string;
  gate_version : string;
  risk_version : string;
  legacy_decode : option LegacyDecode;
  skill_set : string
}.

(** [Provenance::validate]: the first field that is blank. *)
Definition Provenance_validate (self : Provenance) (field : string) : result Invalid unit :=
  match List.find (λ nv, str_is_empty (trim nv.2))
          [ ("policy_version", policy_version self);
            ("registry_generation", registry_generation self);
            ("profiler_version", profiler_version self);
            ("statistics_version", statistics_version self);
            ("compiler_version", compiler_version self);
            ("gate_version", gate_version self);
            ("risk_version", risk_version self) ] with
  | Some (name, _) => Err (Invalid_Missing (field +:+ "." +:+ name))
  | None => Ok tt
  end.

Record Budget := {
  timeout_ms : Z;
  max_output_tokens : Z;
  max_retries : Z;
  reserved : Money
}.

(** [Budget::validate]. *)
Definition Budget_validate (self : Budget) (field : string) : result Invalid unit :=
  if timeout_ms self =? 0 then
    Err (Invalid_OutOfRange (field +:+ ".timeout_ms") "a positive timeout" "0")
  else if max_output_tokens self =? 0 then
    Err (Invalid_OutOfRange (field +:+ ".max_output_tokens") "a positive ceiling" "0")
  else Money_validate (reserved self) (field +:+ ".reserved").

Inductive Trigger :=
  | Trigger_Initial
  | Trigger_QualityRejected
  | Trigger_ReviewRequired
  | Trigger_LegFailed.

#[export] Instance Trigger_eq_dec : EqDecision Trigger.
Proof. solve_decision. Defined.

Definition Trigger_debug (t : Trigger) : string :=
  match t with
  | Trigger_Initial => "Initial"
  | Trigger_QualityRejected => "QualityRejected"
  | Trigger_ReviewRequired => "ReviewRequired"
  | Trigger_LegFailed => "LegFailed"
  end.

Record Slot := {
  slot_id : string;
  predecessor : option string;
  slot_trigger : Trigger;
  max_activations : Z;
  endpoint : string;
  model : string;
  role : string;
  budget : Budget
}.

Record ConditionalExecutionPlan := {
  schema_version : Z;
  plan_id : string;
  plan_tenant_id : Z;
  plan_session_id : Z;
  plan_task_id : Z;
  plan_run_id : Z;
  routing_epoch : Z;
  lease_generation : Z;
  created_at_ms : Z;
  provenance : Provenance;
  input_digest : string;
  slots : list Slot;
  max_total_attempts : Z;
  max_revisions : Z;
  verification_reserve : Money;
  total_budget : Money;
  content_digest : string
}.

(** The JSON text of a plan: [serde_json::to_string(p).unwrap_or_default()]. *)
Class PlanText := plan_json : ConditionalExecutionPlan → string.

(** ** Digests *)

(** [digest]: every part followed by a zero byte. *)
Definition digest `{Sha256} (parts : list string) : string :=
  sha256_hex (foldr (λ p acc, p +:+ String zero acc) "" parts).

(** [plan_digest]: of the plan with an empty [content_digest]. *)
Definition plan_digest `{Sha256, PlanText} (plan : ConditionalExecutionPlan) : string :=
  digest [plan_json { plan with content_digest := "" }].

(** [ConditionalExecutionPlan::sealed]. *)
Definition Plan_sealed `{Sha256, PlanText} (self : ConditionalExecutionPlan)
    : ConditionalExecutionPlan :=
  { self with content_digest := plan_digest self }.

(** ** Validation *)

(** The loop over the slots: ids seen, money reserved, initial slots counted. *)
Fixpoint validate_slots (l : list Slot) (ids : list string) (acc : Money) (initial : Z)
    : result Invalid (Money * Z) :=
  match l with
  | [] => Ok (acc, initial)
  | s :: l =>
      if str_is_empty (trim (slot_id s)) then Err (Invalid_Missing "slots[].slot_id")
      else if contains_str ids (slot_id s) then
        Err (Invalid_Duplicate "slots[].slot_id" (slot_id s))
      else if str_is_empty (trim (endpoint s)) || str_is_empty (trim (model s)) then
        Err (Invalid_Missing ("slots[" +:+ slot_id s +:+ "].endpoint/model"))
      else if max_activations s =? 0 then
        Err (Invalid_OutOfRange ("slots[" +:+ slot_id s +:+ "].max_activations")
               "at least one activation" "0")
      else
        _ ← Budget_validate (budget s) ("slots[" +:+ slot_id s +:+ "].budget");
        acc ← Money_checked_add acc (reserved (budget s)) "slots[].budget.reserved";
        if decide (slot_trigger s = Trigger_Initial) then
          match predecessor s with
          | Some _ =>
              Err (Invalid_UnresolvedReference ("slots[" +:+ slot_id s +:+ "].predecessor")
                     "an initial slot has no predecessor")
          | None => validate_slots l (slot_id s :: ids) acc (initial + 1)
          end
        else
          match predecessor s with
          | None => Err (Invalid_Missing ("slots[" +:+ slot_id s +:+ "].predecessor"))
          | Some _ => validate_slots l (slot_id s :: ids) acc initial
          end
  end.

(** [by_id.get(p)]: a map built from the slots, so a later slot wins. *)
Definition slot_by_id (l : list Slot) (p : string) : option Slot :=
  List.find (λ s, slot_id s =s p) (rev l).

(** The [while let] walk from [cur] up its predecessors. [None] when the fuel
    runs out, which [walk_total] shows never happens with one more than the
    number of slots. *)
Fixpoint walk (fuel : nat) (l : list Slot) (s cur : Slot) (seen : list string)
    : option (result Invalid unit) :=
  match fuel with
  | O => None
  | S fuel =>
      match predecessor cur with
      | None => Some (Ok tt)
      | Some p =>
          let field := "slots[" +:+ slot_id s +:+ "].predecessor" in
          if contains_str seen (slot_id cur) then
            Some (Err (Invalid_UnresolvedReference field ("cycle through " +:+ p)))
          else
            let seen := slot_id cur :: seen in
            match slot_by_id l p with
            | None => Some (Err (Invalid_UnresolvedReference field p))
            | Some next =>
                if contains_str seen (slot_id next) then
                  Some (Err (Invalid_UnresolvedReference field ("cycle through " +:+ slot_id next)))
                else walk fuel l s next seen
            end
      end
  end.

(** The loop over the slots that walks up from each. *)
Fixpoint validate_walks (l todo : list Slot) : result Invalid unit :=
  match todo with
  | [] => Ok tt
  | s :: todo =>
      match walk (S (length l)) l s s [] with
      | Some (Ok _) => validate_walks l todo
      | Some (Err e) => Err e
      | None => Ok tt
      end
  end.

(** [ConditionalExecutionPlan::validate]. *)
Definition Plan_validate `{Sha256, PlanText} (self : ConditionalExecutionPlan)
    (tenant current_epoch : Z) : result Invalid unit :=
  if (ROUTING_SCHEMA_VERSION <? schema_version self)
     || (schema_version self <? MIN_DECODABLE_VERSION) then
    Err (Invalid_IncompatibleVersion "schema_version" (schema_version self)
           ROUTING_SCHEMA_VERSION)
  else if str_is_empty (trim (plan_id self)) then Err (Invalid_Missing "plan_id")
  else if negb (str_len (input_digest self) =? 64) then
    Err (Invalid_OutOfRange "input_digest" "a 64-character sha256"
           (pretty (str_len (input_digest self))))
  else if negb (plan_tenant_id self =? tenant) then
    Err (Invalid_ForeignTenant "tenant_id" (plan_tenant_id self) tenant)
  else if routing_epoch self <? current_epoch then
    Err (Invalid_StaleGeneration "routing_epoch" (routing_epoch self) current_epoch)
  else
    _ ← Provenance_validate (provenance self) "provenance";
    _ ← Money_validate (total_budget self) "total_budget";
    _ ← Money_validate (verification_reserve self) "verification_reserve";
    if negb (currency (verification_reserve self) =s currency (total_budget self))
       || (minor_units (total_budget self) <? minor_units (verification_reserve self)) then
      Err (Invalid_OutOfRange "verification_reserve"
             ("at most the total budget (" +:+ pretty (minor_units (total_budget self)) +:+ " "
                +:+ currency (total_budget self) +:+ ")")
             (pretty (minor_units (verification_reserve self)) +:+ " "
                +:+ currency (verification_reserve self)))
    else if max_total_attempts self =? 0 then
      Err (Invalid_OutOfRange "max_total_attempts" "at least one attempt" "0")
    else if match slots self with [] => true | _ => false end then Err (Invalid_Missing "slots")
    else
      ri ← validate_slots (slots self) []
             (Money_zero (currency (total_budget self)) (scale (total_budget self))) 0;
      if negb (ri.2 =? 1) then
        Err (Invalid_OutOfRange "slots[].trigger" "exactly one initial slot" (pretty ri.2))
      else
        total ← Money_checked_add ri.1 (verification_reserve self) "reserved+verification";
        if minor_units (total_budget self) <? minor_units total then
          Err (Invalid_OutOfRange "total_budget"
                 ("at least the reserved " +:+ pretty (minor_units total))
                 (pretty (minor_units (total_budget self))))
        else
          _ ← validate_walks (slots self) (slots self);
          if negb (str_is_empty (content_digest self))
             && negb (content_digest self =s plan_digest self) then
            Err (Invalid_OutOfRange "content_digest" (plan_digest self) (content_digest self))
          else Ok tt.

(** [ConditionalExecutionPlan::initial_slot]. *)
Definition Plan_initial_slot (self : ConditionalExecutionPlan) : option Slot :=
  List.find (λ s, bool_decide (slot_trigger s = Trigger_Initial)) (slots self).

(** ** Plans the code builds itself *)

Record LegacyExecutionPlan := {
  lp_version : Z;
  lp_template : string;
  lp_endpoint : string;
  lp_model : string;
  lp_timeout_ms : option Z
}.

Definition LEGACY_NOTE : string := "Decoded from a legacy plan shape for provenance only. A template label authorizes no slot and grants no capability; absent statistics, budgets and confidence are recorded unknown, never invented (docs/38).".

Record PlanScope := {
  ps_tenant_id : Z;
  ps_session_id : Z;
  ps_task_id : Z;
  ps_run_id : Z;
  ps_created_at_ms : Z
}.

(** [decode_legacy]. *)
Definition decode_legacy `{Sha256, PlanText} (legacy : LegacyExecutionPlan) (plan_id : string)
    (scope : PlanScope) (prov : Provenance) (total : Money) : ConditionalExecutionPlan :=
  Plan_sealed
    {| schema_version := ROUTING_SCHEMA_VERSION;
       plan_id := plan_id;
       plan_tenant_id := ps_tenant_id scope;
       plan_session_id := ps_session_id scope;
       plan_task_id := ps_task_id scope;
       plan_run_id := ps_run_id scope;
       routing_epoch := 0;
       lease_generation := 0;
       created_at_ms := ps_created_at_ms scope;
       provenance :=
         { prov with legacy_decode := Some
             {| source_shape := "ExecutionPlan";
                template_label := lp_template legacy;
                source_version := lp_version legacy;
                unknown_fields := ["quality_lcb"; "outcome_statistics"; "reserved_budget";
                                   "continuation_slots"];
                legacy_note := LEGACY_NOTE |} };
       input_digest := digest [lp_template legacy; lp_endpoint legacy; lp_model legacy];
       slots :=
         [ {| slot_id := "initial";
              predecessor := None;
              slot_trigger := Trigger_Initial;
              max_activations := 1;
              endpoint := lp_endpoint legacy;
              model := lp_model legacy;
              role := "solver";
              budget := {| timeout_ms := Z.max (default 120000 (lp_timeout_ms legacy)) 1;
                           max_output_tokens := 4096;
                           max_retries := 0;
                           reserved := Money_zero (currency total) (scale total) |} |} ];
       max_total_attempts := 1;
       max_revisions := 0;
       verification_reserve := Money_zero (currency total) (scale total);
       total_budget := total;
       content_digest := "" |}.

Definition DIRECT_NOT_CONSULTED : string := "none".
Definition DIRECT_COMPILER_VERSION : string := "direct-baseline-1".
Definition DIRECT_SLOT : string := "initial".

(** [direct_plan_id]. *)
Definition direct_plan_id `{IdText} (run_id : Z) : string := "direct:" +:+ id_text run_id.

Record DirectPath := {
  dp_endpoint : string;
  dp_model : string;
  dp_timeout_ms : Z;
  dp_max_output_tokens : Z;
  dp_max_retries : Z;
  dp_max_turns : Z
}.

(** [ConditionalExecutionPlan::direct]. *)
Definition Plan_direct `{Sha256, PlanText, IdText} (tenant_id session_id task_id run_id : Z)
    (lease_generation created_at_ms : Z) (path : DirectPath) : ConditionalExecutionPlan :=
  let unbudgeted := Money_zero "USD" 2 in
  let v := DIRECT_NOT_CONSULTED in
  Plan_sealed
    {| schema_version := ROUTING_SCHEMA_VERSION;
       plan_id := direct_plan_id run_id;
       plan_tenant_id := tenant_id;
       plan_session_id := session_id;
       plan_task_id := task_id;
       plan_run_id := run_id;
       routing_epoch := 0;
       lease_generation := lease_generation;
       created_at_ms := created_at_ms;
       provenance := {| policy_version := v; registry_generation := v; profiler_version := v;
                        statistics_version := v; compiler_version := DIRECT_COMPILER_VERSION;
                        gate_version := v; risk_version := v; legacy_decode := None;
                        skill_set := "" |};
       input_digest := digest [dp_endpoint path; dp_model path; pretty (dp_timeout_ms path);
                               pretty (dp_max_output_tokens path); pretty (dp_max_retries path);
                               pretty (dp_max_turns path)];
       slots :=
         [ {| slot_id := DIRECT_SLOT;
              predecessor := None;
              slot_trigger := Trigger_Initial;
              max_activations := 1;
              endpoint := dp_endpoint path;
              model := dp_model path;
              role := "solver";
              budget := {| timeout_ms := dp_timeout_ms path;
                           max_output_tokens := dp_max_output_tokens path;
                           max_retries := dp_max_retries path;
                           reserved := unbudgeted |} |} ];
       max_total_attempts := Z.max (dp_max_turns path) 1;
       max_revisions := 0;
       verification_reserve := unbudgeted;
       total_budget := unbudgeted;
       content_digest := "" |}.

Record RoutingCandidate := {
  rc_plan_id : string;
  rc_bindings : list string;
  rc_expected_cost_minor : Z;
  rc_worst_case_cost_minor : Z;
  rc_quality_mean_bp : Z;
  rc_quality_lcb_bp : Z;
  rc_confident : bool;
  rc_hard_eligible : bool;
  rc_reason : string
}.

Record RoutingExclusion := {
  rx_subject : string;
  rx_reason : string
}.

(** ** Properties *)

(** The exact sum, or an error: money is never wrapped or mixed. *)
Lemma money_checked_add_ok a b f m :
  Money_checked_add a b f = Ok m →
  minor_units m = minor_units a + minor_units b ∧ minor_units m ≤ u64_max ∧
  currency a = currency b ∧ scale a = scale b ∧
  currency m = currency a ∧ scale m = scale a.
Proof.
  unfold Money_checked_add, checked_add.
  destruct (_ || _)%bool eqn:E; [done|]. bool_to_prop.
  destruct (Z.leb_spec (minor_units a + minor_units b) u64_max); cbn; intros; simplify_eq.
  cbn. split_and!; done.
Qed.

Definition reserved_sum (l : list Slot) : Z :=
  foldr (λ s n, minor_units (reserved (budget s)) + n) 0 l.

Definition is_initial (s : Slot) : bool := bool_decide (slot_trigger s = Trigger_Initial).

(** What one slot satisfies after the loop. *)
Definition slot_ok (cur : string) (sc : Z) (s : Slot) : Prop :=
  (slot_trigger s = Trigger_Initial ↔ predecessor s = None) ∧
  max_activations s ≠ 0 ∧ timeout_ms (budget s) ≠ 0 ∧ max_output_tokens (budget s) ≠ 0 ∧
  currency (reserved (budget s)) = cur ∧ scale (reserved (budget s)) = sc.

Lemma budget_validate_ok b f :
  Budget_validate b f = Ok tt → timeout_ms b ≠ 0 ∧ max_output_tokens b ≠ 0.
Proof.
  unfold Budget_validate.
  destruct (Z.eqb_spec (timeout_ms b) 0), (Z.eqb_spec (max_output_tokens b) 0); done.
Qed.

Lemma validate_slots_ok l ids acc n acc' n' :
  validate_slots l ids acc n = Ok (acc', n') →
  NoDup (slot_id <$> l) ∧ (∀ s, s ∈ l → slot_id s ∉ ids) ∧
  minor_units acc' = minor_units acc + reserved_sum l ∧
  n' = n + Z.of_nat (length (List.filter is_initial l)) ∧
  Forall (slot_ok (currency acc) (scale acc)) l ∧
  currency acc' = currency acc ∧ scale acc' = scale acc.
Proof.
  revert ids acc n; induction l as [|s l IH]; intros ids acc n H; cbn in H.
  - simplify_eq. cbn. split_and!; try done; [constructor|set_solver|lia|lia].
  - destruct (str_is_empty (trim (slot_id s))); [done|].
    destruct (contains_str ids (slot_id s)) eqn:Hids; [done|].
    destruct (_ || _)%bool; [done|].
    destruct (Z.eqb_spec (max_activations s) 0) as [|Hma]; [done|].
    destruct (Budget_validate _ _) as [[]|] eqn:Hb; cbn in H; [|done].
    apply budget_validate_ok in Hb as [Ht Ho].
    destruct (Money_checked_add _ _ _) as [acc1|] eqn:Hm; cbn in H; [|done].
    apply money_checked_add_ok in Hm as (Hsum & _ & Hc & Hsc & Hc1 & Hs1).
    apply contains_str_false in Hids.
    assert (validate_slots l (slot_id s :: ids) acc1
              (if is_initial s then n + 1 else n) = Ok (acc', n') ∧
            (slot_trigger s = Trigger_Initial ↔ predecessor s = None)) as [H' Htr].
    { unfold is_initial. destruct (decide (slot_trigger s = Trigger_Initial)) as [Ei|Ei].
      - rewrite bool_decide_eq_true_2 by done. destruct (predecessor s); [done|]. done.
      - rewrite bool_decide_eq_false_2 by done. destruct (predecessor s); done. }
    apply IH in H' as (Hnd & Hni & Hmu & -> & Hf & Hcu & Hsu). cbn.
    split_and!.
    + constructor; [|done]. intros Hin. apply list_elem_of_fmap in Hin as (s' & Es & Hs').
      apply (Hni s' Hs'). rewrite <- Es. set_solver.
    + intros s' [->|Hs']%elem_of_cons; [done|]. specialize (Hni s' Hs'). set_solver.
    + rewrite Hmu, Hsum. unfold reserved_sum. cbn. lia.
    + destruct (is_initial s); cbn; lia.
    + rewrite Hc1, Hs1 in Hf. constructor; [|done]. split_and!; auto.
    + congruence.
    + congruence.
Qed.

(** [leads_to l s r]: the predecessors of [s] end at [r], which has none. *)
Inductive leads_to (l : list Slot) : Slot → Slot → Prop :=
  | leads_root s : predecessor s = None → leads_to l s s
  | leads_step s p next r :
      predecessor s = Some p → slot_by_id l p = Some next →
      leads_to l next r → leads_to l s r.

Lemma slot_by_id_elem l p s : slot_by_id l p = Some s → s ∈ l ∧ slot_id s = p.
Proof.
  unfold slot_by_id. intros H. apply List.find_some in H as [Hin E%String.eqb_eq].
  split; [|done]. apply list_elem_of_In. by apply in_rev.
Qed.

Lemma walk_ok fuel l s cur seen :
  cur ∈ l → walk fuel l s cur seen = Some (Ok tt) →
  ∃ r, r ∈ l ∧ predecessor r = None ∧ leads_to l cur r.
Proof.
  revert cur seen; induction fuel as [|fuel IH]; intros cur seen Hin H; cbn in H; [done|].
  destruct (predecessor cur) as [p|] eqn:Ep.
  - destruct (contains_str seen (slot_id cur)); [done|].
    destruct (slot_by_id l p) as [next|] eqn:En; [|done].
    destruct (contains_str _ (slot_id next)); [done|].
    destruct (IH next _ (proj1 (slot_by_id_elem _ _ _ En)) H) as (r & ? & ? & ?).
    exists r. split_and!; auto. by econstructor.
  - exists cur. split_and!; auto. by constructor.
Qed.

(** The walk ends: every turn adds a new slot id to [seen]. *)
Lemma walk_total fuel l s cur seen :
  cur ∈ l → NoDup seen → (∀ i, i ∈ seen → i ∈ slot_id <$> l) →
  (length l < fuel + length seen)%nat → is_Some (walk fuel l s cur seen).
Proof.
  revert cur seen; induction fuel as [|fuel IH]; intros cur seen Hin Hnd Hsub Hlen; cbn.
  - pose proof (submseteq_length _ _ (NoDup_submseteq seen (slot_id <$> l) Hnd Hsub)) as Hle.
    rewrite length_fmap in Hle. lia.
  - destruct (predecessor cur) as [p|]; [|done].
    destruct (contains_str seen (slot_id cur)) eqn:Ec; [done|].
    destruct (slot_by_id l p) as [next|] eqn:En; [|done].
    destruct (contains_str _ (slot_id next)); [done|].
    apply contains_str_false in Ec. apply IH.
    + by eapply slot_by_id_elem.
    + by constructor.
    + intros i [->|Hi]%elem_of_cons; [by apply list_elem_of_fmap_2|auto].
    + cbn. lia.
Qed.

(** The length of the chain of predecessors, which is a function of the slot. *)
Fixpoint chain (l : list Slot) (n : nat) (s : Slot) : Prop :=
  match n with
  | O => predecessor s = None
  | S n => ∃ p next, predecessor s = Some p ∧ slot_by_id l p = Some next ∧ chain l n next
  end.

Lemma chain_det l n m s : chain l n s → chain l m s → n = m.
Proof.
  revert m s. induction n as [|n IH]; intros [|m] s; cbn; naive_solver congruence.
Qed.

Lemma leads_to_chain l s r : leads_to l s r → ∃ n, chain l n s.
Proof.
  induction 1 as [s Hs|s p next r Hp Hn _ [n IH]]; [by exists O|]. exists (S n). by exists p, next.
Qed.

Lemma slot_id_inj l (x y : Slot) :
  NoDup (slot_id <$> l) → x ∈ l → y ∈ l → slot_id x = slot_id y → x = y.
Proof.
  intros Hn Hx Hy E. apply list_elem_of_lookup in Hx as [i Hi], Hy as [j Hj].
  assert (i = j) as ->; [|congruence].
  eapply NoDup_lookup; [exact Hn|by rewrite list_lookup_fmap, Hi|].
  rewrite list_lookup_fmap, Hj. cbn. by rewrite E.
Qed.

Lemma walk_chain fuel l s cur seen n :
  NoDup (slot_id <$> l) → cur ∈ l → chain l n cur →
  (∀ i, i ∈ seen → ∃ x m, x ∈ l ∧ slot_id x = i ∧ chain l m x ∧ (n < m)%nat) →
  (n < fuel)%nat → walk fuel l s cur seen = Some (Ok tt).
Proof.
  intros Hnd. revert cur seen n. induction fuel as [|fuel IH]; intros cur seen n Hin Hc Hseen Hf; [lia|].
  assert (Hfresh : ∀ k x, x ∈ l → chain l k x → (k ≤ n)%nat → contains_str seen (slot_id x) = false).
  { intros k x Hx Hk Hle. apply contains_str_false. intros (y & m & Hy & Hid & Hm & Hlt)%Hseen.
    apply (slot_id_inj l) in Hid as ->; [|done..]. pose proof (chain_det _ _ _ _ Hk Hm). lia. }
  cbn [walk]. destruct n as [|n]; [cbn in Hc; by rewrite Hc|].
  pose proof Hc as (p & next & Hp & Hnx & Hn). rewrite Hp, (Hfresh (S n) cur), Hnx by (done || lia).
  pose proof (proj1 (slot_by_id_elem _ _ _ Hnx)) as Hnin.
  destruct (contains_str (_ :: _) (slot_id next)) eqn:E.
  - apply contains_str_true, elem_of_cons in E as [E|E].
    + apply (slot_id_inj l) in E as ->; [|done..]. pose proof (chain_det _ _ _ _ Hc Hn). lia.
    + apply contains_str_true in E. rewrite (Hfresh n next) in E by (done || lia). done.
  - apply (IH next _ n); [done|done| |lia]. intros i [->|Hi]%elem_of_cons.
    + exists cur, (S n). split_and!; [done|done|done|lia].
    + destruct (Hseen i Hi) as (x & m & ? & ? & ? & ?). exists x, m. split_and!; [done|done|done|lia].
Qed.

Lemma walk_more fuel l s cur seen r k :
  walk fuel l s cur seen = Some r → walk (fuel + k) l s cur seen = Some r.
Proof.
  revert cur seen. induction fuel as [|fuel IH]; intros cur seen; [done|]. cbn.
  destruct (predecessor cur); [|done]. destruct (contains_str seen _); [done|].
  destruct (slot_by_id l _); [|done]. destruct (contains_str _ _); [done|]. apply IH.
Qed.

(** The check for cycles ends, on every plan, and decides. From any slot of a
    plan with unique slot ids, also one whose predecessors form a cycle or name
    a slot that does not exist, the walk up the predecessors returns after at
    most one round more than there are slots, with an answer no further round
    changes; and the answer is that all is well exactly if the predecessors end
    at a slot that has none. *)
Theorem predecessor_walk_terminates l s :
  NoDup (slot_id <$> l) → s ∈ l →
  ∃ r, (∀ k, walk (S (length l) + k) l s s [] = Some r) ∧
    (r = Ok tt ↔ ∃ root, root ∈ l ∧ leads_to l s root).
Proof.
  intros Hnd Hin.
  destruct (walk_total (S (length l)) l s s [] Hin) as [r Hr];
    [constructor|set_solver|cbn; lia|].
  exists r. split; [intros k; by apply walk_more|]. split.
  - intros ->. destruct (walk_ok _ _ _ _ _ Hin Hr) as (root & ? & _ & ?). by exists root.
  - intros (root & _ & [n Hn]%leads_to_chain).
    pose proof (walk_chain (S (length l) + S n) l s s [] n Hnd Hin Hn) as Hw.
    rewrite (walk_more _ _ _ _ _ _ _ Hr) in Hw.
    apply (inj Some), Hw; [set_solver|lia].
Qed.

Lemma validate_walks_ok l todo :
  (∀ s, s ∈ todo → s ∈ l) → validate_walks l todo = Ok tt →
  ∀ s, s ∈ todo → ∃ r, r ∈ l ∧ predecessor r = None ∧ leads_to l s r.
Proof.
  induction todo as [|s0 todo IH]; intros Hsub H s Hs; [by apply not_elem_of_nil in Hs|].
  cbn [validate_walks] in H.
  assert (s0 ∈ l) as Hin by (apply Hsub; set_solver).
  destruct (walk_total (S (length l)) l s0 s0 [] Hin) as [r Hr];
    [constructor|set_solver|cbn; lia|].
  rewrite Hr in H. destruct r as [[]|]; [|done].
  apply elem_of_cons in Hs as [->|Hs]; [by eapply walk_ok|].
  apply IH; auto. intros; apply Hsub; set_solver.
Qed.

Lemma plan_validated `{Sha256, PlanText} p tenant epoch :
  Plan_validate p tenant epoch = Ok tt →
  plan_tenant_id p = tenant ∧ epoch ≤ routing_epoch p ∧
  NoDup (slot_id <$> slots p) ∧
  reserved_sum (slots p) + minor_units (verification_reserve p) ≤ minor_units (total_budget p) ∧
  ∃ init, List.filter is_initial (slots p) = [init] ∧
    ∀ s, s ∈ slots p → leads_to (slots p) s init.
Proof.
  unfold Plan_validate. intros Hv.
  destruct (_ || _)%bool; [done|]. destruct (str_is_empty (trim (plan_id p))); [done|].
  destruct (negb (str_len _ =? 64)); [done|].
  destruct (Z.eqb_spec (plan_tenant_id p) tenant) as [Ht|]; cbn in Hv; [|done].
  destruct (Z.ltb_spec (routing_epoch p) epoch) as [|He]; [done|].
  destruct (Provenance_validate _ _) as [[]|]; cbn in Hv; [|done].
  destruct (Money_validate (total_budget p) _) as [[]|]; cbn in Hv; [|done].
  destruct (Money_validate (verification_reserve p) _) as [[]|]; cbn in Hv; [|done].
  destruct (_ || _)%bool; [done|]. destruct (max_total_attempts p =? 0); [done|].
  destruct (match slots p with [] => true | _ => false end); [done|].
  destruct (validate_slots _ _ _ _) as [[acc n]|] eqn:Hs; cbn in Hv; [|done].
  destruct (Z.eqb_spec n 1) as [->|]; cbn in Hv; [|done].
  destruct (Money_checked_add _ _ _) as [total|] eqn:Hm; cbn in Hv; [|done].
  destruct (Z.ltb_spec (minor_units (total_budget p)) (minor_units total)) as [|Hb]; [done|].
  destruct (validate_walks _ _) as [[]|] eqn:Hw; cbn in Hv; [|done].
  apply validate_slots_ok in Hs as (Hnd & _ & Hsum & Hn & Hf & _).
  apply money_checked_add_ok in Hm as (Hm & _). cbn in Hsum.
  split_and!; [done|done|done|lia|].
  destruct (List.filter is_initial (slots p)) as [|init [|x y]] eqn:Ef; cbn in Hn; try lia.
  exists init. split; [done|]. intros s Hin.
  destruct (validate_walks_ok _ _ (λ _ h, h) Hw s Hin) as (r & Hr & Hp & Hl).
  assert (r ∈ List.filter is_initial (slots p)) as Hri.
  { apply list_elem_of_In, filter_In. split; [by apply list_elem_of_In|].
    unfold is_initial. apply bool_decide_eq_true. rewrite Forall_forall in Hf.
    by apply (Hf r Hr). }
  rewrite Ef in Hri. apply list_elem_of_singleton in Hri. by subst.
Qed.

(** C28: what a validated plan guarantees. It belongs to the tenant and is not
    older than the current epoch; slot ids are unique; the money reserved by all
    slots plus the verification reserve, summed without wrap-around, stays
    inside the total budget; there is exactly one initial slot, and the
    predecessors of every slot lead to it, so the continuation graph is acyclic
    and rooted. *)
Theorem plan_validate_sound `{Sha256, PlanText} p tenant epoch :
  Plan_validate p tenant epoch = Ok tt →
  plan_tenant_id p = tenant ∧ epoch ≤ routing_epoch p ∧
  NoDup (slot_id <$> slots p) ∧
  reserved_sum (slots p) + minor_units (verification_reserve p) ≤ minor_units (total_budget p) ∧
  ∃ init, List.filter is_initial (slots p) = [init] ∧
    ∀ s, s ∈ slots p → leads_to (slots p) s init.
Proof. apply plan_validated. Qed.

Lemma plan_digest_sealed `{Sha256, PlanText} p : plan_digest (Plan_sealed p) = plan_digest p.
Proof. by destruct p. Qed.

Lemma sealed_digest_ok `{Sha256, PlanText} p :
  (negb (str_is_empty (content_digest (Plan_sealed p)))
   && negb (content_digest (Plan_sealed p) =s plan_digest (Plan_sealed p)))%bool = false.
Proof.
  rewrite plan_digest_sealed.
  replace (content_digest (Plan_sealed p)) with (plan_digest p) by by destruct p.
  rewrite String.eqb_refl. apply andb_false_r.
Qed.

Lemma money_add_zero c sc f :
  Money_checked_add (Money_zero c sc) (Money_zero c sc) f = Ok (Money_zero c sc).
Proof. unfold Money_checked_add. cbn. by rewrite String.eqb_refl, Z.eqb_refl. Qed.

(** One unbudgeted initial slot: the shape of the plans the code builds. *)
Lemma single_slot_valid `{Sha256, PlanText} q tenant s :
  let p := Plan_sealed q in
  schema_version q = ROUTING_SCHEMA_VERSION →
  str_is_empty (trim (plan_id q)) = false → str_len (input_digest q) = 64 →
  plan_tenant_id q = tenant → routing_epoch q = 0 →
  Provenance_validate (provenance q) "provenance" = Ok tt →
  Money_validate (total_budget q) "total_budget" = Ok tt → 0 ≤ minor_units (total_budget q) →
  (∀ f, Money_validate (verification_reserve q) f = Ok tt) →
  verification_reserve q = Money_zero (currency (total_budget q)) (scale (total_budget q)) →
  reserved (budget s) = verification_reserve q →
  max_total_attempts q ≠ 0 → slots q = [s] →
  slot_id s = "initial" → slot_trigger s = Trigger_Initial → predecessor s = None →
  max_activations s = 1 →
  str_is_empty (trim (endpoint s)) = false → str_is_empty (trim (model s)) = false →
  timeout_ms (budget s) ≠ 0 → max_output_tokens (budget s) ≠ 0 →
  Plan_validate p tenant 0 = Ok tt.
Proof.
  intros p Hsv Hid Hdg Ht Hep Hpv Hmv Hnn Hvv Hvr Hrs Hma Hsl Hsi Htr Hpr Hac Hen Hmo Hto Hot.
  assert (validate_slots (slots p) []
            (Money_zero (currency (total_budget q)) (scale (total_budget q))) 0 =
          Ok (Money_zero (currency (total_budget q)) (scale (total_budget q)), 1)) as Hvs.
  { destruct q; cbn in *; subst. cbn [validate_slots].
    rewrite Hsi. cbn [contains_str existsb]. rewrite Hen, Hmo, Hac. cbn [orb Z.eqb].
    unfold Budget_validate. apply Z.eqb_neq in Hto, Hot. rewrite Hto, Hot, Hrs, Hvv.
    unfold Money_checked_add. cbn. rewrite String.eqb_refl, Z.eqb_refl. cbn.
    rewrite Htr. by rewrite Hpr. }
  assert (validate_walks (slots p) (slots p) = Ok tt) as Hw.
  { destruct q; cbn in *; subst. by cbn; rewrite Hpr. }
  unfold Plan_validate. fold p. subst p.
  pose proof (sealed_digest_ok q) as Hsd. revert Hvs Hw Hsd.
  destruct q; cbn in *. intros Hvs Hw Hsd.
  subst schema_version0 tenant routing_epoch0 verification_reserve0.
  cbn [ROUTING_SCHEMA_VERSION MIN_DECODABLE_VERSION Z.ltb Z.compare Pos.compare orb].
  rewrite Hid, Hdg, !Z.eqb_refl. cbn. rewrite Hpv. cbn. rewrite Hmv. cbn. rewrite Hvv. cbn.
  rewrite String.eqb_refl. cbn.
  replace (minor_units total_budget0 <? 0) with false by (symmetry; by apply Z.ltb_ge).
  apply Z.eqb_neq in Hma. rewrite Hma.
  replace (match slots0 with [] => true | _ => false end) with false by by rewrite Hsl.
  rewrite Hvs. cbn -[Money_checked_add]. rewrite money_add_zero. cbn.
  replace (minor_units total_budget0 <? 0) with false by (symmetry; by apply Z.ltb_ge).
  rewrite Hw. cbn.
  match goal with |- (if ?b then _ else _) = _ => replace b with false by (symmetry; exact Hsd) end.
  done.
Qed.

(** The plan the direct path writes down is one the validator accepts,
    for every run, whenever the path names an endpoint, a model, a timeout and an
    output ceiling: building and validating never disagree. The digest crate is
    assumed only to return 64 hexadecimal characters. *)
Theorem plan_direct_valid `{Sha256, PlanText, IdText} tenant session task run gen at_ path :
  (∀ s, str_len (sha256_hex s) = 64) →
  str_is_empty (trim (dp_endpoint path)) = false →
  str_is_empty (trim (dp_model path)) = false →
  dp_timeout_ms path ≠ 0 → dp_max_output_tokens path ≠ 0 →
  Plan_validate (Plan_direct tenant session task run gen at_ path) tenant 0 = Ok tt.
Proof.
  intros Hsha He Hm Ht Ho.
  eapply single_slot_valid; try done; cbn; try lia; try reflexivity.
  - by apply trim_plain_head.
  - apply Hsha.
Qed.

Lemma money_validate_zero m f g :
  Money_validate m f = Ok tt → Money_validate (Money_zero (currency m) (scale m)) g = Ok tt.
Proof.
  unfold Money_validate. cbn. destruct (str_is_empty _); [done|].
  destruct (negb _); [done|]. by destruct (4 <? scale m).
Qed.

(** A decoded legacy record is a valid plan of exactly one slot, whatever
    its template label says, when the caller's provenance, budget and plan id
    are valid and the record names an endpoint and a model. *)
Theorem decode_legacy_valid `{Sha256, PlanText} legacy id scope prov total :
  (∀ s, str_len (sha256_hex s) = 64) →
  str_is_empty (trim id) = false →
  Provenance_validate prov "provenance" = Ok tt →
  Money_validate total "total_budget" = Ok tt → 0 ≤ minor_units total →
  str_is_empty (trim (lp_endpoint legacy)) = false →
  str_is_empty (trim (lp_model legacy)) = false →
  let p := decode_legacy legacy id scope prov total in
  Plan_validate p (ps_tenant_id scope) 0 = Ok tt ∧ length (slots p) = 1%nat.
Proof.
  intros Hsha Hid Hpv Hmv Hnn He Hm p. split; [|done].
  eapply single_slot_valid; try done; cbn; try lia; try reflexivity.
  - apply Hsha.
  - intros f. by eapply money_validate_zero.
Qed.

(** Worked examples. *)
Definition ex_path : DirectPath :=
  {| dp_endpoint := "local"; dp_model := "m1"; dp_timeout_ms := 1000;
     dp_max_output_tokens := 4096; dp_max_retries := 1; dp_max_turns := 0 |}.

Definition ex_plan_text : PlanText := λ _, "{}".

Definition ex_direct : ConditionalExecutionPlan :=
  @Plan_direct Example.sha64 ex_plan_text Example.idtext 1 2 3 4 5 6 ex_path.

Lemma plan_direct_valid_witness :
  @Plan_validate Example.sha64 ex_plan_text ex_direct 1 0 = Ok tt ∧
  @Plan_validate Example.sha64 ex_plan_text ex_direct 7 0
    = Err (Invalid_ForeignTenant "tenant_id" 1 7).
Proof.
  split; [|vm_compute; reflexivity].
  apply (@plan_direct_valid Example.sha64 ex_plan_text Example.idtext 1 2 3 4 5 6 ex_path);
    reflexivity || discriminate.
Defined.

(** Two slots that name each other: the walk reports the cycle. *)
Definition ex_cycle : list Slot :=
  s ← slots ex_direct;
  [{ s with slot_id := "a"; predecessor := Some "b" };
   { s with slot_id := "b"; predecessor := Some "a" }].

Lemma predecessor_walk_terminates_witness :
  ∃ s, head ex_cycle = Some s ∧ ∃ r, (∀ k, walk (3 + k) ex_cycle s s [] = Some r) ∧ r ≠ Ok tt.
Proof.
  eexists. split; [reflexivity|].
  edestruct (predecessor_walk_terminates ex_cycle) as (r & Hr & _).
  - apply (bool_decide_unpack _). vm_compute. exact I.
  - apply list_elem_of_here.
  - exists r. split; [exact Hr|]. intros ->. specialize (Hr O). vm_compute in Hr. discriminate.
Defined.

Lemma plan_validate_sound_witness :
  NoDup (slot_id <$> slots ex_direct) ∧
  ∃ init, List.filter is_initial (slots ex_direct) = [init] ∧
    ∀ s, s ∈ slots ex_direct → leads_to (slots ex_direct) s init.
Proof.
  destruct (@plan_validate_sound Example.sha64 ex_plan_text ex_direct 1 0)
    as (_ & _ & Hn & _ & Hi); [vm_compute; reflexivity|].
  exact (conj Hn Hi).
Defined.

Definition ex_legacy : LegacyExecutionPlan :=
  {| lp_version := 1; lp_template := "CASCADE"; lp_endpoint := "local"; lp_model := "m1";
     lp_timeout_ms := None |}.

Definition ex_scope : PlanScope :=
  {| ps_tenant_id := 1; ps_session_id := 2; ps_task_id := 3; ps_run_id := 4;
     ps_created_at_ms := 5 |}.

Definition ex_usd (n : Z) : Money := {| minor_units := n; currency := "USD"; scale := 2 |}.

Lemma decode_legacy_valid_witness :
  let p := @decode_legacy Example.sha64 ex_plan_text ex_legacy "p1" ex_scope
             (provenance ex_direct) (ex_usd 500) in
  @Plan_validate Example.sha64 ex_plan_text p 1 0 = Ok tt ∧ length (slots p) = 1%nat.
Proof.
  apply (@decode_legacy_valid Example.sha64 ex_plan_text ex_legacy "p1" ex_scope
           (provenance ex_direct) (ex_usd 500)); reflexivity || discriminate.
Defined.
