(* ===== verification/Admission.v ===== *)
(** * Admission of plans and of slot activations

    [crates/core-runtime/src/admission.rs]: what a run may dispatch from its
    plan. *)

From S2P Require Import Prelude RustStr External Routing.
#[local] Open Scope Z_scope.

Inductive Refused :=
  | Refused_Invalid (e : Invalid)
  | Refused_LegacyTemplate (label : string)
  | Refused_RequiredContinuationUnavailable (wanted : string) (admitted : list string)
  | Refused_ActivationsExhausted (slot_id : string) (max_activations : Z)
  | Refused_DuplicateActivation (slot_id : string) (activation : Z)
  | Refused_AttemptsExhausted (max_total_attempts attempts : Z)
  | Refused_AllowanceExceeded (slot_id : string) (needs allowance : Money).

Definition Refused_code (r : Refused) : string :=
  match r with
  | Refused_Invalid _ => "PLAN_INVALID"
  | Refused_LegacyTemplate _ => "LEGACY_TEMPLATE_AUTHORIZES_NOTHING"
  | Refused_RequiredContinuationUnavailable _ _ => "REQUIRED_CONTINUATION_UNAVAILABLE"
  | Refused_ActivationsExhausted _ _ => "ACTIVATIONS_EXHAUSTED"
  | Refused_DuplicateActivation _ _ => "DUPLICATE_ACTIVATION"
  | Refused_AttemptsExhausted _ _ => "ATTEMPTS_EXHAUSTED"
  | Refused_AllowanceExceeded _ _ _ => "ALLOWANCE_EXCEEDED"
  end.

Record PlanAdmission := {
  ad_plan_id : string;
  ad_validation_digest : string;
  ad_reserved : Money;
  ad_routing_epoch : Z;
  ad_lease_generation : Z
}.

Record RunLedger := {
  rl_activations : list (string * Z);
  rl_attempts : Z;
  rl_spent : Money;
  rl_in_flight : Money
}.

Definition RunLedger_empty (currency : string) (scale : Z) : RunLedger :=
  {| rl_activations := []; rl_attempts := 0; rl_spent := Money_zero currency scale;
     rl_in_flight := Money_zero currency scale |}.

(** [RunLedger::activations_of]. *)
Definition activations_of (self : RunLedger) (slot_id : string) : Z :=
  match List.find (λ sn, sn.1 =s slot_id) (rl_activations self) with
  | Some (_, n) => n
  | None => 0
  end.

Record Activation := {
  ac_slot_id : string;
  ac_activation : Z;
  ac_reserved : Money
}.

(** The loop that sums the slots' reservations. *)
Fixpoint sum_reserved (acc : Money) (l : list Slot) : result Invalid Money :=
  match l with
  | [] => Ok acc
  | s :: l =>
      m ← Money_checked_add acc (reserved (budget s)) "slots[].budget.reserved";
      sum_reserved m l
  end.

(** [admit_plan]. *)
Definition admit_plan `{Sha256, PlanText} (plan : ConditionalExecutionPlan) (tenant epoch : Z)
    : result Refused PlanAdmission :=
  match legacy_decode (provenance plan), slots plan with
  | Some legacy, _ :: _ :: _ => Err (Refused_LegacyTemplate (template_label legacy))
  | _, _ =>
      _ ← map_err Refused_Invalid (Plan_validate plan tenant epoch);
      sum ← map_err Refused_Invalid
              (sum_reserved (Money_zero (currency (total_budget plan)) (scale (total_budget plan)))
                 (slots plan));
      total ← map_err Refused_Invalid
                (Money_checked_add sum (verification_reserve plan) "verification_reserve");
      Ok {| ad_plan_id := plan_id plan;
            ad_validation_digest := plan_digest plan;
            ad_reserved := total;
            ad_routing_epoch := routing_epoch plan;
            ad_lease_generation := lease_generation plan |}
  end.

(** [admit_activation]. *)
Definition admit_activation (plan : ConditionalExecutionPlan) (ledger : RunLedger)
    (wanted : string) (trigger : Trigger) : result Refused Activation :=
  match List.find (λ s, slot_id s =s wanted) (slots plan) with
  | None => Err (Refused_RequiredContinuationUnavailable wanted (slot_id <$> slots plan))
  | Some slot =>
      if negb (bool_decide (slot_trigger slot = trigger)) then
        Err (Refused_RequiredContinuationUnavailable
               (wanted +:+ " on " +:+ Trigger_debug trigger)
               ((λ s, slot_id s +:+ " on " +:+ Trigger_debug (slot_trigger s)) <$> slots plan))
      else
        let done := activations_of ledger wanted in
        if max_activations slot <=? done then
          Err (Refused_ActivationsExhausted wanted (max_activations slot))
        else if max_total_attempts plan <=? rl_attempts ledger then
          Err (Refused_AttemptsExhausted (max_total_attempts plan) (rl_attempts ledger))
        else
          held ← map_err Refused_Invalid
                   (m ← Money_checked_add (rl_spent ledger) (rl_in_flight ledger)
                          "spent+in_flight";
                    Money_checked_add m (verification_reserve plan) "held+verification");
          let allowance :=
            {| minor_units := sat_sub (minor_units (total_budget plan)) (minor_units held);
               currency := currency (total_budget plan);
               scale := scale (total_budget plan) |} in
          if minor_units allowance <? minor_units (reserved (budget slot)) then
            Err (Refused_AllowanceExceeded wanted (reserved (budget slot)) allowance)
          else
            Ok {| ac_slot_id := wanted;
                  ac_activation := done + 1;
                  ac_reserved := reserved (budget slot) |}
  end.

(** [check_not_replayed]. *)
Definition check_not_replayed (ledger : RunLedger) (slot_id : string) (activation : Z)
    : result Refused unit :=
  if activation <=? activations_of ledger slot_id then
    Err (Refused_DuplicateActivation slot_id activation)
  else Ok tt.

(** ** Properties *)

Lemma map_err_ok {E F A} (f : E → F) (r : result E A) a : map_err f r = Ok a ↔ r = Ok a.
Proof. destruct r; cbn; split; congruence. Qed.

Lemma sum_reserved_ok acc l m :
  sum_reserved acc l = Ok m → minor_units m = minor_units acc + reserved_sum l.
Proof.
  revert acc; induction l as [|s l IH]; intros acc; cbn.
  - intros [= <-]. lia.
  - intros (x & (Hx & _)%money_checked_add_ok & Hl)%bind_ok. apply IH in Hl.
    unfold reserved_sum in *. cbn. lia.
Qed.

(** An admitted plan passed validation for the tenant and the epoch, a
    decoded legacy plan is admitted with at most one slot whatever its template
    label says, and the money the admission reserves is exactly what the slots
    and the verification hold together, inside the plan's total budget. *)
Theorem admit_plan_sound `{Sha256, PlanText} plan tenant epoch adm :
  admit_plan plan tenant epoch = Ok adm →
  Plan_validate plan tenant epoch = Ok tt ∧
  (is_Some (legacy_decode (provenance plan)) → (length (slots plan) ≤ 1)%nat) ∧
  minor_units (ad_reserved adm) =
    reserved_sum (slots plan) + minor_units (verification_reserve plan) ∧
  minor_units (ad_reserved adm) ≤ minor_units (total_budget plan).
Proof.
  unfold admit_plan. intros Ha.
  assert (Hleg : is_Some (legacy_decode (provenance plan)) → (length (slots plan) ≤ 1)%nat).
  { intros [lg Hl]. rewrite Hl in Ha. destruct (slots plan) as [|? [|? ?]]; cbn; [lia..|done]. }
  assert (Hb : ∃ sum total, Plan_validate plan tenant epoch = Ok tt ∧
    sum_reserved (Money_zero (currency (total_budget plan)) (scale (total_budget plan)))
      (slots plan) = Ok sum ∧
    Money_checked_add sum (verification_reserve plan) "verification_reserve" = Ok total ∧
    ad_reserved adm = total).
  { destruct (legacy_decode (provenance plan)), (slots plan) as [|? [|? ?]]; try done;
      apply bind_ok in Ha as ([] & Hv%map_err_ok & Ha);
      apply bind_ok in Ha as (sum & Hs%map_err_ok & Ha);
      apply bind_ok in Ha as (total & Ht%map_err_ok & [= <-]); exists sum, total; auto. }
  destruct Hb as (sum & total & Hv & Hs & Ht & ->).
  apply sum_reserved_ok in Hs. apply money_checked_add_ok in Ht as (Ht & _). cbn in Hs.
  destruct (plan_validated plan tenant epoch Hv) as (_ & _ & _ & Hsum & _).
  split_and!; [done..|lia|lia].
Qed.

(** C29: an admitted activation is for a slot of the plan with the trigger it
    waits for, is the next one of that slot and not beyond its limit, comes
    within the run's attempts, has not been recorded yet, and its reservation
    together with what is spent, in flight and kept for verification stays
    inside the request's budget (a free slot apart). *)
Theorem admit_activation_sound plan ledger wanted trigger act :
  admit_activation plan ledger wanted trigger = Ok act →
  ∃ slot, slot ∈ slots plan ∧ slot_id slot = wanted ∧ slot_trigger slot = trigger ∧
    ac_activation act = activations_of ledger wanted + 1 ∧
    ac_activation act ≤ max_activations slot ∧
    rl_attempts ledger < max_total_attempts plan ∧
    check_not_replayed ledger wanted (ac_activation act) = Ok tt ∧
    (0 < minor_units (ac_reserved act) →
     minor_units (rl_spent ledger) + minor_units (rl_in_flight ledger) +
     minor_units (verification_reserve plan) + minor_units (ac_reserved act)
     ≤ minor_units (total_budget plan)).
Proof.
  unfold admit_activation. destruct (List.find _ _) as [slot|] eqn:Ef; [|done].
  apply find_some_iff in Ef as (l1 & l2 & Hl & Hid%String.eqb_eq & _).
  case_bool_decide as Ht; [|done]. cbn [negb].
  destruct (Z.leb_spec (max_activations slot) (activations_of ledger wanted)); [done|].
  destruct (Z.leb_spec (max_total_attempts plan) (rl_attempts ledger)); [done|].
  intros (held & Hh%map_err_ok & Hr)%bind_ok. apply bind_ok in Hh as (m & Hm & Hh).
  apply money_checked_add_ok in Hm as (Hm & _), Hh as (Hh & _).
  destruct (_ <? _) eqn:El; [done|]. injection Hr as <-. cbn in *. bool_to_prop.
  exists slot. split_and!; try done; try lia.
  - rewrite Hl. set_solver.
  - unfold check_not_replayed. destruct (Z.leb_spec (activations_of ledger wanted + 1)
      (activations_of ledger wanted)); [lia|done].
  - unfold sat_sub in El. lia.
Qed.

Lemma admit_plan_sound_witness :
  ∃ adm, @admit_plan Example.sha64 ex_plan_text ex_direct 1 0 = Ok adm ∧
    minor_units (ad_reserved adm) ≤ minor_units (total_budget ex_direct).
Proof.
  destruct (@admit_plan Example.sha64 ex_plan_text ex_direct 1 0) as [adm|] eqn:E;
    [|vm_compute in E; discriminate].
  exists adm. split; [reflexivity|].
  apply (@admit_plan_sound Example.sha64 ex_plan_text ex_direct 1 0 adm E).
Defined.

Definition ex_wanted : string :=
  match slots ex_direct with s :: _ => slot_id s | [] => "" end.

Lemma admit_activation_sound_witness :
  ∃ act, admit_activation ex_direct (RunLedger_empty (currency (total_budget ex_direct)) 
           (scale (total_budget ex_direct))) ex_wanted Trigger_Initial = Ok act ∧
    ac_activation act = 1 ∧ ∃ slot, slot ∈ slots ex_direct ∧ slot_id slot = ex_wanted.
Proof.
  destruct (admit_activation ex_direct _ ex_wanted Trigger_Initial) as [act|] eqn:E;
    [|vm_compute in E; discriminate].
  exists act. split; [reflexivity|].
  destruct (admit_activation_sound _ _ _ _ _ E) as (slot & ? & ? & _ & Ha & _).
  split; [rewrite Ha; reflexivity|eauto].
Defined.
