(* ===== verification/Run.v ===== *)
(** * Runs

    [crates/domain/src/run.rs]: one attempt at a task, fenced by the generation
    of the kernel lease its owner holds. *)

From S2P Require Import Prelude RustStr External StateMachine Routing.
#[local] Open Scope Z_scope.

Inductive OwnerLocation :=
  | OwnerLocation_Local
  | OwnerLocation_Cloud.

Inductive RunState :=
  | RunState_Pending
  | RunState_Running
  | RunState_Suspended
  | RunState_Completed
  | RunState_Failed
  | RunState_Cancelled.

#[export] Instance RunState_eq_dec : EqDecision RunState.
Proof. solve_decision. Defined.

Definition RunState_can_transition (self to : RunState) : bool :=
  match self, to with
  | RunState_Pending, RunState_Running
  | RunState_Running, RunState_Suspended
  | RunState_Suspended, RunState_Running
  | RunState_Running, RunState_Completed
  | (RunState_Pending | RunState_Running | RunState_Suspended),
      (RunState_Failed | RunState_Cancelled) => true
  | _, _ => false
  end.

Definition RunState_is_terminal (self : RunState) : bool :=
  match self with
  | RunState_Completed | RunState_Failed | RunState_Cancelled => true
  | _ => false
  end.

Definition RunState_debug (s : RunState) : string :=
  match s with
  | RunState_Pending => "Pending"
  | RunState_Running => "Running"
  | RunState_Suspended => "Suspended"
  | RunState_Completed => "Completed"
  | RunState_Failed => "Failed"
  | RunState_Cancelled => "Cancelled"
  end.

#[export] Instance RunState_machine : StateMachine RunState := {|
  sm_aggregate := "Run";
  can_transition := RunState_can_transition;
  is_terminal := RunState_is_terminal;
  sm_debug := RunState_debug
|}.

Record Run := {
  run_id : Z;
  run_task_id : Z;
  run_attempt : Z;
  run_owner_location : OwnerLocation;
  run_kernel_lease_generation : Z;
  run_state : RunState;
  run_generation : Z;
  run_started_at : option Z;
  run_ended_at : option Z
}.

Record CheckSummary := {
  ck_check_id : string;
  ck_kind : string;
  ck_status : string;
  ck_duration_ms : Z;
  ck_error_class : option string;
  ck_message_fingerprint : option string;
  ck_path : option string
}.

Section run.
Context `{Json}.

Inductive RunEvent :=
  | RunCreated (task_id attempt : Z) (owner_location : OwnerLocation)
      (kernel_lease_generation : Z)
  | RunStarted
  | RunSuspended
  | RunResumed (kernel_lease_generation : Z)
  | RunCompleted
  | RunFailed (failure_code : string)
  | RunCancelled
  | VerificationBaselineRecorded (verification_run_id plan_ref candidate_revision
      environment_digest status : string) (report_refs : list string)
      (checks : list CheckSummary)
  | VerificationRunRecorded (verification_run_id stage plan_ref candidate_revision
      environment_digest status : string) (report_refs : list string)
      (checks : list CheckSummary)
  | RoutingPlanCompiled (plan : ConditionalExecutionPlan) (plan_ref : string)
  | RunFenced (kernel_lease_generation current_generation : Z) (owner : string)
  | RequestProfiled (profiler_version cohort_version slice features_digest : string)
      (p_floor_success_bp confidence_bp : Z) (ood fallback : bool) (fallback_reason : string)
  | RoutingPlanAdmitted (plan_id validation_digest : string) (reserved_minor : Z)
      (currency : string) (scale lease_generation : Z) (feasibility : string)
      (quality_lcb_bp : Z) (stats_version thresholds_version : string) (target_met : bool)
  | SlotActivated (plan_id slot_id : string) (activation reserved_minor : Z)
  | RoutingAttemptRecorded (plan_id slot_id : string) (attempt : Z) (outcome : string)
      (usage_known : bool) (input_tokens output_tokens : option Z)
      (provider_request_id : option string)
      (cached_input_tokens cache_write_tokens latency_ms cost_minor : option Z)
      (priced_under : string)
  | RoutingDecisionRecorded (plan_id : string) (candidates : list RoutingCandidate)
      (chosen_quality_mean_bp chosen_quality_lcb_bp : Z) (selection : string)
      (choice_probability_bp routing_latency_ms : Z) (demands : list string)
      (demands_digest : string) (hard_exclusions : list RoutingExclusion)
      (input_digest : string)
  | FlakyCheckQuarantined (check_id first_run_id rerun_id candidate_revision : string)
  | RegressionAttributed (verification_run_id check_id attribution : string)
  | DiffInvariantViolated (invariant class : string) (paths : list string)
      (evidence stage : string)
  | RealizedRiskDerived (verification_run_id realized_risk_ref : string)
      (candidate_revision : Z) (level minimum_assurance : string)
      (independent_review_required human_required : bool) (reasons : list string)
      (policy_version rules_version : string) (forbidden_effects_requested : list string)
  | RouteReevaluated (boundary : string) (route_epoch : Z) (current chosen decision
      reason : string) (stay_minor switch_minor : Z) (switch_cost : Value)
      (cache_state : option Value) (plan_id economics_version : string)
  | ContinuationActivated (plan_id from_plan_id from_slot_id slot_id : string) (activation : Z)
      (trigger cause endpoint model gate_ref : string) (candidate_revision : Z)
      (reject_reasons : list string) (failed_leg_attempts failed_leg_repair_attempts
      spent_minor reserved_minor remaining_minor : Z) (currency : string) (scale : Z)
      (note : string)
  | ReviewLegActivated (plan_id slot_id : string) (activation : Z) (endpoint model : string)
      (candidate_revision : Z) (gate_ref env_id : string) (review_task_id : Z)
      (brief_ref : string) (reserved_minor : Z)
  | AcceptanceGateEvaluated (verification_run_id gate_ref gate_version : string)
      (candidate_revision : Z) (verdict required_assurance : string)
      (independent_review_required human_required : bool)
      (missing_evidence reject_reasons : list string) (realized_risk_ref trigger : string).

Definition RunEvent_event_type (e : RunEvent) : string :=
  match e with
  | RunCreated _ _ _ _ => "RunCreated"
  | RunStarted => "RunStarted"
  | RunSuspended => "RunSuspended"
  | RunResumed _ => "RunResumed"
  | RunCompleted => "RunCompleted"
  | RunFailed _ => "RunFailed"
  | RunCancelled => "RunCancelled"
  | VerificationBaselineRecorded _ _ _ _ _ _ _ => "VerificationBaselineRecorded"
  | VerificationRunRecorded _ _ _ _ _ _ _ _ => "VerificationRunRecorded"
  | RoutingPlanCompiled _ _ => "RoutingPlanCompiled"
  | RunFenced _ _ _ => "RunFenced"
  | RequestProfiled _ _ _ _ _ _ _ _ _ => "RequestProfiled"
  | RoutingPlanAdmitted _ _ _ _ _ _ _ _ _ _ _ => "RoutingPlanAdmitted"
  | SlotActivated _ _ _ _ => "SlotActivated"
  | RoutingAttemptRecorded _ _ _ _ _ _ _ _ _ _ _ _ _ => "RoutingAttemptRecorded"
  | RoutingDecisionRecorded _ _ _ _ _ _ _ _ _ _ _ => "RoutingDecisionRecorded"
  | FlakyCheckQuarantined _ _ _ _ => "FlakyCheckQuarantined"
  | RegressionAttributed _ _ _ => "RegressionAttributed"
  | DiffInvariantViolated _ _ _ _ _ => "DiffInvariantViolated"
  | RealizedRiskDerived _ _ _ _ _ _ _ _ _ _ _ => "RealizedRiskDerived"
  | RouteReevaluated _ _ _ _ _ _ _ _ _ _ _ _ => "RouteReevaluated"
  | ContinuationActivated _ _ _ _ _ _ _ _ _ _ _ _ _ _ _ _ _ _ _ _ => "ContinuationActivated"
  | ReviewLegActivated _ _ _ _ _ _ _ _ _ _ _ => "ReviewLegActivated"
  | AcceptanceGateEvaluated _ _ _ _ _ _ _ _ _ _ _ _ => "AcceptanceGateEvaluated"
  end.

(** [Run::create]. *)
Definition Run_create (id : Z) (event : RunEvent) (_at : Z) : result InvalidTransition Run :=
  match event with
  | RunCreated task_id attempt owner_location kernel_lease_generation =>
      Ok {| run_id := id;
            run_task_id := task_id;
            run_attempt := attempt;
            run_owner_location := owner_location;
            run_kernel_lease_generation := kernel_lease_generation;
            run_state := RunState_Pending;
            run_generation := 1;
            run_started_at := None;
            run_ended_at := None |}
  | other => Err {| it_aggregate := "Run"; it_from := "<none>";
                    it_to := RunEvent_event_type other |}
  end.

(** Where an event leads: to a state, or nowhere (a record about the run). *)
Inductive RunStep :=
  | RunStep_To (to : RunState)
  | RunStep_Recorded.

Definition bump (r : Run) : Run := { r with run_generation ::= λ g, wrap64 (g + 1) }.

(** The first [match] of [Run::apply]. *)
Definition Run_target (event : RunEvent) : SE Run InvalidTransition RunStep :=
  self ← se_get;
  match event with
  | RunCreated _ _ _ _ =>
      se_err {| it_aggregate := "Run"; it_from := RunState_debug (run_state self);
                it_to := "RunCreated" |}
  | RunStarted => mret (RunStep_To RunState_Running)
  | RunSuspended => mret (RunStep_To RunState_Suspended)
  | RunResumed kernel_lease_generation =>
      if kernel_lease_generation <? run_kernel_lease_generation self then
        se_err {| it_aggregate := "Run";
                  it_from := "lease generation " +:+ pretty (run_kernel_lease_generation self);
                  it_to := "stale lease generation " +:+ pretty kernel_lease_generation |}
      else
        _ ← se_lift (transition (run_state self) RunState_Running);
        se_mod (λ r, { r with run_kernel_lease_generation := kernel_lease_generation });;
        mret (RunStep_To RunState_Running)
  | RunCompleted => mret (RunStep_To RunState_Completed)
  | RunFailed _ => mret (RunStep_To RunState_Failed)
  | RunCancelled => mret (RunStep_To RunState_Cancelled)
  | AcceptanceGateEvaluated _ _ _ _ _ _ _ _ _ _ _ _ => mret RunStep_Recorded
  | other =>
      if is_terminal (run_state self) then
        se_err {| it_aggregate := "Run"; it_from := RunState_debug (run_state self);
                  it_to := RunEvent_event_type other |}
      else mret RunStep_Recorded
  end.

(** [Run::apply]. *)
Definition Run_apply (event : RunEvent) (at_ : Z) : SE Run InvalidTransition unit :=
  step ← Run_target event;
  match step with
  | RunStep_Recorded => se_mod bump
  | RunStep_To to =>
      self ← se_get;
      s ← se_lift (transition (run_state self) to);
      se_mod (λ r, { r with run_state := s });;
      self ← se_get;
      (if bool_decide (to = RunState_Running) && negb (is_some (run_started_at self))
       then se_mod (λ r, { r with run_started_at := Some at_ }) else mret tt);;
      (if is_terminal to then se_mod (λ r, { r with run_ended_at := Some at_ }) else mret tt);;
      se_mod bump
  end.

#[export] Instance Run_aggregate : Aggregate Run RunEvent := {|
  agg_create := Run_create;
  agg_apply := Run_apply
|}.

#[export] Instance RunState_lawful : LawfulMachine RunState.
Proof.
  intros []; cbn; split; try done; try (by intros _ []); intros Hx;
    by specialize (Hx RunState_Cancelled).
Qed.

(** ** Properties *)

(** What one accepted event does to a run. *)
Definition run_moved (r r' : Run) : Prop :=
  (run_state r' = run_state r ∨ can_transition (run_state r) (run_state r') = true) ∧
  run_id r' = run_id r ∧ run_task_id r' = run_task_id r ∧ run_attempt r' = run_attempt r ∧
  run_owner_location r' = run_owner_location r ∧
  run_kernel_lease_generation r ≤ run_kernel_lease_generation r' ∧
  (is_Some (run_started_at r) → run_started_at r' = run_started_at r) ∧
  run_generation r' = wrap64 (run_generation r + 1).

Definition run_inv (r : Run) : Prop :=
  (is_terminal (run_state r) = true ↔ is_Some (run_ended_at r)) ∧
  (run_state r = RunState_Pending → run_started_at r = None) ∧
  (run_state r ∈ [RunState_Running; RunState_Suspended; RunState_Completed] →
   is_Some (run_started_at r)).

Lemma run_apply_cases r ev at_ r' :
  run_inv r → Run_apply ev at_ r = (r', Ok tt) → run_inv r' ∧ run_moved r r'.
Proof.
  destruct r as [id task att loc lg st gen sa ea]. unfold run_inv, run_moved; cbn.
  intros (H1 & H2 & H3) Hap. unfold Run_apply, Run_target, bump in Hap. se_run Hap.
  destruct ev; try (destruct (Z.ltb_spec kernel_lease_generation lg)); try discriminate Hap;
    destruct st, sa; cbn in Hap; try discriminate Hap; injection Hap as <-; cbn;
    cbv [constant apply_update]; split_and!; try done; try lia; auto;
    try (split; [eauto|done]); try (by intros []); set_solver.
Qed.

Lemma run_inv_create id ev at_ r : Run_create id ev at_ = Ok r → run_inv r.
Proof.
  destruct ev; cbn; intros; simplify_eq. unfold run_inv; cbn. split_and!; try done;
    first [by intros []|set_solver].
Qed.

(** Every run the store projects has an end time exactly when its state is
    terminal, no start time while it is pending and one from the moment it runs. *)
Theorem run_projection_invariant id log r :
  numbered 1 log → project_log id None log = Ok (Some r) → run_inv r.
Proof.
  apply project_invariant; [apply run_inv_create|].
  intros a ev at_ a' Ha Hap. by eapply run_apply_cases.
Qed.

(** Fencing. Along the accepted events of a run the lease generation never
    decreases, whatever order they come in, and the run keeps its task, attempt
    and owner and, once set, its start; a resume under an older generation is
    refused and leaves the run as it was. *)
Theorem run_lease_fenced r log r' :
  run_inv r → applied r log r' →
  run_kernel_lease_generation r ≤ run_kernel_lease_generation r' ∧
  run_task_id r' = run_task_id r ∧ run_attempt r' = run_attempt r ∧
  run_owner_location r' = run_owner_location r ∧
  (is_Some (run_started_at r) → run_started_at r' = run_started_at r) ∧
  ∀ stale at_, stale < run_kernel_lease_generation r' →
    ∃ e, Run_apply (RunResumed stale) at_ r' = (r', Err e).
Proof.
  intros Hi Hap.
  assert (Hm : run_inv r' ∧ run_kernel_lease_generation r ≤ run_kernel_lease_generation r' ∧
    run_task_id r' = run_task_id r ∧ run_attempt r' = run_attempt r ∧
    run_owner_location r' = run_owner_location r ∧
    (is_Some (run_started_at r) → run_started_at r' = run_started_at r)).
  { induction Hap as [a|a b c ev log Hx Hap IH]; [split_and!; done || lia|].
    apply run_apply_cases in Hx as [Hb (_ & _ & ? & ? & ? & ? & Hs & _)]; [|done].
    destruct (IH Hb) as (? & ? & ? & ? & ? & Hs'). split_and!; try congruence; try lia; try done.
    intros Ha. rewrite Hs'; [by apply Hs|]. by rewrite Hs. }
  destruct Hm as (_ & ? & ? & ? & ? & ?). split_and!; try done. intros stale at_ Hlt.
  eexists. unfold Run_apply, Run_target. cbv [mbind se_bind se_get se_err]. cbv beta iota zeta.
  by rewrite (proj2 (Z.ltb_lt _ _) Hlt).
Qed.

(** A refused run event changes nothing. *)
Theorem run_apply_atomic r ev at_ r' e : Run_apply ev at_ r = (r', Err e) → r' = r.
Proof.
  destruct r as [id task att loc lg st gen sa ea]. intros Hap.
  unfold Run_apply, Run_target in Hap. se_run Hap.
  destruct ev; try (destruct (Z.ltb_spec kernel_lease_generation lg)); try (by injection Hap);
    destruct st, sa; cbn in Hap; try discriminate Hap; by injection Hap.
Qed.

(** The start event is accepted on a suspended run too, and resumes it
    without presenting a lease generation: only the resume event is fenced. *)
Theorem run_started_resumes_suspended r at_ :
  run_state r = RunState_Suspended →
  ∃ r', Run_apply RunStarted at_ r = (r', Ok tt) ∧ run_state r' = RunState_Running ∧
    run_kernel_lease_generation r' = run_kernel_lease_generation r.
Proof.
  destruct r as [id task att loc lg st gen [sa|] ea]; cbn; intros ->; by eexists.
Qed.
End run.

Definition run_log `{Json} : list (stored RunEvent) :=
  [ Stored 1 (RunCreated 2 1 OwnerLocation_Local 3) 10; Stored 2 RunStarted 11;
    Stored 3 RunSuspended 12; Stored 4 (RunResumed 4) 13;
    Stored 5 (SlotActivated "p" "s" 1 0) 14; Stored 6 RunCompleted 15 ].

Definition suspended_run : Run :=
  {| run_id := 1; run_task_id := 2; run_attempt := 1; run_owner_location := OwnerLocation_Cloud;
     run_kernel_lease_generation := 5; run_state := RunState_Suspended; run_generation := 3;
     run_started_at := Some 11; run_ended_at := None |}.

Lemma run_projection_invariant_witness :
  ∃ r, project_log (H := @Run_aggregate Example.json) 1 None (@run_log Example.json) = Ok (Some r) ∧
    run_inv r ∧ run_state r = RunState_Completed ∧ run_kernel_lease_generation r = 4.
Proof.
  eexists. split; [vm_compute; reflexivity|]. split; [|split; reflexivity].
  eapply (@run_projection_invariant Example.json 1 run_log);
    [repeat split|vm_compute; reflexivity].
Defined.

Lemma run_lease_fenced_witness :
  ∃ e, Run_apply (H := Example.json) (RunResumed (H := Example.json) 4) 20 suspended_run
       = (suspended_run, Err e).
Proof.
  destruct (@run_lease_fenced Example.json suspended_run [] suspended_run)
    as (_ & _ & _ & _ & _ & Hs); [|constructor|by apply Hs].
  split_and!; try done. split; [done|by intros []].
Defined.

Lemma run_apply_atomic_witness :
  ∃ e, Run_apply (H := Example.json) (RunCompleted (H := Example.json)) 20 suspended_run
       = (suspended_run, Err e).
Proof.
  destruct (Run_apply (H := Example.json) RunCompleted 20 suspended_run)
    as [s' [[]|e]] eqn:Hx; [discriminate Hx|].
  exists e. by rewrite <- (@run_apply_atomic Example.json _ _ _ _ _ Hx).
Defined.

Lemma run_started_resumes_suspended_witness :
  ∃ r', Run_apply (H := Example.json) (RunStarted (H := Example.json)) 20 suspended_run = (r', Ok tt) ∧
    run_state r' = RunState_Running ∧ run_kernel_lease_generation r' = 5.
Proof. apply (@run_started_resumes_suspended Example.json suspended_run 20). reflexivity. Defined.
