(* ===== verification/Mode.v ===== *)
(** * Task modes

    [crates/domain/src/mode.rs]: the task's mode, the posture it gives every
    call, and the execution preference. *)

From S2P Require Import Prelude RustStr ToolCall.
#[local] Open Scope Z_scope.

Definition READ_ONLY_CAPABILITIES : list string :=
  ["fs.read"; "git.read"; "memory.query"; "external.list"].

Inductive TaskMode :=
  | TaskMode_Agent
  | TaskMode_Plan
  | TaskMode_Debug
  | TaskMode_Multitask
  | TaskMode_Ask.

#[export] Instance TaskMode_eq_dec : EqDecision TaskMode.
Proof. solve_decision. Defined.

Definition TaskMode_ALL : list TaskMode :=
  [TaskMode_Agent; TaskMode_Plan; TaskMode_Debug; TaskMode_Multitask; TaskMode_Ask].

Definition TaskMode_name (m : TaskMode) : string :=
  match m with
  | TaskMode_Agent => "AGENT"
  | TaskMode_Plan => "PLAN"
  | TaskMode_Debug => "DEBUG"
  | TaskMode_Multitask => "MULTITASK"
  | TaskMode_Ask => "ASK"
  end.

Definition TaskMode_parse (name : string) : option TaskMode :=
  let name := trim name in
  List.find (λ m, eq_ignore_ascii_case (TaskMode_name m) name) TaskMode_ALL.

Record ModePosture := {
  mp_effect_ceiling : option EffectClass;
  mp_allowed_capabilities : option (list string);
  mp_subagents : bool;
  mp_reproduction_first : bool
}.

Definition TaskMode_posture (m : TaskMode) : ModePosture :=
  match m with
  | TaskMode_Agent | TaskMode_Multitask =>
      {| mp_effect_ceiling := None; mp_allowed_capabilities := None;
         mp_subagents := true; mp_reproduction_first := false |}
  | TaskMode_Debug =>
      {| mp_effect_ceiling := None; mp_allowed_capabilities := None;
         mp_subagents := true; mp_reproduction_first := true |}
  | TaskMode_Plan | TaskMode_Ask =>
      {| mp_effect_ceiling := Some EffectClass_ReadOnly;
         mp_allowed_capabilities := Some READ_ONLY_CAPABILITIES;
         mp_subagents := false; mp_reproduction_first := false |}
  end.

Definition ModePosture_writes (p : ModePosture) : bool :=
  negb (bool_decide (mp_effect_ceiling p = Some EffectClass_ReadOnly)).

(** [ModePosture::refusal]. *)
Definition ModePosture_refusal (self : ModePosture) (effect_class : EffectClass)
    (capabilities : list string) : option string :=
  let by_capability :=
    match mp_allowed_capabilities self with
    | Some allowed =>
        match List.find (λ c, negb (contains_str allowed c)) capabilities with
        | Some c => Some ("`" +:+ c +:+ "` is outside the mode's read-only capabilities")
        | None => None
        end
    | None => None
    end in
  match mp_effect_ceiling self with
  | Some ceiling =>
      if effect_gt effect_class ceiling then
        Some (effect_debug effect_class +:+ " exceeds the mode's " +:+ effect_debug ceiling
              +:+ " ceiling")
      else by_capability
  | None => by_capability
  end.

Inductive Objective :=
  | Objective_Cost
  | Objective_Balance
  | Objective_Intelligence.

#[export] Instance Objective_eq_dec : EqDecision Objective.
Proof. solve_decision. Defined.

Definition Objective_name (o : Objective) : string :=
  match o with
  | Objective_Cost => "COST"
  | Objective_Balance => "BALANCE"
  | Objective_Intelligence => "INTELLIGENCE"
  end.

Definition Objective_parse (name : string) : option Objective :=
  List.find (λ o, eq_ignore_ascii_case (Objective_name o) (trim name))
    [Objective_Cost; Objective_Balance; Objective_Intelligence].

Definition Objective_floor_mode (o : Objective) : string :=
  match o with
  | Objective_Cost => "economy"
  | Objective_Balance => "auto"
  | Objective_Intelligence => "quality"
  end.

Definition EFFORTS : list string := ["low"; "medium"; "high"].
Definition valid_effort (effort : string) : bool := contains_str EFFORTS effort.

Definition valid_tier (tier : string) : bool :=
  negb (str_is_empty tier) && (str_len tier <=? 32) &&
  str_all (λ c, is_ascii_alnum c || Ascii.eqb c "_") tier.

Record ExecutionPreference := {
  ep_objective : option Objective;
  ep_effort : option string;
  ep_service_tier : option string;
  ep_pin : option (string * string)
}.

#[export] Instance ExecutionPreference_eq_dec : EqDecision ExecutionPreference.
Proof. solve_decision. Defined.

Definition ExecutionPreference_is_empty (p : ExecutionPreference) : bool :=
  bool_decide (p = {| ep_objective := None; ep_effort := None; ep_service_tier := None;
                      ep_pin := None |}).

(** ** Lemmas *)

(** A posture refuses nothing exactly when the effect is under its ceiling and
    every capability is among the allowed ones. *)
Definition within_posture (p : ModePosture) (effect_class : EffectClass)
    (capabilities : list string) : Prop :=
  (∀ ceiling, mp_effect_ceiling p = Some ceiling → effect_le effect_class ceiling) ∧
  (∀ allowed, mp_allowed_capabilities p = Some allowed → ∀ c, c ∈ capabilities → c ∈ allowed).

Lemma find_none_elem {A} (p : A → bool) l :
  List.find p l = None ↔ ∀ x, x ∈ l → p x = false.
Proof. rewrite find_none_forall, Forall_forall. done. Qed.

Lemma find_not_contained allowed caps :
  List.find (λ c, negb (contains_str allowed c)) caps = None ↔ ∀ c, c ∈ caps → c ∈ allowed.
Proof.
  rewrite find_none_elem. split; intros H c Hc; specialize (H c Hc).
  - apply negb_false_iff in H. by apply contains_str_true.
  - apply negb_false_iff. by apply contains_str_true.
Qed.

Lemma refusal_none p e caps : ModePosture_refusal p e caps = None ↔ within_posture p e caps.
Proof.
  unfold ModePosture_refusal, within_posture.
  assert (Hc : match mp_allowed_capabilities p with
    | Some allowed =>
        match List.find (λ c, negb (contains_str allowed c)) caps with
        | Some c => Some ("`" +:+ c +:+ "` is outside the mode's read-only capabilities")
        | None => None
        end
    | None => None
    end = None ↔
    (∀ allowed, mp_allowed_capabilities p = Some allowed → ∀ c, c ∈ caps → c ∈ allowed)).
  { destruct (mp_allowed_capabilities p) as [al|]; [|naive_solver].
    pose proof (find_not_contained al caps). destruct (List.find _ _); naive_solver. }
  destruct (mp_effect_ceiling p) as [ce|].
  - destruct (effect_gt e ce) eqn:E.
    + split; [done|]. intros [H _]. specialize (H ce eq_refl).
      apply effect_gt_false in H. congruence.
    + apply effect_gt_false in E. rewrite Hc. naive_solver.
  - rewrite Hc. naive_solver.
Qed.

(** The names of the task modes and of the objectives parse back to them,
    and a parsed text names its mode up to ASCII case and outer white space. *)
Theorem mode_names_roundtrip :
  (∀ m, TaskMode_parse (TaskMode_name m) = Some m) ∧
  (∀ o, Objective_parse (Objective_name o) = Some o) ∧
  (∀ s m, TaskMode_parse s = Some m → eq_ignore_ascii_case (TaskMode_name m) (trim s) = true).
Proof.
  split_and!; [by intros []|by intros []|].
  intros s m H. by apply find_some in H as [_ H].
Qed.
