(* ===== verification/RunMode.v ===== *)
(** * Run modes and durable allowlist rules

    [crates/domain/src/runmode.rs] (the modes, the always-ask classes, the
    rules) and [crates/policy/src/runmode.rs] (which rules cover a command and
    whether the mode lets a call run without asking). *)

From S2P Require Import Prelude RustStr BTree RustPath External ToolCall.
#[local] Open Scope Z_scope.

(** ** Data *)

Inductive RunMode :=
  | RunMode_Ask
  | RunMode_Allowlist
  | RunMode_AllowlistSandbox
  | RunMode_RunEverything
  | RunMode_Autonomous.

#[export] Instance RunMode_eq_dec : EqDecision RunMode.
Proof. solve_decision. Defined.

Definition RunMode_ALL : list RunMode :=
  [RunMode_Ask; RunMode_Allowlist; RunMode_AllowlistSandbox; RunMode_RunEverything;
   RunMode_Autonomous].

Definition RunMode_rank (m : RunMode) : Z :=
  match m with
  | RunMode_Ask => 0
  | RunMode_Allowlist => 1
  | RunMode_AllowlistSandbox => 2
  | RunMode_RunEverything => 3
  | RunMode_Autonomous => 4
  end.

Definition RunMode_name (m : RunMode) : string :=
  match m with
  | RunMode_Ask => "ASK"
  | RunMode_Allowlist => "ALLOWLIST"
  | RunMode_AllowlistSandbox => "ALLOWLIST_SANDBOX"
  | RunMode_RunEverything => "RUN_EVERYTHING"
  | RunMode_Autonomous => "AUTONOMOUS"
  end.

Definition RunMode_parse (s : string) : option RunMode :=
  List.find (λ m, RunMode_name m =s s) RunMode_ALL.

Definition RunMode_durable (m : RunMode) : bool :=
  match m with RunMode_RunEverything => false | _ => true end.

Inductive AskClass :=
  | AskClass_OutsideWorkspaceWrite
  | AskClass_Network
  | AskClass_Secret
  | AskClass_ProtectedPath
  | AskClass_Deletion
  | AskClass_Push
  | AskClass_Escalation.

#[export] Instance AskClass_eq_dec : EqDecision AskClass.
Proof. solve_decision. Defined.

(** The derived order is the declaration order. *)
Definition AskClass_rank (c : AskClass) : Z :=
  match c with
  | AskClass_OutsideWorkspaceWrite => 0
  | AskClass_Network => 1
  | AskClass_Secret => 2
  | AskClass_ProtectedPath => 3
  | AskClass_Deletion => 4
  | AskClass_Push => 5
  | AskClass_Escalation => 6
  end.

Definition AskClass_name (c : AskClass) : string :=
  match c with
  | AskClass_OutsideWorkspaceWrite => "OUTSIDE_WORKSPACE_WRITE"
  | AskClass_Network => "NETWORK"
  | AskClass_Secret => "SECRET"
  | AskClass_ProtectedPath => "PROTECTED_PATH"
  | AskClass_Deletion => "DELETION"
  | AskClass_Push => "PUSH"
  | AskClass_Escalation => "ESCALATION"
  end.

Inductive RuleScope :=
  | RuleScope_Task
  | RuleScope_Repo
  | RuleScope_User.

#[export] Instance RuleScope_eq_dec : EqDecision RuleScope.
Proof. solve_decision. Defined.

Definition RuleScope_name (s : RuleScope) : string :=
  match s with
  | RuleScope_Task => "TASK"
  | RuleScope_Repo => "REPO"
  | RuleScope_User => "USER"
  end.

Definition RuleScope_parse (s : string) : option RuleScope :=
  List.find (λ m, RuleScope_name m =s s) [RuleScope_Task; RuleScope_Repo; RuleScope_User].

Record AllowRule := {
  ar_rule_id : string;
  ar_pattern : list string;
  ar_program_path : string;
  ar_scope : RuleScope;
  ar_scope_key : string;
  ar_created_by : string;
  ar_created_at_ms : Z;
  ar_expires_at_ms : option Z;
  ar_covers_always_ask : bool;
  ar_origin_task : string
}.

(** ** Which patterns may be rules *)

Definition MAX_PATTERN_TOKENS : Z := 16.
Definition MAX_TOKEN_BYTES : Z := 512.

Definition WRAPPERS : list string :=
  ["sh"; "bash"; "zsh"; "dash"; "ksh"; "ash"; "fish"; "csh"; "tcsh"; "busybox"; "env"; "sudo";
   "doas"; "su"; "xargs"; "eval"; "exec"; "nohup"; "time"; "timeout"; "nice"; "ionice"; "setsid";
   "stdbuf"; "command"; "builtin"; "watch"; "strace"; "ltrace"; "chroot"; "unshare"; "nsenter";
   "script"; "screen"; "tmux"; "ssh"; "find"; "awk"; "gawk"; "cmd"; "cmd.exe"; "powershell";
   "powershell.exe"; "pwsh"; "pwsh.exe"; "osascript"; "expect"; "parallel"; "rlwrap"; "trap"].

Definition INTERPRETERS : list string :=
  ["python"; "python3"; "python2"; "node"; "nodejs"; "ruby"; "perl"; "php"; "lua"; "deno"; "bun";
   "tclsh"; "Rscript"; "julia"].

Definition SUBCOMMAND_PROGRAMS : list string :=
  ["git"; "cargo"; "npm"; "pnpm"; "yarn"; "npx"; "docker"; "kubectl"; "make"; "go"; "pip"; "pip3";
   "brew"; "apt"; "apt-get"; "gh"; "aws"; "gcloud"; "az"; "terraform"; "helm"; "rustup"; "gradle";
   "mvn"; "dotnet"; "swift"; "xcodebuild"; "bundle"; "gem"; "poetry"; "uv"; "conda"; "mise"].

Record RuleRefusal := { rr_code : string; rr_reason : string }.

Definition refuse (code reason : string) : RuleRefusal :=
  {| rr_code := code; rr_reason := reason |}.

Definition is_slash (c : ascii) : bool := Ascii.eqb c "/" || Ascii.eqb c "\".

Definition program_name (token : string) : string :=
  trim_end_str ".exe" (rsplit_first is_slash token).

Definition is_shell_operator (c : ascii) : bool :=
  existsb (Ascii.eqb c)
    ["|"; "&"; ";"; "<"; ">"; "("; ")"; "`"; "$"; "010"; "013"; "000"]%char.

Definition has_shell_syntax (token : string) : bool :=
  str_is_empty token || str_any is_shell_operator token.

Definition COMPUTER_NOT_ALLOWLISTABLE : string := "COMPUTER_NOT_ALLOWLISTABLE".

(** A pattern token that names a computer tool. *)
Definition names_computer (t : string) : bool :=
  let t := to_ascii_lowercase (trim t) in
  (t =s "computer") || starts_with "computer." t.

Section validate.
Context `{EscapeDebug}.

(** The loop over the tokens: the first one that is too long or that a shell
    would read. *)
Fixpoint check_tokens (pattern : list string) : result RuleRefusal unit :=
  match pattern with
  | [] => Ok tt
  | t :: rest =>
      if MAX_TOKEN_BYTES <? str_len t then
        Err (refuse "PATTERN_TOKEN_TOO_LONG" "a token is too long")
      else if has_shell_syntax t then
        Err (refuse "PATTERN_SHELL_SYNTAX" ("`" +:+ escape_debug t +:+
          "` holds a shell operator, redirection, substitution or is empty; a rule is a literal argv prefix and never matches those"))
      else check_tokens rest
  end.

(** [validate_pattern]. *)
Definition validate_pattern (pattern : list string) : result RuleRefusal unit :=
  match pattern with
  | [] => Err (refuse "EMPTY_PATTERN" "a rule needs at least one token")
  | first :: rest =>
      if MAX_PATTERN_TOKENS <? Z.of_nat (length pattern) then
        Err (refuse "PATTERN_TOO_LONG"
               ("a pattern has at most " +:+ pretty MAX_PATTERN_TOKENS +:+ " tokens"))
      else if existsb names_computer pattern then
        Err (refuse COMPUTER_NOT_ALLOWLISTABLE
               "computer control (`computer.*`) is approved per call with its exact intent and can never be covered by an allowlist rule, a preset or a run mode; the person is asked every time")
      else
        _ ← check_tokens pattern;
        let program := program_name first in
        if contains_str WRAPPERS program then
          Err (refuse "PATTERN_WRAPPER" ("`" +:+ program +:+
            "` runs whatever it is given, so a rule that names it covers everything; allow the program it would run instead"))
        else if contains_str INTERPRETERS program &&
                match rest with
                | [] => true
                | second :: _ =>
                    starts_with "-" second || contains_str ["eval"; "e"; "c"] second
                end then
          Err (refuse "PATTERN_INTERPRETER" ("`" +:+ program +:+
            "` needs the script it runs in the rule, not an inline program or a bare interpreter"))
        else if contains_str SUBCOMMAND_PROGRAMS program &&
                match rest with [] => true | _ => false end then
          Err (refuse "PATTERN_TOO_BROAD" ("`" +:+ program +:+
            "` has sub-commands; name the one the rule covers (for example `" +:+ program +:+
            " <sub-command>`)"))
        else Ok tt
  end.

(** [validate_rule]. *)
Definition validate_rule (rule : AllowRule) : result RuleRefusal unit :=
  _ ← validate_pattern (ar_pattern rule);
  _ ← match ar_scope rule with
      | RuleScope_Task | RuleScope_Repo =>
          if str_is_empty (trim (ar_scope_key rule)) then
            Err (refuse "SCOPE_KEY_REQUIRED" "a task or repository rule names what it applies to")
          else Ok tt
      | RuleScope_User =>
          if negb (str_is_empty (ar_scope_key rule)) then
            Err (refuse "SCOPE_KEY_UNEXPECTED" "a user rule names no task or repository")
          else Ok tt
      end;
  if ar_covers_always_ask rule then
    if bool_decide (ar_scope rule = RuleScope_User) then
      Err (refuse "ALWAYS_ASK_SCOPE"
             "a rule that stands for an always-ask effect is narrow: task or repository scope only")
    else if Z.of_nat (length (ar_pattern rule)) <? 2 then
      Err (refuse "ALWAYS_ASK_PATTERN"
             "a rule that stands for an always-ask effect names at least a program and one argument")
    else Ok tt
  else Ok tt.
End validate.

(** ** The simple commands of a call *)

Inductive Q :=
  | Q_None
  | Q_Single
  | Q_Double.

(** The loop's variables; [word] is built back to front with its own push. *)
Record SplitState := {
  ss_commands : list (list string);
  ss_current : list string;
  ss_word : string;
  ss_in_word : bool;
  ss_quote : Q
}.

Definition push_char (c : ascii) (s : SplitState) : SplitState :=
  { s with ss_word ::= λ w, w +:+ String c "" }.

(** The [end_word] closure. *)
Definition end_word (s : SplitState) : SplitState :=
  if ss_in_word s then
    { s with ss_current ::= λ l, l ++ [ss_word s]; ss_word := ""; ss_in_word := false }
  else s.

(** [commands.push(std::mem::take(&mut current))]. *)
Definition end_command (s : SplitState) : SplitState :=
  { s with ss_commands ::= λ l, l ++ [ss_current s]; ss_current := [] }.

Definition no_command (s : SplitState) : bool :=
  match ss_current s with [] => true | _ => false end.

(** Characters that make an unquoted script something else than a list of
    simple commands. *)
Definition is_refused (c : ascii) : bool :=
  existsb (Ascii.eqb c) ["<"; ">"; "("; ")"; "`"; "$"; "{"; "}"; "013"; "000"]%char.

Definition dquote : ascii := Ascii.ascii_of_nat 34.
Definition newline : ascii := "010".
Definition backslash : ascii := "\".

(** The characters a backslash escapes inside double quotes. *)
Definition is_escapable (c : ascii) : bool :=
  Ascii.eqb c dquote || existsb (Ascii.eqb c) ["\"; "$"; "`"]%char.

(** The [while] loop of [split_script] over the remaining characters. *)
Fixpoint split_loop (s : SplitState) (chars : list ascii) : option SplitState :=
  match chars with
  | [] => Some s
  | c :: rest =>
      match ss_quote s with
      | Q_Single =>
          if Ascii.eqb c "'" then split_loop { s with ss_quote := Q_None } rest
          else split_loop (push_char c s) rest
      | Q_Double =>
          if Ascii.eqb c dquote then split_loop { s with ss_quote := Q_None } rest
          else if Ascii.eqb c "$" || Ascii.eqb c "`" then None
          else if Ascii.eqb c backslash then
            match rest with
            | [] => None
            | n :: rest' =>
                if is_escapable n then split_loop (push_char n s) rest'
                else if Ascii.eqb n newline then None
                else split_loop (push_char backslash s) rest
            end
          else split_loop (push_char c s) rest
      | Q_None =>
          if Ascii.eqb c " " || Ascii.eqb c "009" then split_loop (end_word s) rest
          else if Ascii.eqb c newline || Ascii.eqb c ";" then
            let s := end_word s in
            if no_command s then
              if Ascii.eqb c ";" then None else split_loop s rest
            else split_loop (end_command s) rest
          else if Ascii.eqb c "&" || Ascii.eqb c "|" then
            match rest with
            | [] => None
            | n :: rest' =>
                if Ascii.eqb n c then
                  let s := end_word s in
                  if no_command s then None else split_loop (end_command s) rest'
                else None
            end
          else if is_refused c then None
          else if (Ascii.eqb c "#" || Ascii.eqb c "!") && negb (ss_in_word s) then None
          else if Ascii.eqb c backslash then
            match rest with
            | [] => None
            | n :: rest' =>
                if Ascii.eqb n newline then None
                else split_loop { push_char n s with ss_in_word := true } rest'
            end
          else if Ascii.eqb c "'" then
            split_loop { s with ss_quote := Q_Single; ss_in_word := true } rest
          else if Ascii.eqb c dquote then
            split_loop { s with ss_quote := Q_Double; ss_in_word := true } rest
          else split_loop { push_char c s with ss_in_word := true } rest
      end
  end.

Definition split_init : SplitState :=
  {| ss_commands := []; ss_current := []; ss_word := ""; ss_in_word := false;
     ss_quote := Q_None |}.

(** [split_script]. The tests are on ASCII characters, so reading the script's
    bytes instead of its characters gives the same words. *)
Definition split_script (script : string) : option (list (list string)) :=
  match split_loop split_init (String.list_ascii_of_string script) with
  | None => None
  | Some s =>
      match ss_quote s with
      | Q_None =>
          let s := end_word s in
          let s := if no_command s then s else end_command s in
          let t := trim_end script in
          let trailing_operator := ends_with "&&" t || ends_with "||" t in
          match ss_commands s with
          | [] => None
          | commands => if trailing_operator then None else Some commands
          end
      | _ => None
      end
  end.

Definition SHELLS : list string := ["sh"; "bash"; "zsh"; "dash"; "ksh"; "ash"].

(** The flag word of [sh -c]: [-c], [-lc], [-ec] and the like. *)
Definition is_c_flag (flag : string) : bool :=
  (2 <=? str_len flag) && starts_with "-" flag && negb (starts_with "--" flag) &&
  match flag with String _ r => str_all is_ascii_alpha r | "" => false end &&
  contains_char "c" flag.

(** [sub_commands]. *)
Definition sub_commands (argv : list string) : option (list (list string)) :=
  match argv with
  | [] => None
  | first :: _ =>
      if negb (contains_str SHELLS (program_name first)) then Some [argv]
      else match argv with
           | _ :: flag :: rest =>
               match rest with
               | [script] => if is_c_flag flag then split_script script else None
               | _ => None
               end
           | _ => None
           end
  end.

(** [prefix_matches]. *)
Definition prefix_matches (pattern command : list string) : bool :=
  (Z.of_nat (length pattern) <=? Z.of_nat (length command)) &&
  forallb (λ ab, ab.1 =s ab.2) (zip command pattern).

(** ** Where programs resolve *)

Module pin.
Definition RULE_NOT_PINNED : string := "RULE_NOT_PINNED".
Definition PROGRAM_PATH_CHANGED : string := "PROGRAM_PATH_CHANGED".
Definition PROGRAM_NOT_FOUND : string := "PROGRAM_NOT_FOUND".
Definition PROGRAM_IN_WORKSPACE : string := "PROGRAM_IN_WORKSPACE".
End pin.

Definition Programs : Type := bmap (option string).

(** The loop of [clean_path]; the buffer is kept as the components pushed onto
    it. [PathBuf::pop] fails on the root and on the empty path. *)
Definition clean_step (out : list Component) (c : Component) : list Component :=
  match c with
  | Component_CurDir => out
  | Component_ParentDir =>
      match last out with
      | None | Some Component_RootDir => out ++ [Component_ParentDir]
      | Some _ => removelast out
      end
  | Component_RootDir => [Component_RootDir]
  | Component_Normal _ => out ++ [c]
  end.

Definition clean_path (p : string) : string := path_of (foldl clean_step [] (components p)).

Section resolve.
(** [is_runnable]: a regular file with an execute bit, as the file system
    answers. *)
Context (is_runnable : string → bool).

(** [resolve_program], on Unix. *)
Definition resolve_program (token cwd path : string) : option string :=
  if str_is_empty token then None
  else
    let absolute p :=
      if path_is_absolute p then clean_path p else clean_path (path_join cwd p) in
    let found dir :=
      let c := absolute (path_join dir token) in
      if is_runnable c then Some c else None in
    if contains_char "/" token then found ""
    else
      (fix search entries :=
         match entries with
         | [] => None
         | entry :: entries =>
             let dir := if str_is_empty entry then cwd else entry in
             match found dir with
             | Some f => Some f
             | None => search entries
             end
         end) (split_on ":" path).

(** [resolve_programs]. *)
Definition resolve_programs (argv : list string) (cwd path : string) : Programs :=
  let firsts (c : list string) := match c with [] => [] | t :: _ => [t] end in
  let subs := match sub_commands argv with Some cs => cs | None => [] end in
  let tokens := firsts argv ++ concat (firsts <$> subs) in
  bmap_of ((λ t, (t, resolve_program t cwd path)) <$> tokens).
End resolve.

(** ** Which rules cover a call *)

Inductive Uncovered :=
  | Uncovered_NoRule
  | Uncovered_Pin (code : string).

(** [Option::get_or_insert]. *)
Definition get_or_insert {A} (o : option A) (a : A) : option A :=
  match o with Some _ => o | None => Some a end.

(** The loop of [covering_rule]; [why] is the reason kept so far. *)
Fixpoint covering_loop (rules : list AllowRule) (command : list string) (programs : Programs)
    (why : option string) : result Uncovered AllowRule :=
  match rules with
  | [] => Err match why with Some code => Uncovered_Pin code | None => Uncovered_NoRule end
  | rule :: rest =>
      if negb (prefix_matches (ar_pattern rule) command) then
        covering_loop rest command programs why
      else if str_is_empty (ar_program_path rule) then
        covering_loop rest command programs (get_or_insert why pin.RULE_NOT_PINNED)
      else
        match (t ← head command; bget t programs) with
        | Some (Some now) =>
            if now =s ar_program_path rule then Ok rule
            else covering_loop rest command programs
                   (get_or_insert why pin.PROGRAM_PATH_CHANGED)
        | _ => covering_loop rest command programs (get_or_insert why pin.PROGRAM_NOT_FOUND)
        end
  end.

Definition covering_rule (rules : list AllowRule) (command : list string) (programs : Programs)
    : result Uncovered AllowRule :=
  covering_loop rules command programs None.

(** The loop of [covering_rules]. *)
Fixpoint covering_rules_loop (rules : list AllowRule) (commands : list (list string))
    (programs : Programs) (used : list AllowRule) : result Uncovered (list AllowRule) :=
  match commands with
  | [] => Ok used
  | command :: rest =>
      rule ← covering_rule rules command programs;
      let used :=
        if existsb (λ u, ar_rule_id u =s ar_rule_id rule) used then used else used ++ [rule] in
      covering_rules_loop rules rest programs used
  end.

Definition covering_rules (rules : list AllowRule) (argv : list string) (programs : Programs)
    : result Uncovered (list AllowRule) :=
  commands ← ok_or (sub_commands argv) Uncovered_NoRule;
  covering_rules_loop rules commands programs [].

(** [ask_classes]. *)
Definition ask_classes (effect_class : EffectClass) (required_capabilities : list string)
    (outside_workspace_write protected_path : bool) (declared_escalation : string)
    : list AskClass :=
  let has c := existsb (λ r, r =s c) required_capabilities in
  let effect e := bool_decide (effect_class = e) in
  let out :=
    (if outside_workspace_write then [AskClass_OutsideWorkspaceWrite] else []) ++
    (if has "network.egress" || has "external.call" || effect EffectClass_ExternalSideEffect
     then [AskClass_Network] else []) ++
    (if has "secret.use" || effect EffectClass_SecretAccess then [AskClass_Secret] else []) ++
    (if protected_path then [AskClass_ProtectedPath] else []) ++
    (if effect EffectClass_Destructive then [AskClass_Deletion] else []) ++
    (if has "git.push" || has "deploy" then [AskClass_Push] else []) ++
    (if negb (contains_str [""; "none"] declared_escalation)
     then [AskClass_Escalation] else []) in
  dedup (sort_by (λ a b, AskClass_rank a <? AskClass_rank b) out).

(** ** The run mode's answer *)

Record RunPolicy := {
  rp_mode : RunMode;
  rp_task_id : string;
  rp_repo_root : string;
  rp_rules : list AllowRule;
  rp_argv : option (list string);
  rp_programs : Programs;
  rp_ask_classes : list AskClass;
  rp_dependency_install : bool;
  rp_contained : bool
}.

Inductive RunDecision :=
  | RunDecision_Approve (rule : string)
  | RunDecision_Ask (code : string).

Definition same_root (a b : string) : bool :=
  negb (str_is_empty a) && path_eqb (trim_end_by is_slash a) (trim_end_by is_slash b).

Definition in_scope (self : RunPolicy) (r : AllowRule) : bool :=
  match ar_scope r with
  | RuleScope_Task => ar_scope_key r =s rp_task_id self
  | RuleScope_Repo => same_root (ar_scope_key r) (rp_repo_root self)
  | RuleScope_User => true
  end.

Definition not_expired (now_ms : Z) (r : AllowRule) : bool :=
  match ar_expires_at_ms r with None => true | Some e => now_ms <? e end.

Definition rule_lt (a b : AllowRule) : bool :=
  (ar_created_at_ms a <? ar_created_at_ms b) ||
  ((ar_created_at_ms a =? ar_created_at_ms b) && String.ltb (ar_rule_id a) (ar_rule_id b)).

(** [RunPolicy::live_rules]. *)
Definition live_rules (self : RunPolicy) (now_ms : Z) : list AllowRule :=
  sort_by rule_lt (List.filter (in_scope self) (List.filter (not_expired now_ms) (rp_rules self))).

(** The classes that ask in the task's mode. *)
Definition asking (self : RunPolicy) : list AskClass :=
  List.filter (λ c, negb (bool_decide (rp_mode self = RunMode_Autonomous) &&
                          rp_dependency_install self && bool_decide (c = AskClass_Network)))
    (rp_ask_classes self).

(** [RunPolicy::wrapper_in_workspace]. *)
Definition wrapper_in_workspace (self : RunPolicy) (argv : list string) : bool :=
  match argv with
  | [] => false
  | first :: _ =>
      if negb (contains_str SHELLS (program_name first)) || str_is_empty (rp_repo_root self)
      then false
      else match bget first (rp_programs self) with
           | Some (Some resolved) =>
               path_starts_with resolved (trim_end_by is_slash (rp_repo_root self))
           | _ => false
           end
  end.

(** The mode's own answer, once no rule decided. *)
Definition mode_answer (self : RunPolicy) (uncovered_code : option string) : RunDecision :=
  match rp_mode self with
  | RunMode_AllowlistSandbox =>
      if rp_contained self then RunDecision_Approve "run_mode:ALLOWLIST_SANDBOX:contained"
      else RunDecision_Ask (default "NOT_IN_ALLOWLIST" uncovered_code)
  | RunMode_RunEverything => RunDecision_Approve "run_mode:RUN_EVERYTHING"
  | RunMode_Autonomous =>
      RunDecision_Approve
        (if rp_dependency_install self && existsb (λ c, bool_decide (c = AskClass_Network))
                                            (rp_ask_classes self)
         then "run_mode:AUTONOMOUS:dependency_install" else "run_mode:AUTONOMOUS")
  | _ => RunDecision_Ask (default "NOT_IN_ALLOWLIST" uncovered_code)
  end.

(** [RunPolicy::decide]. *)
Definition RunPolicy_decide (self : RunPolicy) (now_ms : Z) : RunDecision :=
  let classes := asking self in
  let always_ask := match classes with [] => false | _ => true end in
  let always_ask_code := (λ c, "ALWAYS_ASK:" +:+ AskClass_name c) <$> head classes in
  if bool_decide (rp_mode self = RunMode_Ask) then
    RunDecision_Ask (default "MODE_ASK" always_ask_code)
  else
    let finish uncovered_code :=
      if always_ask then RunDecision_Ask (default "" always_ask_code)
      else mode_answer self uncovered_code in
    match rp_argv self with
    | None => finish None
    | Some argv =>
        if wrapper_in_workspace self argv then finish (Some pin.PROGRAM_IN_WORKSPACE)
        else match covering_rules (live_rules self now_ms) argv (rp_programs self) with
             | Ok used =>
                 if negb always_ask || forallb ar_covers_always_ask used then
                   RunDecision_Approve ("allowlist:" +:+ Prelude.join "+" (ar_rule_id <$> used))
                 else finish None
             | Err (Uncovered_Pin code) => finish (Some code)
             | Err Uncovered_NoRule => finish None
             end
    end.

(** ** Rules that cover a command *)

(** What it takes for one rule to stand for one simple command: its pattern is
    a prefix of the command and the program the command would run is the one the
    rule was pinned to. *)
Definition rule_covers (programs : Programs) (command : list string) (r : AllowRule) : Prop :=
  ar_pattern r `prefix_of` command ∧ ar_program_path r ≠ "" ∧
  ∃ t, head command = Some t ∧ bget t programs = Some (Some (ar_program_path r)).

Lemma str_is_empty_false s : str_is_empty s = false ↔ s ≠ "".
Proof. destruct s; cbn; split; congruence. Qed.

Lemma prefix_matches_spec pattern command :
  prefix_matches pattern command = true ↔ pattern `prefix_of` command.
Proof.
  unfold prefix_matches. rewrite andb_true_iff, Z.leb_le.
  revert command; induction pattern as [|p pattern IH]; intros [|c command]; cbn.
  - split; [intros; apply prefix_nil|done].
  - split; [intros; apply prefix_nil|]. intros _. split; [lia|done].
  - split; [intros [? _]; lia|]. by intros Hx%prefix_nil_inv.
  - rewrite andb_true_iff, String.eqb_eq. specialize (IH command). split.
    + intros (? & -> & ?). apply prefix_cons. apply IH. split; [lia|done].
    + intros Hx. pose proof (prefix_cons_inv_1 _ _ _ _ Hx) as ->.
      apply prefix_cons_inv_2, IH in Hx as [? ?]. repeat split; [lia|done].
Qed.

Lemma covering_loop_ok rules command programs why r :
  covering_loop rules command programs why = Ok r → r ∈ rules ∧ rule_covers programs command r.
Proof.
  revert why; induction rules as [|q rules IH]; intros why; cbn; [done|].
  destruct (prefix_matches (ar_pattern q) command) eqn:Ep; cbn;
    [|intros [? ?]%IH; split; [by right|done]].
  destruct (str_is_empty (ar_program_path q)) eqn:Ee;
    [intros [? ?]%IH; split; [by right|done]|].
  apply prefix_matches_spec in Ep. apply str_is_empty_false in Ee.
  destruct (head command) as [t|] eqn:Et; cbn.
  2: intros [? ?]%IH; split; [by right|done].
  destruct (bget t programs) as [[now|]|] eqn:Eb.
  2, 3: intros [? ?]%IH; split; [by right|done].
  destruct (String.eqb_spec now (ar_program_path q)) as [->|].
  - intros ?; simplify_eq. split; [by left|]. repeat split; eauto.
  - intros [? ?]%IH; split; [by right|done].
Qed.

Lemma covering_rules_loop_ok rules commands programs used0 used :
  covering_rules_loop rules commands programs used0 = Ok used →
  used0 ⊆ used ∧
  ∀ command, command ∈ commands → ∃ r u, r ∈ rules ∧ rule_covers programs command r ∧
    u ∈ used ∧ ar_rule_id u = ar_rule_id r.
Proof.
  revert used0; induction commands as [|c commands IH]; intros used0; cbn.
  { intros ?; simplify_eq. split; [done|]. set_solver. }
  intros (r & Hr & Hl)%bind_ok. apply covering_loop_ok in Hr as [Hin Hcov].
  apply IH in Hl as [Hsub Hall].
  assert (Hu : ∃ u, u ∈ used ∧ ar_rule_id u = ar_rule_id r).
  { destruct (existsb _ used0) eqn:Ex.
    - apply existsb_true in Ex as (u & Hu & E%String.eqb_eq). eauto.
    - exists r. split; [|done]. apply Hsub. set_solver. }
  split.
  - destruct (existsb _ used0); set_solver.
  - intros command [->|?]%elem_of_cons; [|by apply Hall].
    destruct Hu as (u & ? & ?). exists r, u. eauto.
Qed.

Lemma covering_rules_loop_sub rules commands programs used0 used :
  used0 ⊆ rules → covering_rules_loop rules commands programs used0 = Ok used → used ⊆ rules.
Proof.
  revert used0; induction commands as [|c commands IH]; intros used0 Hs; cbn.
  { intros ?; by simplify_eq. }
  intros (r & [Hin _]%covering_loop_ok & Hl)%bind_ok. apply IH in Hl; [done|].
  destruct (existsb _ used0); set_solver.
Qed.

Lemma elem_of_live_rules p now r :
  r ∈ live_rules p now ↔ r ∈ rp_rules p ∧ not_expired now r = true ∧ in_scope p r = true.
Proof.
  unfold live_rules. rewrite elem_of_sort_by, !elem_of_list_filter_bool. naive_solver.
Qed.

(** The rules are keyed by their id in the Core, so ids are distinct. *)
Lemma same_id_same_rule rules (r u : AllowRule) :
  NoDup (ar_rule_id <$> rules) → r ∈ rules → u ∈ rules → ar_rule_id u = ar_rule_id r → u = r.
Proof.
  intros Hnd Hr Hu E. apply list_elem_of_lookup in Hr as [i Hi], Hu as [j Hj].
  assert (i = j) as ->; [|congruence].
  eapply NoDup_lookup; [done| |]; rewrite list_lookup_fmap.
  - by rewrite Hi.
  - rewrite Hj. cbn. by rewrite E.
Qed.

(** A call every simple command of which a live rule covers. *)
Definition covered_by_rules (p : RunPolicy) (now : Z) : Prop :=
  ∃ argv commands, rp_argv p = Some argv ∧ sub_commands argv = Some commands ∧
    wrapper_in_workspace p argv = false ∧
    ∀ command, command ∈ commands → ∃ r, r ∈ rp_rules p ∧ not_expired now r = true ∧
      in_scope p r = true ∧ rule_covers (rp_programs p) command r ∧
      (asking p ≠ [] → ar_covers_always_ask r = true).

Lemma covering_rules_covered p now argv used :
  NoDup (ar_rule_id <$> rp_rules p) → rp_argv p = Some argv →
  wrapper_in_workspace p argv = false →
  covering_rules (live_rules p now) argv (rp_programs p) = Ok used →
  (asking p ≠ [] → forallb ar_covers_always_ask used = true) →
  covered_by_rules p now.
Proof.
  intros Hnd Hargv Hw (commands & Hs & Hl)%bind_ok Hask.
  destruct (sub_commands argv) as [cs|] eqn:Es; cbn in Hs; simplify_eq.
  pose proof (covering_rules_loop_sub _ _ _ _ _ (list_subseteq_nil _) Hl) as Hsub.
  apply covering_rules_loop_ok in Hl as [_ Hl].
  exists argv, commands. split_and!; [done..|]. intros command Hc.
  destruct (Hl command Hc) as (r & u & Hr & Hcov & Hu & E).
  pose proof (Hsub u Hu) as Hu'. apply elem_of_live_rules in Hr as (Hr & ? & ?), Hu' as (Hu' & _).
  rewrite (same_id_same_rule _ _ _ Hnd Hr Hu' E) in Hu.
  exists r. split_and!; [done..|]. intros Ha. specialize (Hask Ha).
  rewrite forallb_true in Hask. by apply Hask.
Qed.

Lemma run_approve_cases p now rule :
  NoDup (ar_rule_id <$> rp_rules p) → RunPolicy_decide p now = RunDecision_Approve rule →
  rp_mode p ≠ RunMode_Ask ∧
  (covered_by_rules p now ∨
   asking p = [] ∧
   (rp_mode p = RunMode_AllowlistSandbox ∧ rp_contained p = true ∨
    rp_mode p = RunMode_RunEverything ∨ rp_mode p = RunMode_Autonomous)).
Proof.
  intros Hnd. unfold RunPolicy_decide. case_bool_decide as Hm; [done|].
  assert (Hfin : ∀ u,
    (if match asking p with [] => false | _ => true end
     then RunDecision_Ask (default "" ((λ c, "ALWAYS_ASK:" +:+ AskClass_name c) <$>
                                       head (asking p)))
     else mode_answer p u) = RunDecision_Approve rule →
    asking p = [] ∧
    (rp_mode p = RunMode_AllowlistSandbox ∧ rp_contained p = true ∨
     rp_mode p = RunMode_RunEverything ∨ rp_mode p = RunMode_Autonomous)).
  { intros u. destruct (asking p); [|done]. intros H. split; [done|].
    unfold mode_answer in H. destruct (rp_mode p), (rp_contained p); try done; auto. }
  destruct (rp_argv p) as [argv|] eqn:Ea; [|eauto].
  destruct (wrapper_in_workspace p argv) eqn:Ew; [eauto|].
  destruct (covering_rules _ _ _) as [used|[|code]] eqn:Ec; [|eauto..].
  destruct (_ || _) eqn:Eo; [|eauto]. intros _. split; [done|]. left.
  eapply covering_rules_covered; eauto. intros Hne.
  destruct (asking p); [done|]. by destruct (forallb _ _).
Qed.

(** C10: a call runs without asking only in a mode other than [ASK], and then
    either live rules (in scope, not expired, pinned to the very program that
    would run) cover every simple command of it, each of them made for
    always-ask effects if the call has one that asks, or the call falls in no
    class that asks and the mode itself lets it run. *)
Theorem run_approve_sound p now rule :
  NoDup (ar_rule_id <$> rp_rules p) → RunPolicy_decide p now = RunDecision_Approve rule →
  rp_mode p ≠ RunMode_Ask ∧
  (covered_by_rules p now ∨
   asking p = [] ∧
   (rp_mode p = RunMode_AllowlistSandbox ∧ rp_contained p = true ∨
    rp_mode p = RunMode_RunEverything ∨ rp_mode p = RunMode_Autonomous)).
Proof. apply run_approve_cases. Qed.

(** ** Scripts *)

(** A word in single quotes, a command of such words, a script of such
    commands joined by the and-then operator. *)
Definition sh_quote (w : string) : string := "'" +:+ w +:+ "'".
Definition render_command (ws : list string) : string := Prelude.join " " (sh_quote <$> ws).
Definition render_script (cs : list (list string)) : string :=
  Prelude.join " && " (render_command <$> cs).

(** A state between words, and a state just after a closing quote. *)
Definition between (cs : list (list string)) (cur : list string) : SplitState :=
  {| ss_commands := cs; ss_current := cur; ss_word := ""; ss_in_word := false;
     ss_quote := Q_None |}.
Definition after_word (cs : list (list string)) (cur : list string) (w : string) : SplitState :=
  {| ss_commands := cs; ss_current := cur; ss_word := w; ss_in_word := true;
     ss_quote := Q_None |}.

Lemma split_loop_quoted s w rest :
  ss_quote s = Q_Single → str_any (Ascii.eqb "'") w = false →
  split_loop s (String.list_ascii_of_string (w +:+ "'") ++ rest) =
  split_loop { s with ss_word ::= λ v, v +:+ w; ss_quote := Q_None } rest.
Proof.
  revert s; induction w as [|a w IH]; intros s Hq Hw.
  - change ("" +:+ "'") with "'". cbn. rewrite Hq. destruct s; cbn.
    cbv [apply_update constant]. by rewrite str_app_nil_r.
  - unfold str_any in Hw. cbn in Hw. apply negb_false_iff in Hw. bool_to_prop.
    rewrite str_app_cons. cbn. rewrite Hq.
    destruct (Ascii.eqb_spec a "'") as [->|Hne]; [done|].
    rewrite IH; [|done|].
    + destruct s; cbn. cbv [apply_update constant push_char]. cbn.
      by rewrite str_app_assoc.
    + unfold str_any. by apply negb_false_iff.
Qed.

Lemma split_loop_word cs cur w rest :
  str_any (Ascii.eqb "'") w = false →
  split_loop (between cs cur) (String.list_ascii_of_string (sh_quote w) ++ rest) =
  split_loop (after_word cs cur w) rest.
Proof.
  intros Hw. unfold sh_quote. rewrite str_app_cons.
  change ("" +:+ (w +:+ "'")) with (w +:+ "'"). cbn.
  by rewrite split_loop_quoted.
Qed.

Lemma list_ascii_cons a p s rest :
  String.list_ascii_of_string (String a p +:+ s) ++ rest =
  a :: (String.list_ascii_of_string (p +:+ s) ++ rest).
Proof. done. Qed.

Lemma split_loop_space cs cur w rest :
  split_loop (after_word cs cur w) (" "%char :: rest) = split_loop (between cs (cur ++ [w])) rest.
Proof. done. Qed.

Lemma split_loop_then cs cur rest :
  cur ≠ [] →
  split_loop (between cs cur) (String.list_ascii_of_string "&& " ++ rest) =
  split_loop (between (cs ++ [cur]) []) rest.
Proof. by destruct cur. Qed.

Lemma split_loop_command cs cur ws w rest :
  Forall (λ w, str_any (Ascii.eqb "'") w = false) (ws ++ [w]) →
  split_loop (between cs cur) (String.list_ascii_of_string (render_command (ws ++ [w])) ++ rest) =
  split_loop (after_word cs (cur ++ ws) w) rest.
Proof.
  revert cur; induction ws as [|v ws IH]; intros cur Hw; cbn in Hw; apply Forall_cons in Hw as [Hv Hw].
  - cbn. rewrite split_loop_word by done. by rewrite app_nil_r.
  - replace (render_command ((v :: ws) ++ [w]))
      with (sh_quote v +:+ " " +:+ render_command (ws ++ [w])) by (by destruct ws).
    rewrite list_ascii_of_app, <- app_assoc, split_loop_word by done.
    rewrite list_ascii_cons, split_loop_space.
    change ("" +:+ render_command (ws ++ [w])) with (render_command (ws ++ [w])).
    rewrite IH by done. by rewrite <- app_assoc.
Qed.

Lemma split_loop_script cs cs0 ws w :
  Forall (λ ws, ws ≠ [] ∧ Forall (λ w, str_any (Ascii.eqb "'") w = false) ws) (cs ++ [ws ++ [w]]) →
  split_loop (between cs0 []) (String.list_ascii_of_string (render_script (cs ++ [ws ++ [w]]))) =
  Some (after_word (cs0 ++ cs) ws w).
Proof.
  revert cs0; induction cs as [|c cs IH]; intros cs0 Hall; cbn in Hall;
    apply Forall_cons in Hall as [[Hne Hc] Hall].
  - cbn. rewrite <- (app_nil_r (String.list_ascii_of_string _)), split_loop_command by done.
    by rewrite app_nil_r.
  - replace (render_script ((c :: cs) ++ [ws ++ [w]]))
      with (render_command c +:+ " && " +:+ render_script (cs ++ [ws ++ [w]])) by (by destruct cs).
    destruct c as [|v c _] using rev_ind; [done|].
    rewrite list_ascii_of_app, split_loop_command by done.
    rewrite <- (app_nil_r (String.list_ascii_of_string (" && " +:+ _))), list_ascii_cons, app_nil_r.
    rewrite split_loop_space, list_ascii_of_app, split_loop_then by (by destruct c).
    rewrite IH by done. by rewrite <- app_assoc.
Qed.

Lemma render_command_last ws w : ∃ p, render_command (ws ++ [w]) = p +:+ "'".
Proof.
  induction ws as [|v ws [p IH]].
  - exists ("'" +:+ w). cbn. unfold sh_quote. by rewrite <- str_app_assoc.
  - exists (sh_quote v +:+ " " +:+ p). rewrite !str_app_assoc, <- IH. by destruct ws.
Qed.

Lemma render_script_last cs ws w : ∃ p, render_script (cs ++ [ws ++ [w]]) = p +:+ "'".
Proof.
  induction cs as [|c cs [p IH]].
  - apply render_command_last.
  - exists (render_command c +:+ " && " +:+ p). rewrite !str_app_assoc, <- IH. by destruct cs.
Qed.

(** A script of single-quoted words is split into exactly its commands and
    words, whatever operators, substitutions or redirections the words hold:
    quoting is what the splitter honours, and nothing quoted becomes a command
    of its own. *)
Theorem split_script_roundtrip cs :
  cs ≠ [] →
  Forall (λ ws, ws ≠ [] ∧ Forall (λ w, contains_char "'" w = false) ws) cs →
  split_script (render_script cs) = Some cs.
Proof.
  intros Hne Hall. destruct cs as [|c cs _] using rev_ind; [done|]. clear Hne.
  destruct c as [|w ws _] using rev_ind.
  { apply Forall_app in Hall as [_ [[? _] _]%Forall_cons]. done. }
  unfold split_script. change split_init with (between [] []).
  rewrite split_loop_script by done. cbn.
  destruct (render_script_last cs ws w) as [p ->]. rewrite trim_end_plain by done.
  destruct (ends_with "&&" _) eqn:E1.
  { eapply ends_with_last in E1; [|done|apply str_last_app]. done. }
  destruct (ends_with "||" _) eqn:E2.
  { eapply ends_with_last in E2; [|done|apply str_last_app]. done. }
  replace (no_command _) with false by (by destruct ws). cbn.
  destruct (cs ++ [ws ++ [w]]) eqn:E; [by destruct cs|done].
Qed.

Lemma split_script_roundtrip_witness :
  let cs := [["git"; "commit"; "-m"; "a && b; c"]; ["echo"; "$(rm -rf /) > x"]] in
  split_script (render_script cs) = Some cs.
Proof.
  apply (split_script_roundtrip [["git"; "commit"; "-m"; "a && b; c"];
    ["echo"; "$(rm -rf /) > x"]]); [done|].
  repeat first [constructor | done].
Defined.

(** ** Validated rules *)

Lemma validate_pattern_ok `{EscapeDebug} pattern :
  validate_pattern pattern = Ok tt →
  ∃ first rest, pattern = first :: rest ∧ existsb names_computer pattern = false ∧
    contains_str WRAPPERS (program_name first) = false.
Proof.
  destruct pattern as [|first rest]; unfold validate_pattern; [done|].
  destruct (_ <? _); [done|]. destruct (existsb names_computer _) eqn:Ec; [done|].
  intros (u & _ & Hb)%bind_ok. exists first, rest. split; [done|]. split; [done|].
  by destruct (contains_str WRAPPERS _).
Qed.

(** A rule that passed validation never covers a command whose program runs
    whatever it is given (a shell, [sudo], [env], [xargs], ...), nor a command
    that starts with a computer tool; and a validated rule that stands for
    always-ask effects is bound to a task or a repository and names at least a
    program and an argument. *)
Theorem valid_rule_narrow `{EscapeDebug} r programs command :
  validate_rule r = Ok tt → rule_covers programs command r →
  (∃ t args, command = t :: args ∧ program_name t ∉ WRAPPERS ∧ names_computer t = false) ∧
  (ar_covers_always_ask r = true →
   ar_scope r ≠ RuleScope_User ∧ (2 ≤ length (ar_pattern r))%nat).
Proof.
  intros (u1 & Hp & Hr)%bind_ok ([k Hk] & _). destruct u1.
  apply validate_pattern_ok in Hp as (t & rest & Hpat & Hc & Hw).
  apply bind_ok in Hr as (u2 & _ & Hr). split.
  - exists t, (rest ++ k). rewrite Hk, Hpat. split_and!; [done|by apply contains_str_false|].
    rewrite Hpat in Hc. cbn in Hc. bool_to_prop. done.
  - intros Ha. rewrite Ha in Hr. case_bool_decide; [done|].
    destruct (Z.ltb_spec (Z.of_nat (length (ar_pattern r))) 2); [done|]. split; [done|lia].
Qed.

Definition push_rule : AllowRule :=
  {| ar_rule_id := "r1"; ar_pattern := ["git"; "push"]; ar_program_path := "/usr/bin/git";
     ar_scope := RuleScope_Repo; ar_scope_key := "/repo"; ar_created_by := "user";
     ar_created_at_ms := 1; ar_expires_at_ms := Some 100; ar_covers_always_ask := true;
     ar_origin_task := "t1" |}.

Definition push_policy : RunPolicy :=
  {| rp_mode := RunMode_Allowlist; rp_task_id := "t1"; rp_repo_root := "/repo/";
     rp_rules := [push_rule]; rp_argv := Some ["sh"; "-c"; "git push origin; git push"];
     rp_programs := [("git", Some "/usr/bin/git"); ("sh", Some "/bin/sh")];
     rp_ask_classes := [AskClass_Push]; rp_dependency_install := false; rp_contained := false |}.

Lemma run_approve_sound_witness :
  RunPolicy_decide push_policy 50 = RunDecision_Approve "allowlist:r1" ∧
  rp_mode push_policy ≠ RunMode_Ask ∧
  (covered_by_rules push_policy 50 ∨
   asking push_policy = [] ∧
   (rp_mode push_policy = RunMode_AllowlistSandbox ∧ rp_contained push_policy = true ∨
    rp_mode push_policy = RunMode_RunEverything ∨ rp_mode push_policy = RunMode_Autonomous)).
Proof.
  split; [vm_compute; reflexivity|].
  apply (run_approve_sound push_policy 50 "allowlist:r1"); [|vm_compute; reflexivity].
  repeat constructor. set_solver.
Defined.

Lemma valid_rule_narrow_witness :
  (∃ t args, ["git"; "push"; "-f"] = t :: args ∧ program_name t ∉ WRAPPERS ∧
     names_computer t = false) ∧
  (ar_covers_always_ask push_rule = true →
   ar_scope push_rule ≠ RuleScope_User ∧ (2 ≤ length (ar_pattern push_rule))%nat).
Proof.
  apply (@valid_rule_narrow Example.escape push_rule [("git", Some "/usr/bin/git")]);
    [vm_compute; reflexivity|].
  split; [by exists ["-f"]|]. split; [done|]. by exists "git".
Defined.

(** The path a program is pinned to is lexically clean except above the root:
    a parent directory of the root stays in the text. *)
Example clean_path_above_root :
  clean_path "/usr/./bin/../lib" = "/usr/lib" ∧ clean_path "/a/../../x" = "/../x".
Proof. by vm_compute. Qed.
