(* ===== verification/Config.v ===== *)
(** * The configuration resolver

    [crates/policy/src/config.rs]: the device's, the organization's, the
    project's and the user's layers merged with the law of each section, so that
    a lower authority can narrow what a higher one decided and never widen it. *)

From S2P Require Import Prelude RustStr BTree External.
#[local] Open Scope Z_scope.

Inductive Authority :=
  | Authority_Device
  | Authority_Admin
  | Authority_Project
  | Authority_User.

#[export] Instance Authority_eq_dec : EqDecision Authority.
Proof. solve_decision. Defined.

Definition Authority_ALL : list Authority :=
  [Authority_Device; Authority_Admin; Authority_Project; Authority_User].

(** The derived order: the highest authority is the least. *)
Definition authority_rank (a : Authority) : Z :=
  match a with
  | Authority_Device => 0
  | Authority_Admin => 1
  | Authority_Project => 2
  | Authority_User => 3
  end.
Definition authority_lt (a b : Authority) : bool := authority_rank a <? authority_rank b.

Definition authority_debug (a : Authority) : string :=
  match a with
  | Authority_Device => "Device"
  | Authority_Admin => "Admin"
  | Authority_Project => "Project"
  | Authority_User => "User"
  end.

Inductive Permission :=
  | Permission_Allow
  | Permission_Ask
  | Permission_Deny.

#[export] Instance Permission_eq_dec : EqDecision Permission.
Proof. solve_decision. Defined.

Definition permission_rank (p : Permission) : Z :=
  match p with Permission_Allow => 0 | Permission_Ask => 1 | Permission_Deny => 2 end.
Definition permission_lt (a b : Permission) : bool := permission_rank a <? permission_rank b.

Definition permission_debug (p : Permission) : string :=
  match p with
  | Permission_Allow => "Allow"
  | Permission_Ask => "Ask"
  | Permission_Deny => "Deny"
  end.

Record DeviceConstraints := {
  dc_sandbox_required : option bool;
  dc_telemetry : option string;
  dc_proxy : option string;
  dc_trust_roots : option (list string);
  dc_update_channel : option string;
  dc_minimum_version : option string
}.

(** [DeviceConstraints::set_fields]. *)
Definition set_fields (d : DeviceConstraints) : list string :=
  let field {A} (o : option A) (name : string) := match o with Some _ => [name] | None => [] end in
  field (dc_sandbox_required d) "sandbox_required" ++ field (dc_telemetry d) "telemetry" ++
  field (dc_proxy d) "proxy" ++ field (dc_trust_roots d) "trust_roots" ++
  field (dc_update_channel d) "update_channel" ++
  field (dc_minimum_version d) "minimum_version".

Record Layer := {
  ly_permissions : bmap Permission;
  ly_network_allow : option bset;
  ly_models_allow : option bset;
  ly_computer_apps_allow : option bset;
  ly_mcp_servers : bmap string;
  ly_mcp_deny : bset;
  ly_hooks : list string;
  ly_rules : list string;
  ly_review_comment_authors : option bset;
  ly_device : option DeviceConstraints
}.

Record Provenance := {
  pv_decided_by : Authority;
  pv_overridden : list (Authority * string)
}.

Record Resolved (T : Type) := { rv_value : T; rv_provenance : Provenance }.
Arguments Build_Resolved {T} _ _.
Arguments rv_value {T} _.
Arguments rv_provenance {T} _.

Record ResolvedConfig := {
  rc_permissions : bmap (Resolved Permission);
  rc_network_allow : option (Resolved bset);
  rc_models_allow : option (Resolved bset);
  rc_computer_apps_allow : option (Resolved bset);
  rc_mcp_servers : bmap (Resolved string);
  rc_hooks : list (Resolved string);
  rc_rules : list (Resolved string);
  rc_review_comment_authors : option (Resolved bset);
  rc_device : option (Resolved DeviceConstraints);
  rc_rejected_widenings : list string
}.

Definition ResolvedConfig_default : ResolvedConfig :=
  {| rc_permissions := []; rc_network_allow := None; rc_models_allow := None;
     rc_computer_apps_allow := None; rc_mcp_servers := []; rc_hooks := []; rc_rules := [];
     rc_review_comment_authors := None; rc_device := None; rc_rejected_widenings := [] |}.

(** A value decided by one layer, nothing overridden yet. *)
Definition decided {T} (level : Authority) (value : T) : Resolved T :=
  {| rv_value := value; rv_provenance := {| pv_decided_by := level; pv_overridden := [] |} |}.

(** A value a lower layer tightened: the old authority is recorded. *)
Definition redecided {T} (level : Authority) (why : string) (value : T) (r : Resolved T)
    : Resolved T :=
  {| rv_value := value;
     rv_provenance :=
       {| pv_decided_by := level;
          pv_overridden := pv_overridden (rv_provenance r) ++
                           [(pv_decided_by (rv_provenance r), why)] |} |}.

Definition decided_by {T} (r : Resolved T) : Authority := pv_decided_by (rv_provenance r).

(** [generation]: the digest of the serialized configuration, its first twelve
    bytes in hexadecimal. [to_json] is [serde_json::to_string]. *)
Definition generation `{Sha256} (to_json : ResolvedConfig → string) (cfg : ResolvedConfig)
    : string :=
  String.substring 0 24 (sha256_hex (to_json cfg)).

(** [permission_changes]. *)
Definition permission_level (c : ResolvedConfig) (k : string) : Permission :=
  match bget k (rc_permissions c) with Some p => rv_value p | None => Permission_Allow end.

Definition permission_changes (old new : ResolvedConfig) : list string * list string :=
  let keys := bset_of ((rc_permissions old).*1 ++ (rc_permissions new).*1) in
  foldl (λ '(tightened, loosened) k,
    let before := permission_level old k in
    let after := permission_level new k in
    if permission_lt before after then (tightened ++ [k], loosened)
    else if permission_lt after before then (tightened, loosened ++ [k])
    else (tightened, loosened)) ([], []) keys.

(** [denied]. *)
Definition denied (cfg : ResolvedConfig) : bset :=
  bset_of (fst <$> List.filter (λ kp, bool_decide (rv_value kp.2 = Permission_Deny))
                    (rc_permissions cfg)).

(** ** The merge of one layer *)

Section resolve.
Context `{DebugStr}.
(** The layers, by authority; a level may be absent. *)
Context (layers : Authority → option Layer).

(** Permissions: tighten only. The pair holds the resolved permissions and the
    rejected widenings. *)
Definition merge_permission (level : Authority)
    (st : bmap (Resolved Permission) * list string) (entry : string * Permission)
    : bmap (Resolved Permission) * list string :=
  let '(permissions, rejected) := st in
  let '(cap, decision) := entry in
  match bget cap permissions with
  | None => (binsert cap (decided level decision) permissions, rejected)
  | Some existing =>
      if permission_lt (rv_value existing) decision then
        (binsert cap
           (redecided level
              (permission_debug (rv_value existing) +:+ " tightened by " +:+
               authority_debug level +:+ " to " +:+ permission_debug decision)
              decision existing) permissions, rejected)
      else if permission_lt decision (rv_value existing) then
        (permissions, rejected ++
           [authority_debug level +:+ " tried to widen permission `" +:+ cap +:+ "` from " +:+
            permission_debug (rv_value existing) +:+ " to " +:+ permission_debug decision +:+
            " (decided by " +:+ authority_debug (decided_by existing) +:+ ")"])
      else (permissions, rejected)
  end.

(** Narrow an existing allow list to what a lower layer also lists. *)
Definition narrow (level : Authority) (set : bset) (existing : Resolved bset) : Resolved bset :=
  let narrowed := bset_inter (rv_value existing) set in
  if bool_decide (narrowed = rv_value existing) then existing
  else redecided level ("narrowed by " +:+ authority_debug level) narrowed existing.

(** Allow lists: intersection. *)
Definition merge_allow (level : Authority) (field : string) (mine : option bset)
    (st : option (Resolved bset) * list string) : option (Resolved bset) * list string :=
  let '(target, rejected) := st in
  match mine with
  | None => st
  | Some set =>
      match target with
      | None => (Some (decided level set), rejected)
      | Some existing =>
          let widened := bset_diff set (rv_value existing) in
          let rejected :=
            match widened with
            | [] => rejected
            | _ => rejected ++
                [authority_debug level +:+ " tried to add " +:+ field +:+ " entries " +:+
                 debug_vec widened +:+ " beyond " +:+ authority_debug (decided_by existing) +:+
                 "'s allow-list"]
            end in
          (Some (narrow level set existing), rejected)
      end
  end.

(** The highest layer above [level] that denies a server name. *)
Definition mcp_denied_by (level : Authority) (name : string) : option Authority :=
  List.find (λ l, match layers l with
                  | Some hl => bset_contains (ly_mcp_deny hl) name
                  | None => false
                  end)
    (List.filter (λ l, authority_lt l level) Authority_ALL).

Definition add_mcp (level : Authority) (st : bmap (Resolved string) * list string)
    (entry : string * string) : bmap (Resolved string) * list string :=
  let '(servers, rejected) := st in
  let '(name, endpoint) := entry in
  match mcp_denied_by level name with
  | Some d =>
      (servers, rejected ++
        [authority_debug level +:+ " tried to add MCP server `" +:+ name +:+ "` denied by " +:+
         authority_debug d])
  | None =>
      match bget name servers with
      | Some existing =>
          (binsert name
             {| rv_value := rv_value existing;
                rv_provenance :=
                  {| pv_decided_by := decided_by existing;
                     pv_overridden := pv_overridden (rv_provenance existing) ++
                       [(level, authority_debug level +:+ " also defines MCP server `" +:+ name
                                +:+ "`; " +:+ authority_debug (decided_by existing)
                                +:+ " decided")] |} |} servers, rejected)
      | None => (binsert name (decided level endpoint) servers, rejected)
      end
  end.

Definition deny_mcp (level : Authority) (st : bmap (Resolved string) * list string)
    (name : string) : bmap (Resolved string) * list string :=
  let '(servers, rejected) := st in
  match bget name servers with
  | Some existing =>
      if authority_lt (decided_by existing) level then
        (servers, rejected ++
          [authority_debug level +:+ " tried to remove MCP server `" +:+ name +:+ "` added by "
           +:+ authority_debug (decided_by existing)])
      else (bremove name servers, rejected)
  | None => (bremove name servers, rejected)
  end.

Definition merge_device (level : Authority) (mine : option DeviceConstraints)
    (st : option (Resolved DeviceConstraints) * list string)
    : option (Resolved DeviceConstraints) * list string :=
  let '(device, rejected) := st in
  match mine with
  | None => st
  | Some d =>
      if bool_decide (level = Authority_Device) then (Some (decided level d), rejected)
      else (device, rejected ++
        ((λ field, authority_debug level +:+ " tried to set device constraint `" +:+ field +:+
          "`; only the device (machine) policy sets it") <$> set_fields d))
  end.

Definition merge_authors (level : Authority) (mine : option bset)
    (st : option (Resolved bset) * list string) : option (Resolved bset) * list string :=
  let '(authors, rejected) := st in
  match mine with
  | None => st
  | Some set =>
      match authors with
      | None =>
          if bool_decide (level = Authority_Admin) then (Some (decided level set), rejected)
          else (None, rejected ++
            [authority_debug level +:+ " tried to name review-comment authors " +:+
             debug_set set +:+ "; only the organization (admin) layer grants them"])
      | Some existing =>
          let widened := bset_diff set (rv_value existing) in
          let rejected :=
            match widened with
            | [] => rejected
            | _ => rejected ++
                [authority_debug level +:+ " tried to add review-comment authors " +:+
                 debug_vec widened +:+ " beyond " +:+ authority_debug (decided_by existing) +:+
                 "'s list"]
            end in
          (Some (narrow level set existing), rejected)
      end
  end.

(** The body of the loop over the authorities. *)
Definition resolve_layer (out : ResolvedConfig) (level : Authority) : ResolvedConfig :=
  match layers level with
  | None => out
  | Some layer =>
      let perms := foldl (merge_permission level)
                     (rc_permissions out, rc_rejected_widenings out) (ly_permissions layer) in
      let network := merge_allow level "network" (ly_network_allow layer)
                       (rc_network_allow out, perms.2) in
      let models := merge_allow level "models" (ly_models_allow layer)
                      (rc_models_allow out, network.2) in
      let apps := merge_allow level "computer applications" (ly_computer_apps_allow layer)
                    (rc_computer_apps_allow out, models.2) in
      let added := foldl (add_mcp level) (rc_mcp_servers out, apps.2) (ly_mcp_servers layer) in
      let servers := foldl (deny_mcp level) added (ly_mcp_deny layer) in
      let device := merge_device level (ly_device layer) (rc_device out, servers.2) in
      let authors := merge_authors level (ly_review_comment_authors layer)
                       (rc_review_comment_authors out, device.2) in
      {| rc_permissions := perms.1;
         rc_network_allow := network.1;
         rc_models_allow := models.1;
         rc_computer_apps_allow := apps.1;
         rc_mcp_servers := servers.1;
         rc_hooks := rc_hooks out ++ (decided level <$> ly_hooks layer);
         rc_rules := rc_rules out ++ (decided level <$> ly_rules layer);
         rc_review_comment_authors := authors.1;
         rc_device := device.1;
         rc_rejected_widenings := authors.2 |}
  end.

(** [resolve]. *)
Definition resolve : ResolvedConfig := foldl resolve_layer ResolvedConfig_default Authority_ALL.
End resolve.

(** ** What the merge laws promise *)

(** The layers as the code holds them: maps have one entry per key. *)
Definition layers_wf (layers : Authority → option Layer) : Prop :=
  ∀ level l, layers level = Some l →
    NoDup (ly_permissions l).*1 ∧ NoDup (ly_mcp_servers l).*1.

(** What a layer says about a capability. *)
Definition opinion (layers : Authority → option Layer) (cap : string) (level : Authority)
    : option Permission :=
  l ← layers level; bget cap (ly_permissions l).

(** What a layer says in one of its allow lists. *)
Definition stated (layers : Authority → option Layer) (field : Layer → option bset)
    (level : Authority) : option bset :=
  l ← layers level; field l.

#[local] Arguments mcp_denied_by : simpl never.

Section laws.
Context `{DebugStr} (layers : Authority → option Layer).

(** The levels visited before one are exactly the higher ones. *)
Lemma visited_all pre level post l :
  Authority_ALL = pre ++ level :: post → (authority_lt l level = true ↔ l ∈ pre).
Proof.
  intros Hall. rewrite <- (bool_decide_eq_true (l ∈ pre)).
  assert (authority_lt l level = bool_decide (l ∈ pre)) as ->; [|done].
  unfold Authority_ALL in Hall.
  destruct pre as [|a [|b [|c [|d pre]]]]; cbn in Hall; simplify_eq; try by destruct l.
  by destruct pre.
Qed.

Lemma elem_of_snoc {A} (l : list A) x y : y ∈ l ++ [x] ↔ y ∈ l ∨ y = x.
Proof. by rewrite elem_of_app, list_elem_of_singleton. Qed.

Lemma authority_all l : l ∈ Authority_ALL.
Proof. apply list_elem_of_In. destruct l; cbn; auto. Qed.

Lemma resolve_visited (P : list Authority → ResolvedConfig → Prop) :
  (∀ pre level post out, Authority_ALL = pre ++ level :: post → P pre out →
     P (pre ++ [level]) (resolve_layer layers out level)) →
  P [] ResolvedConfig_default → P Authority_ALL (resolve layers).
Proof. unfold resolve. apply foldl_visited. Qed.

(** *** Permissions *)

Definition tighten (level : Authority) (d : Permission) (o : option (Resolved Permission))
    : Resolved Permission :=
  match o with
  | None => decided level d
  | Some e =>
      if permission_lt (rv_value e) d then
        redecided level (permission_debug (rv_value e) +:+ " tightened by " +:+
          authority_debug level +:+ " to " +:+ permission_debug d) d e
      else e
  end.

Lemma merge_permission_get level st entry cap :
  bget cap (merge_permission level st entry).1 =
  if cap =s entry.1 then Some (tighten level entry.2 (bget cap st.1)) else bget cap st.1.
Proof.
  destruct st as [perms rej], entry as [k d]. cbn.
  destruct (String.eqb_spec cap k) as [->|Hne].
  - destruct (bget k perms) as [e|] eqn:E; cbn; [|by rewrite bget_insert].
    destruct (permission_lt (rv_value e) d); cbn; [by rewrite bget_insert|].
    by destruct (permission_lt d (rv_value e)).
  - destruct (bget k perms) as [e|]; cbn; [|by rewrite bget_insert_ne].
    destruct (permission_lt (rv_value e) d); cbn; [by rewrite bget_insert_ne|].
    by destruct (permission_lt d (rv_value e)).
Qed.

Lemma merge_permissions_get level entries st cap :
  NoDup entries.*1 →
  bget cap (foldl (merge_permission level) st entries).1 =
  match bget cap entries with
  | Some d => Some (tighten level d (bget cap st.1))
  | None => bget cap st.1
  end.
Proof.
  revert st; induction entries as [|[k d] entries IH]; intros st; [done|].
  cbn [fmap list_fmap foldl]. rewrite NoDup_cons. intros [Hk Hnd].
  rewrite IH by done. rewrite merge_permission_get. cbn.
  destruct (String.eqb_spec cap k) as [->|Hne]; [|done].
  by rewrite (proj2 (bget_none k entries) Hk).
Qed.

(** The permission resolved for a capability after the levels [ls]. *)
Definition strictest (cap : string) (ls : list Authority) (perms : bmap (Resolved Permission))
    : Prop :=
  match bget cap perms with
  | None => ∀ l, l ∈ ls → opinion layers cap l = None
  | Some r =>
      decided_by r ∈ ls ∧ opinion layers cap (decided_by r) = Some (rv_value r) ∧
      ∀ l p, l ∈ ls → opinion layers cap l = Some p →
        permission_rank p ≤ permission_rank (rv_value r)
  end.

Lemma strictest_none cap pre level perms :
  opinion layers cap level = None → strictest cap pre perms → strictest cap (pre ++ [level]) perms.
Proof.
  unfold strictest. intros Ho. destruct (bget cap perms) as [e|].
  - intros (? & ? & Hmax). split_and!; [set_solver|done|].
    intros l p [Hl| ->]%elem_of_snoc Hp; [by apply (Hmax l p)|congruence].
  - intros Hn l [Hl| ->]%elem_of_snoc; auto.
Qed.

Lemma strictest_some cap pre level perms perms' d :
  opinion layers cap level = Some d → strictest cap pre perms →
  bget cap perms' = Some (tighten level d (bget cap perms)) →
  strictest cap (pre ++ [level]) perms'.
Proof.
  unfold strictest. intros Ho Hs ->. destruct (bget cap perms) as [e|]; cbn.
  - destruct Hs as (Hin & Hop & Hmax). unfold permission_lt.
    destruct (Z.ltb_spec (permission_rank (rv_value e)) (permission_rank d)); cbn;
      (split_and!; [set_solver|done|]); intros l p [Hl| ->]%elem_of_snoc Hp.
    + specialize (Hmax l p Hl Hp). lia.
    + simplify_eq. lia.
    + by apply (Hmax l p).
    + by simplify_eq.
  - split_and!; [set_solver|done|]. intros l p [Hl| ->]%elem_of_snoc Hp.
    + by rewrite Hs in Hp.
    + simplify_eq. lia.
Qed.

Lemma strictest_step cap pre level out :
  layers_wf layers → strictest cap pre (rc_permissions out) →
  strictest cap (pre ++ [level]) (rc_permissions (resolve_layer layers out level)).
Proof.
  intros Hwf Hs. unfold resolve_layer. destruct (layers level) as [layer|] eqn:El.
  2: { apply strictest_none; [|done]. unfold opinion. by rewrite El. }
  assert (Ho : opinion layers cap level = bget cap (ly_permissions layer)).
  { unfold opinion. by rewrite El. }
  cbn. pose proof (merge_permissions_get level (ly_permissions layer)
    (rc_permissions out, rc_rejected_widenings out) cap (proj1 (Hwf _ _ El))) as Hg.
  destruct (bget cap (ly_permissions layer)) as [d|].
  - by eapply strictest_some.
  - apply strictest_none; [done|]. unfold strictest. by rewrite Hg.
Qed.

Lemma strictest_all cap perms :
  strictest cap Authority_ALL perms →
  match bget cap perms with
  | None => ∀ level, opinion layers cap level = None
  | Some r =>
      opinion layers cap (decided_by r) = Some (rv_value r) ∧
      ∀ level p, opinion layers cap level = Some p →
        permission_rank p ≤ permission_rank (rv_value r)
  end.
Proof.
  unfold strictest. destruct (bget cap perms) as [r|].
  - intros (_ & ? & Hmax). split; [done|]. intros level p. apply Hmax, authority_all.
  - intros Hs level. apply Hs, authority_all.
Qed.

(** The permission resolved for a capability is the strictest any layer
    states, decided by a layer that states exactly it; a capability no layer
    mentions is not resolved. So a lower authority can tighten a decision and
    never loosen it. *)
Theorem resolve_permission_strictest cap :
  layers_wf layers →
  match bget cap (rc_permissions (resolve layers)) with
  | None => ∀ level, opinion layers cap level = None
  | Some r =>
      opinion layers cap (decided_by r) = Some (rv_value r) ∧
      ∀ level p, opinion layers cap level = Some p →
        permission_rank p ≤ permission_rank (rv_value r)
  end.
Proof.
  intros Hwf. apply strictest_all.
  apply (resolve_visited (λ pre out, strictest cap pre (rc_permissions out))).
  - intros pre x post acc _. by apply strictest_step.
  - intros l Hl. by apply elem_of_nil in Hl.
Qed.

(** *** Allow lists *)

(** The list resolved after the levels [ls]: what every layer that states one
    lists, and nothing if none states one. *)
Definition intersection (stated : Authority → option bset) (ls : list Authority)
    (target : option (Resolved bset)) : Prop :=
  match target with
  | None => ∀ l, l ∈ ls → stated l = None
  | Some r =>
      (∃ l, l ∈ ls ∧ is_Some (stated l)) ∧
      ∀ x, x ∈ rv_value r ↔ ∀ l s, l ∈ ls → stated l = Some s → x ∈ s
  end.

Lemma elem_of_narrow level set e x : x ∈ rv_value (narrow level set e) ↔ x ∈ rv_value e ∧ x ∈ set.
Proof.
  unfold narrow. case_bool_decide as Hb.
  - rewrite <- Hb at 1. apply elem_of_bset_inter.
  - apply elem_of_bset_inter.
Qed.

Lemma intersection_none st pre level target :
  st level = None → intersection st pre target → intersection st (pre ++ [level]) target.
Proof.
  unfold intersection. intros Hn. destruct target as [r|].
  - intros [(l & ? & ?) Hx]. split; [exists l; set_solver|]. intros x. rewrite Hx.
    split; [|set_solver]. intros Ha l' s [?| ->]%elem_of_snoc; [eauto|congruence].
  - intros Ha l [?| ->]%elem_of_snoc; auto.
Qed.

Lemma intersection_some st pre level set target r :
  st level = Some set → intersection st pre target →
  (∀ x, x ∈ rv_value r ↔ x ∈ set ∧ match target with Some e => x ∈ rv_value e | None => True end) →
  intersection st (pre ++ [level]) (Some r).
Proof.
  unfold intersection. intros Hs Hi Hr. split; [exists level; rewrite Hs; set_solver|].
  intros x. rewrite Hr. destruct target as [e|].
  - destruct Hi as [_ Hx]. rewrite Hx. split.
    + intros [? ?] l s [?| ->]%elem_of_snoc Hl; [eauto|congruence].
    + intros Ha. split; [apply (Ha level); [set_solver|done]|].
      intros l s ? ?. apply (Ha l); [set_solver|done].
  - split.
    + intros [? _] l s [?| ->]%elem_of_snoc Hl; [|congruence]. by rewrite Hi in Hl.
    + intros Ha. split; [|done]. apply (Ha level); [set_solver|done].
Qed.

Lemma merge_allow_step st level name pre target rej :
  intersection st pre target →
  intersection st (pre ++ [level]) (merge_allow level name (st level) (target, rej)).1.
Proof.
  intros Hi. unfold merge_allow. destruct (st level) as [set|] eqn:Es; [|by apply intersection_none].
  destruct target as [e|].
  - apply (intersection_some st pre level set (Some e) (narrow level set e)); [done..|].
    intros x. rewrite elem_of_narrow. tauto.
  - apply (intersection_some st pre level set None (decided level set)); [done..|].
    intros x. cbn. tauto.
Qed.

Lemma merge_allow_resolved name (field : Layer → option bset)
    (out_field : ResolvedConfig → option (Resolved bset)) :
  out_field ResolvedConfig_default = None →
  (∀ out level layer, layers level = Some layer → ∃ rej,
     out_field (resolve_layer layers out level) =
     (merge_allow level name (field layer) (out_field out, rej)).1) →
  intersection (stated layers field) Authority_ALL (out_field (resolve layers)).
Proof.
  intros Hd Hf. apply (resolve_visited (λ pre out, intersection (stated layers field) pre (out_field out))).
  - intros pre level post acc _ Hi. destruct (layers level) as [layer|] eqn:El.
    + destruct (Hf acc level layer El) as [rej ->].
      replace (field layer) with (stated layers field level) by (unfold stated; by rewrite El).
      by apply merge_allow_step.
    + replace (resolve_layer layers acc level) with acc by (unfold resolve_layer; by rewrite El).
      apply intersection_none; [|done]. unfold stated. by rewrite El.
  - rewrite Hd. cbn. set_solver.
Qed.

(** Each resolved allow list (egress hosts, models, applications computer
    control may drive) is the intersection of the lists of every layer that
    states one, and is absent exactly when no layer states one: no layer adds an
    entry another leaves out. *)
Theorem resolve_allow_lists_intersect :
  intersection (stated layers ly_network_allow) Authority_ALL (rc_network_allow (resolve layers)) ∧
  intersection (stated layers ly_models_allow) Authority_ALL (rc_models_allow (resolve layers)) ∧
  intersection (stated layers ly_computer_apps_allow) Authority_ALL
    (rc_computer_apps_allow (resolve layers)).
Proof.
  split_and!; eapply merge_allow_resolved; try done;
    intros out level layer El; unfold resolve_layer; rewrite El; cbn; by eexists.
Qed.
(** *** Review-comment authors and device constraints *)

Definition authors_of : Authority → option bset := stated layers ly_review_comment_authors.

Definition granted (ls : list Authority) (target : option (Resolved bset)) : Prop :=
  match target with
  | None => Authority_Admin ∈ ls → authors_of Authority_Admin = None
  | Some r =>
      Authority_Admin ∈ ls ∧ is_Some (authors_of Authority_Admin) ∧
      ∀ x, x ∈ rv_value r ↔
        ∀ l s, l ∈ ls → l ≠ Authority_Device → authors_of l = Some s → x ∈ s
  end.

Lemma granted_none pre level target :
  authors_of level = None → granted pre target → granted (pre ++ [level]) target.
Proof.
  unfold granted. intros Hn. destruct target as [r|].
  - intros (? & ? & Hx). split_and!; [set_solver|done|]. intros x. rewrite Hx.
    split; [|set_solver]. intros Ha l s [?| ->]%elem_of_snoc; [eauto|congruence].
  - intros Ha [?|Hl]%elem_of_snoc; [auto|congruence].
Qed.

Lemma granted_first pre post set :
  Authority_ALL = pre ++ Authority_Admin :: post → authors_of Authority_Admin = Some set →
  granted (pre ++ [Authority_Admin]) (Some (decided Authority_Admin set)).
Proof.
  intros Hall Hs. split_and!; [set_solver|by rewrite Hs|]. intros x. cbn. split.
  - intros Hx l s [Hl| ->]%elem_of_snoc Hne Hls; [|congruence].
    apply (visited_all _ _ _ l Hall) in Hl. by destruct l.
  - intros Ha. apply (Ha Authority_Admin); [set_solver|done..].
Qed.

Lemma granted_narrow pre level post set e :
  Authority_ALL = pre ++ level :: post → authors_of level = Some set → granted pre (Some e) →
  granted (pre ++ [level]) (Some (narrow level set e)).
Proof.
  intros Hall Hs (Hin & Hadm & Hx). split_and!; [set_solver|done|].
  assert (level ≠ Authority_Device).
  { intros ->. apply (visited_all _ _ _ _ Hall) in Hin. done. }
  intros x. rewrite elem_of_narrow, Hx. split.
  - intros [Ha ?] l s [?| ->]%elem_of_snoc Hne Hl; [eauto|congruence].
  - intros Ha. split; [|apply (Ha level); [set_solver|done..]].
    intros l s ? ? ?. apply (Ha l); [set_solver|done..].
Qed.

Lemma merge_authors_step pre level post target rej :
  Authority_ALL = pre ++ level :: post → granted pre target →
  granted (pre ++ [level]) (merge_authors level (authors_of level) (target, rej)).1.
Proof.
  intros Hall Hg. unfold merge_authors.
  destruct (authors_of level) as [set|] eqn:Es; [|by apply granted_none].
  destruct target as [e|]; [by eapply granted_narrow|].
  case_bool_decide as Hl; [subst; by eapply granted_first|].
  intros [?|?]%elem_of_snoc; [by apply Hg|congruence].
Qed.

Lemma resolve_layer_device out level :
  level ≠ Authority_Device → rc_device (resolve_layer layers out level) = rc_device out.
Proof.
  intros Hl. unfold resolve_layer, merge_device. destruct (layers level) as [layer|]; [|done].
  cbn. destruct (ly_device layer); [|done]. by rewrite bool_decide_eq_false_2.
Qed.

Lemma granted_all target :
  granted Authority_ALL target →
  match target with
  | None => authors_of Authority_Admin = None
  | Some r =>
      is_Some (authors_of Authority_Admin) ∧
      ∀ x, x ∈ rv_value r ↔
        ∀ l s, l ≠ Authority_Device → authors_of l = Some s → x ∈ s
  end.
Proof.
  unfold granted. destruct target as [r|].
  - intros (_ & ? & Hx). split; [done|]. intros x. rewrite Hx. split; intros Ha l s.
    + intros ? ?. apply (Ha l); [apply authority_all|done..].
    + intros _. apply Ha.
  - intros Hg. apply Hg, authority_all.
Qed.

(** Only the organization grants review-comment steering: without its list
    nobody may steer, and with it exactly the authors every list from it
    downwards names. *)
Theorem resolve_authors_granted :
  match rc_review_comment_authors (resolve layers) with
  | None => authors_of Authority_Admin = None
  | Some r =>
      is_Some (authors_of Authority_Admin) ∧
      ∀ x, x ∈ rv_value r ↔
        ∀ l s, l ≠ Authority_Device → authors_of l = Some s → x ∈ s
  end.
Proof.
  apply granted_all.
  apply (resolve_visited (λ pre out, granted pre (rc_review_comment_authors out)));
    [|by intros Hl%elem_of_nil].
  intros pre level post out Hall Hg. unfold resolve_layer.
  destruct (layers level) as [layer|] eqn:El.
  - cbn. replace (ly_review_comment_authors layer) with (authors_of level)
      by (unfold authors_of, stated; by rewrite El).
    by eapply merge_authors_step.
  - apply granted_none; [|done]. unfold authors_of, stated. by rewrite El.
Qed.

(** The machine's constraints come from the device layer alone. *)
Theorem resolve_device_only :
  rc_device (resolve layers) =
  decided Authority_Device <$> (l ← layers Authority_Device; ly_device l).
Proof.
  unfold resolve, Authority_ALL. cbn [foldl]. rewrite !resolve_layer_device by done.
  unfold resolve_layer. destruct (layers Authority_Device) as [layer|]; [|done]. cbn.
  by destruct (ly_device layer).
Qed.

(** *** MCP servers *)

Definition denies (name : string) (level : Authority) : bool :=
  match layers level with Some l => bset_contains (ly_mcp_deny l) name | None => false end.
Definition defines (name : string) (level : Authority) : option string :=
  l ← layers level; bget name (ly_mcp_servers l).

(** No layer at or above a level denies the name. *)
Definition undenied (name : string) (level : Authority) : bool :=
  forallb (λ h, negb (denies name h) || authority_lt level h) Authority_ALL.
#[local] Arguments undenied : simpl never.

(** The server a name resolves to after the levels [ls]: the highest layer that
    defines it with no layer at or above it denying it. *)
Definition server_of (name : string) (ls : list Authority) : option (string * Authority) :=
  level ← List.find (λ l, is_some (defines name l) && undenied name l) ls;
  endpoint ← defines name level; Some (endpoint, level).

Definition server_view (servers : bmap (Resolved string)) (name : string)
    : option (string * Authority) :=
  (λ r, (rv_value r, decided_by r)) <$> bget name servers.

Lemma add_mcp_view level st entry name :
  server_view (add_mcp layers level st entry).1 name =
  if (name =s entry.1) && negb (is_some (mcp_denied_by layers level name)) then
    match server_view st.1 name with Some v => Some v | None => Some (entry.2, level) end
  else server_view st.1 name.
Proof.
  destruct st as [servers rej], entry as [k e]. unfold server_view. cbn.
  destruct (String.eqb_spec name k) as [->|Hne]; cbn.
  - destruct (mcp_denied_by layers level k); cbn; [done|].
    destruct (bget k servers) as [ex|]; cbn; by rewrite bget_insert.
  - destruct (mcp_denied_by layers level k); cbn; [done|].
    destruct (bget k servers) as [ex|]; cbn; by rewrite bget_insert_ne.
Qed.

Lemma add_mcps_view level entries st name :
  NoDup entries.*1 →
  server_view (foldl (add_mcp layers level) st entries).1 name =
  match server_view st.1 name, bget name entries with
  | None, Some e => if is_some (mcp_denied_by layers level name) then None
                    else Some (e, level)
  | v, _ => v
  end.
Proof.
  revert st; induction entries as [|[k e] entries IH]; intros st.
  { intros _. cbn. by destruct (server_view st.1 name). }
  cbn [fmap list_fmap foldl]. rewrite NoDup_cons. intros [Hk Hnd].
  rewrite IH by done. rewrite add_mcp_view. cbn.
  destruct (String.eqb_spec name k) as [->|Hne]; cbn; [|done].
  rewrite (proj2 (bget_none k entries) Hk).
  destruct (is_some _); cbn; by destruct (server_view st.1 k).
Qed.

Lemma deny_mcps_view level names st name :
  server_view (foldl (deny_mcp level) st names).1 name =
  match server_view st.1 name with
  | Some (e, l) =>
      if contains_str names name && negb (authority_lt l level) then None else Some (e, l)
  | None => None
  end.
Proof.
  revert st; induction names as [|n names IH]; intros st.
  { cbn. by destruct (server_view st.1 name) as [[]|]. }
  cbn [foldl]. rewrite IH. unfold contains_str. cbn [existsb].
  destruct st as [servers rej]. unfold server_view. cbn.
  destruct (String.eqb_spec name n) as [->|Hne]; cbn.
  - destruct (bget n servers) as [ex|] eqn:E; cbn; [|by rewrite bget_remove].
    destruct (authority_lt (decided_by ex) level) eqn:El; cbn.
    + rewrite E. cbn. by rewrite El, andb_false_r.
    + by rewrite bget_remove.
  - destruct (bget n servers) as [ex|]; cbn; [|by rewrite bget_remove_ne].
    destruct (authority_lt (decided_by ex) level); cbn; [done|by rewrite bget_remove_ne].
Qed.
Lemma mcp_denied_by_none level name pre post :
  Authority_ALL = pre ++ level :: post →
  mcp_denied_by layers level name = None ↔ ∀ h, h ∈ pre → denies name h = false.
Proof.
  intros Hall. unfold mcp_denied_by. rewrite find_none_forall, Forall_forall.
  split; intros Ha h Hh; apply Ha.
  - apply elem_of_list_filter_bool. split; [apply authority_all|]. by eapply visited_all.
  - apply elem_of_list_filter_bool in Hh as [_ Hh]. by eapply visited_all.
Qed.

Lemma undenied_spec level name :
  undenied name level = true ↔
  denies name level = false ∧ ∀ h, authority_lt h level = true → denies name h = false.
Proof.
  unfold undenied. rewrite forallb_true. split.
  - intros Ha. split.
    + specialize (Ha level (authority_all level)). unfold authority_lt in Ha.
      rewrite Z.ltb_irrefl, orb_false_r in Ha. by apply negb_true_iff.
    + intros h Hh. specialize (Ha h (authority_all h)).
      destruct (denies name h); [|done]. unfold authority_lt in *. cbn in Ha.
      bool_to_prop. lia.
  - intros [Hl Ha] h _. destruct (denies name h) eqn:Hd; [|done]. cbn. unfold authority_lt.
    apply Z.ltb_lt. destruct (Z.lt_trichotomy (authority_rank level) (authority_rank h))
      as [?|[E|?]]; [done| |].
    + assert (level = h) by (by destruct level, h). congruence.
    + rewrite Ha in Hd; [done|]. by apply Z.ltb_lt.
Qed.

Lemma server_of_snoc name ls level :
  server_of name (ls ++ [level]) =
  match server_of name ls with
  | Some v => Some v
  | None => server_of name [level]
  end.
Proof.
  unfold server_of. induction ls as [|l ls IH]; cbn; [done|].
  destruct (is_some (defines name l)) eqn:E; cbn; [|exact IH].
  destruct (undenied name l); cbn; [|exact IH].
  by destruct (defines name l).
Qed.

Lemma server_of_in name ls e l : server_of name ls = Some (e, l) → l ∈ ls.
Proof.
  unfold server_of. intros (l' & Hf & H2)%bind_Some. apply bind_Some in H2 as (? & _ & ?).
  simplify_eq. apply find_some in Hf as [Hf _]. by apply list_elem_of_In.
Qed.

Lemma server_step name pre level post out :
  layers_wf layers → Authority_ALL = pre ++ level :: post →
  server_view (rc_mcp_servers out) name = server_of name pre →
  server_view (rc_mcp_servers (resolve_layer layers out level)) name =
  server_of name (pre ++ [level]).
Proof.
  intros Hwf Hall Hv. rewrite server_of_snoc. unfold resolve_layer.
  destruct (layers level) as [layer|] eqn:El.
  2: { rewrite Hv. unfold server_of at 3, defines. cbn. rewrite El.
       by destruct (server_of name pre). }
  cbn [rc_mcp_servers]. rewrite deny_mcps_view, add_mcps_view by (by eapply Hwf).
  cbn [fst]. rewrite Hv. destruct (server_of name pre) as [[e l]|] eqn:Es.
  - apply server_of_in in Es. apply (visited_all _ _ _ l Hall) in Es.
    by rewrite Es, andb_false_r.
  - clear Hv. unfold server_of. cbn [List.find].
    assert (Hdef : defines name level = bget name (ly_mcp_servers layer))
      by (unfold defines; by rewrite El).
    assert (Hden : denies name level = contains_str (ly_mcp_deny layer) name)
      by (unfold denies; by rewrite El).
    rewrite Hdef. destruct (bget name (ly_mcp_servers layer)) as [e|]; [|done]. cbn [is_some andb].
    pose proof (undenied_spec level name) as Hu.
    pose proof (mcp_denied_by_none level name pre post Hall) as Hm.
    destruct (mcp_denied_by layers level name) as [d|] eqn:Ed; cbn [is_some].
    + destruct (undenied name level); [|done]. destruct (proj1 Hu eq_refl) as [_ Ha].
      assert (Some d = None); [|done]. apply Hm. intros h Hh. apply Ha.
      by eapply visited_all.
    + assert (Ha : ∀ h, authority_lt h level = true → denies name h = false).
      { intros h Hh. apply (proj1 Hm eq_refl). by eapply visited_all. }
      unfold authority_lt at 1. rewrite Z.ltb_irrefl, andb_true_r, <- Hden.
      destruct (denies name level) eqn:Hd, (undenied name level); try done; cbn.
      * destruct (proj1 Hu eq_refl). congruence.
      * by rewrite Hdef.
      * discriminate (proj2 Hu (conj eq_refl Ha)).
Qed.

(** An MCP server name resolves to the definition of the highest layer that
    defines it with no layer at or above it denying it, and to nothing if there
    is none: a lower layer neither brings back a denied name nor replaces or
    removes a server a higher layer defined. *)
Theorem resolve_mcp_servers name :
  layers_wf layers →
  server_view (rc_mcp_servers (resolve layers)) name = server_of name Authority_ALL.
Proof.
  intros Hwf.
  apply (resolve_visited (λ pre out,
    server_view (rc_mcp_servers out) name = server_of name pre)); [|done].
  intros pre level post out Hall. by eapply server_step.
Qed.
End laws.

(** ** A worked configuration *)

Definition empty_layer : Layer :=
  {| ly_permissions := []; ly_network_allow := None; ly_models_allow := None;
     ly_computer_apps_allow := None; ly_mcp_servers := []; ly_mcp_deny := []; ly_hooks := [];
     ly_rules := []; ly_review_comment_authors := None; ly_device := None |}.

(** The organization asks before a push and denies one server; the project
    denies the push, the user would allow it and bring the server back. *)
Definition team_layers (level : Authority) : option Layer :=
  match level with
  | Authority_Device => None
  | Authority_Admin =>
      Some { empty_layer with ly_permissions := [("git.push", Permission_Ask)];
                              ly_mcp_deny := ["tracker"];
                              ly_review_comment_authors := Some ["ann"; "bob"] }
  | Authority_Project =>
      Some { empty_layer with ly_permissions := [("git.push", Permission_Deny)];
                              ly_mcp_servers := [("docs", "https://docs")] }
  | Authority_User =>
      Some { empty_layer with ly_permissions := [("git.push", Permission_Allow)];
                              ly_mcp_servers := [("docs", "https://mine"); ("tracker", "https://t")];
                              ly_review_comment_authors := Some ["bob"; "eve"] }
  end.

Lemma team_layers_wf : layers_wf team_layers.
Proof.
  intros [] l Hl; cbn in Hl; simplify_eq; cbn; split; repeat constructor; set_solver.
Qed.

Lemma resolve_permission_strictest_witness :
  let cfg := @resolve Example.debug team_layers in
  option_map rv_value (bget "git.push" (rc_permissions cfg)) = Some Permission_Deny ∧
  match bget "git.push" (rc_permissions cfg) with
  | None => ∀ level, opinion team_layers "git.push" level = None
  | Some r =>
      opinion team_layers "git.push" (decided_by r) = Some (rv_value r) ∧
      ∀ level p, opinion team_layers "git.push" level = Some p →
        permission_rank p ≤ permission_rank (rv_value r)
  end.
Proof.
  split; [vm_compute; reflexivity|].
  apply (@resolve_permission_strictest Example.debug team_layers "git.push").
  intros [] l Hl; cbn in Hl; simplify_eq; cbn; split; repeat constructor; set_solver.
Defined.

Lemma resolve_mcp_servers_witness :
  let servers := rc_mcp_servers (@resolve Example.debug team_layers) in
  server_view servers "docs" = Some ("https://docs", Authority_Project) ∧
  server_view servers "tracker" = server_of team_layers "tracker" Authority_ALL.
Proof.
  split; [vm_compute; reflexivity|].
  apply (@resolve_mcp_servers Example.debug team_layers "tracker" team_layers_wf).
Defined.
