(* ===== verification/Assurance.v ===== *)
(** * The assurance policy and realized risk

    [crates/policy/src/assurance.rs]: the organization's assurance policy, the
    layers that may only strengthen it, and the deterministic derivation of the
    risk a candidate change realized. *)

From S2P Require Import Prelude RustStr BTree External.
#[local] Open Scope Z_scope.

Definition ASSURANCE_SCHEMA_VERSION : Z := 1.
Definition REALIZED_RISK_RULES_VERSION : string := "risk-rules-2".

Inductive AssuranceLevel :=
  | AssuranceLevel_Fast
  | AssuranceLevel_Standard
  | AssuranceLevel_Governed
  | AssuranceLevel_HighAssurance.

#[export] Instance AssuranceLevel_eq_dec : EqDecision AssuranceLevel.
Proof. solve_decision. Defined.

Definition assurance_rank (a : AssuranceLevel) : Z :=
  match a with
  | AssuranceLevel_Fast => 0
  | AssuranceLevel_Standard => 1
  | AssuranceLevel_Governed => 2
  | AssuranceLevel_HighAssurance => 3
  end.

Definition AssuranceLevel_label (a : AssuranceLevel) : string :=
  match a with
  | AssuranceLevel_Fast => "FAST"
  | AssuranceLevel_Standard => "STANDARD"
  | AssuranceLevel_Governed => "GOVERNED"
  | AssuranceLevel_HighAssurance => "HIGH_ASSURANCE"
  end.

(** [Ord::max]. *)
Definition assurance_max (a b : AssuranceLevel) : AssuranceLevel :=
  if assurance_rank b <? assurance_rank a then a else b.

Inductive RiskLevel :=
  | RiskLevel_Low
  | RiskLevel_Medium
  | RiskLevel_High
  | RiskLevel_Critical.

#[export] Instance RiskLevel_eq_dec : EqDecision RiskLevel.
Proof. solve_decision. Defined.

Definition risk_rank (r : RiskLevel) : Z :=
  match r with
  | RiskLevel_Low => 0
  | RiskLevel_Medium => 1
  | RiskLevel_High => 2
  | RiskLevel_Critical => 3
  end.

Definition RiskLevel_label (r : RiskLevel) : string :=
  match r with
  | RiskLevel_Low => "LOW"
  | RiskLevel_Medium => "MEDIUM"
  | RiskLevel_High => "HIGH"
  | RiskLevel_Critical => "CRITICAL"
  end.

Definition risk_max (a b : RiskLevel) : RiskLevel := if risk_rank b <? risk_rank a then a else b.
Definition risk_min (a b : RiskLevel) : RiskLevel := if risk_rank b <? risk_rank a then b else a.

(** [RiskLevel::minimum_assurance]. *)
Definition RiskLevel_minimum_assurance (r : RiskLevel) : AssuranceLevel :=
  match r with
  | RiskLevel_Low => AssuranceLevel_Fast
  | RiskLevel_Medium => AssuranceLevel_Standard
  | RiskLevel_High => AssuranceLevel_Governed
  | RiskLevel_Critical => AssuranceLevel_HighAssurance
  end.

Inductive SurfaceKind :=
  | SurfaceKind_Auth
  | SurfaceKind_Authorization
  | SurfaceKind_Secret
  | SurfaceKind_CiCd
  | SurfaceKind_Infrastructure
  | SurfaceKind_Deploy
  | SurfaceKind_Migration
  | SurfaceKind_Dependency
  | SurfaceKind_Lockfile
  | SurfaceKind_PublicApi
  | SurfaceKind_Policy.

#[export] Instance SurfaceKind_eq_dec : EqDecision SurfaceKind.
Proof. solve_decision. Defined.

Definition surface_rank (k : SurfaceKind) : Z :=
  match k with
  | SurfaceKind_Auth => 0
  | SurfaceKind_Authorization => 1
  | SurfaceKind_Secret => 2
  | SurfaceKind_CiCd => 3
  | SurfaceKind_Infrastructure => 4
  | SurfaceKind_Deploy => 5
  | SurfaceKind_Migration => 6
  | SurfaceKind_Dependency => 7
  | SurfaceKind_Lockfile => 8
  | SurfaceKind_PublicApi => 9
  | SurfaceKind_Policy => 10
  end.

Definition SurfaceKind_label (k : SurfaceKind) : string :=
  match k with
  | SurfaceKind_Auth => "AUTH"
  | SurfaceKind_Authorization => "AUTHORIZATION"
  | SurfaceKind_Secret => "SECRET"
  | SurfaceKind_CiCd => "CI_CD"
  | SurfaceKind_Infrastructure => "INFRASTRUCTURE"
  | SurfaceKind_Deploy => "DEPLOY"
  | SurfaceKind_Migration => "MIGRATION"
  | SurfaceKind_Dependency => "DEPENDENCY"
  | SurfaceKind_Lockfile => "LOCKFILE"
  | SurfaceKind_PublicApi => "PUBLIC_API"
  | SurfaceKind_Policy => "POLICY"
  end.

Record ProtectedSurface := {
  sf_kind : SurfaceKind;
  sf_patterns : list string;
  sf_level : RiskLevel;
  sf_review_required : bool;
  sf_human_required : bool;
  sf_question_required : bool
}.

#[export] Instance ProtectedSurface_eq_dec : EqDecision ProtectedSurface.
Proof. solve_decision. Defined.

Definition ends_with_ignore_case (s suffix : string) : bool :=
  ends_with (to_ascii_lowercase suffix) (to_ascii_lowercase s).
Definition starts_with_ignore_case (s prefix : string) : bool :=
  starts_with (to_ascii_lowercase prefix) (to_ascii_lowercase s).

(** One pattern of [ProtectedSurface::matches_patterns]. *)
Definition pattern_matches (path p : string) : bool :=
  let base := rsplit_first (λ c, Ascii.eqb c "/") path in
  match strip_suffix "/" p with
  | Some dir =>
      match strip_prefix "/" dir with
      | Some seg => existsb (λ s, s =s seg) (split_on "/" path)
      | None => (path =s dir) || starts_with p path
      end
  | None =>
      match strip_prefix "*" p with
      | Some suffix => ends_with_ignore_case path suffix
      | None =>
          let otherwise :=
            if starts_with "." p && negb (contains_char "/" p) then ends_with_ignore_case path p
            else (base =s p) || (path =s p) in
          match strip_suffix "*" p with
          | Some prefix =>
              if negb (contains_char "/" prefix) then starts_with_ignore_case base prefix
              else otherwise
          | None => otherwise
          end
      end
  end.

(** [ProtectedSurface::matches_patterns], [ProtectedSurface::matches]. *)
Definition matches_patterns (patterns : list string) (path : string) : bool :=
  existsb (pattern_matches (replace_char "\" "/" path)) patterns.
Definition surface_matches (self : ProtectedSurface) (path : string) : bool :=
  matches_patterns (sf_patterns self) path.

Record BlastRadius := { br_medium_files : Z; br_high_files : Z; br_high_lines : Z }.

Record AssurancePolicy := {
  as_schema_version : Z;
  as_minimum_assurance : AssuranceLevel;
  as_protected_surfaces : list ProtectedSurface;
  as_blast_radius : BlastRadius;
  as_review_required_at : RiskLevel;
  as_human_required_at : RiskLevel;
  as_required_checks : list string;
  as_forbidden_effects : list string;
  as_review_on_unexpected_scope : bool;
  as_review_on_external_effect : bool
}.

Definition surface (kind : SurfaceKind) (patterns : list string) (level : RiskLevel)
    (review human question : bool) : ProtectedSurface :=
  {| sf_kind := kind; sf_patterns := patterns; sf_level := level; sf_review_required := review;
     sf_human_required := human; sf_question_required := question |}.

(** [AssurancePolicy::default]. *)
Definition AssurancePolicy_default : AssurancePolicy :=
  {| as_schema_version := ASSURANCE_SCHEMA_VERSION;
     as_minimum_assurance := AssuranceLevel_Standard;
     as_protected_surfaces :=
       [surface SurfaceKind_Auth ["/auth/"; "/authn/"; "/login/"; "/oauth/"; "/sso/"]
          RiskLevel_Critical true true false;
        surface SurfaceKind_Authorization ["/authz/"; "/permissions/"; "/rbac/"; "/policies/"]
          RiskLevel_Critical true true false;
        surface SurfaceKind_Secret
          [".env"; ".env.*"; ".pem"; ".key"; ".p12"; ".pfx"; "/secrets/"; "credentials"; "/.ssh/";
           "id_rsa*"; "id_ed25519*"; ".netrc"; ".npmrc"; ".pypirc"]
          RiskLevel_Critical true true false;
        surface SurfaceKind_CiCd
          [".github/"; ".gitlab-ci.yml"; ".circleci/"; "Jenkinsfile"; ".buildkite/"]
          RiskLevel_High true false true;
        surface SurfaceKind_Infrastructure
          [".tf"; "/terraform/"; "/infra/"; "/k8s/"; "/helm/"; "Dockerfile"; "docker-compose.yml"]
          RiskLevel_High true false true;
        surface SurfaceKind_Deploy ["/deploy/"; "/deployment/"; "/release/"]
          RiskLevel_Critical true true true;
        surface SurfaceKind_Migration ["/migrations/"; "/migrate/"; "/schema/"]
          RiskLevel_High true false false;
        surface SurfaceKind_Dependency
          ["Cargo.toml"; "package.json"; "pyproject.toml"; "requirements.txt"; "go.mod"; "Gemfile";
           "pom.xml"; "build.gradle"]
          RiskLevel_Medium false false false;
        surface SurfaceKind_Lockfile
          ["Cargo.lock"; "package-lock.json"; "pnpm-lock.yaml"; "yarn.lock"; "poetry.lock";
           "go.sum"; "Gemfile.lock"]
          RiskLevel_Medium true false false;
        surface SurfaceKind_Policy [".modbit/"] RiskLevel_High true false true];
     as_blast_radius := {| br_medium_files := 10; br_high_files := 30; br_high_lines := 800 |};
     as_review_required_at := RiskLevel_High;
     as_human_required_at := RiskLevel_Critical;
     as_required_checks := [];
     as_forbidden_effects := [];
     as_review_on_unexpected_scope := true;
     as_review_on_external_effect := true |}.

Record AssuranceLayer := {
  al_minimum_assurance : option AssuranceLevel;
  al_protected_surfaces : list ProtectedSurface;
  al_blast_radius : option BlastRadius;
  al_review_required_at : option RiskLevel;
  al_human_required_at : option RiskLevel;
  al_required_checks : list string;
  al_forbidden_effects : list string;
  al_weaken_attempts : list string
}.

(** [if !v.contains(x) { v.push(x.clone()) }] for each [x]. *)
Definition push_missing `{EqDecision A} (base extra : list A) : list A :=
  foldl (λ out x, if bool_decide (x ∈ out) then out else out ++ [x]) base extra.

(** [AssurancePolicy::strengthen_with]: the strengthened policy and the parts
    of the layer it ignored because they would weaken it. *)
Definition strengthen_with (self : AssurancePolicy) (layer : AssuranceLayer)
    : AssurancePolicy * list string :=
  let base := as_minimum_assurance self in
  let '(minimum, ignored_minimum) :=
    match al_minimum_assurance layer with
    | Some m =>
        if assurance_rank base <? assurance_rank m then (m, [])
        else if assurance_rank m <? assurance_rank base then
          (base, ["minimum_assurance " +:+ AssuranceLevel_label m +:+ " below " +:+
                  AssuranceLevel_label base])
        else (base, [])
    | None => (base, [])
    end in
  let radius := as_blast_radius self in
  let '(blast, ignored_blast) :=
    match al_blast_radius layer with
    | Some b =>
        ({| br_medium_files := Z.min (br_medium_files radius) (br_medium_files b);
            br_high_files := Z.min (br_high_files radius) (br_high_files b);
            br_high_lines := Z.min (br_high_lines radius) (br_high_lines b) |},
         if (br_medium_files radius <? br_medium_files b) ||
            (br_high_files radius <? br_high_files b) || (br_high_lines radius <? br_high_lines b)
         then ["blast_radius thresholds above the base"] else [])
    | None => (radius, [])
    end in
  let threshold name (now : RiskLevel) (asked : option RiskLevel) :=
    match asked with
    | Some r =>
        (risk_min now r,
         if risk_rank now <? risk_rank r then
           [name +:+ " " +:+ RiskLevel_label r +:+ " above " +:+ RiskLevel_label now]
         else [])
    | None => (now, [])
    end in
  let '(review_at, ignored_review) :=
    threshold "review_required_at" (as_review_required_at self) (al_review_required_at layer) in
  let '(human_at, ignored_human) :=
    threshold "human_required_at" (as_human_required_at self) (al_human_required_at layer) in
  ({| as_schema_version := as_schema_version self;
      as_minimum_assurance := minimum;
      as_protected_surfaces :=
        push_missing (as_protected_surfaces self) (al_protected_surfaces layer);
      as_blast_radius := blast;
      as_review_required_at := review_at;
      as_human_required_at := human_at;
      as_required_checks := push_missing (as_required_checks self) (al_required_checks layer);
      as_forbidden_effects :=
        push_missing (as_forbidden_effects self) (al_forbidden_effects layer);
      as_review_on_unexpected_scope := as_review_on_unexpected_scope self;
      as_review_on_external_effect := as_review_on_external_effect self |},
   ignored_minimum ++ ignored_blast ++ ignored_review ++ ignored_human).

(** [AssurancePolicy::question_required_patterns]. *)
Definition question_required_patterns (self : AssurancePolicy) : list string :=
  concat (sf_patterns <$> List.filter sf_question_required (as_protected_surfaces self)).

(** [AssurancePolicy::surfaces_of]. *)
Definition surfaces_of (self : AssurancePolicy) (path : string) : list ProtectedSurface :=
  List.filter (λ s, surface_matches s path) (as_protected_surfaces self).

(** ** Facts of a candidate *)

Inductive ChangeKind :=
  | ChangeKind_Created
  | ChangeKind_Modified
  | ChangeKind_Deleted.

#[export] Instance ChangeKind_eq_dec : EqDecision ChangeKind.
Proof. solve_decision. Defined.

Record ChangedPath := {
  cp_path : string;
  cp_change : ChangeKind;
  cp_lines_added : Z;
  cp_lines_removed : Z
}.

Record RequestedEffect := {
  re_tool : string;
  re_effect_class : string;
  re_capability : string;
  re_approved : bool
}.

(** The type of the advisory scores; the derivation never looks inside one. *)
Class F64 := f64 : Type.

Record Advisory `{F64} := {
  ad_learned_risk : option f64;
  ad_confidence : option f64;
  ad_checks_passed : option bool
}.

Definition Advisory_default `{F64} : Advisory :=
  {| ad_learned_risk := None; ad_confidence := None; ad_checks_passed := None |}.

(** [self != &Advisory::default()]: whatever the scores are, a present one
    differs from an absent one. *)
Definition Advisory_is_default `{F64} (a : Advisory) : bool :=
  negb (is_some (ad_learned_risk a)) && negb (is_some (ad_confidence a)) &&
  negb (is_some (ad_checks_passed a)).

Record CandidateFacts `{F64} := {
  cf_candidate_revision : Z;
  cf_changed : list ChangedPath;
  cf_plan_write_set : option (list string);
  cf_requested_effects : list RequestedEffect;
  cf_advisory : Advisory
}.

Record RiskReason := {
  ri_code : string;
  ri_surface : option SurfaceKind;
  ri_level : RiskLevel;
  ri_paths : list string;
  ri_detail : string
}.

#[export] Instance RiskReason_eq_dec : EqDecision RiskReason.
Proof. solve_decision. Defined.

Record RealizedRisk := {
  rk_schema_version : Z;
  rk_realized_risk_version : string;
  rk_policy_version : string;
  rk_candidate_revision : Z;
  rk_level : RiskLevel;
  rk_reasons : list RiskReason;
  rk_minimum_assurance : AssuranceLevel;
  rk_independent_review_required : bool;
  rk_human_required : bool;
  rk_forbidden_effects_requested : list string;
  rk_evidence_refs : list string;
  rk_facts_digest : string
}.

Definition is_test_path (p : string) : bool :=
  let p := replace_char "\" "/" p in
  let base := rsplit_first (λ c, Ascii.eqb c "/") p in
  str_contains "/tests/" p || str_contains "/test/" p || str_contains "/__tests__/" p ||
  starts_with "tests/" p || starts_with "test/" p || starts_with "test_" base ||
  str_contains ".test." base || str_contains ".spec." base || ends_with "_test.go" base ||
  ends_with "_test.py" base || ends_with "_test.rs" base.

Definition SOURCE_EXTENSIONS : list string :=
  ["rs"; "ts"; "tsx"; "js"; "jsx"; "py"; "go"; "java"; "kt"; "rb"; "cs"; "c"; "cc"; "cpp"; "h";
   "hpp"; "swift"; "scala"; "php"; "ex"; "exs"].

Definition is_source_path (p : string) : bool :=
  contains_str SOURCE_EXTENSIONS (rsplit_first (λ c, Ascii.eqb c ".") p) && negb (is_test_path p).

(** ** The derivation, rule by rule *)

Section derive.
Context `{F64} `{Sha256}.
(** [serde_json::to_vec] of the three types the derivation serializes. *)
Context (policy_json : AssurancePolicy → string) (facts_json : CandidateFacts → string)
        (advisory_json : Advisory → string).

(** [AssurancePolicy::version]. *)
Definition policy_version (self : AssurancePolicy) : string :=
  "assurance-" +:+ String.substring 0 16 (sha256_hex (policy_json self)).

(** What one rule adds: reasons, and whether it asks for a review and a human. *)
Record Findings := { fi_reasons : list RiskReason; fi_review : bool; fi_human : bool }.

Definition findings_app (a b : Findings) : Findings :=
  {| fi_reasons := fi_reasons a ++ fi_reasons b; fi_review := fi_review a || fi_review b;
     fi_human := fi_human a || fi_human b |}.

Definition no_findings : Findings :=
  {| fi_reasons := []; fi_review := false; fi_human := false |}.

(** Rule 1, protected surfaces. *)
Definition surface_findings (policy : AssurancePolicy) (changed : list ChangedPath) : Findings :=
  foldl (λ acc c, foldl (λ acc s, findings_app acc
      {| fi_reasons :=
           [{| ri_code := "PROTECTED_SURFACE"; ri_surface := Some (sf_kind s);
               ri_level := sf_level s; ri_paths := [cp_path c];
               ri_detail := SurfaceKind_label (sf_kind s) +:+ " surface: " +:+ cp_path c |}];
         fi_review := sf_review_required s; fi_human := sf_human_required s |})
    acc (surfaces_of policy (cp_path c))) no_findings changed.

Definition reason (code : string) (level : RiskLevel) (paths : list string) (detail : string)
    : RiskReason :=
  {| ri_code := code; ri_surface := None; ri_level := level; ri_paths := paths;
     ri_detail := detail |}.

Definition changed_files (changed : list ChangedPath) : Z := wrap32 (Z.of_nat (length changed)).
Definition changed_lines (changed : list ChangedPath) : Z :=
  foldl (λ acc c, wrap32 (acc + wrap32 (cp_lines_added c + cp_lines_removed c))) 0 changed.

(** Rule 2, blast radius. *)
Definition blast_findings (policy : AssurancePolicy) (changed : list ChangedPath) : Findings :=
  let files := changed_files changed in
  let lines := changed_lines changed in
  let radius := as_blast_radius policy in
  if (br_high_files radius <=? files) || (br_high_lines radius <=? lines) then
    {| fi_reasons := [reason "BLAST_RADIUS" RiskLevel_High []
         (pretty files +:+ " files, " +:+ pretty lines +:+ " lines changed")];
       fi_review := false; fi_human := false |}
  else if br_medium_files radius <=? files then
    {| fi_reasons := [reason "BLAST_RADIUS" RiskLevel_Medium []
         (pretty files +:+ " files changed")];
       fi_review := false; fi_human := false |}
  else no_findings.

(** A path the plan declared: listed, or under a listed directory. *)
Definition path_declared (ws : list string) (p : string) : bool :=
  existsb (λ e, (e =s p) || (ends_with "/" e && starts_with e p)) ws.

(** Rule 3, changes the plan did not declare. *)
Definition scope_findings (policy : AssurancePolicy) (facts : CandidateFacts) : Findings :=
  match cf_plan_write_set facts with
  | None => no_findings
  | Some ws =>
      let outside := cp_path <$>
        List.filter (λ c, negb (path_declared ws (cp_path c))) (cf_changed facts) in
      match outside with
      | [] => no_findings
      | _ =>
          let n := Z.of_nat (length outside) in
          {| fi_reasons := [reason "UNEXPECTED_SCOPE"
               (if 3 <=? n then RiskLevel_High else RiskLevel_Medium) outside
               (pretty n +:+ " path(s) outside the plan's write set")];
             fi_review := as_review_on_unexpected_scope policy; fi_human := false |}
      end
  end.

(** Rule 4, source changed and no test. *)
Definition coverage_findings (changed : list ChangedPath) : Findings :=
  let source_changed := cp_path <$>
    List.filter (λ c, negb (bool_decide (cp_change c = ChangeKind_Deleted)) &&
                      is_source_path (cp_path c)) changed in
  let tests_changed := existsb (λ c, is_test_path (cp_path c)) changed in
  match source_changed, tests_changed with
  | _ :: _, false =>
      {| fi_reasons := [reason "SPARSE_COVERAGE" RiskLevel_Medium source_changed
           "source changed without a test change"];
         fi_review := false; fi_human := false |}
  | _, _ => no_findings
  end.

Definition is_forbidden (policy : AssurancePolicy) (e : RequestedEffect) : bool :=
  existsb (λ f, (f =s re_capability e) || (f =s re_tool e)) (as_forbidden_effects policy).

(** Rule 5, one requested effect. *)
Definition effect_finding (policy : AssurancePolicy) (e : RequestedEffect) : Findings :=
  if is_forbidden policy e then
    {| fi_reasons := [reason "FORBIDDEN_EFFECT" RiskLevel_Critical [re_tool e]
         ("`" +:+ re_tool e +:+ "` is forbidden by policy")];
       fi_review := false; fi_human := true |}
  else if contains_str ["ExternalSideEffect"; "Destructive"] (re_effect_class e) then
    {| fi_reasons := [reason "EXTERNAL_EFFECT" RiskLevel_High [re_tool e]
         (re_effect_class e +:+ " effect requested (" +:+ re_tool e +:+ ")" +:+
          (if re_approved e then ", approved" else ", not approved"))];
       fi_review := as_review_on_external_effect policy; fi_human := false |}
  else no_findings.

Definition effect_findings (policy : AssurancePolicy) (effects : list RequestedEffect)
    : Findings :=
  foldl (λ acc e, findings_app acc (effect_finding policy e)) no_findings effects.

Definition all_findings (policy : AssurancePolicy) (facts : CandidateFacts) : Findings :=
  foldl findings_app no_findings
    [surface_findings policy (cf_changed facts); blast_findings policy (cf_changed facts);
     scope_findings policy facts; coverage_findings (cf_changed facts);
     effect_findings policy (cf_requested_effects facts)].

(** [reasons.iter().map(|r| r.level).max().unwrap_or(Low)]. *)
Definition max_level (reasons : list RiskReason) : RiskLevel :=
  foldr (λ r acc, risk_max (ri_level r) acc) RiskLevel_Low reasons.

Definition surface_compare (a b : option SurfaceKind) : comparison :=
  match a, b with
  | None, None => Eq
  | None, Some _ => Lt
  | Some _, None => Gt
  | Some x, Some y => Z.compare (surface_rank x) (surface_rank y)
  end.

Definition reason_lt (a b : RiskReason) : bool :=
  is_lt (then_with (String.compare (ri_code a) (ri_code b))
           (then_with (strings_compare (ri_paths a) (ri_paths b))
              (surface_compare (ri_surface a) (ri_surface b)))).

(** [derive_realized_risk]. *)
Definition derive_realized_risk (policy : AssurancePolicy) (facts : CandidateFacts)
    : RealizedRisk :=
  let f := all_findings policy facts in
  let forbidden := re_tool <$> List.filter (is_forbidden policy) (cf_requested_effects facts) in
  let level := max_level (fi_reasons f) in
  let review := fi_review f || (risk_rank (as_review_required_at policy) <=? risk_rank level) in
  let human := fi_human f || (risk_rank (as_human_required_at policy) <=? risk_rank level) in
  let minimum_assurance :=
    assurance_max
      (assurance_max (as_minimum_assurance policy) (RiskLevel_minimum_assurance level))
      (if human then AssuranceLevel_HighAssurance
       else if review then AssuranceLevel_Governed else AssuranceLevel_Fast) in
  let facts_digest := sha256_hex (facts_json { facts with cf_advisory := Advisory_default }) in
  {| rk_schema_version := ASSURANCE_SCHEMA_VERSION;
     rk_realized_risk_version := REALIZED_RISK_RULES_VERSION;
     rk_policy_version := policy_version policy;
     rk_candidate_revision := cf_candidate_revision facts;
     rk_level := level;
     rk_reasons := dedup (sort_by reason_lt (fi_reasons f));
     rk_minimum_assurance := minimum_assurance;
     rk_independent_review_required := review;
     rk_human_required := human;
     rk_forbidden_effects_requested := forbidden;
     rk_evidence_refs :=
       ("facts:" +:+ facts_digest) ::
       (if Advisory_is_default (cf_advisory facts) then []
        else ["advisory_ignored:" +:+ advisory_json (cf_advisory facts)]);
     rk_facts_digest := facts_digest |}.

(** [strengthen_only]. *)
Definition strengthen_only (earlier later : RealizedRisk) : RealizedRisk :=
  { later with
    rk_level := risk_max (rk_level earlier) (rk_level later);
    rk_minimum_assurance :=
      assurance_max (rk_minimum_assurance earlier) (rk_minimum_assurance later);
    rk_independent_review_required :=
      rk_independent_review_required earlier || rk_independent_review_required later;
    rk_human_required := rk_human_required earlier || rk_human_required later;
    rk_reasons :=
      sort_by (λ a b, is_lt (then_with (String.compare (ri_code a) (ri_code b))
                               (strings_compare (ri_paths a) (ri_paths b))))
        (push_missing (rk_reasons later) (rk_reasons earlier));
    rk_forbidden_effects_requested :=
      bset_of (rk_forbidden_effects_requested later ++
               rk_forbidden_effects_requested earlier) }.

(** ** Laws of the findings *)

Lemma risk_max_rank a b : risk_rank (risk_max a b) = Z.max (risk_rank a) (risk_rank b).
Proof. unfold risk_max. destruct (Z.ltb_spec (risk_rank b) (risk_rank a)); lia. Qed.
Lemma risk_min_rank a b : risk_rank (risk_min a b) = Z.min (risk_rank a) (risk_rank b).
Proof. unfold risk_min. destruct (Z.ltb_spec (risk_rank b) (risk_rank a)); lia. Qed.
Lemma assurance_max_rank a b :
  assurance_rank (assurance_max a b) = Z.max (assurance_rank a) (assurance_rank b).
Proof. unfold assurance_max. destruct (Z.ltb_spec (assurance_rank b) (assurance_rank a)); lia. Qed.
Lemma minimum_assurance_rank l : assurance_rank (RiskLevel_minimum_assurance l) = risk_rank l.
Proof. by destruct l. Qed.
Lemma risk_rank_range l : 0 ≤ risk_rank l ≤ 3.
Proof. destruct l; cbn; lia. Qed.
Lemma assurance_rank_range l : 0 ≤ assurance_rank l ≤ 3.
Proof. destruct l; cbn; lia. Qed.

Lemma max_level_ub r rs : r ∈ rs → risk_rank (ri_level r) ≤ risk_rank (max_level rs).
Proof.
  induction 1 as [r rs|r x rs _ IH]; unfold max_level in *; cbn; rewrite risk_max_rank; lia.
Qed.

Lemma max_level_le rs n :
  0 ≤ n → (∀ r, r ∈ rs → risk_rank (ri_level r) ≤ n) → risk_rank (max_level rs) ≤ n.
Proof.
  intros Hn Ha. induction rs as [|r rs IH]; [done|]. unfold max_level in *. cbn.
  rewrite risk_max_rank. pose proof (Ha r (list_elem_of_here _ _)).
  assert (∀ r, r ∈ rs → risk_rank (ri_level r) ≤ n) as Hx by (intros; apply Ha; by right).
  specialize (IH Hx). lia.
Qed.

Definition fold_findings {A} (f : A → Findings) (l : list A) : Findings :=
  foldl (λ acc x, findings_app acc (f x)) no_findings l.

Lemma foldl_findings_app {A} (f : A → Findings) l acc :
  foldl (λ acc x, findings_app acc (f x)) acc l = findings_app acc (fold_findings f l).
Proof.
  unfold fold_findings.
  assert (∀ a b, foldl (λ acc x, findings_app acc (f x)) (findings_app a b) l =
                 findings_app a (foldl (λ acc x, findings_app acc (f x)) b l)) as Hx.
  { induction l as [|x l IH]; intros a b; cbn; [done|]. rewrite <- IH. f_equal.
    unfold findings_app. cbn. by rewrite app_assoc, !orb_assoc. }
  rewrite <- Hx. f_equal. unfold findings_app. destruct acc. cbn.
  by rewrite app_nil_r, !orb_false_r.
Qed.

Lemma fold_findings_cons {A} (f : A → Findings) x l :
  fold_findings f (x :: l) = findings_app (f x) (fold_findings f l).
Proof. unfold fold_findings at 1. cbn. by rewrite foldl_findings_app. Qed.

(** One set of findings is matched by another: every reason by one at least as
    serious, every demand for a human by the same demand, and a demand for a
    review by one or by a critical reason. *)
Definition critical (a : Findings) : Prop :=
  ∃ r, r ∈ fi_reasons a ∧ ri_level r = RiskLevel_Critical.
Definition findings_le (a b : Findings) : Prop :=
  (∀ r, r ∈ fi_reasons a → ∃ r', r' ∈ fi_reasons b ∧
     risk_rank (ri_level r) ≤ risk_rank (ri_level r')) ∧
  (fi_review a = true → fi_review b = true ∨ critical b) ∧
  (fi_human a = true → fi_human b = true).

Lemma findings_le_refl a : findings_le a a.
Proof. split_and!; [|auto..]. intros r Hr. exists r. split; [done|lia]. Qed.

Lemma no_findings_le a : findings_le no_findings a.
Proof. split_and!; [|done..]. intros r Hr. by apply elem_of_nil in Hr. Qed.

Lemma findings_app_lub a b c : findings_le a c → findings_le b c → findings_le (findings_app a b) c.
Proof.
  intros (H1 & H2 & H3) (H4 & H5 & H6). split_and!; cbn.
  - intros r [?|?]%elem_of_app; auto.
  - intros [?|?]%orb_true_iff; auto.
  - intros [?|?]%orb_true_iff; auto.
Qed.

Lemma findings_le_app_l a b c : findings_le a b → findings_le a (findings_app b c).
Proof.
  intros (H1 & H2 & H3). split_and!; cbn.
  - intros r (r' & ? & ?)%H1. exists r'. split; [|done]. apply elem_of_app; auto.
  - intros [->|(r & ? & ?)]%H2; [auto|]. right. exists r. split; [|done]. apply elem_of_app; auto.
  - by intros ->%H3.
Qed.

Lemma findings_le_app_r a b c : findings_le a c → findings_le a (findings_app b c).
Proof.
  intros (H1 & H2 & H3). split_and!; cbn.
  - intros r (r' & ? & ?)%H1. exists r'. split; [|done]. apply elem_of_app; auto.
  - intros [->|(r & ? & ?)]%H2; [rewrite orb_true_r; auto|]. right.
    exists r. split; [|done]. apply elem_of_app; auto.
  - intros ->%H3. by rewrite orb_true_r.
Qed.

Lemma findings_le_elem {A} (f : A → Findings) x l a :
  x ∈ l → findings_le a (f x) → findings_le a (fold_findings f l).
Proof.
  induction 1 as [x l|x y l _ IH]; intros Ha; rewrite fold_findings_cons.
  - by apply findings_le_app_l.
  - apply findings_le_app_r. auto.
Qed.

Lemma fold_findings_le {A B} (f : A → Findings) (g : B → Findings) l l' :
  (∀ x, x ∈ l → ∃ y, y ∈ l' ∧ findings_le (f x) (g y)) →
  findings_le (fold_findings f l) (fold_findings g l').
Proof.
  induction l as [|x l IH]; intros Ha; [apply no_findings_le|].
  rewrite fold_findings_cons. apply findings_app_lub.
  - destruct (Ha x) as (y & ? & ?); [by left|]. by eapply findings_le_elem.
  - apply IH. intros y Hy. apply Ha. by right.
Qed.

Lemma findings_le_level a b :
  findings_le a b → risk_rank (max_level (fi_reasons a)) ≤ risk_rank (max_level (fi_reasons b)).
Proof.
  intros (Hr & _). apply max_level_le; [apply risk_rank_range|].
  intros r (r' & Hr' & ?)%Hr. apply max_level_ub in Hr'. lia.
Qed.

(** ** Stricter policies *)

(** [q] is at least as strict as [p]. *)
Definition policy_le (p q : AssurancePolicy) : Prop :=
  assurance_rank (as_minimum_assurance p) ≤ assurance_rank (as_minimum_assurance q) ∧
  as_protected_surfaces p ⊆ as_protected_surfaces q ∧
  br_medium_files (as_blast_radius q) ≤ br_medium_files (as_blast_radius p) ∧
  br_high_files (as_blast_radius q) ≤ br_high_files (as_blast_radius p) ∧
  br_high_lines (as_blast_radius q) ≤ br_high_lines (as_blast_radius p) ∧
  risk_rank (as_review_required_at q) ≤ risk_rank (as_review_required_at p) ∧
  risk_rank (as_human_required_at q) ≤ risk_rank (as_human_required_at p) ∧
  as_required_checks p ⊆ as_required_checks q ∧
  as_forbidden_effects p ⊆ as_forbidden_effects q ∧
  (as_review_on_unexpected_scope p = true → as_review_on_unexpected_scope q = true) ∧
  (as_review_on_external_effect p = true → as_review_on_external_effect q = true).

(** [b] demands at least what [a] demands. *)
Definition risk_le (a b : RealizedRisk) : Prop :=
  risk_rank (rk_level a) ≤ risk_rank (rk_level b) ∧
  assurance_rank (rk_minimum_assurance a) ≤ assurance_rank (rk_minimum_assurance b) ∧
  (rk_independent_review_required a = true → rk_independent_review_required b = true) ∧
  (rk_human_required a = true → rk_human_required b = true) ∧
  rk_forbidden_effects_requested a ⊆ rk_forbidden_effects_requested b.

Lemma surface_findings_alt policy changed :
  surface_findings policy changed =
  fold_findings (λ c, fold_findings (λ s,
      {| fi_reasons :=
           [{| ri_code := "PROTECTED_SURFACE"; ri_surface := Some (sf_kind s);
               ri_level := sf_level s; ri_paths := [cp_path c];
               ri_detail := SurfaceKind_label (sf_kind s) +:+ " surface: " +:+ cp_path c |}];
         fi_review := sf_review_required s; fi_human := sf_human_required s |})
    (surfaces_of policy (cp_path c))) changed.
Proof.
  unfold surface_findings, fold_findings at 1. generalize no_findings as acc.
  induction changed as [|c changed IH]; intros acc; cbn; [done|].
  rewrite IH. f_equal. apply foldl_findings_app.
Qed.

Section stricter.
Context (p q : AssurancePolicy) (Hpq : policy_le p q).

Lemma surface_findings_le changed :
  findings_le (surface_findings p changed) (surface_findings q changed).
Proof.
  rewrite !surface_findings_alt. apply fold_findings_le. intros c Hc. exists c. split; [done|].
  apply fold_findings_le. intros s Hs. exists s. split; [|apply findings_le_refl].
  unfold surfaces_of in *. apply elem_of_list_filter_bool in Hs as [Hs ?].
  apply elem_of_list_filter_bool. split; [|done]. by apply Hpq.
Qed.

Lemma blast_findings_le changed :
  findings_le (blast_findings p changed) (blast_findings q changed).
Proof.
  destruct Hpq as (_ & _ & Hm & Hf & Hl & _). unfold blast_findings.
  destruct ((br_high_files (as_blast_radius p) <=? _) || _) eqn:E1.
  - assert ((br_high_files (as_blast_radius q) <=? changed_files changed)
            || (br_high_lines (as_blast_radius q) <=? changed_lines changed) = true) as ->.
    { apply orb_true_iff in E1 as [E1|E1]; apply Z.leb_le in E1; apply orb_true_iff;
        [left|right]; apply Z.leb_le; lia. }
    apply findings_le_refl.
  - destruct (Z.leb_spec (br_medium_files (as_blast_radius p)) (changed_files changed));
      [|apply no_findings_le].
    destruct ((br_high_files (as_blast_radius q) <=? _) || _).
    + split_and!; cbn; [|done..]. intros r ->%list_elem_of_singleton. eexists.
      split; [by apply list_elem_of_singleton|]. cbn. lia.
    + destruct (Z.leb_spec (br_medium_files (as_blast_radius q)) (changed_files changed));
        [|lia]. apply findings_le_refl.
Qed.

Lemma scope_findings_le facts : findings_le (scope_findings p facts) (scope_findings q facts).
Proof.
  destruct Hpq as (_ & _ & _ & _ & _ & _ & _ & _ & _ & Hs & _). unfold scope_findings.
  destruct (cf_plan_write_set facts); [|apply findings_le_refl].
  destruct (_ <$> _); [apply findings_le_refl|]. split_and!; cbn; [|auto..].
  intros r Hr. exists r. split; [done|lia].
Qed.

Lemma effect_finding_le e : findings_le (effect_finding p e) (effect_finding q e).
Proof.
  destruct Hpq as (_ & _ & _ & _ & _ & _ & _ & _ & Hf & _ & He). unfold effect_finding.
  assert (Hfb : is_forbidden p e = true → is_forbidden q e = true).
  { unfold is_forbidden. rewrite !existsb_true. intros (f & ? & ?). exists f. auto. }
  destruct (is_forbidden p e); [rewrite Hfb by done; apply findings_le_refl|].
  destruct (contains_str _ _); [|apply no_findings_le].
  destruct (is_forbidden q e); split_and!; cbn; try done.
  - intros r ->%list_elem_of_singleton. eexists. split; [by apply list_elem_of_singleton|]. cbn. lia.
  - intros _. right. eexists. split; [by apply list_elem_of_singleton|]. done.
  - intros r Hr. exists r. split; [done|lia].
  - auto.
Qed.

Lemma all_findings_le facts : findings_le (all_findings p facts) (all_findings q facts).
Proof.
  unfold all_findings. cbn [foldl].
  repeat apply findings_app_lub; [apply no_findings_le|..].
  - apply findings_le_app_l, findings_le_app_l, findings_le_app_l, findings_le_app_l.
    apply findings_le_app_r, surface_findings_le.
  - apply findings_le_app_l, findings_le_app_l, findings_le_app_l.
    apply findings_le_app_r, blast_findings_le.
  - apply findings_le_app_l, findings_le_app_l. apply findings_le_app_r, scope_findings_le.
  - apply findings_le_app_l. apply findings_le_app_r, findings_le_refl.
  - apply findings_le_app_r. unfold effect_findings. apply fold_findings_le.
    intros e He. exists e. split; [done|]. apply effect_finding_le.
Qed.
End stricter.
(** C31: a stricter policy realizes at least the risk: the same facts give a
    level, a minimum assurance, a review and a human demand and a set of
    forbidden effects at least as demanding. *)
Theorem derive_risk_monotone p q facts :
  policy_le p q → risk_le (derive_realized_risk p facts) (derive_realized_risk q facts).
Proof.
  intros Hpq. pose proof (all_findings_le p q Hpq facts) as Hf.
  pose proof (findings_le_level _ _ Hf) as Hl. destruct Hf as (_ & Hr & Hh).
  destruct Hpq as (Hmin & _ & _ & _ & _ & Hrev & Hhum & _ & Hforb & _).
  set (fp := all_findings p facts) in *. set (fq := all_findings q facts) in *.
  assert (Hreview : fi_review fp || (risk_rank (as_review_required_at p)
            <=? risk_rank (max_level (fi_reasons fp))) = true →
          fi_review fq || (risk_rank (as_review_required_at q)
            <=? risk_rank (max_level (fi_reasons fq))) = true).
  { intros [[->|(r & Hin & Hc)]%Hr|Hx%Z.leb_le]%orb_true_iff; [done| |];
      apply orb_true_iff; right; apply Z.leb_le; [|lia].
    apply max_level_ub in Hin. rewrite Hc in Hin. change (risk_rank RiskLevel_Critical) with 3 in Hin.
    pose proof (risk_rank_range (as_review_required_at q)). lia. }
  assert (Hhuman : fi_human fp || (risk_rank (as_human_required_at p)
            <=? risk_rank (max_level (fi_reasons fp))) = true →
          fi_human fq || (risk_rank (as_human_required_at q)
            <=? risk_rank (max_level (fi_reasons fq))) = true).
  { intros [->%Hh|Hx%Z.leb_le]%orb_true_iff; [done|].
    apply orb_true_iff; right; apply Z.leb_le; lia. }
  unfold risk_le, derive_realized_risk. fold fp fq.
  cbn [rk_level rk_minimum_assurance rk_independent_review_required rk_human_required
       rk_forbidden_effects_requested].
  split_and!; [done| |done|done|].
  - rewrite !assurance_max_rank, !minimum_assurance_rank.
    pose proof (assurance_rank_range
      (if fi_review fq || (risk_rank (as_review_required_at q)
            <=? risk_rank (max_level (fi_reasons fq)))
       then AssuranceLevel_Governed else AssuranceLevel_Fast)).
    destruct (fi_human fp || _); [rewrite Hhuman by done; lia|].
    destruct (fi_human fq || _); cbn [assurance_rank];
      (destruct (fi_review fp || _); [rewrite ?Hreview by done|]; cbn [assurance_rank]; lia).
  - intros t (e & -> & He)%list_elem_of_fmap. apply elem_of_list_filter_bool in He as [He Hf].
    apply (list_elem_of_fmap_2 re_tool), elem_of_list_filter_bool. split; [done|].
    unfold is_forbidden in *. apply existsb_true in Hf as (f & ? & ?).
    apply existsb_true. exists f. auto.
Qed.

Lemma push_missing_elem `{EqDecision A} (base extra : list A) x :
  x ∈ push_missing base extra ↔ x ∈ base ∨ x ∈ extra.
Proof.
  unfold push_missing. revert base; induction extra as [|y extra IH]; intros base; cbn.
  - rewrite elem_of_nil. tauto.
  - rewrite IH. case_bool_decide; [|rewrite elem_of_app, list_elem_of_singleton];
      rewrite elem_of_cons; naive_solver.
Qed.

(** A layer below the organization's policy only strengthens it: whatever
    the layer says, the resulting policy is at least as strict as the base in
    every respect, and holds every surface, check and forbidden effect the layer
    adds. *)
Theorem strengthen_with_stricter p layer :
  policy_le p (strengthen_with p layer).1 ∧
  al_protected_surfaces layer ⊆ as_protected_surfaces (strengthen_with p layer).1 ∧
  al_required_checks layer ⊆ as_required_checks (strengthen_with p layer).1 ∧
  al_forbidden_effects layer ⊆ as_forbidden_effects (strengthen_with p layer).1.
Proof.
  assert (Hpush : ∀ {A} `{EqDecision A} (b e : list A),
    b ⊆ push_missing b e ∧ e ⊆ push_missing b e).
  { intros A ? b e. split; intros x Hx; apply push_missing_elem; auto. }
  unfold strengthen_with, policy_le.
  destruct (al_minimum_assurance layer) as [m|], (al_blast_radius layer),
    (al_review_required_at layer), (al_human_required_at layer); cbn;
  try (destruct (Z.ltb_spec (assurance_rank (as_minimum_assurance p)) (assurance_rank m)); cbn;
       [|destruct (assurance_rank m <? assurance_rank (as_minimum_assurance p)); cbn]);
  rewrite ?risk_min_rank; split_and!; try lia; try apply Hpush; auto.
Qed.

(** The advisory signals (a learned score, a confidence, the checks) change
    nothing that is decided: only the evidence notes that they were ignored. *)
Theorem advisory_ignored p facts a :
  let r := derive_realized_risk p facts in
  derive_realized_risk p { facts with cf_advisory := a } =
  { r with rk_evidence_refs :=
      rk_evidence_refs (derive_realized_risk p { facts with cf_advisory := a }) }.
Proof. by destruct facts. Qed.

(** A realized risk is consistent: it is at least as serious as each of its
    reasons, it demands the assurance of its level and of the policy, a human
    demand comes with the highest assurance and a review demand with a governed
    one. *)
Theorem derive_risk_consistent p facts :
  let r := derive_realized_risk p facts in
  (∀ x, x ∈ rk_reasons r → risk_rank (ri_level x) ≤ risk_rank (rk_level r)) ∧
  (rk_level r ≠ RiskLevel_Low → ∃ x, x ∈ rk_reasons r ∧ ri_level x = rk_level r) ∧
  assurance_rank (as_minimum_assurance p) ≤ assurance_rank (rk_minimum_assurance r) ∧
  risk_rank (rk_level r) ≤ assurance_rank (rk_minimum_assurance r) ∧
  (rk_human_required r = true → rk_minimum_assurance r = AssuranceLevel_HighAssurance) ∧
  (rk_independent_review_required r = true →
   assurance_rank AssuranceLevel_Governed ≤ assurance_rank (rk_minimum_assurance r)).
Proof.
  unfold derive_realized_risk. set (f := all_findings p facts). cbv zeta.
  cbn [rk_level rk_reasons rk_minimum_assurance rk_independent_review_required
       rk_human_required].
  split_and!.
  - intros x Hx. apply elem_of_dedup, elem_of_sort_by in Hx. by apply max_level_ub.
  - intros Hl.
    assert (∃ x, x ∈ fi_reasons f ∧ ri_level x = max_level (fi_reasons f)) as (x & ? & ?).
    { clear -Hl. unfold max_level in *. induction (fi_reasons f) as [|y l IH]; cbn in *; [done|].
      unfold risk_max in *. destruct (_ <? _); [exists y; split; [by left|done]|].
      destruct (IH Hl) as (x & ? & ?). exists x. split; [by right|done]. }
    exists x. split; [|done]. apply elem_of_dedup. by rewrite elem_of_sort_by.
  - rewrite !assurance_max_rank. lia.
  - rewrite !assurance_max_rank, minimum_assurance_rank. lia.
  - intros ->. destruct (assurance_max (as_minimum_assurance p) _); reflexivity.
  - intros ->. rewrite assurance_max_rank. destruct (_ || _); cbn; lia.
Qed.

(** Across candidate revisions the demands only grow: the merge of an
    earlier and a later risk demands at least what each does and keeps every
    reason of both. *)
Theorem strengthen_only_grows earlier later :
  let r := strengthen_only earlier later in
  risk_le earlier r ∧ risk_le later r ∧
  (∀ x, x ∈ rk_reasons r ↔ x ∈ rk_reasons earlier ∨ x ∈ rk_reasons later).
Proof.
  unfold strengthen_only, risk_le. cbn. cbv [constant]. rewrite risk_max_rank, assurance_max_rank.
  split_and!; try lia; try (by intros ->; rewrite ?orb_true_r).
  - intros x Hx. apply elem_of_bset_of, elem_of_app. auto.
  - intros x Hx. apply elem_of_bset_of, elem_of_app. auto.
  - intros x. rewrite elem_of_sort_by, push_missing_elem. tauto.
Qed.
End derive.

Definition one_change : @CandidateFacts unit :=
  {| cf_candidate_revision := 3;
     cf_changed := [{| cp_path := "src/auth/login.rs"; cp_change := ChangeKind_Modified;
                       cp_lines_added := 3; cp_lines_removed := 1 |}];
     cf_plan_write_set := None; cf_requested_effects := [];
     cf_advisory := @Advisory_default unit |}.

Lemma derive_risk_monotone_witness :
  let derive p := @derive_realized_risk unit Example.sha64 (λ _, "p") (λ _, "f") (λ _, "a")
                    p one_change in
  let layer := {| al_minimum_assurance := Some AssuranceLevel_Governed;
                  al_protected_surfaces := []; al_blast_radius := None;
                  al_review_required_at := Some RiskLevel_Low; al_human_required_at := None;
                  al_required_checks := ["fuzz"]; al_forbidden_effects := [];
                  al_weaken_attempts := [] |} in
  rk_level (derive AssurancePolicy_default) = RiskLevel_Critical ∧
  risk_le (derive AssurancePolicy_default)
          (derive (strengthen_with AssurancePolicy_default layer).1).
Proof.
  split; [vm_compute; reflexivity|].
  apply derive_risk_monotone. unfold policy_le. cbn. split_and!; try lia; done || set_solver.
Defined.
