(* ===== verification/Kernel.v ===== *)
(** * The capability kernel

    [crates/policy/src/kernel.rs]: the authorization boundary every tool call
    crosses. The decision is translated step by step; its specification is the
    predicate [within_authority] with the question who approves, and the kernel
    allows a call exactly when the specification does. *)

From S2P Require Import Prelude RustStr BTree External StateMachine.
From S2P Require Import ToolCall Approval Lease Mode RunMode Config Assurance.
#[local] Open Scope Z_scope.

Definition PROFILE_LOCAL_AUTONOMOUS : string := "local_autonomous".
Definition PROFILE_LOCAL_TRUSTED : string := "local_trusted".
Definition PROFILE_REVIEW_ISOLATED : string := "review_isolated".
Definition PROFILE_PLAN : string := "plan".
Definition PROFILE_CLOUD_ISOLATED : string := "cloud_isolated".

Record PolicyEnvelope := {
  pe_profile_ceilings : bmap EffectClass;
  pe_profile_denied_capabilities : bmap bset;
  pe_denied_capabilities : bset;
  pe_approval_effects : list EffectClass;
  pe_no_approval_profiles : bset;
  pe_assurance : AssurancePolicy
}.

(** [PolicyEnvelope::default]. *)
Definition PolicyEnvelope_default : PolicyEnvelope :=
  {| pe_profile_ceilings := bmap_of
       [(PROFILE_LOCAL_TRUSTED, EffectClass_Destructive);
        (PROFILE_REVIEW_ISOLATED, EffectClass_ReversibleWrite);
        (PROFILE_LOCAL_AUTONOMOUS, EffectClass_ReversibleWrite);
        (PROFILE_PLAN, EffectClass_ReadOnly);
        (PROFILE_CLOUD_ISOLATED, EffectClass_Destructive)];
     pe_profile_denied_capabilities := bmap_of
       [(PROFILE_REVIEW_ISOLATED,
         bset_of ["network.egress"; "secret.use"; "git.commit"; "git.push"; "deploy";
                  "external.call"]);
        (PROFILE_LOCAL_AUTONOMOUS, bset_of ["secret.use"; "deploy"])];
     pe_denied_capabilities := [];
     pe_approval_effects :=
       [EffectClass_ProtectedWrite; EffectClass_ExternalSideEffect; EffectClass_SecretAccess;
        EffectClass_Destructive];
     pe_no_approval_profiles := [PROFILE_LOCAL_AUTONOMOUS];
     pe_assurance := AssurancePolicy_default |}.

(** ** Resource selectors *)

Record ResourceTarget := { rt_capability : string; rt_resource : string }.
Record ResourceSelector := { rsel_capability : string; rsel_pattern : string }.

(** [ResourceSelector::parse]. *)
Definition ResourceSelector_parse (text : string) : option ResourceSelector :=
  '(capability, pattern) ← split_once ":" text;
  let plain :=
    negb (str_is_empty capability) &&
    str_all (λ b, is_ascii_alnum b || existsb (Ascii.eqb b) ["."; "_"; "-"]%char) capability in
  if plain && negb (str_is_empty pattern) && (str_len pattern <=? 4096) &&
     negb (contains_char "000" pattern)
  then Some {| rsel_capability := capability; rsel_pattern := pattern |} else None.

(** [squeeze]: collapse runs of the separator. [out] ends with one exactly when
    the last character pushed was one. *)
Fixpoint squeeze_from (after_slash : bool) (s : list ascii) : list ascii :=
  match s with
  | [] => []
  | c :: s =>
      let slash := Ascii.eqb c "/" in
      if slash && after_slash then squeeze_from true s else c :: squeeze_from slash s
  end.
Definition squeeze (s : string) : list ascii :=
  squeeze_from false (String.list_ascii_of_string s).

(** The tails [&text[i..]] for [i] from 0 to the length. *)
Fixpoint tails {A} (l : list A) : list (list A) :=
  match l with
  | [] => [[]]
  | _ :: l' => l :: tails l'
  end.

(** The tails whose start is no further than the first separator. *)
Fixpoint segment_tails (l : list ascii) : list (list ascii) :=
  match l with
  | [] => [[]]
  | c :: l' => if Ascii.eqb c "/" then [l] else l :: segment_tails l'
  end.

(** [glob]. *)
Fixpoint glob (pattern text : list ascii) : bool :=
  match pattern with
  | [] => match text with [] => true | _ => false end
  | c :: rest =>
      if Ascii.eqb c "*" then
        match rest with
        | d :: rest' =>
            if Ascii.eqb d "*" then existsb (glob rest') (tails text)
            else existsb (glob rest) (segment_tails text)
        | [] => existsb (glob rest) (segment_tails text)
        end
      else if Ascii.eqb c "?" then
        match text with
        | t :: tail => negb (Ascii.eqb t "/") && glob rest tail
        | [] => false
        end
      else
        match text with
        | t :: tail => Ascii.eqb t c && glob rest tail
        | [] => false
        end
  end.

Definition trim_slashes (l : list ascii) : list ascii :=
  String.list_ascii_of_string
    (trim_end_by (λ c, Ascii.eqb c "/") (String.string_of_list_ascii l)).

(** [ResourceSelector::covers]. *)
Definition ResourceSelector_covers (self : ResourceSelector) (resource : string) : bool :=
  let pattern := squeeze (replace_char "\" "/" (rsel_pattern self)) in
  let resource := squeeze (replace_char "\" "/" resource) in
  glob pattern resource ||
  match strip_suffix "/**" (String.string_of_list_ascii pattern) with
  | Some dir => bool_decide (String.list_ascii_of_string dir = trim_slashes resource)
  | None => false
  end.

(** ** The decision *)

Record KernelRequest := {
  kr_tool_name : string;
  kr_effect_class : EffectClass;
  kr_required_capabilities : list string;
  kr_execution_profile : string;
  kr_mode : TaskMode;
  kr_lease : option CapabilityLease;
  kr_targets : list ResourceTarget;
  kr_approval : option Approval;
  kr_intent_hash : string;
  kr_config : option ResolvedConfig;
  kr_run : option RunPolicy;
  kr_emergency_stopped : bool;
  kr_now : Z
}.

Inductive KernelDecision :=
  | KernelDecision_Allow (rule : string) (approval_id : option Z)
  | KernelDecision_Deny (code reason : string)
  | KernelDecision_ApprovalRequired (reason scope_json : string).

(** The wire name of an effect class. *)
Definition effect_wire (e : EffectClass) : string :=
  match e with
  | EffectClass_ReadOnly => "READ_ONLY"
  | EffectClass_ReversibleWrite => "REVERSIBLE_WRITE"
  | EffectClass_ProtectedWrite => "PROTECTED_WRITE"
  | EffectClass_ExternalSideEffect => "EXTERNAL_SIDE_EFFECT"
  | EffectClass_SecretAccess => "SECRET_ACCESS"
  | EffectClass_Destructive => "DESTRUCTIVE"
  end.

(** [CapabilityKernel::posture_denial]. *)
Definition posture_denial (mode : TaskMode) (effect_class : EffectClass)
    (required_capabilities : list string) : option KernelDecision :=
  (λ why, KernelDecision_Deny "MODE_POSTURE"
     ("the task is in " +:+ TaskMode_name mode +:+ " mode: " +:+ why +:+
      "; the user changes the mode, the agent does not")) <$>
  ModePosture_refusal (TaskMode_posture mode) effect_class required_capabilities.

(** A check of the decision: [Err] is the early return. *)
Notation gate := (result KernelDecision).
Definition deny {A} (code reason : string) : gate A := Err (KernelDecision_Deny code reason).
Definition require (ok : bool) (code reason : string) : gate unit :=
  if ok then Ok tt else deny code reason.

(** [slice.iter().find(bad)] reported as a denial. *)
Definition none_of (bad : string → bool) (l : list string) (code : string)
    (reason : string → string) : gate unit :=
  match List.find bad l with Some c => deny code (reason c) | None => Ok tt end.

Section kernel.
Context `{Json} `{IdText} `{Lowercase}.

(** 2b, the lease's selectors: the first that cannot be read denies. *)
Fixpoint parse_selectors (lease_id : Z) (texts : list string) : gate (list ResourceSelector) :=
  match texts with
  | [] => Ok []
  | text :: texts =>
      match ResourceSelector_parse text with
      | Some sel => sels ← parse_selectors lease_id texts; Ok (sel :: sels)
      | None =>
          deny "LEASE_RESOURCE_MALFORMED"
            ("lease " +:+ id_text lease_id +:+ " carries the selector `" +:+ text +:+
             "`, which is not `capability:pattern`; a lease that cannot be read grants nothing")
      end
  end.

Fixpoint check_targets (selectors : list ResourceSelector) (targets : list ResourceTarget)
    : gate unit :=
  match targets with
  | [] => Ok tt
  | t :: targets =>
      let named := List.filter (λ s, rsel_capability s =s rt_capability t) selectors in
      _ ← match named with
          | [] =>
              deny "LEASE_RESOURCE_NOT_COVERED"
                ("lease names no `" +:+ rt_capability t +:+ "` resource, so it does not cover `"
                 +:+ rt_resource t +:+ "`")
          | _ =>
              require (existsb (λ s, ResourceSelector_covers s (rt_resource t)) named)
                "LEASE_RESOURCE_NOT_COVERED"
                ("`" +:+ rt_resource t +:+ "` is outside the lease's `" +:+ rt_capability t +:+
                 "` resources")
          end;
      check_targets selectors targets
  end.

(** Steps 2 and 2b: the lease presented covers the call. *)
Definition check_lease (req : KernelRequest) : gate CapabilityLease :=
  match kr_lease req with
  | None =>
      deny "LEASE_REQUIRED" ("tool `" +:+ kr_tool_name req +:+ "` presented no capability lease")
  | Some lease =>
      _ ← require (CapabilityLease_is_valid lease (kr_now req)) "LEASE_INVALID"
            ("lease " +:+ id_text (cl_lease_id lease) +:+ " is " +:+
             LeaseState_debug (cl_state lease) +:+
             match cl_revoke_reason lease with Some r => " (" +:+ r +:+ ")" | None => "" end);
      _ ← require (cl_execution_profile lease =s kr_execution_profile req)
            "LEASE_PROFILE_MISMATCH"
            ("lease is for `" +:+ cl_execution_profile lease +:+ "`, task runs `" +:+
             kr_execution_profile req +:+ "`");
      _ ← none_of (λ c, negb (contains_str (cl_operations lease) c))
            (kr_required_capabilities req) "CAPABILITY_NOT_LEASED"
            (λ missing, "lease does not grant `" +:+ missing +:+ "`");
      selectors ← parse_selectors (cl_lease_id lease) (cl_resources lease);
      _ ← check_targets selectors (kr_targets req);
      Ok lease
  end.

(** Steps 3 and 3b: the envelope, then the mode's posture. *)
Definition check_envelope (envelope : PolicyEnvelope) (req : KernelRequest) : gate unit :=
  let profile := kr_execution_profile req in
  match bget profile (pe_profile_ceilings envelope) with
  | None =>
      deny "PROFILE_UNSUPPORTED"
        ("execution profile `" +:+ profile +:+ "` is not served by this build")
  | Some ceiling =>
      _ ← none_of (bset_contains (pe_denied_capabilities envelope))
            (kr_required_capabilities req) "CAPABILITY_DENIED_BY_POLICY"
            (λ c, "`" +:+ c +:+ "` is denied by organization policy");
      _ ← none_of (λ c, match bget profile (pe_profile_denied_capabilities envelope) with
                        | Some d => bset_contains d c
                        | None => false
                        end)
            (kr_required_capabilities req) "CAPABILITY_DENIED_FOR_PROFILE"
            (λ c, "`" +:+ c +:+ "` is denied under `" +:+ profile +:+ "`");
      _ ← require (negb (effect_gt (kr_effect_class req) ceiling)) "PROFILE_CEILING"
            (effect_debug (kr_effect_class req) +:+ " exceeds the `" +:+ profile +:+
             "` ceiling " +:+ effect_debug ceiling);
      match posture_denial (kr_mode req) (kr_effect_class req) (kr_required_capabilities req) with
      | Some d => Err d
      | None => Ok tt
      end
  end.

(** The loop over the required capabilities of step 5; [ask] is the reason kept
    so far. *)
Fixpoint check_permissions (cfg : ResolvedConfig) (caps : list string) (ask : option string)
    : gate (option string) :=
  match caps with
  | [] => Ok ask
  | c :: caps =>
      match bget c (rc_permissions cfg) with
      | Some p =>
          match rv_value p with
          | Permission_Deny =>
              deny "CAPABILITY_DENIED_BY_CONFIG"
                ("`" +:+ c +:+ "` is DENY by " +:+ authority_debug (decided_by p) +:+
                 " configuration")
          | Permission_Ask =>
              check_permissions cfg caps
                (get_or_insert ask ("`" +:+ c +:+ "` is ASK by configuration"))
          | Permission_Allow => check_permissions cfg caps ask
          end
      | None => check_permissions cfg caps ask
      end
  end.

Definition isolated_profile (profile : string) : bool :=
  contains_str [PROFILE_REVIEW_ISOLATED; PROFILE_CLOUD_ISOLATED] profile.

(** Step 5, the resolved configuration: the reason to ask, if it gives one. *)
Definition check_config (req : KernelRequest) : gate (option string) :=
  match kr_config req with
  | None => Ok None
  | Some cfg =>
      let sandboxed :=
        match rc_device cfg with
        | Some d => bool_decide (dc_sandbox_required (rv_value d) = Some true)
        | None => false
        end in
      _ ← require (negb (sandboxed && contains_str (kr_required_capabilities req) "shell.exec" &&
                         negb (isolated_profile (kr_execution_profile req))))
            "DEVICE_REQUIRES_SANDBOX"
            ("this device requires sandboxed execution; `" +:+ kr_execution_profile req +:+
             "` is not an isolated profile");
      check_permissions cfg (kr_required_capabilities req) None
  end.

Definition computer_control (req : KernelRequest) : bool :=
  existsb (λ c, (c =s "computer.act") || (c =s "computer.screen")) (kr_required_capabilities req).

(** Step 7: what the run mode says; computer control always asks. *)
Definition run_decision (req : KernelRequest) : option RunDecision :=
  if computer_control req then Some (RunDecision_Ask "ALWAYS_ASK:COMPUTER_CONTROL")
  else (λ r, RunPolicy_decide r (kr_now req)) <$> kr_run req.

Definition run_ask_code (req : KernelRequest) : option string :=
  match run_decision req with Some (RunDecision_Ask code) => Some code | _ => None end.
Definition run_approves (req : KernelRequest) : option string :=
  match run_decision req with Some (RunDecision_Approve rule) => Some rule | _ => None end.

(** The scope an approval would bind, with what [ask_extra] adds. *)
Definition scope_value (req : KernelRequest) (lease : CapabilityLease)
    (supersedes : list (string * Value)) : Value :=
  let strs l := json_of_list (json_of_str <$> l) in
  let scope := json_object
    ([("tool", json_of_str (kr_tool_name req));
      ("effect_class", json_of_str (effect_wire (kr_effect_class req)));
      ("capabilities", strs (kr_required_capabilities req));
      ("execution_profile", json_of_str (kr_execution_profile req));
      ("lease_id", json_of_str (id_text (cl_lease_id lease)));
      ("intent_hash", json_of_str (kr_intent_hash req))] ++ supersedes) in
  let scope :=
    match kr_run req with
    | Some run =>
        json_set (json_set (json_set scope
          "run_mode" (json_of_str (RunMode_name (rp_mode run))))
          "ask_classes" (strs (AskClass_name <$> rp_ask_classes run)))
          "contained" (json_of_bool (rp_contained run))
    | None => scope
    end in
  let scope :=
    match run_ask_code req with
    | Some code => json_set scope "ask_reason" (json_of_str code)
    | None => scope
    end in
  if computer_control req then
    json_set (json_set (json_set scope
      "computer_control" (json_of_bool true))
      "allowlistable" (json_of_bool false))
      "ask_classes" (strs ["COMPUTER_CONTROL"])
  else scope.

(** The last [match] of the decision: the approval bound to the call. *)
Definition by_approval (req : KernelRequest) (lease : CapabilityLease) (reason : string)
    : KernelDecision :=
  let reason :=
    match run_ask_code req with
    | Some code => reason +:+ " (" +:+ code +:+ ")"
    | None => reason
    end in
  let ask := KernelDecision_ApprovalRequired reason (json_to_string (scope_value req lease [])) in
  match kr_approval req with
  | Some a =>
      if Approval_authorizes a (kr_intent_hash req) (kr_now req) then
        KernelDecision_Allow ("approval:" +:+ id_text (ap_approval_id a)) (Some (ap_approval_id a))
      else if bool_decide (ap_state a = ApprovalState_Denied) then
        KernelDecision_Deny "APPROVAL_DENIED"
          ("approval " +:+ id_text (ap_approval_id a) +:+ " was denied")
      else if Approval_is_consumed a then
        match run_approves req with
        | Some rule => KernelDecision_Allow rule None
        | None =>
            KernelDecision_ApprovalRequired
              ("approval " +:+ id_text (ap_approval_id a) +:+ " was already used by a dispatch of this call; an approval authorizes one execution, so it must be asked again")
              (json_to_string (scope_value req lease
                 [("supersedes_approval", json_of_str (id_text (ap_approval_id a)))]))
        end
      else if bool_decide (ap_state a = ApprovalState_Approved) then
        KernelDecision_Deny "APPROVAL_MISMATCH"
          ("approval " +:+ id_text (ap_approval_id a) +:+ " binds a different intent or has expired; request a new approval")
      else ask
  | None =>
      match run_approves req with
      | Some rule => KernelDecision_Allow rule None
      | None => ask
      end
  end.

(** [CapabilityKernel::decide]. *)
Definition decide_gates (envelope : PolicyEnvelope) (req : KernelRequest) : gate KernelDecision :=
  _ ← require (negb (kr_emergency_stopped req &&
                     negb (bool_decide (kr_effect_class req = EffectClass_ReadOnly))))
        "EMERGENCY_STOP" "session is under emergency stop; new effects are blocked";
  lease ← check_lease req;
  _ ← check_envelope envelope req;
  _ ← require (negb (effect_gt (kr_effect_class req) (cl_effect_ceiling lease))) "LEASE_CEILING"
        (effect_debug (kr_effect_class req) +:+ " exceeds the lease ceiling " +:+
         effect_debug (cl_effect_ceiling lease));
  ask_reason ← check_config req;
  let gated :=
    existsb (λ e, bool_decide (e = kr_effect_class req)) (pe_approval_effects envelope) ||
    computer_control req in
  let ask_reason :=
    if gated then
      get_or_insert ask_reason
        (effect_debug (kr_effect_class req) +:+ " effects require an approval bound to the intent")
    else ask_reason in
  match ask_reason with
  | None =>
      Ok (KernelDecision_Allow
            (to_lowercase (kr_execution_profile req +:+ ":" +:+
                           effect_debug (kr_effect_class req))) None)
  | Some reason =>
      _ ← require (negb (bset_contains (pe_no_approval_profiles envelope)
                           (kr_execution_profile req)))
            "APPROVAL_UNAVAILABLE"
            (reason +:+ "; `" +:+ kr_execution_profile req +:+ "` runs unattended and cannot ask");
      Ok (by_approval req lease reason)
  end.

Definition CapabilityKernel_decide (envelope : PolicyEnvelope) (req : KernelRequest) : KernelDecision :=
  match decide_gates envelope req with Ok d => d | Err d => d end.
(** ** What the kernel promises *)

(** What a configuration says about a capability. *)
Definition configured (req : KernelRequest) (c : string) : option Permission :=
  cfg ← kr_config req; rv_value <$> bget c (rc_permissions cfg).

Definition device_sandbox (req : KernelRequest) : Prop :=
  ∃ cfg d, kr_config req = Some cfg ∧ rc_device cfg = Some d ∧
    dc_sandbox_required (rv_value d) = Some true.

(** The lease covers the call: it is valid now, for the task's profile, grants
    every capability, every selector of it can be read and every resource the
    host resolved is inside one of them. *)
Definition lease_covers (req : KernelRequest) (lease : CapabilityLease) : Prop :=
  kr_lease req = Some lease ∧ CapabilityLease_is_valid lease (kr_now req) = true ∧
  cl_execution_profile lease = kr_execution_profile req ∧
  (∀ c, c ∈ kr_required_capabilities req → c ∈ cl_operations lease) ∧
  (∀ text, text ∈ cl_resources lease → is_Some (ResourceSelector_parse text)) ∧
  (∀ t, t ∈ kr_targets req → ∃ text sel, text ∈ cl_resources lease ∧
     ResourceSelector_parse text = Some sel ∧ rsel_capability sel = rt_capability t ∧
     ResourceSelector_covers sel (rt_resource t) = true).

(** The organization's envelope and the mode's posture admit the call. *)
Definition envelope_admits (envelope : PolicyEnvelope) (req : KernelRequest) : Prop :=
  (∃ ceiling, bget (kr_execution_profile req) (pe_profile_ceilings envelope) = Some ceiling ∧
     effect_le (kr_effect_class req) ceiling) ∧
  (∀ c, c ∈ kr_required_capabilities req → c ∉ pe_denied_capabilities envelope) ∧
  (∀ c d, c ∈ kr_required_capabilities req →
     bget (kr_execution_profile req) (pe_profile_denied_capabilities envelope) = Some d → c ∉ d) ∧
  within_posture (TaskMode_posture (kr_mode req)) (kr_effect_class req)
    (kr_required_capabilities req).

(** The resolved configuration admits the call. *)
Definition config_admits (req : KernelRequest) : Prop :=
  (device_sandbox req → "shell.exec" ∈ kr_required_capabilities req →
   isolated_profile (kr_execution_profile req) = true) ∧
  (∀ c, c ∈ kr_required_capabilities req → configured req c ≠ Some Permission_Deny).

(** Everything but the question who approves. *)
Definition within_authority (envelope : PolicyEnvelope) (req : KernelRequest)
    (lease : CapabilityLease) : Prop :=
  (kr_emergency_stopped req = true → kr_effect_class req = EffectClass_ReadOnly) ∧
  lease_covers req lease ∧ envelope_admits envelope req ∧
  effect_le (kr_effect_class req) (cl_effect_ceiling lease) ∧ config_admits req.

(** The call has to be approved: the configuration asks, the effect class is
    gated, or it controls the computer. *)
Definition must_ask (envelope : PolicyEnvelope) (req : KernelRequest) : Prop :=
  (∃ c, c ∈ kr_required_capabilities req ∧ configured req c = Some Permission_Ask) ∨
  kr_effect_class req ∈ pe_approval_effects envelope ∨
  computer_control req = true.

(** Somebody approved it: a person, for this intent and now, or the run mode
    when no approval stands in the way. *)
Definition approved (req : KernelRequest) : Prop :=
  (∃ a, kr_approval req = Some a ∧
     Approval_authorizes a (kr_intent_hash req) (kr_now req) = true) ∨
  (is_Some (run_approves req) ∧
   ∀ a, kr_approval req = Some a →
     ap_state a ≠ ApprovalState_Denied ∧ Approval_is_consumed a = true).

Lemma require_ok b code reason u : require b code reason = Ok u ↔ b = true.
Proof. destruct u, b; split; done. Qed.

Lemma none_of_ok bad l code reason u :
  none_of bad l code reason = Ok u ↔ ∀ x, x ∈ l → bad x = false.
Proof.
  unfold none_of. rewrite <- find_none_elem. destruct u. by destruct (List.find bad l).
Qed.

Lemma parse_selectors_ok id texts sels :
  parse_selectors id texts = Ok sels ↔
  Forall2 (λ text sel, ResourceSelector_parse text = Some sel) texts sels.
Proof.
  revert sels; induction texts as [|text texts IH]; intros sels; cbn.
  - split; [by intros [= <-]|by intros ->%Forall2_nil_inv_l].
  - destruct (ResourceSelector_parse text) as [sel|] eqn:E.
    + rewrite bind_ok. split.
      * intros (l & Hl%IH & [= <-]). by constructor.
      * intros (s & l & Hs & Hl & ->)%Forall2_cons_inv_l. exists l.
        rewrite IH. split; [done|]. congruence.
    + split; [done|]. intros (s & l & Hs & _)%Forall2_cons_inv_l. congruence.
Qed.

Lemma check_targets_ok sels targets u :
  check_targets sels targets = Ok u ↔
  ∀ t, t ∈ targets → ∃ s, s ∈ sels ∧ rsel_capability s = rt_capability t ∧
    ResourceSelector_covers s (rt_resource t) = true.
Proof.
  destruct u. induction targets as [|t targets IH]; cbn.
  - split; [|done]. intros _ t Ht. by apply elem_of_nil in Ht.
  - rewrite bind_ok. setoid_rewrite IH.
    assert (Hone : (∃ a, match List.filter (λ s, rsel_capability s =s rt_capability t) sels with
      | [] => deny "LEASE_RESOURCE_NOT_COVERED"
                ("lease names no `" +:+ rt_capability t +:+ "` resource, so it does not cover `"
                 +:+ rt_resource t +:+ "`")
      | _ => require (existsb (λ s, ResourceSelector_covers s (rt_resource t))
                (List.filter (λ s, rsel_capability s =s rt_capability t) sels))
                "LEASE_RESOURCE_NOT_COVERED"
                ("`" +:+ rt_resource t +:+ "` is outside the lease's `" +:+ rt_capability t +:+
                 "` resources")
      end = Ok a) ↔ ∃ s, s ∈ sels ∧ rsel_capability s = rt_capability t ∧
                      ResourceSelector_covers s (rt_resource t) = true).
    { transitivity (existsb (λ s, ResourceSelector_covers s (rt_resource t))
                (List.filter (λ s, rsel_capability s =s rt_capability t) sels) = true).
      - destruct (List.filter _ _); [split; [by intros []|done]|].
        split; [intros [a Ha]; by apply require_ok in Ha|]. intros Hb. exists tt.
        by apply require_ok.
      - rewrite existsb_true. split.
        + intros (s & [? E%String.eqb_eq]%elem_of_list_filter_bool & ?). eauto.
        + intros (s & ? & ? & ?). exists s. rewrite elem_of_list_filter_bool.
          split; [split; [done|by apply String.eqb_eq]|done]. }
    setoid_rewrite elem_of_cons. split.
    + intros (a & Ha & Hr) x [->|?]; [apply Hone; eauto|auto].
    + intros Ha. destruct (proj2 Hone) as [a ?]; [apply Ha; auto|]. exists a. auto.
Qed.

Lemma check_lease_ok req lease : check_lease req = Ok lease ↔ lease_covers req lease.
Proof.
  unfold check_lease, lease_covers. destruct (kr_lease req) as [l|]; [|split; [done|by intros []]].
  rewrite !bind_ok. setoid_rewrite bind_ok. setoid_rewrite bind_ok. setoid_rewrite bind_ok.
  setoid_rewrite bind_ok. split.
  - intros (? & Hv%require_ok & ? & Hp%require_ok & ? & Ho & sels & Hs%parse_selectors_ok & ? &
            Ht & [= <-]).
    apply String.eqb_eq in Hp. split_and!; [done..| | |].
    + intros c Hc. rewrite none_of_ok in Ho. apply Ho, negb_false_iff, contains_str_true in Hc. done.
    + intros text Htx. apply list_elem_of_lookup in Htx as [i Hi].
      destruct (Forall2_lookup_l _ _ _ _ _ Hs Hi) as (s & _ & Hps). by eexists.
    + intros t Htt. rewrite check_targets_ok in Ht. destruct (Ht t Htt) as (s & Hin & ? & ?).
      apply list_elem_of_lookup in Hin as [i Hi].
      destruct (Forall2_lookup_r _ _ _ _ _ Hs Hi) as (text & Hx & Hps).
      exists text, s. split; [by eapply list_elem_of_lookup_2|done].
  - intros (Hl & Hv & Hp & Ho & Hr & Ht). injection Hl as ->. exists tt.
    split; [by apply require_ok|]. exists tt. split; [by apply require_ok, String.eqb_eq|].
    exists tt. split.
    { apply none_of_ok. intros c Hc. by apply negb_false_iff, contains_str_true, Ho. }
    assert (∃ sels, Forall2 (λ text sel, ResourceSelector_parse text = Some sel)
              (cl_resources lease) sels) as [sels Hs].
    { clear -Hr. induction (cl_resources lease) as [|x l IH]; [by exists []|].
      destruct (Hr x (list_elem_of_here _ _)) as [s Hx].
      destruct IH as [sels ?]; [intros y ?; apply Hr; by right|]. exists (s :: sels). by constructor. }
    exists sels. split; [by apply parse_selectors_ok|]. exists tt. split; [|done].
    apply check_targets_ok. intros t Htt. destruct (Ht t Htt) as (text & sel & Hin & Hp' & ? & ?).
    exists sel. split; [|done]. apply list_elem_of_lookup in Hin as [i Hi].
    destruct (Forall2_lookup_l _ _ _ _ _ Hs Hi) as (s & Hi' & Hps).
    assert (s = sel) as -> by congruence. by eapply list_elem_of_lookup_2.
Qed.
Lemma none_of_denied l caps code reason u :
  none_of (bset_contains l) caps code reason = Ok u ↔ ∀ c, c ∈ caps → c ∉ l.
Proof.
  rewrite none_of_ok. unfold bset_contains.
  split; intros Ha c Hc; apply contains_str_false; auto.
Qed.

Lemma posture_ok mode e caps (u : unit) :
  match posture_denial mode e caps with Some d => Err d | None => Ok tt end = Ok u ↔
  within_posture (TaskMode_posture mode) e caps.
Proof.
  rewrite <- refusal_none. unfold posture_denial. destruct u.
  by destruct (ModePosture_refusal _ _ _).
Qed.

Lemma check_envelope_ok envelope req u :
  check_envelope envelope req = Ok u ↔ envelope_admits envelope req.
Proof.
  unfold check_envelope, envelope_admits.
  destruct (bget (kr_execution_profile req) (pe_profile_ceilings envelope)) as [ceiling|];
    [|split; [done|by intros [(? & ? & _) _]]].
  rewrite bind_ok. setoid_rewrite bind_ok. setoid_rewrite bind_ok.
  setoid_rewrite none_of_denied. setoid_rewrite require_ok. setoid_rewrite posture_ok.
  setoid_rewrite negb_true_iff. setoid_rewrite effect_gt_false.
  assert (Hprof : ∀ u, none_of
      (λ c, match bget (kr_execution_profile req) (pe_profile_denied_capabilities envelope) with
            | Some d => bset_contains d c
            | None => false
            end)
      (kr_required_capabilities req) "CAPABILITY_DENIED_FOR_PROFILE"
      (λ c, "`" +:+ c +:+ "` is denied under `" +:+ kr_execution_profile req +:+ "`") = Ok u ↔
    ∀ c d, c ∈ kr_required_capabilities req →
      bget (kr_execution_profile req) (pe_profile_denied_capabilities envelope) = Some d → c ∉ d).
  { intros v. rewrite none_of_ok.
    destruct (bget _ (pe_profile_denied_capabilities envelope)) as [d|]; [|naive_solver].
    split.
    - intros Ha c d' Hc [= <-]. by apply contains_str_false, Ha.
    - intros Ha c Hc. by apply contains_str_false, (Ha c d). }
  setoid_rewrite Hprof. split.
  - intros (_ & ? & _ & ? & _ & ? & ?). split_and!; eauto.
  - intros ((ce & [= <-] & ?) & ? & ? & ?). do 3 (exists tt; split; [done|]). done.
Qed.

Lemma check_permissions_ok cfg caps ask :
  (∃ r, check_permissions cfg caps ask = Ok r) ↔
  ∀ c, c ∈ caps → rv_value <$> bget c (rc_permissions cfg) ≠ Some Permission_Deny.
Proof.
  revert ask; induction caps as [|c caps IH]; intros ask; cbn.
  - split; [|by eexists]. intros _ c Hc. by apply elem_of_nil in Hc.
  - setoid_rewrite elem_of_cons.
    destruct (bget c (rc_permissions cfg)) as [p|] eqn:Ec; [destruct (rv_value p) eqn:Ep|].
    3: { split; [by intros []|]. intros Ha. destruct (Ha c); [auto|]. rewrite Ec. cbn. by f_equal. }
    all: rewrite IH; split; [|auto]; intros Ha c' [->|?]; [|auto]; rewrite Ec; cbn; congruence.
Qed.

Lemma check_permissions_none cfg caps ask r :
  check_permissions cfg caps ask = Ok r →
  (r = None ↔ ask = None ∧
     ∀ c, c ∈ caps → rv_value <$> bget c (rc_permissions cfg) ≠ Some Permission_Ask).
Proof.
  revert ask; induction caps as [|c caps IH]; intros ask; cbn.
  - intros [= <-]. split; [|tauto]. intros ->. split; [done|]. intros c Hc.
    by apply elem_of_nil in Hc.
  - setoid_rewrite elem_of_cons.
    destruct (bget c (rc_permissions cfg)) as [p|] eqn:Ec; [destruct (rv_value p) eqn:Ep|].
    3: done.
    1, 3: intros ->%IH; split; [|intros [? Ha]; auto]; intros [? Ha]; split; [done|];
      intros c' [->|?]; [|auto]; rewrite Ec; cbn; congruence.
    intros ->%IH. split.
    + intros [Hx _]. destruct ask; done.
    + intros [_ Ha]. destruct (Ha c); [auto|]. rewrite Ec. cbn. by f_equal.
Qed.

Lemma check_config_ok req : (∃ r, check_config req = Ok r) ↔ config_admits req.
Proof.
  unfold check_config, config_admits, device_sandbox, configured.
  destruct (kr_config req) as [cfg|]; cbn.
  2: { split; [|by eexists]. intros _. split; [by intros (? & ? & ? & _)|done]. }
  set (sandboxed := match rc_device cfg with
        | Some d => bool_decide (dc_sandbox_required (rv_value d) = Some true)
        | None => false
        end).
  assert (Hs : sandboxed = true ↔ ∃ cfg0 d, Some cfg = Some cfg0 ∧ rc_device cfg0 = Some d ∧
            dc_sandbox_required (rv_value d) = Some true).
  { unfold sandboxed. split.
    - destruct (rc_device cfg) as [d|] eqn:E; [|done]. intros ?%bool_decide_eq_true.
      exists cfg, d. auto.
    - intros (c & d & [= <-] & -> & ?). by apply bool_decide_eq_true. }
  setoid_rewrite bind_ok. setoid_rewrite require_ok. rewrite <- Hs.
  rewrite <- (check_permissions_ok cfg (kr_required_capabilities req) None).
  rewrite <- contains_str_true. split.
  - intros (r & _ & Hn%negb_true_iff & Hr). split; [|eauto]. intros Hs1 Hs2. rewrite Hs1, Hs2 in Hn.
    by apply negb_false_iff.
  - intros [Hn [r Hr]]. exists r, tt. split; [|done]. apply negb_true_iff.
    destruct sandboxed, (contains_str _ _); cbn; try done. by apply negb_false_iff, Hn.
Qed.

Lemma check_config_none req r :
  check_config req = Ok r →
  (r = None ↔ ∀ c, c ∈ kr_required_capabilities req → configured req c ≠ Some Permission_Ask).
Proof.
  unfold check_config, configured. destruct (kr_config req) as [cfg|]; cbn.
  - intros (_ & _ & Hr)%bind_ok. apply check_permissions_none in Hr. rewrite Hr. tauto.
  - intros [= <-]. done.
Qed.

Lemma by_approval_allow req lease reason :
  (∃ rule ap, by_approval req lease reason = KernelDecision_Allow rule ap) ↔ approved req.
Proof.
  unfold by_approval, approved. destruct (kr_approval req) as [a|] eqn:Ea.
  - destruct (Approval_authorizes a (kr_intent_hash req) (kr_now req)) eqn:Eau.
    { split; [|by do 2 eexists]. intros _. left. by exists a. }
    case_bool_decide as Hd.
    { split; [by intros (? & ? & ?)|]. intros [(? & [= <-] & ?)|[_ Ha]]; [congruence|].
      by destruct (Ha a eq_refl). }
    destruct (Approval_is_consumed a) eqn:Ec.
    + destruct (run_approves req) as [rule|]; split.
      * intros _. right. split; [done|]. by intros ? [= <-].
      * intros _. by do 2 eexists.
      * by intros (? & ? & ?).
      * intros [(? & [= <-] & ?)|[[] _]]; congruence.
    + split; [by case_bool_decide; intros (? & ? & ?)|].
      intros [(? & [= <-] & ?)|[_ Ha]]; [congruence|]. destruct (Ha a eq_refl). congruence.
  - destruct (run_approves req) as [rule|]; split.
    + intros _. right. by split.
    + intros _. by do 2 eexists.
    + by intros (? & ? & ?).
    + intros [(? & ? & _)|[[] _]]; done.
Qed.

(** The reason to ask, as the decision collects it. *)
Definition ask_reason_of (envelope : PolicyEnvelope) (req : KernelRequest)
    (config_reason : option string) : option string :=
  if existsb (λ e, bool_decide (e = kr_effect_class req)) (pe_approval_effects envelope) ||
     computer_control req
  then get_or_insert config_reason
         (effect_debug (kr_effect_class req) +:+ " effects require an approval bound to the intent")
  else config_reason.

Lemma ask_reason_none envelope req r :
  check_config req = Ok r → (ask_reason_of envelope req r = None ↔ ¬ must_ask envelope req).
Proof.
  intros Hc%check_config_none. unfold ask_reason_of, must_ask.
  assert (He : existsb (λ e, bool_decide (e = kr_effect_class req)) (pe_approval_effects envelope)
               = true ↔ kr_effect_class req ∈ pe_approval_effects envelope).
  { rewrite existsb_true. split; [by intros (e & ? & ->%bool_decide_eq_true)|].
    intros ?. exists (kr_effect_class req). by rewrite bool_decide_eq_true. }
  destruct (existsb _ _ || computer_control req) eqn:Eg.
  - split; [by destruct r|]. intros Hn. destruct Hn. right.
    apply orb_true_iff in Eg as [Eg|Eg]; [left; by apply He|by right].
  - apply orb_false_iff in Eg as [Eg Ec]. rewrite Hc. split.
    + intros Ha [(c & ? & ?)|[Hin|Hx]]; [by eapply Ha|by apply He in Hin; congruence|congruence].
    + intros Hn c Hin Hp. apply Hn. eauto.
Qed.

Lemma ask_reason_some envelope req r reason :
  check_config req = Ok r → ask_reason_of envelope req r = Some reason → must_ask envelope req.
Proof.
  intros Hr Ha.
  destruct (existsb (λ c, bool_decide (configured req c = Some Permission_Ask))
              (kr_required_capabilities req)) eqn:Ex.
  { apply existsb_true in Ex as (c & ? & ?%bool_decide_eq_true). left. eauto. }
  assert (r = None) as ->.
  { apply (check_config_none req r Hr). intros c Hc Hp. rewrite existsb_false, Forall_forall in Ex.
    specialize (Ex c Hc). cbn in Ex. by apply bool_decide_eq_false in Ex. }
  unfold ask_reason_of in Ha. destruct (_ || _) eqn:Eg; [|done]. right.
  apply orb_true_iff in Eg as [Eg|Eg]; [left|by right].
  by apply existsb_true in Eg as (e & ? & ->%bool_decide_eq_true).
Qed.

(** The gates pass exactly within authority. *)
Lemma decide_gates_ok envelope req d :
  decide_gates envelope req = Ok d ↔
  ∃ lease r, within_authority envelope req lease ∧ check_config req = Ok r ∧
    match ask_reason_of envelope req r with
    | None => d = KernelDecision_Allow
                    (to_lowercase (kr_execution_profile req +:+ ":" +:+
                                   effect_debug (kr_effect_class req))) None
    | Some reason =>
        kr_execution_profile req ∉ pe_no_approval_profiles envelope ∧
        d = by_approval req lease reason
    end.
Proof.
  unfold decide_gates, within_authority. rewrite bind_ok. setoid_rewrite bind_ok.
  setoid_rewrite bind_ok. setoid_rewrite bind_ok. setoid_rewrite bind_ok.
  setoid_rewrite require_ok. setoid_rewrite check_lease_ok. setoid_rewrite check_envelope_ok.
  assert (Hem : negb (kr_emergency_stopped req &&
                negb (bool_decide (kr_effect_class req = EffectClass_ReadOnly))) = true ↔
          (kr_emergency_stopped req = true → kr_effect_class req = EffectClass_ReadOnly)).
  { rewrite negb_true_iff, andb_false_iff, negb_false_iff, bool_decide_eq_true.
    destruct (kr_emergency_stopped req); intuition congruence. }
  setoid_rewrite Hem. setoid_rewrite negb_true_iff. setoid_rewrite effect_gt_false.
  assert (Hfin : ∀ lease r,
    (match ask_reason_of envelope req r with
     | None => Ok (KernelDecision_Allow (to_lowercase (kr_execution_profile req +:+ ":" +:+
                     effect_debug (kr_effect_class req))) None)
     | Some reason =>
         _ ← require (negb (bset_contains (pe_no_approval_profiles envelope)
                              (kr_execution_profile req))) "APPROVAL_UNAVAILABLE"
               (reason +:+ "; `" +:+ kr_execution_profile req +:+
                "` runs unattended and cannot ask");
         Ok (by_approval req lease reason)
     end = Ok d) ↔
    match ask_reason_of envelope req r with
    | None => d = KernelDecision_Allow
                    (to_lowercase (kr_execution_profile req +:+ ":" +:+
                                   effect_debug (kr_effect_class req))) None
    | Some reason =>
        kr_execution_profile req ∉ pe_no_approval_profiles envelope ∧
        d = by_approval req lease reason
    end).
  { intros lease r. destruct (ask_reason_of envelope req r); [|split; congruence].
    rewrite bind_ok. setoid_rewrite require_ok. setoid_rewrite negb_true_iff.
    unfold bset_contains. setoid_rewrite contains_str_false. split.
    - intros (_ & ? & Hd). split; [done|congruence].
    - intros [? ->]. by exists tt. }
  split.
  - intros (_ & ? & lease & Hl & _ & ? & _ & ? & r & Hr & Hd). exists lease, r.
    split; [|split; [done|by apply Hfin]].
    do 4 (split; [done|]). apply check_config_ok. eauto.
  - intros (lease & r & (? & ? & ? & ? & ?) & Hr & Hd). exists tt. split; [done|].
    exists lease. split; [done|]. exists tt. split; [done|]. exists tt. split; [done|].
    exists r. split; [done|]. by apply Hfin.
Qed.

(** Every early return is a denial. *)
Definition denies {A} (g : gate A) : Prop :=
  ∀ d, g = Err d → ∃ code reason, d = KernelDecision_Deny code reason.

Lemma denies_bind {A B} (g : gate A) (f : A → gate B) :
  denies g → (∀ a, denies (f a)) → denies (g ≫= f).
Proof. intros Hg Hf d. destruct g as [a|e]; cbn; [apply Hf|]. intros [= <-]. by apply Hg. Qed.

Lemma denies_ok {A} (a : A) : denies (Ok a).
Proof. done. Qed.
Lemma denies_deny {A} code reason : denies (deny code reason : gate A).
Proof. intros d [= <-]. by do 2 eexists. Qed.
Lemma denies_require b code reason : denies (require b code reason).
Proof. destruct b; [apply denies_ok|apply denies_deny]. Qed.
Lemma denies_none_of bad l code reason : denies (none_of bad l code reason).
Proof. unfold none_of. destruct (List.find bad l); [apply denies_deny|apply denies_ok]. Qed.
#[local] Hint Resolve denies_bind denies_ok denies_deny denies_require denies_none_of : modbit.

Lemma denies_parse_selectors id texts : denies (parse_selectors id texts).
Proof.
  induction texts as [|text texts IH]; cbn; [auto with modbit|].
  destruct (ResourceSelector_parse text); auto with modbit.
Qed.

Lemma denies_check_targets sels targets : denies (check_targets sels targets).
Proof.
  induction targets as [|t targets IH]; cbn; [auto with modbit|].
  apply denies_bind; [|auto]. destruct (List.filter _ _); auto with modbit.
Qed.

Lemma denies_check_permissions cfg caps ask : denies (check_permissions cfg caps ask).
Proof.
  revert ask; induction caps as [|c caps IH]; intros ask; cbn; [auto with modbit|].
  destruct (bget c _) as [p|]; [destruct (rv_value p)|]; auto with modbit.
Qed.
#[local] Hint Resolve denies_parse_selectors denies_check_targets denies_check_permissions : modbit.

Lemma decide_gates_denies envelope req : denies (decide_gates envelope req).
Proof.
  unfold decide_gates. apply denies_bind; [auto with modbit|]. intros _.
  apply denies_bind.
  { unfold check_lease. destruct (kr_lease req); auto 15 with modbit. }
  intros lease. apply denies_bind.
  { unfold check_envelope. destruct (bget _ _); [|auto with modbit].
    repeat (apply denies_bind; [auto with modbit|]; intros _). unfold posture_denial.
    destruct (ModePosture_refusal _ _ _); cbn; [|auto with modbit].
    intros d [= <-]. by do 2 eexists. }
  intros _. apply denies_bind; [auto with modbit|]. intros _. apply denies_bind.
  { unfold check_config. destruct (kr_config req); auto with modbit. }
  intros r. match goal with |- context [match ?x with _ => _ end] => destruct x end;
    auto with modbit.
Qed.

Lemma decide_allow_iff envelope req :
  (∃ rule ap, CapabilityKernel_decide envelope req = KernelDecision_Allow rule ap) ↔
  ∃ lease, within_authority envelope req lease ∧
    (must_ask envelope req →
     kr_execution_profile req ∉ pe_no_approval_profiles envelope ∧ approved req).
Proof.
  unfold CapabilityKernel_decide. split.
  - intros (rule & ap & Hd). destruct (decide_gates envelope req) as [d|d] eqn:E.
    2: { apply decide_gates_denies in E as (? & ? & ->). done. }
    apply decide_gates_ok in E as (lease & r & Hw & Hr & Hd').
    exists lease. split; [done|]. pose proof (ask_reason_none envelope req r Hr) as Hnone.
    intros Hask. destruct (ask_reason_of envelope req r) as [reason|].
    + destruct Hd' as [? ->]. split; [done|]. apply (by_approval_allow req lease reason). eauto.
    + by destruct (proj1 Hnone eq_refl).
  - intros (lease & Hw & Hask).
    destruct (proj2 (check_config_ok req)) as [r Hr]; [apply Hw|].
    destruct (ask_reason_of envelope req r) as [reason|] eqn:Ea.
    + destruct Hask as [Hp Hap]; [by eapply ask_reason_some|].
      apply (by_approval_allow req lease reason) in Hap as (rule & ap & Hd).
      exists rule, ap. rewrite <- Hd.
      rewrite (proj2 (decide_gates_ok envelope req (by_approval req lease reason))); [done|].
      exists lease, r. rewrite Ea. auto.
    + eassert (Hd : decide_gates envelope req = Ok _); [|rewrite Hd].
      { apply decide_gates_ok. exists lease, r. rewrite Ea. auto. }
      by do 2 eexists.
Qed.

(** C1: the kernel allows a call exactly when it is within authority (no
    emergency stop against an effect; a valid lease of the task's profile that
    grants every capability and covers every resource; the organization's
    envelope and the mode's posture; the lease's ceiling; no configuration that
    denies) and, if the call must be asked about, the profile can ask and the
    call is approved. *)
Theorem kernel_allow_exact envelope req :
  (∃ rule ap, CapabilityKernel_decide envelope req = KernelDecision_Allow rule ap) ↔
  ∃ lease, within_authority envelope req lease ∧
    (must_ask envelope req →
     kr_execution_profile req ∉ pe_no_approval_profiles envelope ∧ approved req).
Proof. apply decide_allow_iff. Qed.

(** Under an emergency stop every call that is not a read is denied, whatever
    lease, approval, configuration or run mode it comes with. *)
Theorem emergency_stop_blocks envelope req :
  kr_emergency_stopped req = true → kr_effect_class req ≠ EffectClass_ReadOnly →
  ∃ reason, CapabilityKernel_decide envelope req = KernelDecision_Deny "EMERGENCY_STOP" reason.
Proof.
  intros He Hne. unfold CapabilityKernel_decide, decide_gates.
  rewrite He, bool_decide_eq_false_2 by done. by eexists.
Qed.

(** C2: an input to an application on the person's machine is allowed only with
    a person's approval that authorizes this very intent now: no envelope, no
    configuration, no rule and no run mode stands for it. *)
Theorem computer_control_asks envelope req rule ap :
  computer_control req = true →
  CapabilityKernel_decide envelope req = KernelDecision_Allow rule ap →
  ∃ a, kr_approval req = Some a ∧
    Approval_authorizes a (kr_intent_hash req) (kr_now req) = true.
Proof.
  intros Hc Hd. destruct (proj1 (decide_allow_iff envelope req)) as (lease & _ & Hask); [eauto|].
  destruct Hask as [_ [?|[[r Hr] _]]]; [by right; right|done|].
  unfold run_approves, run_decision in Hr. by rewrite Hc in Hr.
Qed.

(** A task mode only narrows: a call allowed in some mode is allowed, with
    everything else unchanged, in the agent mode too. *)
Theorem mode_only_narrows envelope req rule ap :
  CapabilityKernel_decide envelope req = KernelDecision_Allow rule ap →
  ∃ rule' ap', CapabilityKernel_decide envelope { req with kr_mode := TaskMode_Agent }
               = KernelDecision_Allow rule' ap'.
Proof.
  intros Hd. destruct (proj1 (decide_allow_iff envelope req)) as (lease & Hw & Hask); [eauto|].
  apply decide_allow_iff. exists lease. destruct req. split; [|exact Hask].
  destruct Hw as (? & ? & (? & ? & ? & _) & ? & ?). do 2 (split; [done|]).
  split; [|done]. do 3 (split; [done|]). split; cbn; done.
Qed.

(** An unattended profile never waits for a person: its calls are allowed or
    denied, and what it is allowed needed no approval. *)
Theorem unattended_never_asks envelope req :
  kr_execution_profile req ∈ pe_no_approval_profiles envelope →
  (∀ reason scope, CapabilityKernel_decide envelope req ≠
     KernelDecision_ApprovalRequired reason scope) ∧
  (∀ rule ap, CapabilityKernel_decide envelope req = KernelDecision_Allow rule ap →
     ap = None ∧ ¬ must_ask envelope req).
Proof.
  intros Hp. unfold CapabilityKernel_decide.
  destruct (decide_gates envelope req) as [d|d] eqn:E.
  2: { apply decide_gates_denies in E as (? & ? & ->). done. }
  apply decide_gates_ok in E as (lease & r & _ & Hr & Hd).
  pose proof (ask_reason_none envelope req r Hr) as Hn.
  destruct (ask_reason_of envelope req r); [by destruct Hd|]. subst. split; [done|].
  intros rule ap [= <- <-]. split; [done|]. by apply Hn.
Qed.
End kernel.

(** ** Globs *)

(** The language of a pattern: two stars any text, one star any text without a
    separator, a question mark one character that is not a separator, any other
    character itself. *)
Inductive glob_matches : list ascii → list ascii → Prop :=
  | gm_nil : glob_matches [] []
  | gm_any pre p t : glob_matches p t → glob_matches ("*" :: "*" :: p)%char (pre ++ t)
  | gm_segment pre p t :
      head p ≠ Some "*"%char → "/"%char ∉ pre → glob_matches p t →
      glob_matches ("*" :: p)%char (pre ++ t)
  | gm_one c p t : c ≠ "/"%char → glob_matches p t → glob_matches ("?" :: p)%char (c :: t)
  | gm_char c p t :
      c ≠ "*"%char → c ≠ "?"%char → glob_matches p t → glob_matches (c :: p) (c :: t).

Lemma elem_of_tails {A} (t l : list A) : t ∈ tails l ↔ ∃ pre, l = pre ++ t.
Proof.
  induction l as [|x l IH]; cbn.
  - rewrite list_elem_of_singleton. split.
    + intros ->. by exists [].
    + intros [pre Hp]. by destruct pre, t.
  - rewrite elem_of_cons, IH. split.
    + intros [->|[pre ->]]; [by exists []|by exists (x :: pre)].
    + intros [[|y pre] Hp]; cbn in Hp; [by left|]. simplify_eq. right. eauto.
Qed.

Lemma elem_of_segment_tails t l :
  t ∈ segment_tails l ↔ ∃ pre, l = pre ++ t ∧ "/"%char ∉ pre.
Proof.
  induction l as [|x l IH]; cbn.
  - rewrite list_elem_of_singleton. split.
    + intros ->. exists []. split; [done|apply not_elem_of_nil].
    + intros (pre & Hp & _). by destruct pre, t.
  - destruct (Ascii.eqb_spec x "/") as [->|Hx].
    + rewrite list_elem_of_singleton. split.
      * intros ->. exists []. split; [done|apply not_elem_of_nil].
      * intros ([|y pre] & Hp & Hn); cbn in Hp; [done|]. simplify_eq. destruct Hn. by left.
    + rewrite elem_of_cons, IH. split.
      * intros [->|(pre & -> & Hn)]; [exists []; split; [done|apply not_elem_of_nil]|].
        exists (x :: pre). split; [done|]. by apply not_elem_of_cons.
      * intros ([|y pre] & Hp & Hn); cbn in Hp; [by left|]. simplify_eq. right.
        exists pre. split; [done|]. by apply not_elem_of_cons in Hn as [_ ?].
Qed.

Lemma glob_sound p t : glob p t = true → glob_matches p t.
Proof.
  remember (length p) as n eqn:En. revert p En t.
  induction n as [n IHn] using lt_wf_ind. intros p -> t.
  assert (IH : ∀ q, (length q < length p)%nat → ∀ t, glob q t = true → glob_matches q t)
    by (intros q Hq; by apply (IHn (length q))).
  clear IHn. destruct p as [|c p]; cbn.
  { destruct t; [constructor|done]. }
  destruct (Ascii.eqb_spec c "*") as [->|Hs].
  { destruct p as [|d p].
    - intros (s & (pre & -> & ?)%elem_of_segment_tails & Hg)%existsb_true.
      constructor; [done..|]. destruct s; [constructor|done].
    - destruct (Ascii.eqb_spec d "*") as [->|Hd].
      + intros (s & (pre & ->)%elem_of_tails & Hg)%existsb_true. constructor. apply IH; [cbn; lia|done].
      + intros (s & (pre & -> & ?)%elem_of_segment_tails & Hg)%existsb_true.
        constructor; [cbn; congruence|done|]. apply (IH (d :: p)); [cbn; lia|done]. }
  destruct (Ascii.eqb_spec c "?") as [->|Hq].
  { destruct t as [|a t]; [done|]. intros [Ha Hg]%andb_true_iff.
    apply negb_true_iff, Ascii.eqb_neq in Ha. constructor; [done|]. apply IH; [cbn; lia|done]. }
  destruct t as [|a t]; [done|]. intros [->%Ascii.eqb_eq Hg]%andb_true_iff.
  constructor; [done..|]. apply IH; [cbn; lia|done].
Qed.

Lemma glob_segment p t :
  head p ≠ Some "*"%char → glob ("*"%char :: p) t = existsb (glob p) (segment_tails t).
Proof.
  destruct p as [|d p]; [done|]. intros Hh.
  change (glob ("*"%char :: d :: p) t) with
    (if Ascii.eqb d "*" then existsb (glob p) (tails t)
     else existsb (glob (d :: p)) (segment_tails t)).
  by destruct (Ascii.eqb_spec d "*") as [->|].
Qed.

Lemma glob_complete p t : glob_matches p t → glob p t = true.
Proof.
  induction 1 as [|pre p t _ IH|pre p t Hh Hn _ IH|c p t Hc _ IH|c p t H1 H2 _ IH]; cbn -[glob].
  - done.
  - cbn. apply existsb_true. exists t. split; [|done]. apply elem_of_tails. eauto.
  - rewrite glob_segment by done. apply existsb_true. exists t. split; [|done].
    apply elem_of_segment_tails. eauto.
  - cbn. rewrite IH. by destruct (Ascii.eqb_spec c "/").
  - cbn. destruct (Ascii.eqb_spec c "*"); [done|]. destruct (Ascii.eqb_spec c "?"); [done|].
    by rewrite Ascii.eqb_refl, IH.
Qed.

(** The backtracking matcher of lease selectors decides exactly the language
    of the pattern. *)
Theorem glob_exact p t : glob p t = true ↔ glob_matches p t.
Proof. split; [apply glob_sound|apply glob_complete]. Qed.

(** ** The default lease *)

Definition default_operations (profile : string) : list string :=
  if profile =s PROFILE_PLAN then ["fs.read"; "git.read"; "memory.query"; "external.list"]
  else if profile =s PROFILE_REVIEW_ISOLATED then
    ["fs.read"; "fs.write"; "git.read"; "shell.exec"; "memory.query"; "external.list"]
  else if profile =s PROFILE_CLOUD_ISOLATED then
    ["fs.read"; "fs.write"; "git.read"; "shell.exec"; "network.egress"; "secret.use";
     "browser.control"; "memory.query"; "memory.propose"; "external.list"; "external.call"]
  else if profile =s PROFILE_LOCAL_AUTONOMOUS then
    ["fs.read"; "fs.write"; "git.read"; "git.worktree"; "git.merge"; "git.apply"; "shell.exec";
     "browser.control"; "memory.query"; "memory.propose"; "external.list"; "external.call"]
  else
    ["fs.read"; "fs.write"; "git.read"; "git.worktree"; "git.merge"; "git.apply"; "git.commit";
     "git.push"; "shell.exec"; "network.egress"; "secret.use"; "browser.control";
     "computer.observe"; "computer.act"; "computer.screen"; "memory.query"; "memory.propose";
     "external.list"; "external.call"].

Definition default_resource (root o : string) : string :=
  if o =s "network.egress" then "network.egress:forge-api:443"
  else if o =s "secret.use" then "secret.use:forge-token -> forge-api"
  else if o =s "browser.control" then "browser.control:task-session"
  else if contains_str ["computer.observe"; "computer.act"; "computer.screen"] o then
    o +:+ ":approved-application"
  else if o =s "memory.query" then "memory.query:scope-chain"
  else if o =s "memory.propose" then "memory.propose:scope-chain"
  else if o =s "external.list" then "external.list:configured-servers"
  else if o =s "external.call" then "external.call:configured-servers"
  else o +:+ ":" +:+ root +:+ "/**".

(** [default_lease_for_profile]. *)
Definition default_lease_for_profile (profile : string) (workspace_root : option string)
    : list string * list string * EffectClass :=
  let root := default "<none>" workspace_root in
  let ops := default_operations profile in
  let ceiling :=
    if contains_str [PROFILE_LOCAL_TRUSTED; PROFILE_CLOUD_ISOLATED] profile
    then EffectClass_Destructive
    else if profile =s PROFILE_PLAN then EffectClass_ReadOnly
    else EffectClass_ReversibleWrite in
  (default_resource root <$> ops, ops, ceiling).

Lemma str_len_app s t : str_len (s +:+ t) = str_len s + str_len t.
Proof.
  unfold str_len. induction s as [|a s IH]; [done|]. rewrite str_app_cons. cbn [String.length].
  lia.
Qed.

(** A selector on a workspace root can be read if the root is not absurdly long
    and holds no NUL. *)
Lemma root_selector_parses op root :
  split_once ":" (op +:+ ":") = Some (op, "") → op ≠ "" →
  str_all (λ b, is_ascii_alnum b || existsb (Ascii.eqb b) ["."; "_"; "-"]%char) op = true →
  str_len root ≤ 4093 → contains_char "000" root = false →
  ResourceSelector_parse (op +:+ ":" +:+ root +:+ "/**") =
  Some {| rsel_capability := op; rsel_pattern := root +:+ "/**" |}.
Proof.
  intros Hs Hne Hall Hlen Hnul. unfold ResourceSelector_parse.
  assert (split_once ":" (op +:+ ":" +:+ root +:+ "/**") = Some (op, root +:+ "/**")) as ->.
  { clear -Hs. induction op as [|a op IH]; [done|].
    rewrite (str_app_cons a op) in Hs |- *. cbn in Hs |- *.
    destruct (Ascii.eqb a ":"); [done|].
    destruct (split_once ":" (op +:+ ":")) as [[l r]|]; [|done]. cbn in Hs. simplify_eq.
    by rewrite IH. }
  cbv beta iota zeta delta [mbind option_bind].
  rewrite Hall, (proj2 (str_is_empty_false op) Hne). cbn [negb andb].
  rewrite str_len_app, contains_char_app, Hnul. change (str_len "/**") with 3.
  destruct (Z.leb_spec (str_len root + 3) 4096); [|lia].
  replace (str_is_empty (root +:+ "/**")) with false; [done|]. by destruct root.
Qed.

Lemma default_resource_parses root op profile :
  str_len root ≤ 4093 → contains_char "000" root = false → op ∈ default_operations profile →
  ∃ sel, ResourceSelector_parse (default_resource root op) = Some sel ∧ rsel_capability sel = op.
Proof.
  intros Hlen Hnul Hop.
  assert (Hin : op ∈ ["fs.read"; "fs.write"; "git.read"; "git.worktree"; "git.merge"; "git.apply";
    "git.commit"; "git.push"; "shell.exec"; "network.egress"; "secret.use"; "browser.control";
    "computer.observe"; "computer.act"; "computer.screen"; "memory.query"; "memory.propose";
    "external.list"; "external.call"]).
  { apply contains_str_true. apply contains_str_true in Hop. revert Hop.
    unfold default_operations. repeat case_match; unfold contains_str; cbn [existsb];
      intros Hop; repeat (apply orb_true_iff in Hop as [->%String.eqb_eq|Hop]; [reflexivity|]);
      discriminate. }
  repeat (apply elem_of_cons in Hin as [->|Hin];
    [first [by eexists; split; [vm_compute; reflexivity|]
           |eexists; split; [by apply root_selector_parses|done]]|]).
  by apply elem_of_nil in Hin.
Qed.

(** The lease a task gets by default is well formed: each of its selectors
    can be read and constrains the operation it was made for, and on a profile
    the default envelope serves, its ceiling is the envelope's and none of its
    operations is denied by the envelope. *)
Theorem default_lease_wf profile workspace_root :
  (∀ root, workspace_root = Some root →
     str_len root ≤ 4093 ∧ contains_char "000" root = false) →
  let '(resources, operations, ceiling) := default_lease_for_profile profile workspace_root in
  Forall2 (λ text op, ∃ sel, ResourceSelector_parse text = Some sel ∧ rsel_capability sel = op)
    resources operations ∧
  ∀ c, bget profile (pe_profile_ceilings PolicyEnvelope_default) = Some c →
    ceiling = c ∧
    ∀ op d, op ∈ operations →
      bget profile (pe_profile_denied_capabilities PolicyEnvelope_default) = Some d → op ∉ d.
Proof.
  intros Hroot. unfold default_lease_for_profile. split.
  - apply Forall2_fmap_l, Forall_Forall2_diag, Forall_forall. intros op Hop.
    apply (default_resource_parses _ _ profile); [..|done]; destruct workspace_root as [r|];
      cbn; try (by apply Hroot); done.
  - intros c Hc%bget_elem.
    assert (Hp : profile ∈ (pe_profile_ceilings PolicyEnvelope_default).*1)
      by (by apply (list_elem_of_fmap_2 fst) in Hc).
    vm_compute in Hp.
    repeat (apply elem_of_cons in Hp as [->|Hp]); [..|by apply elem_of_nil in Hp];
      (split; [vm_compute in Hc; set_solver|]; intros op d Hop Hd; vm_compute in Hop, Hd;
       simplify_eq; set_solver).
Qed.

(** ** Worked requests *)

Module KernelExample.
#[export] Existing Instances Example.json Example.idtext Example.lowercase.

Definition lease : CapabilityLease :=
  {| cl_lease_id := 7; cl_tenant_id := 1; cl_task_id := 2; cl_agent_id := None;
     cl_resources := (default_lease_for_profile PROFILE_LOCAL_TRUSTED (Some "/repo")).1.1;
     cl_operations := (default_lease_for_profile PROFILE_LOCAL_TRUSTED (Some "/repo")).1.2;
     cl_effect_ceiling := EffectClass_Destructive; cl_execution_profile := PROFILE_LOCAL_TRUSTED;
     cl_generation := 1; cl_state := LeaseState_Active; cl_expires_at := None;
     cl_revoked_at := None; cl_revoke_reason := None |}.

Definition approval : Approval :=
  {| ap_approval_id := 9; ap_task_id := 2; ap_tool_call_id := 3; ap_tool_name := "computer.click";
     ap_effect_class := EffectClass_ExternalSideEffect; ap_intent_hash := "h1";
     ap_scope_json := "{}"; ap_state := ApprovalState_Approved; ap_generation := 2;
     ap_requested_at := 5; ap_resolved_at := Some 6; ap_resolver := Some "ann";
     ap_expires_at := Some 100; ap_consumed_at := None |}.

(** A read of a file of the workspace. *)
Definition read_file : KernelRequest :=
  {| kr_tool_name := "fs.read"; kr_effect_class := EffectClass_ReadOnly;
     kr_required_capabilities := ["fs.read"]; kr_execution_profile := PROFILE_LOCAL_TRUSTED;
     kr_mode := TaskMode_Plan; kr_lease := Some lease;
     kr_targets := [{| rt_capability := "fs.read"; rt_resource := "/repo/src/lib.rs" |}];
     kr_approval := None; kr_intent_hash := "h0"; kr_config := None; kr_run := None;
     kr_emergency_stopped := false; kr_now := 10 |}.

(** A click in an application, with the person's approval. *)
Definition click : KernelRequest :=
  { read_file with kr_tool_name := "computer.click";
      kr_effect_class := EffectClass_ExternalSideEffect;
      kr_required_capabilities := ["computer.act"]; kr_mode := TaskMode_Agent;
      kr_targets := []; kr_approval := Some approval; kr_intent_hash := "h1" }.

Example click_allowed :
  CapabilityKernel_decide PolicyEnvelope_default click =
    KernelDecision_Allow "approval:9" (Some 9) ∧
  CapabilityKernel_decide PolicyEnvelope_default { click with kr_intent_hash := "h2" } =
    KernelDecision_Deny "APPROVAL_MISMATCH"
      "approval 9 binds a different intent or has expired; request a new approval".
Proof. by vm_compute. Qed.

Lemma emergency_stop_blocks_witness :
  ∃ reason, CapabilityKernel_decide PolicyEnvelope_default { click with kr_emergency_stopped := true }
            = KernelDecision_Deny "EMERGENCY_STOP" reason.
Proof.
  apply (emergency_stop_blocks PolicyEnvelope_default { click with kr_emergency_stopped := true });
    [reflexivity|discriminate].
Defined.

Lemma computer_control_asks_witness :
  ∃ a, kr_approval click = Some a ∧ Approval_authorizes a (kr_intent_hash click) (kr_now click) = true.
Proof.
  apply (computer_control_asks PolicyEnvelope_default click "approval:9" (Some 9));
    vm_compute; reflexivity.
Defined.

Lemma mode_only_narrows_witness :
  ∃ rule' ap', CapabilityKernel_decide PolicyEnvelope_default
                 { read_file with kr_mode := TaskMode_Agent } = KernelDecision_Allow rule' ap'.
Proof.
  eapply (mode_only_narrows PolicyEnvelope_default read_file). vm_compute. reflexivity.
Defined.

(** The same read under the unattended profile. *)
Definition unattended : KernelRequest :=
  { read_file with kr_execution_profile := PROFILE_LOCAL_AUTONOMOUS;
      kr_lease := Some { lease with cl_execution_profile := PROFILE_LOCAL_AUTONOMOUS } }.

Lemma unattended_never_asks_witness :
  (∀ reason scope, CapabilityKernel_decide PolicyEnvelope_default unattended ≠
     KernelDecision_ApprovalRequired reason scope) ∧
  (∀ rule ap, CapabilityKernel_decide PolicyEnvelope_default unattended =
     KernelDecision_Allow rule ap → ap = None ∧ ¬ must_ask PolicyEnvelope_default unattended).
Proof.
  apply (unattended_never_asks PolicyEnvelope_default unattended).
  apply contains_str_true. vm_compute. reflexivity.
Defined.

Lemma default_lease_wf_witness :
  let '(resources, operations, ceiling) := default_lease_for_profile PROFILE_PLAN (Some "/repo") in
  Forall2 (λ text op, ∃ sel, ResourceSelector_parse text = Some sel ∧ rsel_capability sel = op)
    resources operations ∧
  ∀ c, bget PROFILE_PLAN (pe_profile_ceilings PolicyEnvelope_default) = Some c →
    ceiling = c ∧
    ∀ op d, op ∈ operations →
      bget PROFILE_PLAN (pe_profile_denied_capabilities PolicyEnvelope_default) = Some d → op ∉ d.
Proof.
  apply (default_lease_wf PROFILE_PLAN (Some "/repo")). intros root [= <-].
  split; [vm_compute; discriminate|reflexivity].
Defined.
End KernelExample.
