(* ===== verification/Capacity.v ===== *)
(** * The capacity pool

    [crates/core-runtime/src/capacity.rs]: the resources runs hold through
    expiring tickets. *)

From S2P Require Import Prelude RustStr External.
#[local] Open Scope Z_scope.

Record ResourceVector := {
  model_concurrency : Z;
  terminal_slots : Z;
  sandbox_slots : Z;
  browser_slots : Z;
  memory_mib : Z;
  provider_quota : Z
}.

#[export] Instance ResourceVector_eq_dec : EqDecision ResourceVector.
Proof. solve_decision. Defined.

(** [ResourceVector::splat], [default] and [one_run]. *)
Definition splat (n : Z) : ResourceVector :=
  {| model_concurrency := n; terminal_slots := n; sandbox_slots := n; browser_slots := n;
     memory_mib := n; provider_quota := n |}.
Definition ResourceVector_default : ResourceVector := splat 0.
Definition one_run : ResourceVector :=
  {| model_concurrency := 1; terminal_slots := 0; sandbox_slots := 0; browser_slots := 0;
     memory_mib := 0; provider_quota := 1 |}.

Definition dims (v : ResourceVector) : list (string * Z) :=
  [("model_concurrency", model_concurrency v); ("terminal_slots", terminal_slots v);
   ("sandbox_slots", sandbox_slots v); ("browser_slots", browser_slots v);
   ("memory_mib", memory_mib v); ("provider_quota", provider_quota v)].

Definition get_dim (v : ResourceVector) (dim : string) : Z :=
  match List.find (λ dv, dv.1 =s dim) (dims v) with Some (_, n) => n | None => 0 end.

Definition is_zero (v : ResourceVector) : bool := forallb (λ dv, dv.2 =? 0) (dims v).

Definition plus (a b : ResourceVector) : ResourceVector :=
  {| model_concurrency := sat_add u32_max (model_concurrency a) (model_concurrency b);
     terminal_slots := sat_add u32_max (terminal_slots a) (terminal_slots b);
     sandbox_slots := sat_add u32_max (sandbox_slots a) (sandbox_slots b);
     browser_slots := sat_add u32_max (browser_slots a) (browser_slots b);
     memory_mib := sat_add u32_max (memory_mib a) (memory_mib b);
     provider_quota := sat_add u32_max (provider_quota a) (provider_quota b) |}.

Definition minus (a b : ResourceVector) : ResourceVector :=
  {| model_concurrency := sat_sub (model_concurrency a) (model_concurrency b);
     terminal_slots := sat_sub (terminal_slots a) (terminal_slots b);
     sandbox_slots := sat_sub (sandbox_slots a) (sandbox_slots b);
     browser_slots := sat_sub (browser_slots a) (browser_slots b);
     memory_mib := sat_sub (memory_mib a) (memory_mib b);
     provider_quota := sat_sub (provider_quota a) (provider_quota b) |}.

Record Shortfall := { sh_dimension : string; sh_needed : Z; sh_available : Z }.

(** [ResourceVector::shortfall]. *)
Definition shortfall (self needs : ResourceVector) : option Shortfall :=
  (λ nh, {| sh_dimension := nh.1.1; sh_needed := nh.1.2; sh_available := nh.2.2 |}) <$>
  List.find (λ nh, nh.2.2 <? nh.1.2) (zip (dims needs) (dims self)).

(** The dimensions [ResourceVector::parse] knows, under either name. *)
Definition set_dim (name : string) (n : Z) (v : ResourceVector) : option ResourceVector :=
  if contains_str ["model"; "model_concurrency"] name then Some { v with model_concurrency := n }
  else if contains_str ["terminal"; "terminal_slots"] name then
    Some { v with terminal_slots := n }
  else if contains_str ["sandbox"; "sandbox_slots"] name then Some { v with sandbox_slots := n }
  else if contains_str ["browser"; "browser_slots"] name then Some { v with browser_slots := n }
  else if contains_str ["memory"; "memory_mib"] name then Some { v with memory_mib := n }
  else if contains_str ["provider"; "provider_quota"] name then
    Some { v with provider_quota := n }
  else None.

Fixpoint parse_items (items : list string) (v : ResourceVector) : result string ResourceVector :=
  match items with
  | [] => Ok v
  | item :: items =>
      '(k, val) ← ok_or (split_once "=" item) ("`" +:+ item +:+ "`: expected name=count");
      n ← ok_or (parse_u32 (trim val))
            ("`" +:+ item +:+ "`: `" +:+ val +:+ "` is not a count");
      v ← ok_or (set_dim (trim k) n v)
            ("`" +:+ item +:+ "`: unknown dimension `" +:+ trim k +:+ "`");
      parse_items items v
  end.

(** [ResourceVector::parse]. *)
Definition ResourceVector_parse (spec : string) (base : ResourceVector)
    : result string ResourceVector :=
  parse_items (List.filter (λ s, negb (str_is_empty s)) (trim <$> split_on "," spec)) base.

Record Ticket := {
  tk_ticket_id : string;
  tk_holder : string;
  tk_holds : ResourceVector;
  tk_granted_at_ms : Z;
  tk_expires_at_ms : Z;
  tk_generation : Z
}.

Inductive CapacityRefused :=
  | CapacityRefused_CapacityExhausted (shortfall : Shortfall) (live : list string)
  | CapacityRefused_ExceedsPool (shortfall : Shortfall)
  | CapacityRefused_EmptyRequest
  | CapacityRefused_UnknownTicket (ticket_id : string)
  | CapacityRefused_StaleGeneration (ticket_id : string)
      (ticket_generation caller_generation : Z).

Definition CapacityRefused_code (r : CapacityRefused) : string :=
  match r with
  | CapacityRefused_CapacityExhausted _ _ => "CAPACITY_EXHAUSTED"
  | CapacityRefused_ExceedsPool _ => "EXCEEDS_POOL"
  | CapacityRefused_EmptyRequest => "EMPTY_REQUEST"
  | CapacityRefused_UnknownTicket _ => "UNKNOWN_TICKET"
  | CapacityRefused_StaleGeneration _ _ _ => "STALE_GENERATION"
  end.

Record CapacityPool := {
  po_limits : ResourceVector;
  po_tickets : list Ticket;
  po_issued : Z
}.

Definition CapacityPool_new (limits : ResourceVector) : CapacityPool :=
  {| po_limits := limits; po_tickets := []; po_issued := 0 |}.

(** [CapacityPool::expire]. *)
Definition expire (now_ms : Z) (self : CapacityPool) : CapacityPool * list Ticket :=
  let lapsed t := tk_expires_at_ms t <=? now_ms in
  ({ self with po_tickets := List.filter (λ t, negb (lapsed t)) (po_tickets self) },
   List.filter lapsed (po_tickets self)).

(** [CapacityPool::held] and [available]. *)
Definition held_by (tickets : list Ticket) : ResourceVector :=
  foldl (λ acc t, plus acc (tk_holds t)) ResourceVector_default tickets.
Definition held (self : CapacityPool) : ResourceVector := held_by (po_tickets self).
Definition available (self : CapacityPool) : ResourceVector := minus (po_limits self) (held self).

(** [CapacityPool::allocate]. *)
Definition allocate (holder : string) (needs : ResourceVector) (now_ms expires_at_ms generation : Z)
    : SE CapacityPool CapacityRefused Ticket :=
  if is_zero needs then se_err CapacityRefused_EmptyRequest
  else
    se_mod (λ p, (expire now_ms p).1);;
    self ← se_get;
    match shortfall (po_limits self) needs with
    | Some s => se_err (CapacityRefused_ExceedsPool s)
    | None =>
        match shortfall (available self) needs with
        | Some s =>
            se_err (CapacityRefused_CapacityExhausted s (tk_holder <$> po_tickets self))
        | None =>
            se_mod (λ p, { p with po_issued ::= λ n, wrap64 (n + 1) });;
            self ← se_get;
            let ticket := {| tk_ticket_id := "t-" +:+ pretty (po_issued self);
                             tk_holder := holder;
                             tk_holds := needs;
                             tk_granted_at_ms := now_ms;
                             tk_expires_at_ms := expires_at_ms;
                             tk_generation := generation |} in
            se_mod (λ p, { p with po_tickets ::= λ l, l ++ [ticket] });;
            mret ticket
        end
    end.

(** [CapacityPool::renew]. *)
Definition renew (ticket_id : string) (expires_at_ms caller_generation : Z)
    : SE CapacityPool CapacityRefused Ticket :=
  self ← se_get;
  let is_it t := tk_ticket_id t =s ticket_id in
  match List.find is_it (po_tickets self) with
  | None => se_err (CapacityRefused_UnknownTicket ticket_id)
  | Some t =>
      if caller_generation <? tk_generation t then
        se_err (CapacityRefused_StaleGeneration ticket_id (tk_generation t) caller_generation)
      else
        let extend t := { t with tk_expires_at_ms := Z.max expires_at_ms (tk_expires_at_ms t) } in
        se_mod (λ p, { p with po_tickets ::= update_first is_it extend });;
        mret (extend t)
  end.

(** [CapacityPool::release]. *)
Definition release (ticket_id : string) (self : CapacityPool) : CapacityPool * option Ticket :=
  match position (λ t, tk_ticket_id t =s ticket_id) (po_tickets self) with
  | None => (self, None)
  | Some i => ({ self with po_tickets ::= vec_remove i }, po_tickets self !! i)
  end.

(** [CapacityPool::release_holder]. *)
Definition release_holder (holder : string) (self : CapacityPool) : CapacityPool * list Ticket :=
  ({ self with po_tickets ::= List.filter (λ t, negb (tk_holder t =s holder)) },
   List.filter (λ t, tk_holder t =s holder) (po_tickets self)).

(** [CapacityPool::ticket_of] and [available_in]. *)
Definition ticket_of (self : CapacityPool) (holder : string) : option Ticket :=
  List.find (λ t, tk_holder t =s holder) (po_tickets self).
Definition available_in (self : CapacityPool) (dimension : string) : Z :=
  get_dim (available self) dimension.

(** ** The life of a pool *)

Inductive PoolOp :=
  | PoolOp_Expire (now_ms : Z)
  | PoolOp_Allocate (holder : string) (needs : ResourceVector)
      (now_ms expires_at_ms generation : Z)
  | PoolOp_Renew (ticket_id : string) (expires_at_ms caller_generation : Z)
  | PoolOp_Release (ticket_id : string)
  | PoolOp_ReleaseHolder (holder : string).

Definition run_op (p : CapacityPool) (op : PoolOp) : CapacityPool :=
  match op with
  | PoolOp_Expire now_ms => (expire now_ms p).1
  | PoolOp_Allocate holder needs now_ms expires_at_ms generation =>
      (allocate holder needs now_ms expires_at_ms generation p).1
  | PoolOp_Renew id expires_at_ms caller_generation =>
      (renew id expires_at_ms caller_generation p).1
  | PoolOp_Release id => (release id p).1
  | PoolOp_ReleaseHolder holder => (release_holder holder p).1
  end.

(** The exact sum of one dimension over the tickets, with no saturation. *)
Definition total (f : ResourceVector → Z) (l : list Ticket) : Z :=
  foldr (λ t n, f (tk_holds t) + n) 0 l.

#[local] Arguments total : simpl never.

Definition dimensions : list (ResourceVector → Z) :=
  [model_concurrency; terminal_slots; sandbox_slots; browser_slots; memory_mib; provider_quota].

Definition in_range (v : ResourceVector) : Prop := ∀ f, f ∈ dimensions → in_u32 (f v).

Definition pool_inv (p : CapacityPool) : Prop :=
  in_range (po_limits p) ∧
  (∀ t, t ∈ po_tickets p → in_range (tk_holds t)) ∧
  ∀ f, f ∈ dimensions → total f (po_tickets p) ≤ f (po_limits p).

Lemma dimensions_cases (P : (ResourceVector → Z) → Prop) :
  (∀ f, f ∈ dimensions → P f) ↔
  P model_concurrency ∧ P terminal_slots ∧ P sandbox_slots ∧ P browser_slots ∧ P memory_mib ∧
  P provider_quota.
Proof.
  rewrite <- Forall_forall. unfold dimensions. rewrite !Forall_cons, Forall_nil. tauto.
Qed.

Lemma shortfall_none a needs :
  shortfall a needs = None ↔ ∀ f, f ∈ dimensions → f needs ≤ f a.
Proof.
  unfold shortfall. rewrite dimensions_cases.
  assert (∀ A B (g : A → B) o, g <$> o = None ↔ o = None) as Hf by (intros ? ? ? []; cbn; done).
  rewrite Hf, find_none_forall. cbn [zip dims]. rewrite !Forall_cons. cbn.
  rewrite !Z.ltb_ge. split; [naive_solver|]. intros (? & ? & ? & ? & ? & ?).
  split_and!; done.
Qed.

Lemma plus_dim f a b : f ∈ dimensions → f (plus a b) = sat_add u32_max (f a) (f b).
Proof. revert f. by apply dimensions_cases. Qed.

Lemma minus_dim f a b : f ∈ dimensions → f (minus a b) = sat_sub (f a) (f b).
Proof. revert f. by apply dimensions_cases. Qed.

Lemma total_nonneg f l :
  f ∈ dimensions → (∀ t, t ∈ l → in_range (tk_holds t)) → 0 ≤ total f l.
Proof.
  intros Hf. induction l as [|t l IH]; [by unfold total|]. intros Ha.
  pose proof (Ha t (list_elem_of_here _ _) f Hf) as [? _].
  assert (0 ≤ total f l); [|unfold total in *; cbn; lia]. apply IH. intros; apply Ha; by right.
Qed.

Lemma held_dim f l :
  f ∈ dimensions → (∀ t, t ∈ l → in_range (tk_holds t)) →
  f (held_by l) = Z.min u32_max (total f l).
Proof.
  intros Hf Ha. unfold held_by.
  assert (H0 : f ResourceVector_default = 0) by (revert f Hf; by apply dimensions_cases).
  replace (total f l) with (f ResourceVector_default + total f l) by lia.
  assert (Hn : 0 ≤ f ResourceVector_default ≤ u32_max) by (rewrite H0; unfold u32_max; lia).
  clear H0. revert Hn. generalize ResourceVector_default as acc.
  induction l as [|t l IH]; intros acc Hn; cbn; [unfold total; cbn; lia|].
  pose proof (Ha t (list_elem_of_here _ _) f Hf) as Ht.
  assert (Hl : ∀ t, t ∈ l → in_range (tk_holds t)) by (intros; apply Ha; by right).
  pose proof (total_nonneg f l Hf Hl). rewrite IH; [|done|].
  - rewrite plus_dim by done. unfold total in *. cbn. unfold_width. lia.
  - rewrite plus_dim by done. unfold_width. lia.
Qed.

Lemma total_app f l1 l2 : total f (l1 ++ l2) = total f l1 + total f l2.
Proof. unfold total. induction l1 as [|t l1 IH]; cbn; lia. Qed.

(** Keeping only some of the tickets keeps the invariant. *)
Lemma pool_inv_sublist p l :
  pool_inv p → l `sublist_of` po_tickets p → pool_inv { p with po_tickets := l }.
Proof.
  intros (Hl & Ht & Hs) Hsub. split_and!; cbn; [done| |].
  - intros t Hin. apply Ht. by eapply elem_of_sublist.
  - intros f Hf. etrans; [|by apply Hs].
    assert (∀ t, t ∈ po_tickets p → in_range (tk_holds t)) as Hr by done.
    clear Hl Ht Hs. revert Hr. cbv [constant].
    induction Hsub as [|t l k _ IH|t l k _ IH]; intros Hr; unfold total in *; cbn; [lia| |].
    + assert (∀ t, t ∈ k → in_range (tk_holds t)) by (intros; apply Hr; by right).
      specialize (IH ltac:(done)). lia.
    + assert (∀ t, t ∈ k → in_range (tk_holds t)) by (intros; apply Hr; by right).
      pose proof (Hr t (list_elem_of_here _ _) f Hf) as [? _].
      specialize (IH ltac:(done)). lia.
Qed.

Lemma filter_sublist {A} (p : A → bool) l : List.filter p l `sublist_of` l.
Proof.
  induction l as [|x l IH]; cbn; [constructor|]. destruct (p x); by constructor.
Qed.

Lemma pool_update_tickets p l l' :
  po_tickets p = l → l' = l → { p with po_tickets := l' } = p.
Proof. by destruct p; cbn; intros -> ->. Qed.

Lemma expire_inv now p : pool_inv p → pool_inv (expire now p).1.
Proof. intros Hp. apply pool_inv_sublist; [done|]. apply filter_sublist. Qed.

Lemma allocate_inv holder needs now exp gen p :
  pool_inv p → in_range needs → pool_inv (allocate holder needs now exp gen p).1.
Proof.
  intros Hp Hn. unfold allocate. destruct (is_zero needs); [done|].
  cbv [mbind se_bind se_mod se_get se_err mret se_ret]. cbv beta iota zeta.
  apply (expire_inv now) in Hp. revert Hp. generalize (expire now p).1 as q. intros q Hq.
  destruct (shortfall (po_limits q) needs); [done|].
  destruct (shortfall (available q) needs) eqn:Es; [done|].
  rewrite shortfall_none in Es. destruct q as [limits tickets issued].
  destruct Hq as (Hl & Ht & Hs). cbn in Hl, Ht, Hs. split_and!; cbn.
  - done.
  - intros t [?| ->%list_elem_of_singleton]%elem_of_app; [by apply Ht|done].
  - intros f Hf. cbv [apply_update constant]. rewrite total_app. unfold total at 2. cbn.
    specialize (Es f Hf). unfold available, held in Es.
    rewrite minus_dim, held_dim in Es by done.
    specialize (Hs f Hf). specialize (Hl f Hf). specialize (Hn f Hf).
    cbn in Es. unfold_width. lia.
Qed.

Lemma renew_inv id exp gen p : pool_inv p → pool_inv (renew id exp gen p).1.
Proof.
  destruct p as [limits tickets issued].
  intros Hp. unfold renew. cbv [mbind se_bind se_mod se_get se_err mret se_ret].
  cbv beta iota zeta. cbn [po_tickets]. destruct (List.find _ _) as [t|]; [|done].
  destruct (gen <? tk_generation t); [done|].
  set (ext := λ t, { t with tk_expires_at_ms := Z.max exp (tk_expires_at_ms t) }).
  pose proof (update_first_map tk_holds (λ t, tk_ticket_id t =s id) ext tickets
    ltac:(by intros [])) as Hm.
  destruct Hp as (Hl & Ht & Hs). split_and!; cbn.
  - done.
  - intros t' Hin. apply (list_elem_of_fmap_2 tk_holds) in Hin.
    cbv [apply_update] in Hin. rewrite Hm in Hin.
    apply list_elem_of_fmap in Hin as (x & -> & Hx). by apply Ht.
  - intros f Hf. cbv [apply_update].
    assert (∀ l, total f l = foldr Z.add 0 (f <$> (tk_holds <$> l))) as Htot.
    { intros l. unfold total. induction l as [|x l IH]; cbn; [done|]. by rewrite IH. }
    rewrite Htot, Hm, <- Htot. by apply Hs.
Qed.

Lemma release_inv id p : pool_inv p → pool_inv (release id p).1.
Proof.
  intros Hp. unfold release. destruct (position _ _) as [i|] eqn:E; [|done].
  apply position_some in E as (x & l1 & l2 & Hl & <- & _). cbn.
  apply (pool_inv_sublist p (vec_remove (length l1) (po_tickets p))); [done|].
  rewrite Hl, vec_remove_app. apply sublist_app; [done|]. by constructor.
Qed.

(** The requests an operation makes are vectors of 32-bit counts. *)
Definition op_in_range (op : PoolOp) : Prop :=
  match op with PoolOp_Allocate _ needs _ _ _ => in_range needs | _ => True end.

Lemma run_op_inv p op : pool_inv p → op_in_range op → pool_inv (run_op p op).
Proof.
  intros Hp Ho. destruct op; cbn [run_op].
  - by apply expire_inv.
  - by apply allocate_inv.
  - by apply renew_inv.
  - by apply release_inv.
  - apply pool_inv_sublist; [done|]. apply filter_sublist.
Qed.

Lemma run_ops_inv p ops : pool_inv p → Forall op_in_range ops → pool_inv (foldl run_op p ops).
Proof. revert p; induction ops; intros p Hp Ho; [done|]. inv Ho. cbn. eauto using run_op_inv. Qed.

Lemma new_inv limits : in_range limits → pool_inv (CapacityPool_new limits).
Proof.
  intros Hl. split_and!; [done| |].
  - intros t Ht. by apply elem_of_nil in Ht.
  - intros f Hf. cbn. apply Hl, Hf.
Qed.

(** C30: the pool never oversubscribes. After any sequence of allocations,
    renewals, releases and expiries, in every dimension the exact sum of what the
    live tickets hold is within the pool's limit, so what [held] reports has not
    been cut off by saturation and what [available] reports is the difference. *)
Theorem pool_never_oversubscribed limits ops f :
  in_range limits → Forall op_in_range ops → f ∈ dimensions →
  let p := foldl run_op (CapacityPool_new limits) ops in
  total f (po_tickets p) ≤ f (po_limits p) ∧ f (held p) = total f (po_tickets p) ∧
  f (available p) = f (po_limits p) - total f (po_tickets p).
Proof.
  intros Hl Ho Hf p.
  destruct (run_ops_inv _ ops (new_inv limits Hl) Ho) as (Hr & Ht & Hs). fold p in Hr, Ht, Hs.
  specialize (Hs f Hf). specialize (Hr f Hf). pose proof (total_nonneg f (po_tickets p) Hf Ht).
  assert (f (held p) = total f (po_tickets p)) as Hh.
  { unfold held. rewrite held_dim by done. unfold_width. lia. }
  split_and!; [done..|]. unfold available. rewrite minus_dim, Hh by done. unfold sat_sub. lia.
Qed.

(** What allocation decides. A request that fits what is left once the
    lapsed tickets are gone is granted, exactly as asked; one that does not is
    refused and, but for the lapsed tickets, changes nothing. *)
Theorem allocate_exact holder needs now exp gen p :
  is_zero needs = false →
  let q := (expire now p).1 in
  match allocate holder needs now exp gen p with
  | (p', Ok t) =>
      (∀ f, f ∈ dimensions → f needs ≤ f (po_limits q) ∧ f needs ≤ f (available q)) ∧
      tk_holds t = needs ∧ tk_holder t = holder ∧ tk_expires_at_ms t = exp ∧
      po_tickets p' = po_tickets q ++ [t] ∧ po_limits p' = po_limits p
  | (p', Err e) =>
      p' = q ∧
      ∃ f, f ∈ dimensions ∧ (f (po_limits q) < f needs ∨ f (available q) < f needs)
  end.
Proof.
  intros Hz q. unfold allocate. rewrite Hz.
  cbv [mbind se_bind se_mod se_get se_err mret se_ret]. cbv beta iota zeta.
  assert (Hsome : ∀ a s, shortfall a needs = Some s → ∃ f, f ∈ dimensions ∧ f a < f needs).
  { intros a s Hs. unfold shortfall in Hs. apply fmap_Some in Hs as (nh & Hf & _).
    apply find_some in Hf as [Hin Hlt]. apply Z.ltb_lt in Hlt.
    cbn in Hin.
    destruct Hin as [<-|[<-|[<-|[<-|[<-|[<-|[]]]]]]]; cbn in Hlt;
      [exists model_concurrency|exists terminal_slots|exists sandbox_slots|exists browser_slots
      |exists memory_mib|exists provider_quota]; (split; [unfold dimensions; set_solver|done]). }
  fold q. destruct (shortfall (po_limits q) needs) as [s|] eqn:E1.
  { split; [done|]. apply Hsome in E1 as (f & ? & ?). eauto. }
  destruct (shortfall (available q) needs) as [s|] eqn:E2.
  { split; [done|]. apply Hsome in E2 as (f & ? & ?). eauto. }
  rewrite shortfall_none in E1, E2. cbn. split_and!; eauto.
Qed.

Definition two_runs : ResourceVector :=
  {| model_concurrency := 2; terminal_slots := 4; sandbox_slots := 0; browser_slots := 0;
     memory_mib := 1024; provider_quota := 2 |}.

Definition busy_day : list PoolOp :=
  [PoolOp_Allocate "a" one_run 0 100 1; PoolOp_Allocate "b" one_run 1 50 1;
   PoolOp_Allocate "c" one_run 2 100 1; PoolOp_Renew "t-1" 300 1; PoolOp_Expire 60;
   PoolOp_Allocate "c" one_run 70 200 1; PoolOp_ReleaseHolder "a"].

Lemma busy_day_ok :
  in_range two_runs ∧ Forall op_in_range busy_day ∧ model_concurrency ∈ dimensions.
Proof.
  assert (Hsmall : ∀ v, forallb (λ dv, (0 <=? dv.2) && (dv.2 <=? u32_max)) (dims v) = true →
            in_range v).
  { intros v Hv. refine (proj2 (dimensions_cases (λ f, in_u32 (f v))) _). cbn in Hv.
    bool_to_prop. repeat split; done. }
  assert (H2 : in_range two_runs) by (by apply Hsmall).
  assert (H1 : in_range one_run) by (by apply Hsmall).
  split_and!; [done| |by left]. repeat (constructor; [done|]). constructor.
Qed.

Lemma pool_never_oversubscribed_witness :
  let p := foldl run_op (CapacityPool_new two_runs) busy_day in
  tk_ticket_id <$> po_tickets p = ["t-3"] ∧
  total model_concurrency (po_tickets p) ≤ model_concurrency (po_limits p).
Proof.
  split; [vm_compute; reflexivity|].
  destruct busy_day_ok as (H1 & H2 & H3).
  apply (pool_never_oversubscribed two_runs busy_day model_concurrency H1 H2 H3).
Defined.

Lemma allocate_exact_witness :
  ∃ e, allocate "x" one_run 5 9 1 (CapacityPool_new ResourceVector_default) =
       (CapacityPool_new ResourceVector_default, Err e) ∧
  ∃ f, f ∈ dimensions ∧ f ResourceVector_default < f one_run.
Proof.
  pose proof (allocate_exact "x" one_run 5 9 1 (CapacityPool_new ResourceVector_default) eq_refl)
    as Hx.
  eexists. split; [vm_compute; reflexivity|]. vm_compute allocate in Hx.
  destruct Hx as (_ & f & Hf & [?|?]); exists f; split; done.
Defined.
