(* ===== verification/Cron.v ===== *)
(** * Cron expressions and the UTC calendar

    [crates/automation/src/cron.rs]. Times are milliseconds since the epoch in
    [Z]; the source keeps them in [i64], and every intermediate value stays in
    range for the times a clock gives (the largest factor is the day's length). *)

From stdpp Require Import sorting.
From S2P Require Import Prelude RustStr.
#[local] Open Scope Z_scope.

Definition MINUTE_MS : Z := 60000.
Definition DAY_MS : Z := 86400000.

Record Cron := {
  cr_minutes : Z;
  cr_hours : Z;
  cr_dom : Z;
  cr_months : Z;
  cr_dow : Z;
  cr_dom_star : bool;
  cr_dow_star : bool
}.

(** [CronError]. *)
Definition CronError : Type := string.

Definition MONTHS : list string :=
  ["jan"; "feb"; "mar"; "apr"; "may"; "jun"; "jul"; "aug"; "sep"; "oct"; "nov"; "dec"].
Definition DAYS : list string := ["sun"; "mon"; "tue"; "wed"; "thu"; "fri"; "sat"].

(** [value]: a number in range or a name. *)
Definition value (tok : string) (lo hi : Z) (names : list string) (name_base : Z)
    : result CronError Z :=
  match parse_u32 tok with
  | Some n =>
      if (lo <=? n) && (n <=? hi) then Ok n
      else Err ("`" +:+ tok +:+ "` is outside " +:+ pretty lo +:+ "-" +:+ pretty hi)
  | None =>
      match position (λ n, n =s to_ascii_lowercase tok) names with
      | Some i => Ok (Z.of_nat i + name_base)
      | None => Err ("`" +:+ tok +:+ "` is not a number or a name")
      end
  end.

(** One item of a field: its first value, its last value and its step. *)
Definition part_range (part : string) (lo hi : Z) (names : list string) (name_base : Z)
    : result CronError (Z * Z * Z) :=
  '(range, step) ←
    match split_once "/" part with
    | Some (r, s) =>
        step ← ok_or (parse_u32 s) ("`" +:+ s +:+ "` is not a step");
        if (step =? 0) || (Z.max hi 1 <? step) then
          Err ("step `" +:+ s +:+ "` is outside 1-" +:+ pretty hi)
        else Ok (r, step)
    | None => Ok (part, 1)
    end;
  if range =s "*" then Ok (lo, hi, step)
  else
    match split_once "-" range with
    | Some (a, b) =>
        a ← value a lo hi names name_base;
        b ← value b lo hi names name_base;
        if b <? a then Err ("the range `" +:+ range +:+ "` runs backwards") else Ok (a, b, step)
    | None =>
        v ← value range lo hi names name_base;
        Ok (if 1 <? step then (v, hi, step) else (v, v, step))
    end.

(** The [while] loop that sets the bits of one item; the loop runs at most once
    per value of the range. *)
Fixpoint set_bits (fuel : nat) (v to step bits : Z) : Z :=
  match fuel with
  | O => bits
  | S fuel =>
      if v <=? to then set_bits fuel (v + step) to step (Z.lor bits (Z.shiftl 1 v)) else bits
  end.

Fixpoint field_parts (parts : list string) (lo hi : Z) (names : list string) (name_base bits : Z)
    : result CronError Z :=
  match parts with
  | [] => Ok bits
  | part :: parts =>
      '(from, to, step) ← part_range part lo hi names name_base;
      field_parts parts lo hi names name_base
        (set_bits (Z.to_nat (to - from + 1)) from to step bits)
  end.

(** [field]: the bits of the values, and whether the field is a plain star. *)
Definition field (text : string) (lo hi : Z) (names : list string) (name_base : Z)
    : result CronError (Z * bool) :=
  if str_is_empty text then Err "an empty field"
  else
    bits ← field_parts (split_on "," text) lo hi names name_base 0;
    Ok (bits, text =s "*").

(** [Cron::parse]. *)
Definition Cron_parse (text : string) : result CronError Cron :=
  if 128 <? str_len text then Err "an expression is at most 128 bytes"
  else
    match split_whitespace text with
    | [f0; f1; f2; f3; f4] =>
        '(minutes, _) ← field f0 0 59 [] 0;
        '(hours, _) ← field f1 0 23 [] 0;
        '(dom, dom_star) ← field f2 1 31 [] 0;
        '(months, _) ← field f3 1 12 MONTHS 1;
        '(dow, dow_star) ← field f4 0 7 DAYS 0;
        let dow :=
          if negb (Z.land dow (Z.shiftl 1 7) =? 0)
          then Z.ldiff (Z.lor dow 1) (Z.shiftl 1 7) else dow in
        Ok {| cr_minutes := minutes;
              cr_hours := hours mod 2 ^ 32;
              cr_dom := dom mod 2 ^ 32;
              cr_months := months mod 2 ^ 16;
              cr_dow := dow mod 2 ^ 8;
              cr_dom_star := dom_star;
              cr_dow_star := dow_star |}
    | fields =>
        Err ("expected five fields (minute hour day-of-month month day-of-week), found " +:+
             pretty (Z.of_nat (length fields)))
    end.

(** [self.hours & (1 << hour) != 0]. *)
Definition bit_set (mask i : Z) : bool := negb (Z.land mask (Z.shiftl 1 i) =? 0).

(** [civil_from_days]. *)
Definition civil_from_days (z : Z) : Z * Z * Z :=
  let z := z + 719468 in
  let era := z / 146097 in
  let doe := z mod 146097 in
  let yoe := (doe - doe / 1460 + doe / 36524 - doe / 146096) / 365 in
  let y := yoe + era * 400 in
  let doy := doe - (365 * yoe + yoe / 4 - yoe / 100) in
  let mp := (5 * doy + 2) / 153 in
  let d := doy - (153 * mp + 2) / 5 + 1 in
  let m := if mp <? 10 then mp + 3 else mp - 9 in
  (if m <=? 2 then y + 1 else y, m, d).

(** [Cron::day_matches]. *)
Definition day_matches (c : Cron) (month day days_since_epoch : Z) : bool :=
  if negb (bit_set (cr_months c) month) then false
  else
    let weekday := (days_since_epoch + 4) mod 7 in
    let dom_hit := bit_set (cr_dom c) day in
    let dow_hit := bit_set (cr_dow c) weekday in
    match cr_dom_star c, cr_dow_star c with
    | true, true => true
    | false, true => dom_hit
    | true, false => dow_hit
    | false, false => dom_hit || dow_hit
    end.

(** The two inner loops of [Cron::next_after]. *)
Definition hours_of_day : list Z := Z.of_nat <$> seq 0 24.
Definition minutes_of_hour : list Z := Z.of_nat <$> seq 0 60.

(** The minutes of a day that the hour and minute fields admit, in the order the
    loops visit them. *)
Definition slots (c : Cron) (day : Z) : list Z :=
  hour ← List.filter (bit_set (cr_hours c)) hours_of_day;
  (λ minute, day * 1440 + hour * 60 + minute) <$>
  List.filter (bit_set (cr_minutes c)) minutes_of_hour.

(** The first of them that is not before [start_minute]. *)
Definition next_in_day (c : Cron) (day start_minute : Z) : option Z :=
  List.find (λ at_, start_minute <=? at_) (slots c day).

(** The outer loop, over [fuel] days. *)
Fixpoint next_from_day (fuel : nat) (c : Cron) (day start_minute : Z) : option Z :=
  match fuel with
  | O => None
  | S fuel =>
      let '(_, m, d) := civil_from_days day in
      if day_matches c m d day then
        match next_in_day c day start_minute with
        | Some at_ => Some (at_ * MINUTE_MS)
        | None => next_from_day fuel c (day + 1) start_minute
        end
      else next_from_day fuel c (day + 1) start_minute
  end.

(** The days the search covers: eight years. *)
Definition HORIZON_DAYS : nat := (366 * 8)%nat.

(** [Cron::next_after]. *)
Definition next_after (c : Cron) (after_ms : Z) : option Z :=
  let start_minute := after_ms / MINUTE_MS + 1 in
  let first_day := (start_minute * MINUTE_MS) / DAY_MS in
  next_from_day HORIZON_DAYS c first_day start_minute.

(** The loop of [Cron::min_gap_minutes]. *)
Fixpoint min_gap_loop (fuel : nat) (c : Cron) (prev best : option Z) (cursor : Z) : option Z :=
  match fuel with
  | O => best
  | S fuel =>
      match next_after c cursor with
      | None => best
      | Some at_ =>
          if 1704067200000 + 366 * DAY_MS <=? at_ then best
          else
            match prev with
            | Some p =>
                let gap := (at_ - p) / MINUTE_MS in
                let best := Some (match best with Some b => Z.min b gap | None => gap end) in
                if gap <? 5 then best else min_gap_loop fuel c (Some at_) best at_
            | None => min_gap_loop fuel c (Some at_) best at_
            end
      end
  end.

Definition min_gap_minutes (c : Cron) : option Z :=
  min_gap_loop (Z.to_nat 200000) c None None (1704067200000 - 1).

(** [utc_parts]. *)
Definition utc_parts (ms : Z) : Z * Z * Z * Z * Z :=
  let days := ms / DAY_MS in
  let '(y, m, d) := civil_from_days days in
  let minute_of_day := (ms mod DAY_MS) / MINUTE_MS in
  (y, m, d, minute_of_day / 60, minute_of_day mod 60).

(** [utc_ms]. *)
Definition utc_ms (year month day hour minute : Z) : Z :=
  let y := if month <=? 2 then year - 1 else year in
  let era := y / 400 in
  let yoe := y mod 400 in
  let mp := if 2 <? month then month - 3 else month + 9 in
  let doy := (153 * mp + 2) / 5 + day - 1 in
  let doe := yoe * 365 + yoe / 4 - yoe / 100 + doy in
  let days := era * 146097 + doe - 719468 in
  days * DAY_MS + hour * 3600000 + minute * MINUTE_MS.

(** ** The calendar *)

(** The Gregorian calendar, independently of the code's arithmetic. *)
Definition is_leap (y : Z) : bool :=
  ((y mod 4 =? 0) && negb (y mod 100 =? 0)) || (y mod 400 =? 0).
Definition days_in_month (y m : Z) : Z :=
  if m =? 2 then (if is_leap y then 29 else 28)
  else if existsb (Z.eqb m) [4; 6; 9; 11] then 30 else 31.
Definition valid_date (y m d : Z) : Prop := 1 ≤ m ≤ 12 ∧ 1 ≤ d ≤ days_in_month y m.

(** A day of the 400-year era as year of the era, month and day; and back. *)
Definition era_parts (doe : Z) : Z * Z * Z :=
  let yoe := (doe - doe / 1460 + doe / 36524 - doe / 146096) / 365 in
  let doy := doe - (365 * yoe + yoe / 4 - yoe / 100) in
  let mp := (5 * doy + 2) / 153 in
  (yoe, if mp <? 10 then mp + 3 else mp - 9, doy - (153 * mp + 2) / 5 + 1).
Definition era_day (yoe m d : Z) : Z :=
  yoe * 365 + yoe / 4 - yoe / 100 +
  ((153 * (if 2 <? m then m - 3 else m + 9) + 2) / 5 + d - 1).
Definition era_year (yoe m : Z) : Z := if m <=? 2 then yoe + 1 else yoe.

(** The first day of a year of the era (years start in March), the year of a day
    and the month and day of a day of the year. *)
Definition year_start (yoe : Z) : Z := 365 * yoe + yoe / 4 - yoe / 100.
Definition year_of (doe : Z) : Z := (doe - doe / 1460 + doe / 36524 - doe / 146096) / 365.
Definition month_day (doy : Z) : Z * Z :=
  let mp := (5 * doy + 2) / 153 in
  (if mp <? 10 then mp + 3 else mp - 9, doy - (153 * mp + 2) / 5 + 1).
Definition day_of_year (m d : Z) : Z :=
  (153 * (if 2 <? m then m - 3 else m + 9) + 2) / 5 + d - 1.

Lemma era_parts_alt doe :
  era_parts doe = (year_of doe, (month_day (doe - year_start (year_of doe))).1,
                                (month_day (doe - year_start (year_of doe))).2).
Proof. done. Qed.

Lemma era_day_alt yoe m d : era_day yoe m d = year_start yoe + day_of_year m d.
Proof. unfold era_day, year_start, day_of_year. lia. Qed.

(** [lia] on goals with division and remainder. *)
Ltac dlia := Z.to_euclidean_division_equations; lia.

(** A check of every integer from [z] on, [n] of them. *)
Fixpoint all_from (p : Z → bool) (n : nat) (z : Z) : bool :=
  match n with
  | O => true
  | S n => p z && all_from p n (z + 1)
  end.

Lemma all_from_spec p n z i : all_from p n z = true → z ≤ i < z + Z.of_nat n → p i = true.
Proof.
  revert z; induction n as [|n IH]; intros z; cbn [all_from]; [lia|].
  intros [Hz Hn]%andb_true_iff Hi. destruct (decide (i = z)) as [->|]; [done|].
  apply (IH (z + 1)); [done|lia].
Qed.

(** Each of the 400 years: its length is that of a Gregorian year, and the first
    and the last of its days are found in it. *)
Definition year_ok (yoe : Z) : bool :=
  let len := 365 + (if is_leap (yoe + 1) then 1 else 0) in
  (if yoe =? 399 then 146097 else year_start (yoe + 1)) - year_start yoe =? len.
Definition year_ends_ok (yoe : Z) : bool :=
  year_ok yoe && (year_of (year_start yoe) =? yoe) &&
  (year_of (year_start (yoe + 1) - 1) =? yoe).

Lemma years_checked : all_from year_ends_ok 400 0 = true.
Proof. vm_compute. reflexivity. Qed.

(** Each of the 366 days of a year, and each date of a year. *)
Definition day_ok (doy : Z) : bool :=
  let '(m, d) := month_day doy in
  (1 <=? m) && (m <=? 12) && (1 <=? d) && (day_of_year m d =? doy) &&
  (d <=? days_in_month (if doy =? 365 then 0 else 1) m).
Lemma year_days_checked : all_from day_ok 366 0 = true.
Proof. vm_compute. reflexivity. Qed.

Definition date_ok (y m d : Z) : bool :=
  if d <=? days_in_month y m then
    (0 <=? day_of_year m d) &&
    (day_of_year m d <? 365 + (if is_leap y then 1 else 0)) &&
    bool_decide (month_day (day_of_year m d) = (m, d))
  else true.
Lemma dates_checked : all_from (λ y, all_from (λ m, all_from (date_ok y m) 31 1) 12 1) 2 0 = true.
Proof. vm_compute. reflexivity. Qed.

Lemma days_in_month_range y m : 28 ≤ days_in_month y m ≤ 31.
Proof. unfold days_in_month. repeat case_match; lia. Qed.

(** Only the leap years matter to the length of a month. *)
Lemma days_in_month_leap y y' m : is_leap y = is_leap y' → days_in_month y m = days_in_month y' m.
Proof. unfold days_in_month. by intros ->. Qed.

Lemma year_of_mono a b : 0 ≤ a ≤ b → b < 146096 → year_of a ≤ year_of b.
Proof.
  intros Ha Hb. unfold year_of. apply Z.div_le_mono; [lia|].
  rewrite !(Z.div_small _ 146096) by lia.
  assert (a / 36524 ≤ b / 36524) by (apply Z.div_le_mono; lia).
  assert (Hq : a / 1460 ≤ b / 1460) by (apply Z.div_le_mono; lia).
  pose proof (Z.div_mod a 1460 ltac:(lia)). pose proof (Z.div_mod b 1460 ltac:(lia)).
  pose proof (Z.mod_pos_bound a 1460 ltac:(lia)). pose proof (Z.mod_pos_bound b 1460 ltac:(lia)).
  destruct (decide (a / 1460 = b / 1460)); lia.
Qed.

Lemma year_facts yoe :
  0 ≤ yoe < 400 →
  (if yoe =? 399 then 146097 else year_start (yoe + 1)) - year_start yoe =
    365 + (if is_leap (yoe + 1) then 1 else 0) ∧
  year_of (year_start yoe) = yoe ∧ year_of (year_start (yoe + 1) - 1) = yoe.
Proof.
  intros Hy. pose proof (all_from_spec _ _ _ yoe years_checked ltac:(lia)) as Hc.
  unfold year_ends_ok, year_ok in Hc. bool_to_prop. done.
Qed.

(** The year of a day: the one whose days it is among. *)
Lemma year_of_spec yoe doy :
  0 ≤ yoe < 400 → 0 ≤ doy < 365 + (if is_leap (yoe + 1) then 1 else 0) →
  0 ≤ year_start yoe + doy < 146097 ∧ year_of (year_start yoe + doy) = yoe.
Proof.
  intros Hy Hd. destruct (year_facts yoe Hy) as (Hlen & Hs & He).
  assert (H0 : 0 ≤ year_start yoe) by (unfold year_start; dlia).
  destruct (Z.eqb_spec yoe 399) as [->|Hne].
  - split; [lia|]. destruct (decide (year_start 399 + doy = 146096)) as [->|]; [done|].
    assert (Hb : year_start (399 + 1) = 146096) by done.
    assert (year_of (year_start 399) ≤ year_of (year_start 399 + doy)) by (apply year_of_mono; lia).
    assert (year_of (year_start 399 + doy) ≤ year_of (year_start (399 + 1) - 1))
      by (apply year_of_mono; lia). lia.
  - assert (Hb : year_start (yoe + 1) < 146096) by (unfold year_start; dlia).
    split; [lia|].
    assert (year_of (year_start yoe) ≤ year_of (year_start yoe + doy)) by (apply year_of_mono; lia).
    assert (year_of (year_start yoe + doy) ≤ year_of (year_start (yoe + 1) - 1))
      by (apply year_of_mono; lia). lia.
Qed.

Lemma year_exists n doe :
  0 ≤ doe < year_start (Z.of_nat n) →
  ∃ yoe, 0 ≤ yoe < Z.of_nat n ∧ year_start yoe ≤ doe < year_start (yoe + 1).
Proof.
  induction n as [|n IH]; intros Hd; [change (year_start (Z.of_nat 0)) with 0 in Hd; lia|].
  destruct (decide (doe < year_start (Z.of_nat n))) as [Hlt|Hge].
  - destruct IH as (yoe & ? & ?); [lia|]. exists yoe. split; [lia|done].
  - exists (Z.of_nat n). rewrite Nat2Z.inj_succ in Hd. unfold Z.succ in Hd. split; lia.
Qed.

Lemma era_day_spec doe :
  0 ≤ doe < 146097 →
  ∃ yoe m d, era_parts doe = (yoe, m, d) ∧ 0 ≤ yoe < 400 ∧
    valid_date (era_year yoe m) m d ∧ era_day yoe m d = doe.
Proof.
  intros Hd.
  assert (∃ yoe doy, 0 ≤ yoe < 400 ∧ doe = year_start yoe + doy ∧
    0 ≤ doy < 365 + (if is_leap (yoe + 1) then 1 else 0)) as (yoe & doy & Hy & -> & Hdoy).
  { destruct (decide (doe = 146096)) as [->|].
    - exists 399, 365. split_and!; done.
    - destruct (year_exists 400 doe) as (yoe & Hy & Hs); [change (year_start _) with 146096; lia|].
      exists yoe, (doe - year_start yoe). destruct (year_facts yoe ltac:(lia)) as (Hlen & _).
      destruct (Z.eqb_spec yoe 399) as [->|]; (split_and!; [lia..|]).
      + change (year_start (399 + 1)) with 146096 in Hs. lia.
      + lia. }
  destruct (year_of_spec yoe doy Hy Hdoy) as [_ He].
  rewrite era_parts_alt, He. replace (year_start yoe + doy - year_start yoe) with doy by lia.
  assert (Hr : 0 ≤ doy < 0 + Z.of_nat 366) by (destruct (is_leap (yoe + 1)); lia).
  pose proof (all_from_spec _ _ _ doy year_days_checked Hr) as Hc. unfold day_ok in Hc.
  destruct (month_day doy) as [m d] eqn:Em. bool_to_prop.
  exists yoe, m, d. rewrite era_day_alt. split_and!; [done|lia..| |lia].
  split; [lia|]. split; [lia|].
  destruct (Z.eqb_spec doy 365) as [->|].
  - vm_compute in Em. simplify_eq. change (era_year yoe 2) with (yoe + 1).
    destruct (is_leap (yoe + 1)) eqn:El; [|lia].
    rewrite (days_in_month_leap (yoe + 1) 0) by done. done.
  - assert (days_in_month 1 m ≤ days_in_month (era_year yoe m) m); [|lia]. unfold days_in_month. change (is_leap 1) with false.
    destruct (m =? 2); [|done]. destruct (is_leap (era_year yoe m)); lia.
Qed.

Lemma era_date_spec yoe m d :
  0 ≤ yoe < 400 → valid_date (era_year yoe m) m d →
  0 ≤ era_day yoe m d < 146097 ∧ era_parts (era_day yoe m d) = (yoe, m, d).
Proof.
  intros Hy [Hm Hd]. pose proof (days_in_month_range (era_year yoe m) m).
  set (flag := if is_leap (era_year yoe m) then 0 else 1).
  assert (Hf : is_leap (era_year yoe m) = is_leap flag)
    by (unfold flag; by destruct (is_leap (era_year yoe m))).
  assert (Hfr : 0 ≤ flag < 0 + Z.of_nat 2) by (unfold flag; destruct (is_leap _); lia).
  pose proof (all_from_spec _ _ _ flag dates_checked Hfr) as Hc.
  cbv beta in Hc. apply (all_from_spec _ _ _ m) in Hc; [|lia]. cbv beta in Hc.
  apply (all_from_spec _ _ _ d) in Hc; [|lia]. unfold date_ok in Hc.
  rewrite <- (days_in_month_leap _ _ m Hf) in Hc.
  destruct (Z.leb_spec d (days_in_month (era_year yoe m) m)); [|lia]. bool_to_prop.
  assert (Hdoy : 0 ≤ day_of_year m d < 365 + (if is_leap (yoe + 1) then 1 else 0)).
  { split; [done|]. rewrite <- Hf in *. unfold era_year in *.
    destruct (Z.leb_spec m 2); [done|].
    assert (day_of_year m d < 365); [|destruct (is_leap (yoe + 1)); lia].
    unfold day_of_year. destruct (Z.ltb_spec 2 m); [|lia].
    assert ((153 * (m - 3) + 2) / 5 ≤ 275); [|lia]. dlia. }
  destruct (year_of_spec yoe (day_of_year m d) Hy Hdoy) as [Hr He].
  rewrite era_day_alt. split; [done|]. rewrite era_parts_alt, He.
  replace (year_start yoe + day_of_year m d - year_start yoe) with (day_of_year m d) by lia.
  by match goal with Hx : month_day _ = _ |- _ => rewrite Hx end.
Qed.

Lemma is_leap_period y k : is_leap (y + k * 400) = is_leap y.
Proof.
  unfold is_leap. rewrite Z_mod_plus_full.
  replace (y + k * 400) with (y + (k * 100) * 4) at 1 by lia. rewrite Z_mod_plus_full.
  replace (y + k * 400) with (y + (k * 4) * 100) by lia. by rewrite Z_mod_plus_full.
Qed.

Lemma valid_date_period y k m d : valid_date (y + k * 400) m d ↔ valid_date y m d.
Proof. unfold valid_date, days_in_month. by rewrite is_leap_period. Qed.

(** The number of days since the epoch of a date. *)
Definition days_from_civil (y m d : Z) : Z :=
  let y := if m <=? 2 then y - 1 else y in
  (y / 400) * 146097 + era_day (y mod 400) m d - 719468.

Lemma civil_from_days_era z :
  civil_from_days z =
  let '(yoe, m, d) := era_parts ((z + 719468) mod 146097) in
  (era_year yoe m + (z + 719468) / 146097 * 400, m, d).
Proof.
  unfold civil_from_days, era_parts, era_year. cbv zeta.
  set (doe := (z + 719468) mod 146097).
  set (yoe := (doe - doe / 1460 + doe / 36524 - doe / 146096) / 365).
  set (doy := doe - (365 * yoe + yoe / 4 - yoe / 100)).
  destruct ((_ : Z) <=? 2); f_equal; f_equal; lia.
Qed.

Lemma shift_year yoe m era :
  (if m <=? 2 then era_year yoe m + era * 400 - 1 else era_year yoe m + era * 400)
  = yoe + era * 400.
Proof. unfold era_year. destruct (m <=? 2); lia. Qed.

Lemma civil_days z :
  ∃ y m d, civil_from_days z = (y, m, d) ∧ valid_date y m d ∧ days_from_civil y m d = z.
Proof.
  rewrite civil_from_days_era. set (w := z + 719468).
  destruct (era_day_spec (w mod 146097)) as (yoe & m & d & -> & Hy & Hv & Hd);
    [apply Z.mod_pos_bound; lia|].
  exists (era_year yoe m + w / 146097 * 400), m, d. split_and!; [done| |].
  - by apply valid_date_period.
  - unfold days_from_civil. cbv zeta. rewrite shift_year.
    rewrite Z_div_plus_full, Z_mod_plus_full by lia.
    rewrite Z.div_small, Z.mod_small by lia. rewrite Hd.
    pose proof (Z.div_mod w 146097 ltac:(lia)). unfold w in *. lia.
Qed.

Lemma days_civil y m d : valid_date y m d → civil_from_days (days_from_civil y m d) = (y, m, d).
Proof.
  intros Hv. set (y' := if m <=? 2 then y - 1 else y).
  assert (Hy : y = era_year (y' mod 400) m + (y' / 400) * 400).
  { pose proof (Z.div_mod y' 400 ltac:(lia)). unfold era_year, y' in *.
    destruct (m <=? 2); lia. }
  assert (Hv' : valid_date (era_year (y' mod 400) m) m d).
  { apply (valid_date_period _ (y' / 400)). by rewrite <- Hy. }
  destruct (era_date_spec (y' mod 400) m d) as [Hr Hp]; [apply Z.mod_pos_bound; lia|done|].
  rewrite civil_from_days_era. unfold days_from_civil. fold y'. cbv zeta.
  replace (y' / 400 * 146097 + era_day (y' mod 400) m d - 719468 + 719468)
    with (era_day (y' mod 400) m d + y' / 400 * 146097) by lia.
  rewrite Z_mod_plus_full, Z_div_plus_full by lia.
  rewrite Z.mod_small, Z.div_small, Hp by lia. f_equal; f_equal; lia.
Qed.

Lemma utc_ms_days y m d h mi :
  utc_ms y m d h mi = days_from_civil y m d * DAY_MS + h * 3600000 + mi * MINUTE_MS.
Proof. unfold utc_ms, days_from_civil, era_day. cbv zeta. lia. Qed.

(** The calendar arithmetic is the Gregorian calendar. Every instant breaks
    into a valid date and a minute of the day that compose back to the minute of
    the instant, and every valid date with a time of day composes to an instant
    that breaks back into it. *)
Theorem utc_roundtrip :
  (∀ ms, let '(y, m, d, h, mi) := utc_parts ms in
     valid_date y m d ∧ 0 ≤ h < 24 ∧ 0 ≤ mi < 60 ∧
     utc_ms y m d h mi = ms / MINUTE_MS * MINUTE_MS) ∧
  (∀ y m d h mi, valid_date y m d → 0 ≤ h < 24 → 0 ≤ mi < 60 →
     utc_parts (utc_ms y m d h mi) = (y, m, d, h, mi)).
Proof.
  split.
  - intros ms. unfold utc_parts.
    destruct (civil_days (ms / DAY_MS)) as (y & m & d & -> & Hv & Hd).
    rewrite utc_ms_days, Hd. unfold DAY_MS, MINUTE_MS.
    split_and!; [done|dlia..].
  - intros y m d h mi Hv Hh Hmi. unfold utc_parts. rewrite utc_ms_days.
    assert (E : (days_from_civil y m d * DAY_MS + h * 3600000 + mi * MINUTE_MS) / DAY_MS
                = days_from_civil y m d).
    { unfold DAY_MS, MINUTE_MS. dlia. }
    rewrite E, (days_civil y m d Hv). unfold DAY_MS, MINUTE_MS in *.
    f_equal; [f_equal|]; dlia.
Qed.

(** ** The next firing *)

(** The minute [t] (since the epoch) is one the expression fires at. *)
Definition fires (c : Cron) (t : Z) : bool :=
  let '(_, m, d) := civil_from_days (t / 1440) in
  day_matches c m d (t / 1440) &&
  bit_set (cr_hours c) (t mod 1440 / 60) && bit_set (cr_minutes c) (t mod 60).

Lemma elem_of_range n x : x ∈ Z.of_nat <$> seq 0 n ↔ 0 ≤ x < Z.of_nat n.
Proof.
  rewrite list_elem_of_fmap. split.
  - intros (k & -> & Hk%elem_of_seq). lia.
  - intros Hx. exists (Z.to_nat x). rewrite elem_of_seq. lia.
Qed.

Lemma range_sorted a n : StronglySorted Z.lt (Z.of_nat <$> seq a n).
Proof.
  revert a; induction n as [|n IH]; intros a; cbn; constructor; [apply IH|].
  apply Forall_forall. intros x (k & -> & Hk%elem_of_seq)%list_elem_of_fmap. lia.
Qed.

Lemma filter_sorted {A} (R : A → A → Prop) p (l : list A) :
  StronglySorted R l → StronglySorted R (List.filter p l).
Proof.
  induction 1 as [|a l Hl IH Ha]; cbn; [constructor|].
  destruct (p a); [|done]. constructor; [done|].
  rewrite Forall_forall in *. intros x Hx. apply Ha.
  by apply list_elem_of_In, List.filter_In in Hx as [?%list_elem_of_In ?].
Qed.

Lemma elem_of_filter_b {A} p (l : list A) x : x ∈ List.filter p l ↔ x ∈ l ∧ p x = true.
Proof. by rewrite !list_elem_of_In, List.filter_In. Qed.

Lemma slots_spec c day t :
  t ∈ slots c day ↔
  t / 1440 = day ∧ bit_set (cr_hours c) (t mod 1440 / 60) = true ∧
  bit_set (cr_minutes c) (t mod 60) = true.
Proof.
  unfold slots, hours_of_day, minutes_of_hour. rewrite list_elem_of_bind. split.
  - intros (h & (mi & -> & [Hmi%elem_of_range Hm]%elem_of_filter_b)%list_elem_of_fmap
               & [Hh%elem_of_range Hb]%elem_of_filter_b).
    assert ((day * 1440 + h * 60 + mi) / 1440 = day) as -> by dlia.
    assert ((day * 1440 + h * 60 + mi) mod 1440 / 60 = h) as -> by dlia.
    by assert ((day * 1440 + h * 60 + mi) mod 60 = mi) as -> by dlia.
  - intros (<- & Hh & Hm). exists (t mod 1440 / 60).
    rewrite elem_of_filter_b, elem_of_range. split; [|split; [dlia|done]].
    apply list_elem_of_fmap. exists (t mod 60).
    rewrite elem_of_filter_b, elem_of_range. split; [dlia|]. split; [dlia|done].
Qed.

Lemma slots_sorted c day : StronglySorted Z.lt (slots c day).
Proof.
  unfold slots. set (f := λ hour, _ <$> _).
  assert (Hf : ∀ h t, t ∈ f h → day * 1440 + h * 60 ≤ t < day * 1440 + h * 60 + 60).
  { intros h t (mi & -> & [Hmi%elem_of_range _]%elem_of_filter_b)%list_elem_of_fmap. lia. }
  pose proof (filter_sorted _ (bit_set (cr_hours c)) _ (range_sorted 0 24)) as Hs.
  change (Z.of_nat <$> seq 0 24) with hours_of_day in Hs.
  induction Hs as [|h hs Hs IH Hh]; cbn [mbind list_bind]; [constructor|].
  apply StronglySorted_app. split_and!; [| |apply IH].
  - intros x y Hx (h' & Hy & Hin)%list_elem_of_bind.
    rewrite Forall_forall in Hh. specialize (Hh _ Hin).
    apply Hf in Hx, Hy. lia.
  - unfold f. eapply StronglySorted_fmap; [|apply filter_sorted, range_sorted]. intros; lia.
Qed.

(** [find] in a sorted list gives the least element that satisfies the test. *)
Lemma find_least p l :
  StronglySorted Z.lt l →
  match List.find p l with
  | Some x => x ∈ l ∧ p x = true ∧ ∀ y, y ∈ l → p y = true → x ≤ y
  | None => ∀ y, y ∈ l → p y = false
  end.
Proof.
  induction 1 as [|a l Hl IH Ha]; cbn; [by intros y ?%elem_of_nil|].
  destruct (p a) eqn:Ep.
  - split_and!; [left|done|]. intros y [->|Hy]%elem_of_cons _; [lia|].
    rewrite Forall_forall in Ha. apply Z.lt_le_incl. by apply Ha.
  - destruct (List.find p l) as [x|].
    + destruct IH as (Hx & Hp & Hm). split_and!; [by right|done|].
      intros y [->|Hy]%elem_of_cons Hpy; [congruence|auto].
    + intros y [->|Hy]%elem_of_cons; auto.
Qed.

Lemma fires_slot c t :
  fires c t = (let '(_, m, d) := civil_from_days (t / 1440) in day_matches c m d (t / 1440)) &&
              bool_decide (t ∈ slots c (t / 1440)).
Proof.
  unfold fires. destruct (civil_from_days _) as [[y m] d]. rewrite <- andb_assoc. f_equal.
  apply eq_true_iff_eq. rewrite bool_decide_eq_true, slots_spec, andb_true_iff. naive_solver.
Qed.

Lemma next_from_day_least fuel c day start :
  match next_from_day fuel c day start with
  | Some at_ => ∃ t, at_ = t * MINUTE_MS ∧ start ≤ t ∧ fires c t = true ∧
      ∀ t', start ≤ t' → day ≤ t' / 1440 → fires c t' = true → t ≤ t'
  | None => ∀ t', start ≤ t' → day ≤ t' / 1440 < day + Z.of_nat fuel → fires c t' = false
  end.
Proof.
  revert day; induction fuel as [|fuel IH]; intros day; cbn [next_from_day]; [lia|].
  destruct (civil_from_days day) as [[y m] d] eqn:Ec.
  pose proof (find_least (λ at_, start <=? at_) _ (slots_sorted c day)) as Hl.
  unfold next_in_day.
  assert (Hskip : (∀ t', start ≤ t' → t' / 1440 = day → fires c t' = false) →
    match next_from_day fuel c (day + 1) start with
    | Some at_ => ∃ t, at_ = t * MINUTE_MS ∧ start ≤ t ∧ fires c t = true ∧
        ∀ t', start ≤ t' → day ≤ t' / 1440 → fires c t' = true → t ≤ t'
    | None => ∀ t', start ≤ t' → day ≤ t' / 1440 < day + Z.of_nat (S fuel) → fires c t' = false
    end).
  { intros Hno. specialize (IH (day + 1)). destruct (next_from_day fuel c (day + 1) start).
    - destruct IH as (t & ? & ? & ? & Hm). exists t. split_and!; [done..|].
      intros t' Hs Hd Hf. destruct (decide (t' / 1440 = day)); [|apply Hm; [done|lia|done]].
      by rewrite Hno in Hf.
    - intros t' Hs Hd. destruct (decide (t' / 1440 = day)); [auto|]. apply IH; [done|lia]. }
  destruct (day_matches c m d day) eqn:Em.
  - destruct (List.find _ (slots c day)) as [t|].
    + destruct Hl as (Hin & Hst & Hm). apply Z.leb_le in Hst. exists t.
      pose proof (proj1 (slots_spec c day t) Hin) as [Hday _].
      split_and!; [done|done| |].
      * by rewrite fires_slot, Hday, Ec, Em, bool_decide_eq_true_2.
      * intros t' Hs Hd Hf. destruct (decide (t' / 1440 = day)) as [<-|]; [|dlia].
        rewrite fires_slot in Hf. apply andb_true_iff in Hf as [_ Hf%bool_decide_eq_true].
        apply Hm; [done|]. by apply Z.leb_le.
    + apply Hskip. intros t' Hs <-. rewrite fires_slot. apply andb_false_iff; right.
      apply bool_decide_eq_false. intros Hin. specialize (Hl _ Hin). apply Z.leb_gt in Hl. lia.
  - apply Hskip. intros t' Hs <-. by rewrite fires_slot, Ec, Em.
Qed.

(** C32: [Cron::next_after] returns the first firing strictly after the given
    time, a whole minute that matches the expression with no earlier one; when it
    returns nothing, no minute of the eight years it covers matches. *)
Theorem next_after_least c after_ms :
  match next_after c after_ms with
  | Some at_ => ∃ t, at_ = t * MINUTE_MS ∧ after_ms < at_ ∧ fires c t = true ∧
      ∀ t', after_ms < t' * MINUTE_MS → fires c t' = true → t ≤ t'
  | None => ∀ t', after_ms < t' * MINUTE_MS < after_ms + (366 * 8 - 1) * DAY_MS →
      fires c t' = false
  end.
Proof.
  unfold next_after. set (s := after_ms / MINUTE_MS + 1).
  assert (Hs : ∀ t, after_ms < t * MINUTE_MS ↔ s ≤ t) by (intros t; unfold s, MINUTE_MS; dlia).
  assert (Hday : s * MINUTE_MS / DAY_MS = s / 1440) by (unfold MINUTE_MS, DAY_MS; dlia).
  rewrite Hday. pose proof (next_from_day_least HORIZON_DAYS c (s / 1440) s) as Hl.
  destruct (next_from_day _ _ _ _).
  - destruct Hl as (t & -> & Hst & Hf & Hm). exists t. split_and!; [done|by apply Hs|done|].
    intros t' Ht' Hf'. apply Hm; [by apply Hs| |done]. apply Hs in Ht'. apply Z.div_le_mono; lia.
  - intros t' [Ht' Hb]. apply Hl; [by apply Hs|]. change (Z.of_nat HORIZON_DAYS) with 2928.
    apply Hs in Ht'. split; [apply Z.div_le_mono; lia|]. unfold s, MINUTE_MS, DAY_MS in *. dlia.
Qed.

(** ** The fields of an expression *)

Lemma bit_set_testbit mask i : 0 ≤ i → bit_set mask i = Z.testbit mask i.
Proof.
  intros Hi. unfold bit_set. rewrite Z.shiftl_1_l. destruct (Z.testbit mask i) eqn:E.
  - apply negb_true_iff, Z.eqb_neq. intros H0.
    assert (Z.testbit (Z.land mask (2 ^ i)) i = false) by (rewrite H0; apply Z.testbit_0_l).
    by rewrite Z.land_spec, E, Z.pow2_bits_true in H.
  - apply negb_false_iff, Z.eqb_eq, Z.bits_inj'. intros n Hn.
    rewrite Z.land_spec, Z.testbit_0_l, Z.pow2_bits_eqb by done.
    destruct (Z.eqb_spec i n) as [<-|]; [by rewrite E|apply andb_false_r].
Qed.

(** The values of one item: from its first to its last, by its step. *)
Definition in_range (from to step v : Z) : bool :=
  (from <=? v) && (v <=? to) && ((v - from) mod step =? 0).

Lemma set_bits_exact fuel v to step bits i :
  0 ≤ v → 1 ≤ step → to - v < Z.of_nat fuel → 0 ≤ i →
  Z.testbit (set_bits fuel v to step bits) i = Z.testbit bits i || in_range v to step i.
Proof.
  intros Hv Hs. revert v bits Hv. induction fuel as [|fuel IH]; intros v bits Hv Hf Hi; cbn [set_bits].
  - unfold in_range. destruct (Z.leb_spec v i), (Z.leb_spec i to); cbn; rewrite ?orb_false_r; lia || done.
  - destruct (Z.leb_spec v to) as [Hle|Hgt].
    + rewrite IH by lia. rewrite Z.lor_spec, Z.shiftl_1_l, Z.pow2_bits_eqb by done.
      rewrite <- orb_assoc. f_equal. unfold in_range.
      destruct (Z.eqb_spec v i) as [<-|Hne].
      * rewrite Z.sub_diag, Z.mod_0_l by lia. cbn. rewrite andb_true_r.
        symmetry. apply andb_true_iff. split; by apply Z.leb_le.
      * cbn. replace (i - (v + step)) with ((i - v) + (-1) * step) by lia.
        rewrite Z_mod_plus_full.
        destruct (Z.eqb_spec ((i - v) mod step) 0) as [Hm|]; [|by rewrite !andb_false_r].
        rewrite !andb_true_r. f_equal. apply eq_true_iff_eq. rewrite !Z.leb_le.
        apply Z.mod_divide in Hm as [k Hk]; [|lia]. 
        split; intros; destruct (decide (k ≤ 0)); nia.
    + unfold in_range. destruct (Z.leb_spec v i), (Z.leb_spec i to); cbn; rewrite ?orb_false_r; lia || done.
Qed.

(** The values of a field: [lo..=hi], the names among them. *)
Definition field_wf (lo hi : Z) (names : list string) (base : Z) : Prop :=
  0 ≤ lo ≤ hi ∧ (names = [] ∨ lo ≤ base ∧ base + Z.of_nat (length names) ≤ hi + 1).

Lemma value_range tok lo hi names base v :
  field_wf lo hi names base → value tok lo hi names base = Ok v → lo ≤ v ≤ hi.
Proof.
  intros [H0 Hn]. unfold value. destruct (parse_u32 tok) as [n|].
  - destruct (_ && _) eqn:E; intros; simplify_eq. bool_to_prop. lia.
  - destruct (position _ names) as [i|] eqn:E; intros; simplify_eq.
    apply position_some in E as (x & l1 & l2 & -> & <- & _ & _).
    rewrite length_app in Hn. cbn in Hn. destruct Hn as [Hn|]; [by destruct l1|lia].
Qed.

(** An item that is accepted names a range of values of its field. *)
Lemma part_range_ok part lo hi names base from to step :
  field_wf lo hi names base →
  part_range part lo hi names base = Ok (from, to, step) →
  lo ≤ from ∧ from ≤ to ∧ to ≤ hi ∧ 1 ≤ step.
Proof.
  intros Hwf Hp. pose proof Hwf as [Hlo _]. unfold part_range in Hp.
  apply bind_ok in Hp as ([range st] & Hst & Hp).
  assert (Hstep : 1 ≤ st).
  { destruct (split_once "/" part) as [[r s]|]; [|by simplify_eq].
    apply bind_ok in Hst as (n & Hn' & Hst). destruct (parse_u32 s) eqn:Es; simplify_eq/=.
    destruct (_ || _) eqn:E; simplify_eq. bool_to_prop. apply parse_unsigned_in in Es. lia. }
  destruct (range =s "*"); [simplify_eq; lia|].
  destruct (split_once "-" range) as [[a b]|].
  - apply bind_ok in Hp as (va & Ha%value_range & Hp); [|done].
    apply bind_ok in Hp as (vb & Hvb%value_range & Hp); [|done].
    destruct (vb <? va) eqn:E; simplify_eq. bool_to_prop. lia.
  - apply bind_ok in Hp as (v & Hv%value_range & Hp); [|done].
    destruct (1 <? st); simplify_eq; lia.
Qed.

(** The value [i] is listed by one of the items. *)
Definition listed (parts : list string) (lo hi : Z) (names : list string) (base i : Z) : Prop :=
  ∃ part from to step, part ∈ parts ∧ part_range part lo hi names base = Ok (from, to, step) ∧
    in_range from to step i = true.

Lemma field_parts_exact parts lo hi names base bits bits' i :
  field_wf lo hi names base → 0 ≤ i →
  field_parts parts lo hi names base bits = Ok bits' →
  (Z.testbit bits' i = true ↔ Z.testbit bits i = true ∨ listed parts lo hi names base i).
Proof.
  intros Hwf Hi. revert bits. induction parts as [|part parts IH]; intros bits; cbn [field_parts].
  - intros [= ->]. split; [by left|]. intros [?|(? & ? & ? & ? & ?%elem_of_nil & _)]; done.
  - intros ([[from to] step] & Hp & Hf)%bind_ok.
    rewrite (IH _ Hf). pose proof (part_range_ok _ _ _ _ _ _ _ _ Hwf Hp) as Hfr. pose proof Hwf as [Hlo _].
    rewrite set_bits_exact, orb_true_iff by lia. split.
    + intros [[?|Hr]|(p & f & t & s & Hin & ?)]; [by left| |].
      * right. exists part, from, to, step. split; [left|done].
      * right. exists p, f, t, s. split; [by right|done].
    + intros [?|(p & f & t & s & [->|Hin]%elem_of_cons & Hp' & Hr)]; [by left; left| |].
      * left; right. rewrite Hp in Hp'. by simplify_eq.
      * right. by exists p, f, t, s.
Qed.

(** The bits of a field are the listed values, all of them values of the field. *)
Lemma field_exact text lo hi names base bits star :
  field_wf lo hi names base → field text lo hi names base = Ok (bits, star) →
  0 ≤ bits ∧ star = (text =s "*") ∧
  ∀ i, 0 ≤ i → (Z.testbit bits i = true ↔ listed (split_on "," text) lo hi names base i) ∧
               (Z.testbit bits i = true → lo ≤ i ≤ hi).
Proof.
  intros Hwf. unfold field. destruct (str_is_empty text); [done|].
  intros (b & Hb & [= -> <-])%bind_ok.
  assert (He : ∀ i, 0 ≤ i → Z.testbit bits i = true ↔ listed (split_on "," text) lo hi names base i).
  { intros i Hi. rewrite (field_parts_exact _ _ _ _ _ _ _ i Hwf Hi Hb), Z.testbit_0_l.
    naive_solver. }
  assert (Hr : ∀ i, 0 ≤ i → Z.testbit bits i = true → lo ≤ i ≤ hi).
  { intros i Hi (part & f & t & s & _ & Hp & Hr)%He; [|done].
    pose proof (part_range_ok _ _ _ _ _ _ _ _ Hwf Hp). unfold in_range in Hr. bool_to_prop. lia. }
  split_and!; [|done|by auto].
  - apply Z.bits_iff_nonneg_ex. exists hi. intros i Hi. destruct Hwf as [Hlo _].
    apply not_true_iff_false. intros Hb'%Hr; lia.
Qed.

(** The narrowing casts of [Cron::parse] lose nothing. *)
Lemma cast_bits bits w i :
  0 ≤ w → (∀ j, 0 ≤ j → Z.testbit bits j = true → j < w) → 0 ≤ i →
  bit_set (bits mod 2 ^ w) i = Z.testbit bits i.
Proof.
  intros Hw Hb Hi. rewrite bit_set_testbit by done. destruct (decide (i < w)).
  - by apply Z.mod_pow2_bits_low.
  - rewrite Z.mod_pow2_bits_high by lia. symmetry. apply not_true_iff_false.
    intros E%Hb; lia.
Qed.

(** Seven is Sunday as zero is. *)
Definition fold_sunday (dow : Z) : Z :=
  if negb (Z.land dow (Z.shiftl 1 7) =? 0) then Z.ldiff (Z.lor dow 1) (Z.shiftl 1 7) else dow.

Lemma fold_sunday_bits dow i :
  (∀ j, 0 ≤ j → Z.testbit dow j = true → 0 ≤ j ≤ 7) → 0 ≤ i →
  Z.testbit (fold_sunday dow) i = true ↔
  i ≤ 6 ∧ (Z.testbit dow i = true ∨ i = 0 ∧ Z.testbit dow 7 = true).
Proof.
  intros Hr Hi. unfold fold_sunday. change (negb _) with (bit_set dow 7).
  rewrite bit_set_testbit by done. destruct (Z.testbit dow 7) eqn:E7.
  - rewrite Z.ldiff_spec, Z.lor_spec, Z.shiftl_1_l, Z.pow2_bits_eqb by done.
    change 1 with (2 ^ 0) at 1. rewrite Z.pow2_bits_eqb by done.
    rewrite andb_true_iff, orb_true_iff, negb_true_iff, Z.eqb_eq, Z.eqb_neq. split.
    + intros [[Hd|<-] Hne]; [specialize (Hr _ Hi Hd)|]; naive_solver lia.
    + naive_solver lia.
  - split; [|naive_solver]. intros Hd. specialize (Hr _ Hi Hd).
    assert (i ≠ 7) by congruence. split; [lia|by left].
Qed.

Lemma fields_wf :
  field_wf 0 59 [] 0 ∧ field_wf 0 23 [] 0 ∧ field_wf 1 31 [] 0 ∧
  field_wf 1 12 MONTHS 1 ∧ field_wf 0 7 DAYS 0.
Proof. unfold field_wf. cbn. naive_solver lia. Qed.

(** What [Cron::parse] accepts. The expression has five fields and each bit
    mask, after the narrowing casts, holds exactly the values its field lists
    (ranges, steps and names), with 7 read as Sunday; the star flags say whether
    the day fields are a plain star. *)
Theorem cron_parse_exact text c :
  Cron_parse text = Ok c →
  ∃ f0 f1 f2 f3 f4, split_whitespace text = [f0; f1; f2; f3; f4] ∧
  cr_dom_star c = (f2 =s "*") ∧ cr_dow_star c = (f4 =s "*") ∧
  ∀ i, 0 ≤ i →
  (bit_set (cr_minutes c) i = true ↔ listed (split_on "," f0) 0 59 [] 0 i) ∧
  (bit_set (cr_hours c) i = true ↔ listed (split_on "," f1) 0 23 [] 0 i) ∧
  (bit_set (cr_dom c) i = true ↔ listed (split_on "," f2) 1 31 [] 0 i) ∧
  (bit_set (cr_months c) i = true ↔ listed (split_on "," f3) 1 12 MONTHS 1 i) ∧
  (bit_set (cr_dow c) i = true ↔
     i ≤ 6 ∧ (listed (split_on "," f4) 0 7 DAYS 0 i ∨
              i = 0 ∧ listed (split_on "," f4) 0 7 DAYS 0 7)).
Proof.
  destruct fields_wf as (W0 & W1 & W2 & W3 & W4).
  unfold Cron_parse. destruct (128 <? str_len text); [done|].
  destruct (split_whitespace text) as [|f0 [|f1 [|f2 [|f3 [|f4 [|? ?]]]]]]; try done.
  intros ([b0 s0] & (N0 & -> & E0)%field_exact & Hp)%bind_ok; [|done].
  apply bind_ok in Hp as ([b1 s1] & (N1 & -> & E1)%field_exact & Hp); [|done].
  apply bind_ok in Hp as ([b2 s2] & (N2 & -> & E2)%field_exact & Hp); [|done].
  apply bind_ok in Hp as ([b3 s3] & (N3 & -> & E3)%field_exact & Hp); [|done].
  apply bind_ok in Hp as ([b4 s4] & (N4 & -> & E4)%field_exact & Hp); [|done].
  simplify_eq/=. exists f0, f1, f2, f3, f4. split_and!; [done..|]. intros i Hi.
  assert (H4 : ∀ j, 0 ≤ j → Z.testbit b4 j = true → 0 ≤ j ≤ 7) by (intros j Hj; by apply E4).
  split_and!.
  - rewrite bit_set_testbit by done. by apply E0.
  - rewrite (cast_bits b1 32) by (try done; intros j Hj Hb%E1; lia). by apply E1.
  - rewrite (cast_bits b2 32) by (try done; intros j Hj Hb%E2; lia). by apply E2.
  - rewrite (cast_bits b3 16) by (try done; intros j Hj Hb%E3; lia). by apply E3.
  - fold (fold_sunday b4).
    rewrite (cast_bits (fold_sunday b4) 8), fold_sunday_bits; [|done..| |done].
    + by rewrite (proj1 (E4 i Hi)), (proj1 (E4 7 ltac:(lia))).
    + intros j Hj Hb%fold_sunday_bits; [lia|done|done].
Qed.

Lemma cron_parse_exact_witness :
  ∃ c, Cron_parse "*/15 9-17 * jan,mar 7" = Ok c ∧
    (bit_set (cr_dow c) 0 = true ↔
     0 ≤ 6 ∧ (listed (split_on "," "7") 0 7 DAYS 0 0 ∨
              0 = 0 ∧ listed (split_on "," "7") 0 7 DAYS 0 7)).
Proof.
  eexists. split; [vm_compute; reflexivity|].
  destruct (cron_parse_exact "*/15 9-17 * jan,mar 7" _ ltac:(vm_compute; reflexivity))
    as (f0 & f1 & f2 & f3 & f4 & Hs & _ & _ & Hb).
  vm_compute in Hs. simplify_eq. apply (Hb 0). lia.
Defined.

(** ** Every expression that fires at all keeps firing *)

(** The leap days up to the end of February of a year. *)
Definition leaps (y : Z) : Z := y / 4 - y / 100 + y / 400.

Lemma days_linear y m d :
  let y' := if m <=? 2 then y - 1 else y in
  days_from_civil y m d = 365 * y' + leaps y' + day_of_year m d - 719468.
Proof.
  cbv zeta. unfold days_from_civil. cbv zeta. rewrite era_day_alt. unfold year_start, leaps.
  set (y' := if m <=? 2 then y - 1 else y). dlia.
Qed.

Lemma leaps_step y : leaps y = leaps (y - 1) + (if is_leap y then 1 else 0).
Proof.
  unfold leaps, is_leap.
  destruct (Z.eqb_spec (y mod 4) 0), (Z.eqb_spec (y mod 100) 0), (Z.eqb_spec (y mod 400) 0);
    cbn; dlia.
Qed.

(** The first day of a year, and where the dates of the year lie. *)
Definition new_year (y : Z) : Z := 365 * (y - 1) + leaps (y - 1) + 306 - 719468.

Lemma new_year_step y : new_year (y + 1) = new_year y + 365 + (if is_leap y then 1 else 0).
Proof.
  unfold new_year. replace (y + 1 - 1) with y by lia. rewrite (leaps_step y). lia.
Qed.

Lemma date_in_year y m d :
  valid_date y m d → new_year y ≤ days_from_civil y m d < new_year (y + 1).
Proof.
  intros [Hm Hd]. rewrite new_year_step, days_linear. cbv zeta. unfold new_year, days_in_month in *.
  pose proof (leaps_step y) as Hl.
  assert (m = 1 ∨ m = 2 ∨ m = 3 ∨ m = 4 ∨ m = 5 ∨ m = 6 ∨ m = 7 ∨ m = 8 ∨ m = 9 ∨ m = 10 ∨
          m = 11 ∨ m = 12) as Hc by lia.
  destruct_or! Hc; subst m; cbn in *; unfold day_of_year; cbn -[Z.div Z.mul];
    match goal with |- context [?a / 5] => let v := eval compute in (a / 5) in
      change (a / 5) with v end;
    destruct (is_leap y); lia.
Qed.

Lemma day_in_year z : ∃ y, new_year y ≤ z < new_year (y + 1).
Proof. destruct (civil_days z) as (y & m & d & _ & Hv & <-). exists y. by apply date_in_year. Qed.

(** No leap year among [n] years from [y] on. *)
Definition no_leap (y n : Z) : bool := all_from (λ j, negb (is_leap j)) (Z.to_nat n) y.

Lemma new_year_plain n y :
  all_from (λ j, negb (is_leap j)) n y = true → new_year (y + Z.of_nat n) = new_year y + 365 * Z.of_nat n.
Proof.
  revert y. induction n as [|n IH]; intros y; cbn [all_from]; [intros _; replace (y + Z.of_nat 0) with y by lia; lia|].
  intros [Hy%negb_true_iff Hn]%andb_true_iff. apply IH in Hn.
  replace (y + Z.of_nat (S n)) with (y + 1 + Z.of_nat n) by lia.
  rewrite Hn, new_year_step, Hy. lia.
Qed.

Lemma new_year_no_leap y n :
  0 ≤ n → no_leap y n = true → new_year (y + n) = new_year y + 365 * n.
Proof. intros Hn H%new_year_plain. by rewrite Z2Nat.id in H. Qed.

(** Years repeat after 400, so these are all. *)
Definition leap_gap_ok (y : Z) : bool :=
  if is_leap y
  then (is_leap (y + 4) && no_leap (y + 1) 3) || (is_leap (y + 8) && no_leap (y + 1) 7)
  else existsb (λ k, is_leap (y + k) && no_leap y k) [1; 2; 3; 4; 5; 6; 7].

Lemma leap_gaps_checked : all_from leap_gap_ok 400 0 = true.
Proof. vm_compute. reflexivity. Qed.

Lemma no_leap_period y k n : no_leap (y + k * 400) n = no_leap y n.
Proof.
  unfold no_leap. generalize (Z.to_nat n). intros m. revert y.
  induction m as [|m IH]; intros y; cbn [all_from]; [done|].
  rewrite is_leap_period. f_equal. rewrite <- (IH (y + 1)). f_equal. lia.
Qed.

Lemma leap_gap y : leap_gap_ok y = true.
Proof.
  pose proof (all_from_spec _ _ _ (y mod 400) leap_gaps_checked ltac:(pose proof (Z.mod_pos_bound y 400); lia)) as H.
  pose proof (Z.div_mod y 400 ltac:(lia)) as Hy.
  assert (∀ k, is_leap (y + k) = is_leap (y mod 400 + k)) as Hl.
  { intros k. rewrite <- (is_leap_period (y mod 400 + k) (y / 400)). f_equal. lia. }
  assert (∀ k n, no_leap (y + k) n = no_leap (y mod 400 + k) n) as Hn.
  { intros k n. rewrite <- (no_leap_period (y mod 400 + k) (y / 400)). f_equal. lia. }
  pose proof (Hl 0) as Hl0. rewrite !Z.add_0_r in Hl0.
  assert (∀ n, no_leap y n = no_leap (y mod 400) n) as Hn0.
  { intros n. specialize (Hn 0 n). by rewrite !Z.add_0_r in Hn. }
  rewrite <- H. unfold leap_gap_ok. cbn [existsb]. by rewrite !Hl, !Hn, !Hn0, Hl0.
Qed.

(** The twenty-ninth of February after a day comes at most 2920 days later. *)
Lemma next_leap_day z :
  ∃ y, is_leap y = true ∧ z ≤ days_from_civil y 2 29 ≤ z + 2920.
Proof.
  destruct (day_in_year z) as (y & Hy1 & Hy2).
  assert (∀ k, days_from_civil k 2 29 = new_year k + 59) as Hf
    by (intros k; rewrite days_linear; change (day_of_year 2 29) with 365; change (2 <=? 2) with true;
        cbv iota zeta; unfold new_year; lia).
  rewrite new_year_step in Hy2. pose proof (leap_gap y) as Hg. unfold leap_gap_ok in Hg.
  destruct (is_leap y) eqn:El.
  - destruct (Z.leb_spec z (new_year y + 59)); [exists y; rewrite Hf; split; [done|lia]|].
    pose proof (new_year_step y) as Hs. rewrite El in Hs.
    apply orb_true_iff in Hg as [[Hk Hn]%andb_true_iff|[Hk Hn]%andb_true_iff];
      apply new_year_no_leap in Hn; [|lia| |lia].
    + exists (y + 4). rewrite Hf. replace (y + 1 + 3) with (y + 4) in Hn by lia. split; [done|lia].
    + exists (y + 8). rewrite Hf. replace (y + 1 + 7) with (y + 8) in Hn by lia. split; [done|lia].
  - apply existsb_true in Hg as (k & Hk & [Hl Hn]%andb_true_iff).
    assert (1 ≤ k ≤ 7) by set_solver by lia.
    apply new_year_no_leap in Hn; [|lia]. exists (y + k). rewrite Hf. split; [done|lia].
Qed.

(** A date that is no leap day comes again within two years. *)
Lemma next_date m d z :
  (∃ y, valid_date y m d) → (m = 2 → d ≤ 28) →
  ∃ y, valid_date y m d ∧ z ≤ days_from_civil y m d ≤ z + 731.
Proof.
  intros (y0 & Hm & Hd) Hleap. destruct (day_in_year z) as (y & Hy1 & Hy2).
  assert (valid_date (y + 1) m d) as Hv.
  { split; [done|]. unfold days_in_month in *.
    destruct (Z.eqb_spec m 2) as [->|]; [|done]. specialize (Hleap eq_refl). destruct (is_leap y0), (is_leap (y + 1)); lia. }
  exists (y + 1). split; [done|]. pose proof (date_in_year _ _ _ Hv) as Hin.
  rewrite !new_year_step in *. destruct (is_leap y), (is_leap (y + 1)); lia.
Qed.

(** A weekday of a month comes again within two years. *)
Lemma next_weekday m w z :
  1 ≤ m ≤ 12 → 0 ≤ w < 7 →
  ∃ y d, valid_date y m d ∧ (days_from_civil y m d + 4) mod 7 = w ∧
    z ≤ days_from_civil y m d ≤ z + 737.
Proof.
  intros Hm Hw. destruct (next_date m 1 z) as (y & Hv & Hz); [|lia|].
  { exists 0. split; [done|]. pose proof (days_in_month_range 0 m). lia. }
  set (n := days_from_civil y m 1) in *. set (k := (w - (n + 4)) mod 7).
  assert (0 ≤ k < 7) by (apply Z.mod_pos_bound; lia).
  exists y, (1 + k). assert (days_from_civil y m (1 + k) = n + k) as ->.
  { unfold n. rewrite !days_linear. cbv zeta. unfold day_of_year. lia. }
  split_and!; [|unfold k; dlia|lia|lia].
  split; [done|]. pose proof (days_in_month_range y m). lia.
Qed.

Lemma next_after_some c t0 after_ms : fires c t0 = true → is_Some (next_after c after_ms).
Proof.
  intros H0. destruct (next_after c after_ms) eqn:En; [by eexists|exfalso].
  unfold next_after in En. set (s := after_ms / MINUTE_MS + 1) in *.
  assert (Hday : s * MINUTE_MS / DAY_MS = s / 1440) by (unfold MINUTE_MS, DAY_MS; dlia).
  rewrite Hday in En. pose proof (next_from_day_least HORIZON_DAYS c (s / 1440) s) as Hl.
  rewrite En in Hl. change (Z.of_nat HORIZON_DAYS) with 2928 in Hl.
  unfold fires in H0. destruct (civil_days (t0 / 1440)) as (y0 & m & d & Ec & Hv0 & Hd0).
  rewrite Ec in H0. apply andb_true_iff in H0 as [[Hm Hh]%andb_true_iff Hmi].
  assert (∃ y d', valid_date y m d' ∧ s / 1440 + 1 ≤ days_from_civil y m d' ≤ s / 1440 + 2921 ∧
    day_matches c m d' (days_from_civil y m d') = true) as (y & d' & Hv & Hr & Hdm).
  2: { set (D := days_from_civil y m d') in *. set (t := D * 1440 + t0 mod 1440).
       assert (t / 1440 = D ∧ t mod 1440 = t0 mod 1440 ∧ t mod 60 = t0 mod 60) as (E1 & E2 & E3)
         by (unfold t; dlia).
       assert (fires c t = true) as Hf.
       { unfold fires. rewrite E1. unfold D at 1. rewrite days_civil by done.
         by rewrite E2, E3, Hdm, Hh, Hmi. }
       rewrite Hl in Hf; [done| |rewrite E1; lia]. unfold t. dlia. }
  unfold day_matches in Hm |- *. destruct (bit_set (cr_months c) m) eqn:Em; [cbn in Hm|done].
  set (w := (t0 / 1440 + 4) mod 7) in *. assert (0 ≤ w < 7) by (apply Z.mod_pos_bound; lia).
  destruct (next_weekday m w (s / 1440 + 1)) as (y1 & d1 & Hv1 & Hw1 & Hz1); [apply Hv0|done|].
  assert (∃ y2, valid_date y2 m d ∧ s / 1440 + 1 ≤ days_from_civil y2 m d ≤ s / 1440 + 2921)
    as (y2 & Hv2 & Hz2).
  { destruct (decide (m = 2 ∧ d = 29)) as [[-> ->]|Hne].
    - destruct (next_leap_day (s / 1440 + 1)) as (y & Hy & Hz). exists y. split; [|lia].
      split; [lia|]. unfold days_in_month. cbn. rewrite Hy. lia.
    - destruct (next_date m d (s / 1440 + 1)) as (y & Hv & Hz); [by eexists| |exists y; split; [done|lia]].
      intros ->. destruct Hv0 as [_ Hd]. unfold days_in_month in Hd. cbn in Hd.
      destruct (is_leap y0); lia. }
  cbn [negb]. destruct (cr_dom_star c), (cr_dow_star c).
  - exists y1, d1. split_and!; [done|lia..|done].
  - exists y1, d1. rewrite Hw1. split_and!; [done|lia..|done].
  - exists y2, d. split_and!; [done|lia..|done].
  - apply orb_true_iff in Hm as [Hm|Hm].
    + exists y2, d. rewrite Hm. split_and!; [done|lia..|done].
    + exists y1, d1. rewrite Hw1, Hm, orb_true_r. split_and!; [done|lia..|done].
Qed.

(** A cron expression never dries up. If it fires at any minute of the
    calendar at all, then from every time on there is a next firing, and the
    bounded search finds it: the eight years it covers are enough even for a
    twenty-ninth of February across a century that skips its leap year. *)
Theorem next_after_live c t0 after_ms : fires c t0 = true → is_Some (next_after c after_ms).
Proof. apply next_after_some. Qed.

Lemma next_after_live_witness :
  ∃ c, Cron_parse "0 0 29 2 *" = Ok c ∧ is_Some (next_after c (utc_ms 2096 3 1 0 0)).
Proof.
  eexists. split; [vm_compute; reflexivity|].
  apply (next_after_live _ (utc_ms 2000 2 29 0 0 / MINUTE_MS)). vm_compute. reflexivity.
Defined.
