(* ===== verification/AutoDef.v ===== *)
(** * Automation definitions

    [crates/automation/src/definition.rs]: the versioned document that describes
    an automation, its validation, and the typed inputs of a manual run. The
    serializer and parser that [serde] derives for the document, the regular
    expression engine and the vocabulary of secret shapes are parameters. *)

From S2P Require Import Prelude RustStr BTree External Cron.
#[local] Open Scope Z_scope.

(** [serde_json::Value]: a number by its text and whether it is an [i64]. *)
Inductive jvalue :=
  | Jnull
  | Jbool (b : bool)
  | Jnumber (text : string) (is_i64 : bool)
  | Jstring (s : string)
  | Jarray (l : list jvalue)
  | Jobject (m : bmap jvalue).

(** The [regex] crate behind [compile_regex]: the matcher of a pattern, or why it
    was refused. *)
Class RegexEngine := compile_regex : string → result string (string → bool).

(** [modbit_secrets::redact::shape_of], a list of regular expressions. *)
Class SecretShapes := shape_of : string → option string.

Definition SCHEMA : string := "modbit.automation/1".
Definition MAX_DEFINITION_BYTES : Z := 64 * 1024.
Definition SCHEDULE_FLOOR_MINUTES : Z := 5.
Definition WRITE_CAPABILITIES : list string :=
  ["fs.write"; "shell.exec"; "git.worktree"; "git.apply"; "git.merge"; "memory.propose"].
Definition EXTERNAL_CAPABILITIES : list string := ["network.egress"; "external.call"].
Definition EVENT_SOURCES : list string := ["forge"].
Definition FORGE_EVENTS : list (string * list string) :=
  [ ("pull_request", ["opened"; "updated"]); ("push", []); ("check_completed", []);
    ("label_added", []); ("issue_comment", []); ("review_comment", []);
    ("review_submitted", []) ].

Record Issue := {
  is_path : string;
  is_code : string;
  is_message : string
}.

Definition issue (path code message : string) : Issue :=
  {| is_path := path; is_code := code; is_message := message |}.

Inductive ValueType :=
  | VString
  | VInteger
  | VBoolean
  | VEnum.

Record InputSpec := {
  in_name : string;
  in_ty : ValueType;
  in_required : bool;
  in_default : option jvalue;
  in_max_len : option Z;
  in_values : list string;
  in_description : string
}.

Record OutputSpec := {
  out_name : string;
  out_ty : ValueType;
  out_description : string
}.

Record FieldFilter := {
  ff_pointer : string;
  ff_equals : option string;
  ff_regex : option string
}.

Record Filters := {
  fi_branches : list string;
  fi_labels : list string;
  fi_authors : list string;
  fi_paths : list string;
  fi_title_regex : option string;
  fi_text_regex : option string;
  fi_fields : list FieldFilter
}.

Inductive Trigger :=
  | Schedule (id : string) (cron : option string) (every_minutes : option Z)
  | Manual (id : string)
  | Event (id source event : string) (actions : list string) (filters : Filters)
  | Webhook (id name : string) (filters : Filters).

Definition Trigger_id (t : Trigger) : string :=
  match t with
  | Schedule id _ _ | Manual id | Event id _ _ _ _ | Webhook id _ _ => id
  end.

Definition Trigger_kind (t : Trigger) : string :=
  match t with
  | Schedule _ _ _ => "schedule"
  | Manual _ => "manual"
  | Event _ _ _ _ _ => "event"
  | Webhook _ _ _ => "webhook"
  end.

Inductive Effects :=
  | ReadOnly
  | ReversibleWrite
  | ProtectedWrite
  | ExternalSideEffect.

(** The derived order. *)
Definition Effects_rank (e : Effects) : Z :=
  match e with ReadOnly => 0 | ReversibleWrite => 1 | ProtectedWrite => 2 | ExternalSideEffect => 3 end.

Definition Effects_label (e : Effects) : string :=
  match e with
  | ReadOnly => "read_only"
  | ReversibleWrite => "reversible_write"
  | ProtectedWrite => "protected_write"
  | ExternalSideEffect => "external_side_effect"
  end.

Record Profile := {
  pr_effects : Effects;
  pr_capabilities : list string;
  pr_paths : list string;
  pr_hosts : list string
}.

Definition is_empty {A} (l : list A) : bool := match l with [] => true | _ => false end.

Definition Profile_is_read_only (p : Profile) : bool :=
  (Effects_rank (pr_effects p) =? 0) && is_empty (pr_capabilities p) &&
  is_empty (pr_paths p) && is_empty (pr_hosts p).

Inductive Principal :=
  | Creator
  | ServiceAccount (id : string).

Inductive ConcurrencyPolicy :=
  | CSkip
  | CQueue
  | CReplace.

Record Concurrency := {
  cc_policy : ConcurrencyPolicy;
  cc_queue_max : Z
}.

Inductive MissedPolicy :=
  | MSkip
  | RunOnce.

Record Missed := {
  mi_policy : MissedPolicy;
  mi_catch_up_window_minutes : Z
}.

Record Limits := {
  li_deadline_minutes : Z;
  li_max_cost_minor : option Z;
  li_max_turns : Z;
  li_max_tool_calls : Z;
  li_approval_wait_minutes : Z
}.

Definition Limits_default : Limits :=
  {| li_deadline_minutes := 30; li_max_cost_minor := None; li_max_turns := 40;
     li_max_tool_calls := 200; li_approval_wait_minutes := 1440 |}.

Record Budget := {
  bu_max_runs_per_hour : Z;
  bu_daily_budget_minor : option Z
}.

Record Gate := {
  ga_prompt : string;
  ga_max_turns : Z
}.

Record AutomationDefinition := {
  de_schema : string;
  de_name : string;
  de_description : string;
  de_prompt : string;
  de_inputs : list InputSpec;
  de_outputs : list OutputSpec;
  de_triggers : list Trigger;
  de_profile : Profile;
  de_principal : Principal;
  de_concurrency : Concurrency;
  de_missed : Missed;
  de_limits : Limits;
  de_budget : Budget;
  de_gate : option Gate
}.

(** What [serde] derives: the value of a document, its compact text, and reading
    one back, with the message, line and column of an error. *)
Class DefinitionSerde := {
  def_value : AutomationDefinition → option jvalue;
  def_text : AutomationDefinition → option string;
  def_from_str : string → result (string * Z * Z) AutomationDefinition
}.

(** [Definition::canonical], [Definition::hash]. *)
Definition canonical `{DefinitionSerde} (d : AutomationDefinition) : string :=
  default "" (def_text d).
Definition def_hash `{DefinitionSerde, Sha256} (d : AutomationDefinition) : string :=
  sha256_hex (canonical d).

(** [Definition::trigger]. *)
Definition def_trigger (d : AutomationDefinition) (id : string) : option Trigger :=
  List.find (λ t, Trigger_id t =s id) (de_triggers d).

Definition needs_listed_approval (d : AutomationDefinition) : bool :=
  negb (Profile_is_read_only (de_profile d)).

Definition enable_issues (d : AutomationDefinition) : list Issue :=
  if negb (Profile_is_read_only (de_profile d)) && negb (is_some (li_max_cost_minor (de_limits d)))
  then [issue "/limits/max_cost_minor" "BUDGET_REQUIRED"
    "a definition that can write, run commands or reach the network states the most one run may cost (limits.max_cost_minor, 1-100000 minor units) before it can be enabled"]
  else [].

Definition plain_name (s : string) (lead_digit : bool) (extra : list ascii) (max : Z) : bool :=
  match s with
  | "" => false
  | String first rest =>
      (str_len s <=? max) && (is_ascii_lower first || (lead_digit && is_ascii_digit first)) &&
      str_all (λ c, is_ascii_lower c || is_ascii_digit c || existsb (Ascii.eqb c) extra) rest
  end.

(** [parse]. *)
Definition parse `{DefinitionSerde} (text : string)
    : result (list Issue) AutomationDefinition :=
  if MAX_DEFINITION_BYTES <? str_len text
  then Err [issue "/" "TOO_LARGE" ("a definition is at most " +:+ pretty MAX_DEFINITION_BYTES +:+
              " bytes; this one is " +:+ pretty (str_len text))]
  else map_err (λ e : string * Z * Z,
    let '(m, line, column) := e in
    let code := if str_contains "unknown field" m then "UNKNOWN_FIELD"
                else if str_contains "unknown variant" m then "UNKNOWN_TRIGGER"
                else if str_contains "missing field" m then "MISSING_FIELD"
                else "BAD_DOCUMENT" in
    [issue ("line " +:+ pretty line +:+ " column " +:+ pretty column) code m]) (def_from_str text).

Section validate.
Context {shapes : SecretShapes} {regex : RegexEngine} {serde : DefinitionSerde}.

(** [format!("{path}/{i}")]. *)
Definition sub (path : string) (i : nat) : string := path +:+ "/" +:+ pretty (Z.of_nat i).

(** Issues of the elements of a list, with their index. *)
Fixpoint each_from {A} (i : nat) (f : nat → A → list Issue) (l : list A) : list Issue :=
  match l with
  | [] => []
  | x :: l => f i x ++ each_from (S i) f l
  end.
Definition each {A} := @each_from A 0.

(** One issue under a test. *)
Definition when (b : bool) (i : Issue) : list Issue := if b then [i] else [].

Fixpoint find_secret_shapes (path : string) (v : jvalue) : list Issue :=
  match v with
  | Jstring text =>
      match shape_of text with
      | Some what =>
          [issue (if str_is_empty path then "/" else path) "SECRET_IN_DEFINITION"
             ("this text carries " +:+ what +:+ "; a definition holds no secret value, so use a credential handle the broker resolves for the principal at run time")]
      | None => []
      end
  | Jarray items =>
      (fix go (i : nat) (l : list jvalue) : list Issue :=
         match l with [] => [] | x :: l => find_secret_shapes (sub path i) x ++ go (S i) l end)
        O items
  | Jobject m =>
      (fix go (l : list (string * jvalue)) : list Issue :=
         match l with
         | [] => []
         | (k, x) :: l => find_secret_shapes (path +:+ "/" +:+ k) x ++ go l
         end) m
  | _ => []
  end.

Definition check_regex (path pattern : string) : list Issue :=
  if 256 <? str_len pattern
  then [issue path "REGEX_TOO_LONG" "a pattern is at most 256 bytes"]
  else match compile_regex pattern with
       | Err e => [issue path "BAD_REGEX" e]
       | Ok _ => []
       end.

Definition check_globs (path : string) (globs : list string) (max : nat) : list Issue :=
  when (Nat.ltb max (length globs))
    (issue path "TOO_MANY" ("at most " +:+ pretty (Z.of_nat max) +:+ " entries")) ++
  each (λ i g, when (str_is_empty g || (256 <? str_len g) || contains_char Ascii.zero g)
                 (issue (sub path i) "BAD_GLOB" "a glob is 1-256 bytes with no NUL")) globs.

Definition check_names (path : string) (l : list string) : list Issue :=
  when (Nat.ltb 16 (length l)) (issue path "TOO_MANY" "at most 16 entries") ++
  each (λ i v, when (str_is_empty v || (100 <? str_len v))
                 (issue (sub path i) "BAD_VALUE" "1-100 bytes")) l.

Definition check_field (p : string) (ff : FieldFilter) : list Issue :=
  when (negb (starts_with "/" (ff_pointer ff)) || (200 <? str_len (ff_pointer ff)))
    (issue (p +:+ "/pointer") "BAD_POINTER"
       "a JSON pointer starts with `/` and is at most 200 bytes") ++
  match ff_equals ff, ff_regex ff with
  | Some _, Some _ | None, None =>
      [issue p "BAD_FILTER" "a field filter has exactly one of `equals` and `regex`"]
  | Some e, None => when (500 <? str_len e) (issue (p +:+ "/equals") "BAD_VALUE" "at most 500 bytes")
  | None, Some r => check_regex (p +:+ "/regex") r
  end.

Definition check_filters (path : string) (f : Filters) : list Issue :=
  check_globs (path +:+ "/branches") (fi_branches f) 16 ++
  check_globs (path +:+ "/paths") (fi_paths f) 16 ++
  check_names (path +:+ "/labels") (fi_labels f) ++
  check_names (path +:+ "/authors") (fi_authors f) ++
  match fi_title_regex f with Some r => check_regex (path +:+ "/title_regex") r | None => [] end ++
  match fi_text_regex f with Some r => check_regex (path +:+ "/text_regex") r | None => [] end ++
  when (Nat.ltb 8 (length (fi_fields f)))
    (issue (path +:+ "/fields") "TOO_MANY" "at most 8 field filters") ++
  each (λ i, check_field (sub (path +:+ "/fields") i)) (fi_fields f).

Definition check_value (spec : InputSpec) (v : jvalue) : result string unit :=
  match in_ty spec, v with
  | VString, Jstring s =>
      let max := default 200 (in_max_len spec) in
      if max <? str_len s then Err ("longer than " +:+ pretty max +:+ " bytes")
      else if contains_char Ascii.zero s then Err "contains NUL"
      else Ok tt
  | VInteger, Jnumber _ true => Ok tt
  | VBoolean, Jbool _ => Ok tt
  | VEnum, Jstring s =>
      if contains_str (in_values spec) s then Ok tt
      else Err ("not one of " +:+ Prelude.join ", " (in_values spec))
  | VString, _ => Err "expected a string"
  | VInteger, _ => Err "expected a integer"
  | VBoolean, _ => Err "expected a boolean"
  | VEnum, _ => Err "expected a enum"
  end.

Definition check_input (i : nat) (seen : list string) (inp : InputSpec) : list Issue :=
  let p := sub "/inputs" i in
  when (negb (plain_name (in_name inp) false ["_"%char] 40))
    (issue (p +:+ "/name") "BAD_NAME" "a-z, 0-9 and `_`, starting with a letter, at most 40") ++
  when (contains_str seen (in_name inp))
    (issue (p +:+ "/name") "DUPLICATE" "duplicate input name") ++
  match in_ty inp with
  | VEnum => when (is_empty (in_values inp) || Nat.ltb 32 (length (in_values inp)))
               (issue (p +:+ "/values") "BAD_ENUM" "an enum input lists 1-32 values")
  | _ => when (negb (is_empty (in_values inp)))
           (issue (p +:+ "/values") "BAD_ENUM" "only an enum input has values")
  end ++
  when (match in_max_len inp with Some m => (m =? 0) || (2000 <? m) | None => false end)
    (issue (p +:+ "/max_len") "BAD_BOUND" "1-2000") ++
  match in_default inp with
  | Some def =>
      match check_value inp def with
      | Err why => [issue (p +:+ "/default") "BAD_DEFAULT" why]
      | Ok _ => []
      end
  | None => []
  end.

Fixpoint check_inputs (i : nat) (seen : list string) (l : list InputSpec) : list Issue :=
  match l with
  | [] => []
  | inp :: l => check_input i seen inp ++ check_inputs (S i) (in_name inp :: seen) l
  end.

(** The name is only recorded as seen when it is plain. *)
Fixpoint check_outputs (i : nat) (seen : list string) (l : list OutputSpec) : list Issue :=
  match l with
  | [] => []
  | o :: l =>
      let p := sub "/outputs" i in
      let plain := plain_name (out_name o) false ["_"%char] 40 in
      when (negb plain || contains_str seen (out_name o))
        (issue (p +:+ "/name") "BAD_NAME" "a unique name of a-z, 0-9 and `_`") ++
      match out_ty o with
      | VEnum => [issue (p +:+ "/type") "BAD_TYPE" "an output is a string, an integer or a boolean"]
      | _ => []
      end ++
      check_outputs (S i) (if plain then out_name o :: seen else seen) l
  end.

Definition check_schedule (p : string) (cron : option string) (every_minutes : option Z)
    : list Issue :=
  match cron, every_minutes with
  | Some c, None =>
      match Cron_parse c with
      | Err e => [issue (p +:+ "/cron") "BAD_CRON" e]
      | Ok parsed =>
          let never := when (negb (is_some (next_after parsed 0)))
                         (issue (p +:+ "/cron") "NEVER_FIRES" "this expression never fires") in
          match min_gap_minutes parsed with
          | Some gap =>
              if gap <? SCHEDULE_FLOOR_MINUTES
              then [issue (p +:+ "/cron") "BELOW_FLOOR"
                      ("this expression can fire " +:+ pretty gap +:+
                       " minute(s) after a run; the floor is one run per " +:+
                       pretty SCHEDULE_FLOOR_MINUTES +:+ " minutes")]
              else never
          | None => never
          end
      end
  | None, Some n =>
      when ((n <? SCHEDULE_FLOOR_MINUTES) || (60 * 24 * 31 <? n))
        (issue (p +:+ "/every_minutes") "BELOW_FLOOR"
           ("an interval is " +:+ pretty SCHEDULE_FLOOR_MINUTES +:+ "-44640 minutes"))
  | _, _ => [issue p "BAD_SCHEDULE" "a schedule has exactly one of `cron` and `every_minutes`"]
  end.

Definition check_trigger (p : string) (t : Trigger) : list Issue :=
  match t with
  | Schedule _ cron every_minutes => check_schedule p cron every_minutes
  | Manual _ => []
  | Event _ source event actions filters =>
      when (negb (contains_str EVENT_SOURCES source))
        (issue (p +:+ "/source") "UNKNOWN_SOURCE"
           ("sources: " +:+ Prelude.join ", " EVENT_SOURCES)) ++
      match List.find (λ e, e.1 =s event) FORGE_EVENTS with
      | None => [issue (p +:+ "/event") "UNKNOWN_EVENT"
                   ("events: " +:+ Prelude.join ", " (FORGE_EVENTS.*1))]
      | Some (_, allowed) =>
          a ← actions;
          when (negb (contains_str allowed a))
            (issue (p +:+ "/actions") "UNKNOWN_ACTION"
               ("`" +:+ a +:+ "` is not an action of `" +:+ event +:+ "`"))
      end ++
      check_filters (p +:+ "/filters") filters
  | Webhook _ name filters =>
      when (negb (plain_name name false ["-"; "_"]%char 40))
        (issue (p +:+ "/name") "BAD_NAME" "a-z, 0-9, `-` and `_`, starting with a letter") ++
      check_filters (p +:+ "/filters") filters
  end.

Fixpoint check_triggers (i : nat) (ids : list string) (l : list Trigger) : list Issue :=
  match l with
  | [] => []
  | t :: l =>
      let p := sub "/triggers" i in
      let plain := plain_name (Trigger_id t) false ["-"; "_"]%char 40 in
      when (negb plain || contains_str ids (Trigger_id t))
        (issue (p +:+ "/id") "BAD_ID"
           "a unique id of a-z, 0-9, `-` and `_`, starting with a letter") ++
      check_trigger p t ++
      check_triggers (S i) (if plain then Trigger_id t :: ids else ids) l
  end.

Fixpoint check_capabilities (i : nat) (effects : Effects) (caps l : list string) : list Issue :=
  match l with
  | [] => []
  | c :: l =>
      let p := sub "/profile/capabilities" i in
      when (negb (contains_str WRITE_CAPABILITIES c || contains_str EXTERNAL_CAPABILITIES c))
        (issue p "UNKNOWN_CAPABILITY"
           ("`" +:+ c +:+ "` is not one an automation may ask for (" +:+
            Prelude.join ", " (WRITE_CAPABILITIES ++ EXTERNAL_CAPABILITIES) +:+
            "); computer control and secret use are never available")) ++
      when (contains_str caps c) (issue p "DUPLICATE" "listed twice") ++
      when (contains_str WRITE_CAPABILITIES c &&
            (Effects_rank effects <? Effects_rank ReversibleWrite))
        (issue p "CEILING_TOO_LOW" ("`" +:+ c +:+ "` needs effects of at least reversible_write")) ++
      when (contains_str EXTERNAL_CAPABILITIES c &&
            (Effects_rank effects <? Effects_rank ExternalSideEffect))
        (issue p "CEILING_TOO_LOW" ("`" +:+ c +:+ "` needs effects of external_side_effect")) ++
      check_capabilities (S i) effects (c :: caps) l
  end.

Definition path_escapes (p : string) : bool :=
  starts_with "/" p || starts_with "\" p || contains_char ":" p ||
  existsb (λ s, s =s "..") (split_by (λ a, Ascii.eqb a "/" || Ascii.eqb a "\") p).

Definition plain_host (h : string) : bool :=
  negb (str_is_empty h) && (str_len h <=? 253) &&
  str_all (λ c, is_ascii_lower c || is_ascii_digit c || Ascii.eqb c "." || Ascii.eqb c "-") h.

Definition check_profile (pr : Profile) : list Issue :=
  check_capabilities O (pr_effects pr) [] (pr_capabilities pr) ++
  check_globs "/profile/paths" (pr_paths pr) 16 ++
  each (λ i p, when (path_escapes p)
                 (issue (sub "/profile/paths" i) "PATH_ESCAPES"
                    "a path is relative to the workspace and never leaves it")) (pr_paths pr) ++
  when (negb (is_empty (pr_paths pr)) && negb (contains_str (pr_capabilities pr) "fs.write"))
    (issue "/profile/paths" "PATHS_WITHOUT_WRITE" "paths narrow `fs.write`, which is not listed") ++
  when (Nat.ltb 16 (length (pr_hosts pr))) (issue "/profile/hosts" "TOO_MANY" "at most 16 hosts") ++
  each (λ i h, when (negb (plain_host h))
                 (issue (sub "/profile/hosts" i) "BAD_HOST" "a lowercase host name")) (pr_hosts pr) ++
  when (negb (is_empty (pr_hosts pr)) && negb (contains_str (pr_capabilities pr) "network.egress"))
    (issue "/profile/hosts" "HOSTS_WITHOUT_EGRESS"
       "hosts narrow `network.egress`, which is not listed") ++
  when (contains_str (pr_capabilities pr) "network.egress" && is_empty (pr_hosts pr))
    (issue "/profile/hosts" "EGRESS_WITHOUT_HOSTS" "network access names the hosts it may reach").

(** [(lo..=hi).contains(&x)]. *)
Definition within (lo hi x : Z) : bool := (lo <=? x) && (x <=? hi).
Definition none_or (p : Z → bool) (o : option Z) : bool :=
  match o with Some x => p x | None => true end.

Definition check_principal (p : Principal) : list Issue :=
  match p with
  | ServiceAccount id =>
      when (negb (plain_name id false ["-"%char] 40))
        (issue "/principal/id" "BAD_NAME" "a-z, 0-9 and `-`, starting with a letter")
  | Creator => []
  end.

Definition check_gate (g : option Gate) : list Issue :=
  match g with
  | Some g =>
      when (str_is_empty (trim (ga_prompt g)) || (4096 <? str_len (ga_prompt g)))
        (issue "/gate/prompt" "BAD_PROMPT" "1-4096 bytes of text") ++
      when (negb (within 1 8 (ga_max_turns g))) (issue "/gate/max_turns" "BAD_BOUND" "1-8")
  | None => []
  end.

Definition check_limits (d : AutomationDefinition) : list Issue :=
  let l := de_limits d in
  when (negb (within 1 10 (cc_queue_max (de_concurrency d))))
    (issue "/concurrency/queue_max" "BAD_BOUND" "1-10") ++
  when (negb (within 1 43200 (mi_catch_up_window_minutes (de_missed d))))
    (issue "/missed/catch_up_window_minutes" "BAD_BOUND" "1-43200") ++
  when (negb (within 1 1440 (li_deadline_minutes l)))
    (issue "/limits/deadline_minutes" "BAD_BOUND" "1-1440") ++
  when (negb (none_or (within 1 100000) (li_max_cost_minor l)))
    (issue "/limits/max_cost_minor" "BAD_BOUND" "1-100000") ++
  when (negb (within 1 200 (li_max_turns l))) (issue "/limits/max_turns" "BAD_BOUND" "1-200") ++
  when (negb (within 1 1000 (li_max_tool_calls l)))
    (issue "/limits/max_tool_calls" "BAD_BOUND" "1-1000") ++
  when (negb (within 1 10080 (li_approval_wait_minutes l)))
    (issue "/limits/approval_wait_minutes" "BAD_BOUND" "1-10080") ++
  when (negb (within 1 60 (bu_max_runs_per_hour (de_budget d))))
    (issue "/budget/max_runs_per_hour" "BAD_BOUND" "1-60") ++
  when (negb (none_or (within 1 10000000) (bu_daily_budget_minor (de_budget d))))
    (issue "/budget/daily_budget_minor" "BAD_BOUND" "1-10000000") ++
  match bu_daily_budget_minor (de_budget d), li_max_cost_minor l with
  | Some daily, Some cost =>
      when (daily <? cost)
        (issue "/budget/daily_budget_minor" "BAD_BOUND"
           "the daily budget cannot be below one run's cost limit")
  | _, _ => []
  end.

(** [validate]. *)
Definition validate (d : AutomationDefinition) : list Issue :=
  match def_value d with Some doc => find_secret_shapes "" doc | None => [] end ++
  when (negb (de_schema d =s SCHEMA))
    (issue "/schema" "BAD_SCHEMA"
       ("this build reads `" +:+ SCHEMA +:+ "`, not `" +:+ de_schema d +:+ "`")) ++
  when (negb (plain_name (de_name d) true ["-"; "_"]%char 64))
    (issue "/name" "BAD_NAME"
       "1-64 characters of a-z, 0-9, `-` and `_`, starting with a letter or digit") ++
  when (1000 <? str_len (de_description d)) (issue "/description" "TOO_LONG" "at most 1000 bytes") ++
  when (str_is_empty (trim (de_prompt d)) || (16 * 1024 <? str_len (de_prompt d)))
    (issue "/prompt" "BAD_PROMPT" "the prompt is 1-16384 bytes of text") ++
  when (Nat.ltb 16 (length (de_inputs d))) (issue "/inputs" "TOO_MANY" "at most 16 inputs") ++
  check_inputs O [] (de_inputs d) ++
  when (Nat.ltb 16 (length (de_outputs d))) (issue "/outputs" "TOO_MANY" "at most 16 outputs") ++
  check_outputs O [] (de_outputs d) ++
  when (is_empty (de_triggers d) || Nat.ltb 8 (length (de_triggers d)))
    (issue "/triggers" "BAD_TRIGGERS" "1-8 triggers") ++
  check_triggers O [] (de_triggers d) ++
  check_profile (de_profile d) ++
  check_principal (de_principal d) ++
  check_gate (de_gate d) ++
  check_limits d.

(** [parse_and_validate]. *)
Definition parse_and_validate (text : string) : result (list Issue) AutomationDefinition :=
  d ← parse text;
  match validate d with
  | [] => Ok d
  | issues => Err issues
  end.

End validate.

(** [resolve_inputs]: one pass over the names supplied, one over the inputs
    declared. *)
Definition resolve_step (supplied : bmap jvalue) (acc : bmap jvalue * list Issue) (spec : InputSpec)
    : bmap jvalue * list Issue :=
  let '(out, issues) := acc in
  match (match bget (in_name spec) supplied with Some v => Some v | None => in_default spec end) with
  | Some v =>
      match check_value spec v with
      | Ok _ => (binsert (in_name spec) v out, issues)
      | Err why => (out, issues ++ [issue ("/inputs/" +:+ in_name spec) "BAD_INPUT" why])
      end
  | None =>
      if in_required spec
      then (out, issues ++ [issue ("/inputs/" +:+ in_name spec) "MISSING_INPUT"
                              "required and has no default"])
      else (out, issues)
  end.

Definition unknown_inputs (d : AutomationDefinition) (supplied : bmap jvalue) : list Issue :=
  k ← supplied.*1;
  when (negb (existsb (λ i, in_name i =s k) (de_inputs d)))
    (issue ("/inputs/" +:+ k) "UNKNOWN_INPUT"
       ("`" +:+ k +:+ "` is not an input of `" +:+ de_name d +:+ "`")).

Definition resolve_inputs (d : AutomationDefinition) (supplied : bmap jvalue)
    : result (list Issue) (bmap jvalue) :=
  let '(out, issues) :=
    foldl (resolve_step supplied) ([], unknown_inputs d supplied) (de_inputs d) in
  match issues with
  | [] => Ok out
  | _ => Err issues
  end.

(** ** What a valid definition is *)

Lemma when_nil b i : when b i = [] ↔ b = false.
Proof. by destruct b. Qed.

Lemma each_from_nil {A} i (f : nat → A → list Issue) l :
  each_from i f l = [] ↔ ∀ k x, l !! k = Some x → f (i + k)%nat x = [].
Proof.
  revert i. induction l as [|y l IH]; intros i; cbn.
  - split; [intros _ k x Hk; by rewrite lookup_nil in Hk|done].
  - rewrite app_nil, IH. split.
    + intros [H1 H2] [|k] x Hk; cbn in Hk; simplify_eq; [by rewrite Nat.add_0_r|].
      rewrite Nat.add_succ_r. by apply (H2 k).
    + intros H. split; [specialize (H O y eq_refl); by rewrite Nat.add_0_r in H|].
      intros k x Hk. specialize (H (S k) x Hk). by rewrite Nat.add_succ_r in H.
Qed.

Lemma each_when_nil {A} (p : A → bool) (mk : nat → Issue) l :
  each (λ i x, when (p x) (mk i)) l = [] ↔ ∀ x, x ∈ l → p x = false.
Proof.
  unfold each. rewrite each_from_nil. split.
  - intros H x (k & Hk)%list_elem_of_lookup. specialize (H k x Hk). by apply when_nil in H.
  - intros H k x Hk. apply when_nil, H. by eapply list_elem_of_lookup_2.
Qed.

(** The capabilities a definition may carry under an effect ceiling. *)
Definition capability_allowed (e : Effects) (c : string) : Prop :=
  (c ∈ WRITE_CAPABILITIES ∧ Effects_rank ReversibleWrite ≤ Effects_rank e) ∨
  (c ∈ EXTERNAL_CAPABILITIES ∧ e = ExternalSideEffect).

Lemma check_capabilities_nil i e caps l :
  check_capabilities i e caps l = [] →
  (∀ c, c ∈ l → capability_allowed e c) ∧ NoDup l ∧ ∀ c, c ∈ l → c ∉ caps.
Proof.
  revert i caps. induction l as [|c l IH]; intros i caps; cbn [check_capabilities].
  { intros _. split_and!; [set_solver|constructor|set_solver]. }
  rewrite !app_nil, !when_nil. intros (Hk & Hd & Hw & He & Hl).
  apply IH in Hl as (H1 & H2 & H3). apply contains_str_false in Hd.
  split_and!.
  - intros x [->|Hx]%elem_of_cons; [|auto]. apply negb_false_iff, orb_true_iff in Hk.
    unfold capability_allowed. rewrite <- !contains_str_true. destruct Hk as [Hk|Hk].
    + left. split; [done|]. rewrite Hk in Hw. cbn in Hw. bool_to_prop. done.
    + right. split; [done|]. rewrite Hk in He. cbn in He. bool_to_prop. by destruct e.
  - constructor; [|done]. intros Hx. apply (H3 _ Hx). left.
  - intros x [->|Hx]%elem_of_cons; [done|]. specialize (H3 _ Hx). set_solver.
Qed.

Lemma check_triggers_nil `{RegexEngine} i ids l :
  check_triggers i ids l = [] →
  NoDup (Trigger_id <$> l) ∧ (∀ t, t ∈ l → Trigger_id t ∉ ids) ∧
  ∀ t, t ∈ l → ∃ p, check_trigger p t = [].
Proof.
  revert i ids. induction l as [|t l IH]; intros i ids; cbn [check_triggers].
  { intros _. split_and!; [constructor|set_solver..]. }
  rewrite !app_nil, when_nil, orb_false_iff, negb_false_iff, contains_str_false.
  intros ((Hp & Hi) & Ht & Hl). rewrite Hp in Hl. apply IH in Hl as (H1 & H2 & H3).
  split_and!.
  - cbn. constructor; [|done]. intros (u & Hu & Hul)%list_elem_of_fmap. apply (H2 u Hul). rewrite <- Hu. left.
  - intros u [->|Hu]%elem_of_cons; [done|]. specialize (H2 _ Hu). set_solver.
  - intros u [->|Hu]%elem_of_cons; eauto.
Qed.

(** The texts of a document. *)
Fixpoint strings_in (v : jvalue) : list string :=
  match v with
  | Jstring s => [s]
  | Jarray l => concat (map strings_in l)
  | Jobject m => concat (map (λ kv, strings_in kv.2) m)
  | _ => []
  end.

Section secrets.
Context {shapes : SecretShapes}.

Fixpoint find_secret_shapes_nil path (v : jvalue) {struct v} :
  find_secret_shapes path v = [] → ∀ s, s ∈ strings_in v → shape_of s = None.
Proof.
  destruct v as [|b|t i|x|l|m]; cbn; intros H s Hs; try by apply elem_of_nil in Hs.
  - apply list_elem_of_singleton in Hs as ->. by destruct (shape_of x).
  - revert H Hs. generalize O. induction l as [|y l IH]; intros n H Hs; [by apply elem_of_nil in Hs|].
    apply app_nil in H as [H1 H2]. cbn in Hs. apply elem_of_app in Hs as [Hs|Hs].
    + by eapply find_secret_shapes_nil.
    + by eapply IH.
  - revert H Hs. induction m as [|[k y] m IH]; intros H Hs; [by apply elem_of_nil in Hs|].
    apply app_nil in H as [H1 H2]. cbn in Hs. apply elem_of_app in Hs as [Hs|Hs].
    + by eapply find_secret_shapes_nil.
    + by eapply IH.
Qed.

End secrets.

(** A schedule trigger that can be relied on: a cron expression that has a next
    firing from every time on, or an interval within bounds. *)
Definition schedule_sound (cron : option string) (every_minutes : option Z) : Prop :=
  match cron, every_minutes with
  | Some c, None => ∃ parsed, Cron_parse c = Ok parsed ∧ ∀ now, is_Some (next_after parsed now)
  | None, Some n => 5 ≤ n ≤ 44640
  | _, _ => False
  end.

Lemma check_schedule_nil p cron every : check_schedule p cron every = [] → schedule_sound cron every.
Proof.
  unfold check_schedule, schedule_sound. destruct cron as [c|], every as [n|]; try done.
  - destruct (Cron_parse c) as [parsed|e]; [|discriminate]. intros H. exists parsed. split; [done|].
    assert (is_some (next_after parsed 0) = true) as Hs.
    { destruct (min_gap_minutes parsed) as [gap|]; [destruct (gap <? _); [done|]|];
        by apply when_nil, negb_false_iff in H. }
    destruct (next_after parsed 0) as [at_|] eqn:E; [|discriminate Hs]. unfold next_after in E.
    match type of E with next_from_day ?f ?c ?d ?s = _ =>
      pose proof (next_from_day_least f c d s) as Hl end.
    rewrite E in Hl. destruct Hl as (t & _ & _ & Hf & _). intros now. by eapply next_after_some.
  - intros H%when_nil. bool_to_prop. unfold SCHEDULE_FLOOR_MINUTES in *. lia.
Qed.

(** A path that is relative on every platform and never climbs. *)
Definition stays_inside (p : string) : Prop :=
  starts_with "/" p = false ∧ starts_with "\" p = false ∧ contains_char ":" p = false ∧
  ".." ∉ split_by (λ a, Ascii.eqb a "/" || Ascii.eqb a "\") p.

(** What validation promises of a definition. *)
Record sound_definition `{SecretShapes, DefinitionSerde} (d : AutomationDefinition) : Prop := {
  sd_secrets : ∀ doc s, def_value d = Some doc → s ∈ strings_in doc → shape_of s = None;
  sd_capabilities : ∀ c, c ∈ pr_capabilities (de_profile d) →
    capability_allowed (pr_effects (de_profile d)) c;
  sd_distinct : NoDup (pr_capabilities (de_profile d)) ∧ NoDup (Trigger_id <$> de_triggers d);
  sd_paths : ∀ p, p ∈ pr_paths (de_profile d) →
    "fs.write" ∈ pr_capabilities (de_profile d) ∧ stays_inside p;
  sd_hosts : pr_hosts (de_profile d) ≠ [] ↔ "network.egress" ∈ pr_capabilities (de_profile d);
  sd_schedules : ∀ id cron every, Schedule id cron every ∈ de_triggers d → schedule_sound cron every;
  sd_triggers : (1 ≤ length (de_triggers d) ≤ 8)%nat;
  sd_limits : 1 ≤ li_deadline_minutes (de_limits d) ≤ 1440 ∧ 1 ≤ li_max_turns (de_limits d) ≤ 200 ∧
    1 ≤ li_max_tool_calls (de_limits d) ≤ 1000 ∧
    1 ≤ li_approval_wait_minutes (de_limits d) ≤ 10080 ∧
    1 ≤ bu_max_runs_per_hour (de_budget d) ≤ 60 ∧
    1 ≤ mi_catch_up_window_minutes (de_missed d) ≤ 43200 ∧
    1 ≤ cc_queue_max (de_concurrency d) ≤ 10;
  sd_gate : ∀ g, de_gate d = Some g →
    trim (ga_prompt g) ≠ "" ∧ str_len (ga_prompt g) ≤ 4096 ∧ 1 ≤ ga_max_turns g ≤ 8;
  sd_cost : ∀ cost, li_max_cost_minor (de_limits d) = Some cost → 1 ≤ cost ≤ 100000;
  sd_daily : ∀ daily, bu_daily_budget_minor (de_budget d) = Some daily → 1 ≤ daily ≤ 10000000;
  sd_money : ∀ daily cost, bu_daily_budget_minor (de_budget d) = Some daily →
    li_max_cost_minor (de_limits d) = Some cost → cost ≤ daily
}.

Lemma within_true lo hi x : negb (within lo hi x) = false ↔ lo ≤ x ≤ hi.
Proof. unfold within. rewrite negb_false_iff, andb_true_iff, !Z.leb_le. done. Qed.

Lemma check_profile_nil pr :
  check_profile pr = [] →
  (∀ c, c ∈ pr_capabilities pr → capability_allowed (pr_effects pr) c) ∧
  NoDup (pr_capabilities pr) ∧
  (∀ p, p ∈ pr_paths pr →
     "fs.write" ∈ pr_capabilities pr ∧ stays_inside p) ∧
  (pr_hosts pr ≠ [] ↔ "network.egress" ∈ pr_capabilities pr).
Proof.
  unfold check_profile. rewrite !app_nil, !when_nil, !each_when_nil.
  intros (Hc & _ & Hp & Hpw & _ & _ & Hh & He).
  apply check_capabilities_nil in Hc as (H1 & H2 & _). split_and!; [done..| |].
  - intros p Hin. split.
    + rewrite <- contains_str_true. destruct (pr_paths pr); [by apply elem_of_nil in Hin|].
      cbn in Hpw. by apply negb_false_iff in Hpw.
    + specialize (Hp _ Hin). unfold path_escapes in Hp. rewrite !orb_false_iff in Hp.
      destruct Hp as (((Hp & Hb) & Hcol) & Hd). split_and!; [done..|]. apply existsb_false in Hd.
      rewrite Forall_forall in Hd. intros Hx. by specialize (Hd _ Hx).
  - rewrite <- contains_str_true. destruct (pr_hosts pr); cbn in Hh, He.
    + rewrite andb_true_r in He. split; [done|]. by rewrite He.
    + apply negb_false_iff in Hh. done.
Qed.

Section theorems.
Context {shapes : SecretShapes} {regex : RegexEngine} {serde : DefinitionSerde}.

(** C40: what a validated definition guarantees. No text of the document has the
    shape of a secret; every capability is one an automation may ask for under
    its own effect ceiling, so neither computer control nor secret use; write
    paths are relative on every platform, never climb, and belong to a listed
    [fs.write]; hosts are named exactly when network access is asked for; a cron
    schedule has a next firing from any time on, an interval is 5 to 44640 minutes;
    the deadline, turns, tool calls, approval wait, hourly runs, catch-up window, queue
    and the gate's prompt and turns are bounded; and the cost of a run and the budget of
    a day, each optional, are bounded where they are given, the day's budget by no
    less than a run's cost where both are. *)
Theorem validated_definition_sound d : validate d = [] → sound_definition d.
Proof.
  unfold validate. rewrite !app_nil, !when_nil.
  intros (Hs & _ & _ & _ & _ & _ & _ & _ & _ & Hnt & Ht & Hp & _ & Hg & Hl).
  apply check_triggers_nil in Ht as (Hid & _ & Htr). apply check_profile_nil in Hp as (Hc & Hnd & Hpa & Hh).
  unfold check_limits in Hl. rewrite !app_nil, !when_nil, !within_true in Hl.
  destruct Hl as (? & ? & ? & Hcost & ? & ? & ? & ? & Hdaily & Hb).
  constructor; try done.
  - intros doc s Hdoc Hin. rewrite Hdoc in Hs. by eapply find_secret_shapes_nil.
  - intros id cron every (p & Hck)%Htr. by eapply check_schedule_nil.
  - apply orb_false_iff in Hnt as [Hn1 Hn2%Nat.ltb_ge]. destruct (de_triggers d); cbn in *; [done|lia].
  - intros g Eg. rewrite Eg in Hg. cbn [check_gate] in Hg.
    rewrite app_nil, !when_nil, orb_false_iff, within_true, Z.ltb_ge in Hg.
    destruct Hg as ([He ?] & ?). split_and!; [|done|lia|lia]. by destruct (trim (ga_prompt g)).
  - intros cost Ec. rewrite Ec in Hcost. by apply within_true in Hcost.
  - intros daily Ed. rewrite Ed in Hdaily. by apply within_true in Hdaily.
  - intros daily cost Ed Ec. rewrite Ed, Ec in Hb. apply when_nil in Hb. bool_to_prop. lia.
Qed.

End theorems.

(** ** Typed inputs *)

(** The value an input takes: the one supplied, else its default. *)
Definition input_value (supplied : bmap jvalue) (spec : InputSpec) : option jvalue :=
  match bget (in_name spec) supplied with Some v => Some v | None => in_default spec end.

(** An input that can be resolved. *)
Definition input_ok (supplied : bmap jvalue) (spec : InputSpec) : Prop :=
  match input_value supplied spec with
  | Some v => check_value spec v = Ok tt
  | None => in_required spec = false
  end.

Lemma resolve_step_spec supplied out iss spec :
  (input_ok supplied spec ∧
   resolve_step supplied (out, iss) spec =
     (match input_value supplied spec with
      | Some v => binsert (in_name spec) v out
      | None => out
      end, iss)) ∨
  (¬ input_ok supplied spec ∧ ∃ i, resolve_step supplied (out, iss) spec = (out, iss ++ [i])).
Proof.
  unfold resolve_step, input_ok, input_value. cbn.
  destruct (match bget _ _ with Some _ => _ | None => _ end) as [v|].
  - destruct (check_value spec v) as [[]|why]; [by left|right]. split; [done|by eexists].
  - destruct (in_required spec); [right|by left]. split; [done|by eexists].
Qed.

Lemma resolve_fold supplied specs out iss :
  let '(out', iss') := foldl (resolve_step supplied) (out, iss) specs in
  (iss' = [] ↔ iss = [] ∧ Forall (input_ok supplied) specs) ∧
  (Forall (input_ok supplied) specs → ∀ k, bget k out' =
     match List.find (λ s, (in_name s =s k) && is_some (input_value supplied s)) (reverse specs) with
     | Some s => input_value supplied s
     | None => bget k out
     end).
Proof.
  revert out iss. induction specs as [|s specs IH]; intros out iss; cbn [foldl].
  { split; [|done]. split; [auto|]. by intros [-> _]. }
  destruct (resolve_step_spec supplied out iss s) as [[Hok ->]|(Hno & i & ->)].
  - specialize (IH (match input_value supplied s with
                    | Some v => binsert (in_name s) v out | None => out end) iss).
    destruct (foldl _ _ specs) as [out' iss']. destruct IH as [IH1 IH2]. split.
    + rewrite IH1, Forall_cons. naive_solver.
    + intros [_ Hall]%Forall_cons k. rewrite (IH2 Hall), reverse_cons. clear -Hok.
      induction (reverse specs) as [|x l IHl]; cbn.
      * destruct (input_value supplied s) as [v|] eqn:Ev; cbn; [|by rewrite andb_false_r].
        rewrite andb_true_r. destruct (String.eqb_spec (in_name s) k) as [->|Hne].
        -- by rewrite bget_insert, Ev.
        -- by rewrite bget_insert_ne.
      * by destruct (_ && _).
  - specialize (IH out (iss ++ [i])). destruct (foldl _ _ specs) as [out' iss'].
    destruct IH as [IH1 _]. split.
    + rewrite IH1, Forall_cons. split; [intros [[_ ?]%app_nil _]; done|naive_solver].
    + intros [? _]%Forall_cons. done.
Qed.

(** Typed inputs are resolved exactly. A run's inputs are accepted if and
    only if every supplied name is declared, and every declared input has a value
    of its type (supplied or default) or is optional; the result then holds for
    every declared input its value, and nothing else. *)
Theorem resolve_inputs_exact d supplied :
  NoDup (in_name <$> de_inputs d) →
  (∃ out, resolve_inputs d supplied = Ok out ∧
     (∀ spec, spec ∈ de_inputs d → bget (in_name spec) out = input_value supplied spec) ∧
     ∀ k, k ∉ in_name <$> de_inputs d → bget k out = None) ↔
  (∀ k, k ∈ supplied.*1 → k ∈ in_name <$> de_inputs d) ∧
  Forall (input_ok supplied) (de_inputs d).
Proof.
  intros Hnd. unfold resolve_inputs.
  pose proof (resolve_fold supplied (de_inputs d) [] (unknown_inputs d supplied)) as Hf.
  destruct (foldl _ _ _) as [out iss]. destruct Hf as [H1 H2].
  assert (unknown_inputs d supplied = [] ↔ ∀ k, k ∈ supplied.*1 → k ∈ in_name <$> de_inputs d) as Hu.
  { unfold unknown_inputs. induction (supplied.*1) as [|k l IH]; cbn; [set_solver|].
    rewrite app_nil, when_nil, negb_false_iff, IH, existsb_true. split.
    - intros [(s & Hs & <-%String.eqb_eq) Hl] x [->|Hx]%elem_of_cons; [by apply list_elem_of_fmap_2|auto].
    - intros Hl. split; [|set_solver].
      destruct (proj1 (list_elem_of_fmap _ _ _) (Hl k ltac:(left))) as (s & -> & Hs).
      exists s. by rewrite String.eqb_refl. }
  rewrite <- Hu, <- H1. split.
  - intros (o & Ho & _). by destruct iss.
  - intros ->. exists out. split; [done|]. destruct (proj1 H1 eq_refl) as [_ Hall]. split.
    + intros spec Hs. rewrite (H2 Hall). destruct (List.find _ _) as [s|] eqn:E.
      * apply find_some_iff in E as (l1 & l2 & E & [He%String.eqb_eq _]%andb_true_iff & _).
        assert (s ∈ de_inputs d) as Hs'.
        { apply elem_of_reverse. rewrite E. set_solver. }
        f_equal. apply list_elem_of_lookup in Hs as (i & Hi), Hs' as (j & Hj).
        assert (i = j) as ->; [|congruence].
        eapply (NoDup_lookup _ _ _ (in_name spec) Hnd); rewrite list_lookup_fmap.
        -- by rewrite Hi.
        -- rewrite Hj. cbn. by rewrite He.
      * apply find_none_forall in E. rewrite Forall_forall in E.
        specialize (E spec ltac:(by apply elem_of_reverse)).
        rewrite String.eqb_refl in E. cbn in E. by destruct (input_value supplied spec).
    + intros k Hk. rewrite (H2 Hall). destruct (List.find _ _) as [s|] eqn:E; [|done].
      apply find_some_iff in E as (l1 & l2 & E & [He%String.eqb_eq _]%andb_true_iff & _).
      destruct Hk. rewrite <- He. apply list_elem_of_fmap_2, elem_of_reverse. rewrite E. set_solver.
Qed.

(** ** Examples *)

Definition no_shapes : SecretShapes := λ _, None.
Definition literal_regex : RegexEngine := λ p, Ok (str_contains p).
Definition no_serde : DefinitionSerde :=
  {| def_value _ := None; def_text _ := None; def_from_str _ := Err ("", 0, 0) |}.

Definition nightly : AutomationDefinition :=
  {| de_schema := SCHEMA; de_name := "nightly"; de_description := ""; de_prompt := "report";
     de_inputs := [{| in_name := "level"; in_ty := VEnum; in_required := false;
                      in_default := Some (Jstring "low"); in_max_len := None;
                      in_values := ["low"; "high"]; in_description := "" |}];
     de_outputs := []; de_triggers := [Schedule "s" None (Some 60)];
     de_profile := {| pr_effects := ReversibleWrite; pr_capabilities := ["fs.write"];
                      pr_paths := ["reports/**"]; pr_hosts := [] |};
     de_principal := Creator;
     de_concurrency := {| cc_policy := CSkip; cc_queue_max := 3 |};
     de_missed := {| mi_policy := MSkip; mi_catch_up_window_minutes := 1440 |};
     de_limits := Limits_default;
     de_budget := {| bu_max_runs_per_hour := 12; bu_daily_budget_minor := None |};
     de_gate := None |}.

Lemma validated_definition_sound_witness :
  validate (shapes := no_shapes) (regex := literal_regex) (serde := no_serde) nightly = [] ∧
  capability_allowed ReversibleWrite "fs.write".
Proof.
  split; [reflexivity|].
  apply (sd_capabilities _ (validated_definition_sound (shapes := no_shapes)
    (regex := literal_regex) (serde := no_serde) nightly eq_refl) "fs.write"). left.
Defined.

Lemma resolve_inputs_exact_witness :
  ∃ out, resolve_inputs nightly [("level", Jstring "high")] = Ok out ∧
    bget "level" out = Some (Jstring "high").
Proof.
  destruct (proj2 (resolve_inputs_exact nightly [("level", Jstring "high")]
    (NoDup_singleton "level"))) as (out & Ho & Hs & _).
  - split; [intros k Hk; exact Hk|repeat constructor].
  - exists out. split; [exact Ho|]. exact (Hs _ ltac:(left)).
Defined.
