(* ===== verification/Schedule.v ===== *)
(** * Schedule evaluation

    [crates/automation/src/schedule.rs]: which slots of a schedule fire at an
    instant, which were missed, and where the cursor moves to. The loop of [plan]
    is bounded by the code's own limit of 50000 slots, which is the fuel here. *)

From stdpp Require Import sorting.
From S2P Require Import Prelude RustStr Cron AutoDef.
#[local] Open Scope Z_scope.

Inductive Spec :=
  | SCron (c : Cron)
  | Every (interval_ms anchor_ms : Z).

(** [Spec::of]. *)
Definition Spec_of (trigger : Trigger) (anchor_ms : Z) : option Spec :=
  match trigger with
  | Schedule _ (Some c) None => SCron <$> result_ok (Cron_parse c)
  | Schedule _ None (Some m) => Some (Every (m * 60000) anchor_ms)
  | _ => None
  end.

(** [Spec::next_after]; the division truncates, of a number that is not
    negative. *)
Definition Spec_next_after (spec : Spec) (after_ms : Z) : option Z :=
  match spec with
  | SCron c => next_after c after_ms
  | Every interval_ms anchor_ms =>
      if after_ms <? anchor_ms then Some (anchor_ms + interval_ms)
      else Some (anchor_ms + (Z.quot (after_ms - anchor_ms) interval_ms + 1) * interval_ms)
  end.

Record Slot := {
  sl_slot_ms : Z;
  sl_catch_up : bool;
  sl_missed_before : Z
}.

Record Plan := {
  pl_fire : list Slot;
  pl_skipped : Z;
  pl_skipped_first_ms : option Z;
  pl_skipped_last_ms : option Z;
  pl_through_ms : Z;
  pl_next_due_ms : option Z
}.

Definition MAX_SLOTS_EXAMINED : Z := 50000.

(** The variables of the loop. *)
Record PlanState := {
  ps_on_time : list Z;
  ps_missed : list Z;
  ps_missed_count : Z;
  ps_first_missed : option Z;
  ps_last_missed : option Z;
  ps_through : Z;
  ps_examined : Z;
  ps_at : Z
}.

Definition plan_start (cursor_ms : Z) : PlanState :=
  {| ps_on_time := []; ps_missed := []; ps_missed_count := 0; ps_first_missed := None;
     ps_last_missed := None; ps_through := cursor_ms; ps_examined := 0; ps_at := cursor_ms |}.

(** The body of the loop, for a slot that is due. *)
Definition plan_slot (now_ms grace_ms slot : Z) (s : PlanState) : PlanState :=
  let s := { s with ps_examined ::= λ n, wrap64 (n + 1); ps_through := slot; ps_at := slot } in
  if now_ms - slot <=? grace_ms then { s with ps_on_time ::= λ l, l ++ [slot] }
  else
    let missed := ps_missed s ++ [slot] in
    { s with ps_missed_count ::= λ n, wrap64 (n + 1);
             ps_first_missed ::= λ f, match f with Some x => Some x | None => Some slot end;
             ps_last_missed := Some slot;
             ps_missed := if Nat.ltb 2 (length missed) then vec_remove 0 missed else missed }.

Fixpoint plan_loop (fuel : nat) (spec : Spec) (now_ms grace_ms : Z) (s : PlanState) : PlanState :=
  match fuel with
  | O => s
  | S fuel =>
      match Spec_next_after spec (ps_at s) with
      | None => s
      | Some slot =>
          if (now_ms <? slot) || (MAX_SLOTS_EXAMINED <=? ps_examined s) then s
          else plan_loop fuel spec now_ms grace_ms (plan_slot now_ms grace_ms slot s)
      end
  end.

(** What follows the loop. *)
Definition plan_finish (spec : Spec) (now_ms : Z) (policy : MissedPolicy) (catch_up_window_ms : Z)
    (s : PlanState) : Plan :=
  let next_due_ms := Spec_next_after spec (Z.max now_ms (ps_through s)) in
  let on_time := (λ x, {| sl_slot_ms := x; sl_catch_up := false; sl_missed_before := 0 |}) <$>
                   ps_on_time s in
  let missed_count := ps_missed_count s in
  let '(fire, skipped) :=
    match policy, on_time, ps_last_missed s with
    | RunOnce, [], Some latest =>
        if now_ms - latest <=? catch_up_window_ms
        then ([{| sl_slot_ms := latest; sl_catch_up := true;
                  sl_missed_before := wrap64 (missed_count - 1) |}], wrap64 (missed_count - 1))
        else (on_time, missed_count)
    | _, _, _ => (on_time, missed_count)
    end in
  let '(first, last) :=
    if skipped =? 0 then (None, None)
    else if existsb sl_catch_up fire
    then (ps_first_missed s,
          match reverse (ps_missed s) !! 1%nat with
          | Some x => Some x
          | None => ps_first_missed s
          end)
    else (ps_first_missed s, ps_last_missed s) in
  {| pl_fire := fire; pl_skipped := skipped; pl_skipped_first_ms := first;
     pl_skipped_last_ms := last; pl_through_ms := ps_through s; pl_next_due_ms := next_due_ms |}.

(** [plan]. *)
Definition plan (spec : Spec) (cursor_ms now_ms grace_ms : Z) (policy : MissedPolicy)
    (catch_up_window_ms : Z) : Plan :=
  plan_finish spec now_ms policy catch_up_window_ms
    (plan_loop (S (Z.to_nat MAX_SLOTS_EXAMINED)) spec now_ms grace_ms (plan_start cursor_ms)).

(** ** The slots of a schedule *)

(** A specification that moves forward: an interval is positive. *)
Definition spec_wf (spec : Spec) : Prop :=
  match spec with SCron _ => True | Every interval_ms _ => 0 < interval_ms end.

Lemma spec_next_strict spec at_ s :
  spec_wf spec → Spec_next_after spec at_ = Some s → at_ < s.
Proof.
  destruct spec as [c|i a]; cbn [spec_wf Spec_next_after].
  - intros _ E. unfold next_after in E.
    match type of E with next_from_day ?f ?c ?d ?st = _ =>
      pose proof (next_from_day_least f c d st) as Hl end.
    rewrite E in Hl. destruct Hl as (t & -> & Ht & _). unfold MINUTE_MS in *. dlia.
  - intros Hi. destruct (Z.ltb_spec at_ a); intros [= <-]; [lia|].
    rewrite Z.quot_div_nonneg by lia. dlia.
Qed.

(** The slots of an interval schedule are the multiples of the interval after its
    anchor, and [next_after] is the least later one. *)
Lemma every_next_least i a at_ :
  0 < i →
  ∃ k, 1 ≤ k ∧ Spec_next_after (Every i a) at_ = Some (a + k * i) ∧ at_ < a + k * i ∧
    ∀ k', 1 ≤ k' → at_ < a + k' * i → k ≤ k'.
Proof.
  intros Hi. cbn [Spec_next_after]. destruct (Z.ltb_spec at_ a).
  - exists 1. split_and!; [lia|f_equal; lia|lia|lia].
  - rewrite Z.quot_div_nonneg by lia. exists ((at_ - a) / i + 1).
    pose proof (Z.div_pos (at_ - a) i ltac:(lia) Hi).
    pose proof (Z.mul_div_le (at_ - a) i Hi). pose proof (Z.mul_succ_div_gt (at_ - a) i Hi).
    split_and!; [lia|done|nia|]. intros k' Hk' Hlt.
    assert ((at_ - a) / i < k'); [|lia]. apply Z.div_lt_upper_bound; nia.
Qed.

(** The slots due at [now] after [at_], the first [n] of them. *)
Fixpoint due (n : nat) (spec : Spec) (at_ now : Z) : list Z :=
  match n with
  | O => []
  | S n =>
      match Spec_next_after spec at_ with
      | Some s => if now <? s then [] else s :: due n spec s now
      | None => []
      end
  end.

Definition is_on_time (now grace s : Z) : bool := now - s <=? grace.

(** The state of the loop after the slots [ds]. *)
Definition state_of (now grace cursor : Z) (ds : list Z) : PlanState :=
  let missed := List.filter (λ s, negb (is_on_time now grace s)) ds in
  {| ps_on_time := List.filter (is_on_time now grace) ds;
     ps_missed := drop (length missed - 2) missed;
     ps_missed_count := Z.of_nat (length missed);
     ps_first_missed := head missed;
     ps_last_missed := last missed;
     ps_through := default cursor (last ds);
     ps_examined := Z.of_nat (length ds);
     ps_at := default cursor (last ds) |}.

Lemma plan_slot_state now grace cursor ds slot :
  (length ds < Z.to_nat MAX_SLOTS_EXAMINED)%nat →
  plan_slot now grace slot (state_of now grace cursor ds) = state_of now grace cursor (ds ++ [slot]).
Proof.
  intros Hlen. assert (Z.of_nat (length ds) < 50000) as Hl by (unfold MAX_SLOTS_EXAMINED in Hlen; lia).
  set (missed := List.filter (λ s, negb (is_on_time now grace s)) ds).
  assert (length missed ≤ length ds)%nat as Hm.
  { unfold missed. clear. induction ds as [|x ds IH]; cbn; [done|]. destruct (negb _); cbn; lia. }
  unfold plan_slot, state_of. rewrite !List.filter_app. cbn [List.filter].
  fold missed. fold (is_on_time now grace slot).
  rewrite last_snoc, (length_app ds [slot]). cbn [length].
  replace (Z.of_nat (length ds + 1)) with (Z.of_nat (length ds) + 1) by lia.
  assert (∀ x, 0 ≤ x < 50000 → wrap64 (x + 1) = x + 1) as Hw
    by (intros x Hx; apply wrap64_small; unfold in_u64, u64_max; lia).
  destruct (is_on_time now grace slot) eqn:E; cbn -[Nat.ltb].
  - rewrite app_nil_r, Hw by lia. done.
  - rewrite app_nil_r, last_snoc, !Hw by lia. f_equal.
    + rewrite !length_app, length_drop. cbn [length].
      destruct (decide (length missed < 2)%nat) as [Hlt|Hge].
      * replace (length missed - 2)%nat with 0%nat by lia.
        replace (length missed + 1 - 2)%nat with 0%nat by lia. rewrite !drop_0.
        by destruct (Nat.ltb_spec 2 (length missed - 0 + 1)); [lia|].
      * destruct (Nat.ltb_spec 2 (length missed - (length missed - 2) + 1)); [|lia].
        unfold vec_remove. rewrite take_0. cbn [app]. rewrite <- drop_app_le by lia.
        rewrite drop_drop. unfold constant. f_equal. lia.
    + rewrite length_app. cbn. lia.
    + by destruct missed.
Qed.

Lemma plan_loop_due fuel spec now grace cursor ds :
  (length ds ≤ Z.to_nat MAX_SLOTS_EXAMINED)%nat →
  (Z.to_nat MAX_SLOTS_EXAMINED < length ds + fuel)%nat →
  plan_loop fuel spec now grace (state_of now grace cursor ds) =
  state_of now grace cursor
    (ds ++ due (Z.to_nat MAX_SLOTS_EXAMINED - length ds) spec (default cursor (last ds)) now).
Proof.
  revert ds. induction fuel as [|fuel IH]; intros ds H1 H2; [lia|]. cbn [plan_loop].
  change (ps_at (state_of now grace cursor ds)) with (default cursor (last ds)).
  change (ps_examined (state_of now grace cursor ds)) with (Z.of_nat (length ds)).
  destruct (Z.leb_spec MAX_SLOTS_EXAMINED (Z.of_nat (length ds))) as [Hmax|Hmax].
  - replace (Z.to_nat MAX_SLOTS_EXAMINED - length ds)%nat with 0%nat by lia.
    cbn [due]. rewrite app_nil_r. destruct (Spec_next_after _ _); [by rewrite orb_true_r|done].
  - destruct (Z.to_nat MAX_SLOTS_EXAMINED - length ds)%nat as [|k] eqn:Ek; [lia|]. cbn [due].
    destruct (Spec_next_after _ _) as [slot|]; [|by rewrite app_nil_r].
    rewrite orb_false_r. destruct (now <? slot); [by rewrite app_nil_r|].
    rewrite plan_slot_state by lia. rewrite IH by (rewrite length_app; cbn; lia).
    rewrite last_snoc, length_app. cbn [default length].
    replace (Z.to_nat MAX_SLOTS_EXAMINED - (length ds + 1))%nat with k by lia.
    by rewrite <- app_assoc.
Qed.

(** The bound of the loop as a number of slots. *)
Definition max_slots : nat := Z.to_nat MAX_SLOTS_EXAMINED.

Lemma max_slots_Z : Z.of_nat max_slots = 50000.
Proof. reflexivity. Qed.

#[local] Opaque max_slots.

Lemma state_of_start now grace cursor : plan_start cursor = state_of now grace cursor [].
Proof. done. Qed.

Lemma plan_due spec cursor now grace policy window :
  plan spec cursor now grace policy window =
  plan_finish spec now policy window (state_of now grace cursor (due max_slots spec cursor now)).
Proof.
  unfold plan. f_equal. rewrite (state_of_start now grace).
  rewrite plan_loop_due by (cbn [length]; lia). cbn [length app last default].
  by rewrite Nat.sub_0_r.
Qed.

Lemma due_length n spec at_ now : (length (due n spec at_ now) ≤ n)%nat.
Proof.
  revert at_. induction n as [|n IH]; intros at_; cbn; [done|].
  destruct (Spec_next_after spec at_) as [s|]; cbn; [|lia]. destruct (now <? s); cbn; [lia|].
  specialize (IH s). lia.
Qed.

Lemma due_sorted n spec at_ now :
  spec_wf spec →
  StronglySorted Z.lt (due n spec at_ now) ∧ Forall (λ s, at_ < s ≤ now) (due n spec at_ now).
Proof.
  intros Hwf. revert at_. induction n as [|n IH]; intros at_; cbn; [split; constructor|].
  destruct (Spec_next_after spec at_) as [s|] eqn:E; [|split; constructor].
  destruct (Z.ltb_spec now s); [split; constructor|].
  pose proof (spec_next_strict _ _ _ Hwf E). destruct (IH s) as [H1 H2]. split.
  - constructor; [done|]. eapply Forall_impl; [exact H2|]. cbn. lia.
  - constructor; [lia|]. eapply Forall_impl; [exact H2|]. cbn. lia.
Qed.

(** The missed slots of an evaluation and the ones on time. *)
Definition missed_slots (spec : Spec) (cursor now grace : Z) : list Z :=
  List.filter (λ s, negb (is_on_time now grace s)) (due max_slots spec cursor now).
Definition on_time_slots (spec : Spec) (cursor now grace : Z) : list Z :=
  List.filter (is_on_time now grace) (due max_slots spec cursor now).

(** The one missed slot that still earns a run. *)
Definition catch_up_slot (policy : MissedPolicy) (window now : Z) (on_time missed : list Z) : option Z :=
  match policy, on_time, last missed with
  | RunOnce, [], Some latest => if now - latest <=? window then Some latest else None
  | _, _, _ => None
  end.

Lemma plan_finish_cursor spec now policy window s :
  pl_through_ms (plan_finish spec now policy window s) = ps_through s ∧
  pl_next_due_ms (plan_finish spec now policy window s) =
    Spec_next_after spec (Z.max now (ps_through s)).
Proof.
  unfold plan_finish. cbv zeta. destruct (match policy with MSkip => _ | RunOnce => _ end) as [fire skipped].
  destruct (if skipped =? 0 then _ else _) as [first last]. split; reflexivity.
Qed.

Lemma second_last {A} (l : list A) x :
  reverse (drop (length (l ++ [x]) - 2) (l ++ [x])) !! 1%nat = last l.
Proof.
  destruct l as [|y l _] using rev_ind; [done|].
  replace (length ((l ++ [y]) ++ [x]) - 2)%nat with (length l) by (rewrite !length_app; cbn; lia).
  by rewrite <- app_assoc, drop_app_length, last_snoc.
Qed.

#[local] Opaque Spec_next_after.

Lemma plan_cases spec cursor now grace policy window :
  let missed := missed_slots spec cursor now grace in
  let on_time := on_time_slots spec cursor now grace in
  let p := plan spec cursor now grace policy window in
  match catch_up_slot policy window now on_time missed with
  | Some latest =>
      ∃ before, missed = before ++ [latest] ∧ on_time = [] ∧
        pl_fire p = [{| sl_slot_ms := latest; sl_catch_up := true;
                        sl_missed_before := Z.of_nat (length before) |}] ∧
        pl_skipped p = Z.of_nat (length before) ∧
        pl_skipped_first_ms p = head before ∧ pl_skipped_last_ms p = last before
  | None =>
      pl_fire p = (λ s, {| sl_slot_ms := s; sl_catch_up := false; sl_missed_before := 0 |}) <$>
                    on_time ∧
      pl_skipped p = Z.of_nat (length missed) ∧
      pl_skipped_first_ms p = head missed ∧ pl_skipped_last_ms p = last missed
  end ∧
  pl_through_ms p = default cursor (last (due max_slots spec cursor now)) ∧
  pl_next_due_ms p = Spec_next_after spec (Z.max now (pl_through_ms p)).
Proof.
  cbv zeta. rewrite plan_due.
  match goal with |- context [plan_finish spec now policy window ?s] =>
    destruct (plan_finish_cursor spec now policy window s) as [Ht Hnd] end.
  rewrite Ht, Hnd. split; [|split; reflexivity]. clear Ht Hnd.
  pose proof (due_length max_slots spec cursor now) as Hd.
  assert (length (missed_slots spec cursor now grace) ≤ length (due max_slots spec cursor now))%nat as Hm.
  { unfold missed_slots. generalize (due max_slots spec cursor now). clear. intros l.
    induction l as [|x l IH]; cbn; [done|]. destruct (negb _); cbn; lia. }
  set (ds := due max_slots spec cursor now) in *.
  unfold state_of, plan_finish. cbn -[due Nat.sub drop].
  change (List.filter (λ s, negb (is_on_time now grace s)) ds) with (missed_slots spec cursor now grace).
  change (List.filter (is_on_time now grace) ds) with (on_time_slots spec cursor now grace).
  set (missed := missed_slots spec cursor now grace) in *.
  set (on_time := on_time_slots spec cursor now grace) in *. clearbody missed on_time ds.
  pose proof max_slots_Z. assert (Z.of_nat (length missed) ≤ 50000) as Hm' by lia. clear Hd Hm.
  assert (∀ fire, existsb sl_catch_up fire = false →
    let r := (if Z.of_nat (length missed) =? 0 then (None, None)
              else if existsb sl_catch_up fire
              then (head missed, match reverse (drop (length missed - 2) missed) !! 1%nat with
                                 | Some x => Some x | None => head missed end)
              else (head missed, last missed)) in
    r = (head missed, last missed)) as Hskip.
  { intros fire ->. cbv zeta. by destruct missed. }
  assert (existsb sl_catch_up ((λ x, {| sl_slot_ms := x; sl_catch_up := false; sl_missed_before := 0 |})
            <$> on_time) = false) as Hn.
  { clear. induction on_time; cbn; auto. }
  unfold catch_up_slot. destruct policy; [|destruct on_time as [|o on_time]; [|]].
  - cbn -[Nat.sub drop]. rewrite Hskip by done. cbn. split_and!; reflexivity.
  - destruct missed as [|latest before _] using rev_ind; [cbn; split_and!; reflexivity|].
    rewrite last_snoc. cbn -[Nat.sub drop]. destruct (now - latest <=? window); [|].
    + exists before. split; [done|]. split; [done|].
      rewrite length_app in *. cbn [length] in *.
      replace (wrap64 (Z.of_nat (length before + 1) - 1)) with (Z.of_nat (length before))
        by (rewrite wrap64_small; unfold in_u64, u64_max; lia).
      pose proof (second_last before latest) as H2. rewrite length_app in H2. cbn [length] in H2.
      unfold reverse in H2. rewrite H2.
      destruct before as [|b before]; cbn -[last]; [split_and!; reflexivity|].
      assert (∃ x, last (b :: before) = Some x) as (x & ->)
        by (clear; revert b; induction before as [|y l IH]; intros b; [by exists b|apply IH]).
      split_and!; reflexivity.
    + specialize (Hskip [] eq_refl). cbv zeta in Hskip. rewrite last_snoc in Hskip.
      cbn [existsb] in Hskip. cbn -[Nat.sub drop]. rewrite Hskip. split_and!; reflexivity.
  - cbn -[Nat.sub drop]. rewrite Hskip by done. split_and!; reflexivity.
Qed.

(** An evaluation accounts for every slot. The slots due since the cursor (at
    most 50000 at once) are split into those on time and those missed. Those on
    time fire, oldest first; if there are none and the policy allows it, the
    latest missed one fires once for the whole window. Every other missed slot is
    counted as skipped, once, with the first and the last of them; the cursor
    moves to the last slot that was due. *)
Theorem plan_accounts spec cursor now grace policy window :
  let missed := missed_slots spec cursor now grace in
  let on_time := on_time_slots spec cursor now grace in
  let p := plan spec cursor now grace policy window in
  match catch_up_slot policy window now on_time missed with
  | Some latest =>
      ∃ before, missed = before ++ [latest] ∧ on_time = [] ∧
        pl_fire p = [{| sl_slot_ms := latest; sl_catch_up := true;
                        sl_missed_before := Z.of_nat (length before) |}] ∧
        pl_skipped p = Z.of_nat (length before) ∧
        pl_skipped_first_ms p = head before ∧ pl_skipped_last_ms p = last before
  | None =>
      pl_fire p = (λ s, {| sl_slot_ms := s; sl_catch_up := false; sl_missed_before := 0 |}) <$>
                    on_time ∧
      pl_skipped p = Z.of_nat (length missed) ∧
      pl_skipped_first_ms p = head missed ∧ pl_skipped_last_ms p = last missed
  end ∧
  pl_through_ms p = default cursor (last (due max_slots spec cursor now)) ∧
  pl_next_due_ms p = Spec_next_after spec (Z.max now (pl_through_ms p)).
Proof. apply plan_cases. Qed.

(** ** Slots fire at most once *)

(** One evaluation of the host: the plan from the cursor, whose slots fire and
    whose end is the next cursor. *)
Definition evaluate (spec : Spec) (grace : Z) (policy : MissedPolicy) (window : Z)
    (st : Z * list Slot) (now : Z) : Z * list Slot :=
  let p := plan spec st.1 now grace policy window in
  (pl_through_ms p, st.2 ++ pl_fire p).

Lemma sorted_last l x : StronglySorted Z.lt l → last l = Some x → Forall (λ y, y ≤ x) l.
Proof.
  induction 1 as [|y l Hl IH Hy]; [done|]. destruct l as [|z l]; [intros [= ->]; by repeat constructor|].
  intros Hx. specialize (IH Hx). constructor; [|done].
  apply Forall_cons in IH as [Hz _]. apply Forall_cons in Hy as [Hyz _]. lia.
Qed.

Lemma on_time_times (l : list Z) :
  sl_slot_ms <$> ((λ s, {| sl_slot_ms := s; sl_catch_up := false; sl_missed_before := 0 |}) <$> l) = l.
Proof. induction l as [|x l IH]; cbn; [done|]. f_equal. exact IH. Qed.

Lemma plan_fires_within spec cursor now grace policy window :
  spec_wf spec →
  let p := plan spec cursor now grace policy window in
  StronglySorted Z.lt (sl_slot_ms <$> pl_fire p) ∧
  Forall (λ s, cursor < s ≤ pl_through_ms p) (sl_slot_ms <$> pl_fire p) ∧
  cursor ≤ pl_through_ms p.
Proof.
  intros Hwf. cbv zeta.
  destruct (plan_cases spec cursor now grace policy window) as (Hc & Ht & _).
  destruct (due_sorted max_slots spec cursor now Hwf) as [Hs Hd]. rewrite Ht.
  unfold missed_slots, on_time_slots in Hc. set (ds := due max_slots spec cursor now) in *.
  assert (Forall (λ s, cursor < s ≤ default cursor (last ds)) ds) as Hb.
  { apply Forall_forall. intros s Hin. rewrite Forall_forall in Hd. split; [by apply Hd|].
    destruct (last ds) as [x|] eqn:El; cbn.
    - pose proof (sorted_last _ _ Hs El) as Hx. rewrite Forall_forall in Hx. auto.
    - apply last_None in El. rewrite El in Hin. by apply elem_of_nil in Hin. }
  assert (∀ p, StronglySorted Z.lt (List.filter p ds) ∧
    Forall (λ s, cursor < s ≤ default cursor (last ds)) (List.filter p ds)) as Hf.
  { intros p. split; [by apply filter_sorted|]. rewrite Forall_forall in Hb |- *.
    intros s [Hin _]%elem_of_filter_b. auto. }
  split_and!.
  - destruct (catch_up_slot _ _ _ _ _).
    + destruct Hc as (before & _ & _ & -> & _). repeat constructor.
    + destruct Hc as (-> & _). rewrite on_time_times. apply Hf.
  - destruct (catch_up_slot _ _ _ _ _) as [x|].
    + destruct Hc as (before & Hm & _ & -> & _). constructor; [|constructor].
      destruct (Hf (λ s, negb (is_on_time now grace s))) as [_ Hx]. rewrite Hm in Hx.
      apply Forall_app in Hx as [_ Hx]. by apply Forall_cons in Hx as [Hx _].
    + destruct Hc as (-> & _). rewrite on_time_times. apply Hf.
  - destruct (last ds) as [x|] eqn:El; cbn; [|lia]. apply last_Some_elem_of in El.
    rewrite Forall_forall in Hd. specialize (Hd _ El). cbn in Hd. lia.
Qed.

(** No slot fires twice. However often and whenever the host evaluates a
    schedule, also with a clock that goes back, the slots it fires are strictly
    increasing over all evaluations, they lie behind the first cursor and not
    behind the last one, and the cursor never moves back. *)
Theorem schedule_fires_once spec grace policy window cursor times :
  spec_wf spec →
  let '(cursor', fired) := foldl (evaluate spec grace policy window) (cursor, []) times in
  StronglySorted Z.lt (sl_slot_ms <$> fired) ∧
  Forall (λ s, cursor < s ≤ cursor') (sl_slot_ms <$> fired) ∧ cursor ≤ cursor'.
Proof.
  intros Hwf.
  induction times as [|now times IH] using rev_ind; cbn; [split_and!; [constructor..|lia]|].
  rewrite foldl_app. cbn [foldl]. destruct (foldl _ _ times) as [c fired]. destruct IH as (H1 & H2 & H3).
  unfold evaluate. cbn [fst snd].
  destruct (plan_fires_within spec c now grace policy window Hwf) as (P1 & P2 & P3).
  rewrite fmap_app. split_and!; [|apply Forall_app; split|lia].
  - apply StronglySorted_app. split_and!; [|done|done]. intros x y Hx Hy.
    rewrite Forall_forall in H2, P2. specialize (H2 _ Hx). specialize (P2 _ Hy). cbn in *. lia.
  - eapply Forall_impl; [exact H2|]. cbn. lia.
  - eapply Forall_impl; [exact P2|]. cbn. lia.
Qed.

Lemma schedule_fires_once_witness :
  spec_wf (Every 300000 0) ∧
  let '(cursor', fired) :=
    foldl (evaluate (Every 300000 0) 1000 RunOnce 86400000) (0, []) [300000; 900000] in
  StronglySorted Z.lt (sl_slot_ms <$> fired) ∧
  Forall (λ s, 0 < s ≤ cursor') (sl_slot_ms <$> fired) ∧ 0 ≤ cursor'.
Proof.
  split; [reflexivity|].
  apply (schedule_fires_once (Every 300000 0) 1000 RunOnce 86400000 0 [300000; 900000]).
  reflexivity.
Defined.
