(* ===== verification/Filter.v ===== *)
(** * Trigger filters

    [crates/automation/src/filter.rs]: which deliveries a trigger lets through.
    Patterns and texts are matched by characters, so a Rust string is split into
    its UTF-8 characters here. *)

From S2P Require Import Prelude RustStr BTree External Cron AutoDef.
#[local] Open Scope Z_scope.

(** [Value::pointer] of [serde_json] (RFC 6901). *)
Class JsonPointer := json_pointer : jvalue → string → option jvalue.

Definition MAX_FIELD_CHARS : nat := Z.to_nat 4096.
Definition MAX_PATTERN_CHARS : nat := Z.to_nat 256.

Inductive Tok :=
  | Lit (c : string)
  | One
  | Star
  | StarStar.

Fixpoint tokens (pattern : list string) : list Tok :=
  match pattern with
  | [] => []
  | c :: rest =>
      if c =s "*" then
        match rest with
        | d :: rest' => if d =s "*" then StarStar :: tokens rest' else Star :: tokens rest
        | [] => [Star]
        end
      else if c =s "?" then One :: tokens rest
      else Lit c :: tokens rest
  end.

(** One row of the table, from the right: [next] is the row below, whose first
    entry is [next[j]] and whose second is [next[j + 1]]. *)
Fixpoint row (tok : Tok) (text : list string) (next : list bool) : list bool :=
  match text with
  | [] =>
      [match tok with
       | Lit _ | One => false
       | Star | StarStar => hd false next
       end]
  | c :: text =>
      let rest := row tok text (tl next) in
      (match tok with
       | Lit d => (c =s d) && hd false (tl next)
       | One => negb (c =s "/") && hd false (tl next)
       | Star => hd false next || (negb (c =s "/") && hd false rest)
       | StarStar => hd false next || hd false rest
       end) :: rest
  end.

(** The row of the empty pattern: only the empty rest matches. *)
Definition last_row (text : list string) : list bool := replicate (length text) false ++ [true].

Definition glob_match (pattern text : string) : bool :=
  let toks := tokens (take MAX_PATTERN_CHARS (chars pattern)) in
  let text := take MAX_FIELD_CHARS (chars text) in
  hd false (foldr (λ tok next, row tok text next) (last_row text) toks).

Definition jget (payload : jvalue) (key : string) : option jvalue :=
  match payload with Jobject m => bget key m | _ => None end.

Definition str_of (payload : jvalue) (key : string) : option string :=
  match jget payload key with Some (Jstring s) => Some s | _ => None end.

Definition strings_of (payload : jvalue) (key : string) : list string :=
  match jget payload key with
  | Some (Jarray l) => omap (λ v, match v with Jstring s => Some s | _ => None end) l
  | _ => []
  end.

Definition clip (s : string) : string := take_chars MAX_FIELD_CHARS s.

Section apply.
Context {regex : RegexEngine} {ptr : JsonPointer}.

(** A regular expression over a named text field. *)
Definition apply_regex (payload : jvalue) (pattern : option string) (key : string)
    : result string bool :=
  match pattern with
  | None => Ok true
  | Some p =>
      re ← compile_regex p;
      match str_of payload key with
      | None => Ok false
      | Some v => Ok (re (clip v))
      end
  end.

Definition field_text (v : jvalue) : option string :=
  match v with
  | Jstring s => Some (clip s)
  | Jnumber n _ => Some n
  | Jbool b => Some (if b then "true" else "false")
  | _ => None
  end.

Definition apply_field (payload : jvalue) (f : FieldFilter) : result string bool :=
  match json_pointer payload (ff_pointer f) with
  | None => Ok false
  | Some v =>
      match field_text v with
      | None => Ok false
      | Some text =>
          if match ff_equals f with Some e => negb (text =s e) | None => false end then Ok false
          else
            match ff_regex f with
            | Some r => re ← compile_regex r; Ok (re text)
            | None => Ok true
            end
      end
  end.

Fixpoint apply_fields (payload : jvalue) (fs : list FieldFilter) : result string bool :=
  match fs with
  | [] => Ok true
  | f :: fs =>
      ok ← apply_field payload f;
      if (ok : bool) then apply_fields payload fs else Ok false
  end.

Definition branch_ok (filters : Filters) (payload : jvalue) : bool :=
  is_empty (fi_branches filters) ||
  match str_of payload "branch" with
  | None => false
  | Some branch => existsb (λ g, glob_match g branch) (fi_branches filters)
  end.

Definition labels_ok (filters : Filters) (payload : jvalue) : bool :=
  is_empty (fi_labels filters) ||
  existsb (contains_str (strings_of payload "labels")) (fi_labels filters).

Definition author_ok (filters : Filters) (payload : jvalue) : bool :=
  is_empty (fi_authors filters) ||
  match str_of payload "author" with
  | None => false
  | Some author => existsb (λ a, eq_ignore_ascii_case a author) (fi_authors filters)
  end.

Definition paths_ok (filters : Filters) (payload : jvalue) : bool :=
  is_empty (fi_paths filters) ||
  existsb (λ p, existsb (λ g, glob_match g p) (fi_paths filters)) (strings_of payload "paths").

(** [apply]. *)
Definition apply (filters : Filters) (payload : jvalue) : result string bool :=
  if negb (branch_ok filters payload) then Ok false
  else if negb (labels_ok filters payload) then Ok false
  else if negb (author_ok filters payload) then Ok false
  else if negb (paths_ok filters payload) then Ok false
  else
    t ← apply_regex payload (fi_title_regex filters) "title";
    if negb t then Ok false
    else
      t ← apply_regex payload (fi_text_regex filters) "text";
      if negb t then Ok false else apply_fields payload (fi_fields filters).

(** [trigger_matches]. *)
Definition trigger_matches (trigger : Trigger) (source event : string) (payload : jvalue)
    : result string bool :=
  match trigger with
  | Event _ s e actions filters =>
      if negb (s =s source) || negb (e =s event) then Ok false
      else if negb (is_empty actions) &&
              negb (existsb (λ a, a =s default "" (str_of payload "action")) actions)
      then Ok false
      else apply filters payload
  | Webhook _ name filters =>
      if negb (source =s "webhook") || negb (name =s event) then Ok false
      else apply filters payload
  | Schedule _ _ _ | Manual _ => Ok false
  end.

End apply.

(** ** The language of a glob *)

(** Which texts a list of tokens matches: [**] any run of characters, [*] any run
    within a path segment, [?] one character within a segment. *)
Inductive matches : list Tok → list string → Prop :=
  | m_nil : matches [] []
  | m_lit c toks text : matches toks text → matches (Lit c :: toks) (c :: text)
  | m_one c toks text : c ≠ "/" → matches toks text → matches (One :: toks) (c :: text)
  | m_star run toks text :
      Forall (λ c, c ≠ "/") run → matches toks text → matches (Star :: toks) (run ++ text)
  | m_starstar run toks text : matches toks text → matches (StarStar :: toks) (run ++ text).

(** A row answers, for every suffix of the text, whether the tokens match it. *)
Fixpoint row_ok (toks : list Tok) (text : list string) (r : list bool) {struct r} : Prop :=
  match r with
  | [] => False
  | b :: r' =>
      (b = true ↔ matches toks text) ∧
      match text with [] => r' = [] | _ :: text' => row_ok toks text' r' end
  end.

Lemma last_row_ok text : row_ok [] text (last_row text).
Proof.
  induction text as [|c text IH]; cbn.
  - split; [|done]. split; [intros _; constructor|done].
  - split; [|exact IH]. split; [done|]. intros H. inv H.
Qed.

Lemma row_ok_hd toks text r : row_ok toks text r → hd false r = true ↔ matches toks text.
Proof. destruct r as [|b r]; [done|]. by intros [H _]. Qed.

Lemma matches_star_cons toks c text :
  matches (Star :: toks) (c :: text) ↔
  matches toks (c :: text) ∨ c ≠ "/" ∧ matches (Star :: toks) text.
Proof.
  split.
  - intros H. inv H as [| | |run ? ? Hr Hm E|]. destruct run as [|d run]; cbn in *; simplify_eq; [by left|].
    apply Forall_cons in Hr as [??]. right. split; [done|]. by constructor.
  - intros [H|[Hc H]].
    + apply (m_star []); [constructor|done].
    + inv H as [| | |run ? ? Hr Hm E|]. apply (m_star (c :: run)); [by constructor|done].
Qed.

Lemma matches_starstar_cons toks c text :
  matches (StarStar :: toks) (c :: text) ↔
  matches toks (c :: text) ∨ matches (StarStar :: toks) text.
Proof.
  split.
  - intros H. inv H as [| | | |run ? ? Hm E]. destruct run as [|d run]; cbn in *; simplify_eq; [by left|].
    right. by constructor.
  - intros [H|H].
    + by apply (m_starstar []).
    + inv H as [| | | |run ? ? Hm E]. by apply (m_starstar (c :: run)).
Qed.

Lemma matches_star_nil tok toks :
  tok = Star ∨ tok = StarStar → matches (tok :: toks) [] ↔ matches toks [].
Proof.
  intros Ht. split.
  - intros H. remember [] as text eqn:Et.
    destruct Ht as [-> | ->]; inversion H as [| | |run ? x ? ? Er E|run ? x ? Er E]; subst;
      match goal with E : _ ++ _ = [] |- _ => apply app_nil in E as [-> ->] end; done.
  - destruct Ht as [-> | ->]; [apply (m_star [])|apply (m_starstar [])]; constructor.
Qed.

Lemma row_row_ok tok toks text next :
  row_ok toks text next → row_ok (tok :: toks) text (row tok text next).
Proof.
  revert next. induction text as [|c text IH]; intros next Hn; cbn.
  - split; [|done]. pose proof (row_ok_hd _ _ _ Hn) as Hh. destruct tok.
    + split; [done|]. intros H. inv H.
    + split; [done|]. intros H. inv H.
    + rewrite Hh, (matches_star_nil Star) by by left. done.
    + rewrite Hh, (matches_star_nil StarStar) by by right. done.
  - pose proof (row_ok_hd _ _ _ Hn) as Hh. destruct next as [|b next]; [done|]. destruct Hn as [_ Hn].
    cbn in Hh |- *. pose proof (IH next Hn) as Hr. split; [|done].
    pose proof (row_ok_hd _ _ _ Hn) as Hh1. pose proof (row_ok_hd _ _ _ Hr) as Hr1. destruct tok.
    + rewrite andb_true_iff, String.eqb_eq, Hh1. split; [intros [-> ?]; by constructor|].
      intros H. inv H. done.
    + rewrite andb_true_iff, negb_true_iff, String.eqb_neq, Hh1. split; [intros [? ?]; by constructor|].
      intros H. inv H. done.
    + by rewrite orb_true_iff, andb_true_iff, negb_true_iff, String.eqb_neq, Hh, Hr1, matches_star_cons.
    + by rewrite orb_true_iff, Hh, Hr1, matches_starstar_cons.
Qed.

Lemma glob_table_ok toks text :
  row_ok toks text (foldr (λ tok next, row tok text next) (last_row text) toks).
Proof.
  induction toks as [|tok toks IH]; cbn; [apply last_row_ok|]. by apply row_row_ok.
Qed.

Lemma row_length tok text next : length (row tok text next) = S (length text).
Proof. revert next. induction text as [|c text IH]; intros next; cbn; [done|]. by rewrite IH. Qed.

(** The table decides the language of globs. The dynamic program over the
    first 256 characters of a pattern and the first 4096 of a text answers
    whether the text is in the pattern's language; every row it computes has one
    entry per position, so the work is bounded by the product of the lengths and
    no pattern makes it exponential. *)
Theorem glob_table_exact pattern text :
  let toks := tokens (take MAX_PATTERN_CHARS (chars pattern)) in
  let cs := take MAX_FIELD_CHARS (chars text) in
  (glob_match pattern text = true ↔ matches toks cs) ∧
  (length toks ≤ 256)%nat ∧ (length cs ≤ Z.to_nat 4096)%nat ∧
  ∀ tok next, length (row tok cs next) = S (length cs).
Proof.
  cbv zeta. split_and!.
  - unfold glob_match. apply row_ok_hd, glob_table_ok.
  - assert (∀ l, length (tokens l) ≤ length l)%nat as Hl.
    { intros l. induction l as [l IH] using (induction_ltof1 _ (@length string)). unfold ltof in IH.
      destruct l as [|c l]; [done|]. cbn [tokens].
      destruct (c =s "*"); [|destruct (c =s "?"); cbn; specialize (IH l ltac:(cbn; lia)); lia].
      destruct l as [|d l]; [done|]. destruct (d =s "*"); cbn [length].
      - specialize (IH l ltac:(cbn; lia)). lia.
      - specialize (IH (d :: l) ltac:(cbn; lia)). cbn [length] in IH. lia. }
    etrans; [apply Hl|]. rewrite length_take. change MAX_PATTERN_CHARS with 256%nat. lia.
  - rewrite length_take. unfold MAX_FIELD_CHARS. lia.
  - intros. apply row_length.
Qed.

(** ** What a filter lets through *)

Section exact.
Context {regex : RegexEngine} {ptr : JsonPointer}.

(** A regular expression that can be used and matches. *)
Definition regex_matches (p text : string) : Prop :=
  ∃ re, compile_regex p = Ok re ∧ re text = true.

(** One field of a payload passes its test. *)
Definition field_passes (payload : jvalue) (f : FieldFilter) : Prop :=
  ∃ v text, json_pointer payload (ff_pointer f) = Some v ∧ field_text v = Some text ∧
    (∀ e, ff_equals f = Some e → text = e) ∧ (∀ r, ff_regex f = Some r → regex_matches r text).

(** Every filter that is present is satisfied by a field the payload carries. *)
Record satisfies (filters : Filters) (payload : jvalue) : Prop := {
  sat_branch : fi_branches filters ≠ [] → ∃ b g, str_of payload "branch" = Some b ∧
    g ∈ fi_branches filters ∧ glob_match g b = true;
  sat_labels : fi_labels filters ≠ [] →
    ∃ l, l ∈ fi_labels filters ∧ l ∈ strings_of payload "labels";
  sat_author : fi_authors filters ≠ [] → ∃ b a, str_of payload "author" = Some b ∧
    a ∈ fi_authors filters ∧ eq_ignore_ascii_case a b = true;
  sat_paths : fi_paths filters ≠ [] → ∃ p g, p ∈ strings_of payload "paths" ∧
    g ∈ fi_paths filters ∧ glob_match g p = true;
  sat_title : ∀ p, fi_title_regex filters = Some p →
    ∃ v, str_of payload "title" = Some v ∧ regex_matches p (clip v);
  sat_text : ∀ p, fi_text_regex filters = Some p →
    ∃ v, str_of payload "text" = Some v ∧ regex_matches p (clip v);
  sat_fields : Forall (field_passes payload) (fi_fields filters)
}.

Lemma is_empty_or {A} (l : list A) b : is_empty l || b = true ↔ (l ≠ [] → b = true).
Proof. destruct l; cbn; naive_solver. Qed.

Lemma apply_regex_true payload pattern key :
  apply_regex payload pattern key = Ok true ↔
  ∀ p, pattern = Some p → ∃ v, str_of payload key = Some v ∧ regex_matches p (clip v).
Proof.
  unfold apply_regex, regex_matches. destruct pattern as [p|]; [|naive_solver].
  destruct (compile_regex p) as [re|e] eqn:E; cbn.
  - destruct (str_of payload key) as [v|].
    + split; [intros [= H] ? [= <-]; eauto 10|]. intros H. destruct (H p eq_refl) as (? & [= <-] & re' & ? & ?).
      congruence.
    + split; [done|]. intros H. by destruct (H p eq_refl) as (? & ? & _).
  - split; [done|]. intros H. destruct (H p eq_refl) as (? & _ & re & ? & _). congruence.
Qed.

Lemma apply_field_true payload f : apply_field payload f = Ok true ↔ field_passes payload f.
Proof.
  unfold apply_field, field_passes.
  destruct (json_pointer payload (ff_pointer f)) as [v|]; [|split; [done|naive_solver]].
  destruct (field_text v) as [text|] eqn:Et; [|split; [done|naive_solver]].
  assert ((if match ff_equals f with Some e => negb (text =s e) | None => false end then false else true) = true
    ↔ ∀ e, ff_equals f = Some e → text = e) as He.
  { destruct (ff_equals f) as [e|]; [|naive_solver]. destruct (String.eqb_spec text e); naive_solver. }
  destruct (match ff_equals f with Some _ => _ | None => _ end).
  - split; [done|]. intros (v' & t' & [= <-] & Ht & H1 & _). assert (text = t') as <- by congruence.
    apply He in H1. done.
  - assert (∀ e, ff_equals f = Some e → text = e) as He' by by apply He. clear He.
    destruct (ff_regex f) as [r|] eqn:Er.
    + destruct (compile_regex r) as [re|e] eqn:Ec; cbn.
      * split.
        -- intros [= H]. exists v, text. split_and!; [done..|]. intros ? [= <-]. by exists re.
        -- intros (v' & t' & [= <-] & Ht & _ & H2). destruct (H2 r eq_refl) as (re' & ? & ?). congruence.
      * split; [done|]. intros (v' & t' & _ & _ & _ & H2). destruct (H2 r eq_refl) as (re' & ? & ?). congruence.
    + split; [|done]. intros _. exists v, text. split_and!; done.
Qed.

Lemma apply_fields_true payload fs :
  apply_fields payload fs = Ok true ↔ Forall (field_passes payload) fs.
Proof.
  induction fs as [|f fs IH]; cbn; [split; auto|]. rewrite Forall_cons, <- apply_field_true, <- IH.
  destruct (apply_field payload f) as [[]|e]; cbn; naive_solver.
Qed.

Lemma bool_filters filters payload :
  branch_ok filters payload = true ∧ labels_ok filters payload = true ∧
  author_ok filters payload = true ∧ paths_ok filters payload = true ↔
  (fi_branches filters ≠ [] → ∃ b g, str_of payload "branch" = Some b ∧
     g ∈ fi_branches filters ∧ glob_match g b = true) ∧
  (fi_labels filters ≠ [] → ∃ l, l ∈ fi_labels filters ∧ l ∈ strings_of payload "labels") ∧
  (fi_authors filters ≠ [] → ∃ b a, str_of payload "author" = Some b ∧
     a ∈ fi_authors filters ∧ eq_ignore_ascii_case a b = true) ∧
  (fi_paths filters ≠ [] → ∃ p g, p ∈ strings_of payload "paths" ∧
     g ∈ fi_paths filters ∧ glob_match g p = true).
Proof.
  unfold branch_ok, labels_ok, author_ok, paths_ok. rewrite !is_empty_or.
  assert (∀ (P Q : Prop), (P ↔ Q) → ∀ R S : Prop, (R ↔ S) → (P ∧ R ↔ Q ∧ S)) as Hand by tauto.
  apply Hand; [|apply Hand; [|apply Hand]].
  - destruct (str_of payload "branch") as [b|]; [setoid_rewrite existsb_true|]; naive_solver.
  - rewrite existsb_true. setoid_rewrite contains_str_true. done.
  - destruct (str_of payload "author") as [b|]; [setoid_rewrite existsb_true|]; naive_solver.
  - rewrite existsb_true. setoid_rewrite existsb_true. naive_solver.
Qed.

Lemma apply_true filters payload : apply filters payload = Ok true ↔ satisfies filters payload.
Proof.
  assert (satisfies filters payload ↔
    (branch_ok filters payload = true ∧ labels_ok filters payload = true ∧
     author_ok filters payload = true ∧ paths_ok filters payload = true) ∧
    apply_regex payload (fi_title_regex filters) "title" = Ok true ∧
    apply_regex payload (fi_text_regex filters) "text" = Ok true ∧
    apply_fields payload (fi_fields filters) = Ok true) as ->.
  { rewrite bool_filters, !apply_regex_true, apply_fields_true. split.
    - intros []. split_and!; done.
    - intros ((? & ? & ? & ?) & ? & ? & ?). by constructor. }
  unfold apply. destruct (branch_ok _ _), (labels_ok _ _), (author_ok _ _), (paths_ok _ _); cbn;
    try (split; [done|intros ((? & ? & ? & ?) & _); done]).
  destruct (apply_regex _ _ "title") as [[]|e]; cbn; [|split; [done|naive_solver]..].
  destruct (apply_regex _ _ "text") as [[]|e]; cbn; [|split; [done|naive_solver]..].
  naive_solver.
Qed.

(** Filters fail closed and nothing else. A delivery satisfies a trigger
    exactly when it comes from the trigger's own source under its own event (and
    one of its actions), or to its own endpoint, and every filter that is present
    is met by a field the payload carries; a missing field, a field of another
    type and a pattern that cannot be compiled never match, and no delivery
    matches a schedule or a manual trigger. *)
Theorem trigger_matches_exact trigger source event payload :
  trigger_matches trigger source event payload = Ok true ↔
  match trigger with
  | Event _ s e actions filters =>
      s = source ∧ e = event ∧
      (actions = [] ∨ default "" (str_of payload "action") ∈ actions) ∧ satisfies filters payload
  | Webhook _ name filters => source = "webhook" ∧ name = event ∧ satisfies filters payload
  | Schedule _ _ _ | Manual _ => False
  end.
Proof.
  destruct trigger as [id c e|id|id s e actions filters|id name filters]; cbn; [done|done| |].
  - rewrite <- apply_true. destruct (String.eqb_spec s source), (String.eqb_spec e event); cbn;
      [|split; [done|naive_solver]..].
    assert (actions = [] ∨ default "" (str_of payload "action") ∈ actions ↔
      negb (is_empty actions) && negb (existsb (λ a, a =s default "" (str_of payload "action")) actions) = false)
      as ->.
    { destruct actions as [|a l]; [naive_solver|]. cbn [is_empty negb andb].
      rewrite negb_false_iff, existsb_true. split.
      - intros [?|Hin]; [done|]. eexists. split; [exact Hin|]. apply String.eqb_refl.
      - intros (x & Hx & <-%String.eqb_eq). by right. }
    destruct (_ && _); naive_solver.
  - rewrite <- apply_true. destruct (String.eqb_spec source "webhook"), (String.eqb_spec name event); cbn;
      naive_solver.
Qed.

End exact.
