(* ===== verification/Registry.v ===== *)
(** * The automation ledger

    [crates/automation/src/registry.rs]: definitions, enable approvals, kill
    switches and run records folded from the ledger's events. The maps are
    [BTreeMap]s, ordered lists here. *)

From stdpp Require Import sorting.
From S2P Require Import Prelude RustStr BTree External Cron AutoDef.
#[local] Open Scope Z_scope.

Inductive Source :=
  | Local
  | Repository (root path revision source_sha256 : string).

Inductive RunStatus :=
  | Pending
  | RQueued
  | Running
  | Succeeded
  | RFailed
  | Skipped
  | Cancelled.

#[export] Instance RunStatus_eq_dec : EqDecision RunStatus.
Proof. solve_decision. Defined.

Definition RunStatus_is_terminal (s : RunStatus) : bool :=
  match s with Succeeded | RFailed | Skipped | Cancelled => true | _ => false end.

Definition RunStatus_is_active (s : RunStatus) : bool :=
  match s with Pending | Running => true | _ => false end.

Record Firing := {
  fr_automation_id : string;
  fr_version : Z;
  fr_trigger_id : string;
  fr_trigger_kind : string;
  fr_event_id : string;
  fr_dispatch_key : string;
  fr_slot_ms : option Z;
  fr_catch_up : bool;
  fr_missed : Z;
  fr_principal : string;
  fr_test : bool;
  fr_payload_sha256 : option string;
  fr_findings : Z;
  fr_inputs : jvalue;
  fr_at_ms : Z
}.

Inductive AutomationEvent :=
  | AutomationDefined (automation_id : string) (version : Z) (definition : AutomationDefinition)
      (definition_hash : string) (source : Source) (workspace_root created_by : string) (at_ms : Z)
  | AutomationEnableApproved (automation_id : string) (version : Z) (definition_hash : string)
      (effects : Effects) (capabilities paths hosts : list string)
      (source_sha256 repo_revision : option string) (approver : string) (anchor_ms at_ms : Z)
  | AutomationDisabled (automation_id reason detail : string) (at_ms : Z)
  | AutomationPauseSet (automation_id : option string) (paused : bool) (by_ note : string)
      (at_ms : Z)
  | AutomationFired (firing : Firing) (initial : RunStatus)
  | AutomationDispatched (dispatch_key task_id session_id : string) (at_ms : Z)
  | AutomationRunSkipped (firing : Firing) (reason detail : string)
  | AutomationGateStarted (dispatch_key task_id session_id : string) (at_ms : Z)
  | AutomationGateDecided (dispatch_key decision detail : string) (at_ms : Z)
  | AutomationRunFinished (dispatch_key : string) (status : RunStatus) (reason detail : string)
      (cost_minor : option Z) (outputs : jvalue) (at_ms : Z)
  | AutomationSlotsSkipped (automation_id : string) (version : Z) (trigger_id : string)
      (count first_ms last_ms through_ms at_ms : Z)
  | AutomationAttentionAcknowledged (dispatch_key by_ : string) (at_ms : Z).

Record Version := {
  ve_version : Z;
  ve_definition : AutomationDefinition;
  ve_hash : string;
  ve_source : Source;
  ve_workspace_root : string;
  ve_created_by : string;
  ve_created_ms : Z
}.

Record Enabled := {
  en_version : Z;
  en_hash : string;
  en_effects : Effects;
  en_capabilities : list string;
  en_paths : list string;
  en_hosts : list string;
  en_source_sha256 : option string;
  en_repo_revision : option string;
  en_approver : string;
  en_anchor_ms : Z;
  en_approved_ms : Z
}.

Record State := {
  st_id : string;
  st_versions : list Version;
  st_enabled : option Enabled;
  st_paused : bool;
  st_disabled_reason : option (string * string);
  st_cursors : bmap Z;
  st_consecutive_failures : Z
}.

Definition State_default : State :=
  {| st_id := ""; st_versions := []; st_enabled := None; st_paused := false;
     st_disabled_reason := None; st_cursors := []; st_consecutive_failures := 0 |}.

(** [State::current]. *)
Definition current (s : State) : option Version := last (st_versions s).

(** [State::live]. *)
Definition live (s : State) : option Version :=
  e ← st_enabled s;
  v ← List.find (λ v, ve_version v =? en_version e) (st_versions s);
  if (ve_hash v =s en_hash e) &&
     match current s with Some c => ve_version c =? en_version e | None => false end
  then Some v else None.

Record AutoRun := {
  ar_firing : Firing;
  ar_status : RunStatus;
  ar_reason : string;
  ar_detail : string;
  ar_task_id : option string;
  ar_session_id : option string;
  ar_dispatched_ms : option Z;
  ar_finished_ms : option Z;
  ar_cost_minor : option Z;
  ar_outputs : jvalue;
  ar_acknowledged : bool;
  ar_seq : Z;
  ar_gate_task_id : option string;
  ar_gate_session_id : option string;
  ar_gate : option (string * string)
}.

Record Registry := {
  rg_defs : bmap State;
  rg_global_paused : bool;
  rg_runs : bmap AutoRun;
  rg_next_seq : Z
}.

Definition Registry_default : Registry :=
  {| rg_defs := []; rg_global_paused := false; rg_runs := []; rg_next_seq := 0 |}.

(** [map.get_mut(k)] followed by a write through the reference. *)
Definition bmodify {V} (k : string) (f : V → V) (m : bmap V) : bmap V :=
  match bget k m with Some v => binsert k (f v) m | None => m end.

(** [let c = map.entry(k).or_insert(v); *c = ( *c).max(v)]. *)
Definition raise_cursor (k : string) (v : Z) (m : bmap Z) : bmap Z :=
  binsert k (Z.max (default v (bget k m)) v) m.

(** [dispatch_key]. *)
Definition dispatch_key `{Sha256} (automation_id : string) (version : Z) (event_id : string)
    : string :=
  sha256_hex (automation_id +:+ String "010" (pretty version +:+ String "010" event_id)).

Definition insert_run (firing : Firing) (status : RunStatus) (reason detail : string)
    (r : Registry) : Registry :=
  let seq := wrap64 (rg_next_seq r + 1) in
  { r with
    rg_next_seq := seq;
    rg_runs ::= binsert (fr_dispatch_key firing)
      {| ar_firing := firing; ar_status := status; ar_reason := reason; ar_detail := detail;
         ar_task_id := None; ar_session_id := None; ar_dispatched_ms := None;
         ar_finished_ms := if RunStatus_is_terminal status then Some (fr_at_ms firing) else None;
         ar_cost_minor := None; ar_outputs := Jnull; ar_acknowledged := false; ar_seq := seq;
         ar_gate_task_id := None; ar_gate_session_id := None; ar_gate := None |} }.

(** The cursor of a firing's trigger, in the two arms that record a firing. *)
Definition move_cursor (firing : Firing) (r : Registry) : Registry :=
  match fr_slot_ms firing with
  | Some slot =>
      { r with rg_defs ::= bmodify (fr_automation_id firing)
                 (λ st, { st with st_cursors ::= raise_cursor (fr_trigger_id firing) slot }) }
  | None => r
  end.

Definition define (automation_id : string) (v : Version) (st : State) : State :=
  let st := { st with st_id := automation_id } in
  if existsb (λ w, ve_version w =? ve_version v) (st_versions st) then st
  else
    let st := { st with st_versions ::= λ l, l ++ [v] } in
    match st_enabled st with
    | Some en =>
        if negb (en_version en =? ve_version v)
        then { st with st_enabled := None;
                       st_disabled_reason := Some ("EDITED",
                         "version " +:+ pretty (ve_version v) +:+ " needs its own approval") }
        else st
    | None => st
    end.

Definition approve (e : Enabled) (st : State) : State :=
  { st with
    st_enabled := Some e;
    st_disabled_reason := None;
    st_consecutive_failures := 0;
    st_cursors ::= map (λ kv, (kv.1, Z.max kv.2 (en_anchor_ms e))) }.

(** [Registry::apply]. *)
Definition Registry_apply `{Sha256} (e : AutomationEvent) (r : Registry) : Registry :=
  match e with
  | AutomationDefined id version definition hash source workspace_root created_by at_ms =>
      let v := {| ve_version := version; ve_definition := definition; ve_hash := hash;
                  ve_source := source; ve_workspace_root := workspace_root;
                  ve_created_by := created_by; ve_created_ms := at_ms |} in
      { r with rg_defs ::= λ m, binsert id (define id v (default State_default (bget id m))) m }
  | AutomationEnableApproved id version hash effects capabilities paths hosts source_sha256
      repo_revision approver anchor_ms at_ms =>
      let e := {| en_version := version; en_hash := hash; en_effects := effects;
                  en_capabilities := capabilities; en_paths := paths; en_hosts := hosts;
                  en_source_sha256 := source_sha256; en_repo_revision := repo_revision;
                  en_approver := approver; en_anchor_ms := anchor_ms; en_approved_ms := at_ms |} in
      { r with rg_defs ::= bmodify id (approve e) }
  | AutomationDisabled id reason detail _ =>
      { r with rg_defs ::= bmodify id (λ st,
          { st with st_enabled := None; st_disabled_reason := Some (reason, detail) }) }
  | AutomationPauseSet (Some id) paused _ _ _ =>
      { r with rg_defs ::= bmodify id (λ st, { st with st_paused := paused }) }
  | AutomationPauseSet None paused _ _ _ => { r with rg_global_paused := paused }
  | AutomationFired firing initial =>
      if is_some (bget (fr_dispatch_key firing) (rg_runs r)) then r
      else insert_run firing initial "" "" (move_cursor firing r)
  | AutomationRunSkipped firing reason detail =>
      if is_some (bget (fr_dispatch_key firing) (rg_runs r)) then r
      else insert_run firing Skipped reason detail (move_cursor firing r)
  | AutomationDispatched key task_id session_id at_ms =>
      { r with rg_runs ::= bmodify key (λ x,
          if RunStatus_is_terminal (ar_status x) then x
          else { x with ar_status := Running; ar_task_id := Some task_id;
                        ar_session_id := Some session_id; ar_dispatched_ms := Some at_ms }) }
  | AutomationGateStarted key task_id session_id at_ms =>
      { r with rg_runs ::= bmodify key (λ x,
          if RunStatus_is_terminal (ar_status x) then x
          else { x with ar_status := Running; ar_gate_task_id := Some task_id;
                        ar_gate_session_id := Some session_id;
                        ar_dispatched_ms ::= λ o, Some (default at_ms o) }) }
  | AutomationGateDecided key decision detail _ =>
      { r with rg_runs ::= bmodify key (λ x,
          match ar_gate x with
          | None => { x with ar_gate := Some (decision, detail) }
          | Some _ => x
          end) }
  | AutomationRunFinished key status reason detail cost_minor outputs at_ms =>
      match bget key (rg_runs r) with
      | None => r
      | Some x =>
          if RunStatus_is_terminal (ar_status x) then r
          else
            let r := { r with rg_runs ::= binsert key
              { x with ar_status := status; ar_reason := reason; ar_detail := detail;
                       ar_cost_minor := cost_minor; ar_outputs := outputs;
                       ar_finished_ms := Some at_ms } } in
            { r with rg_defs ::= bmodify (fr_automation_id (ar_firing x)) (λ st,
                match status with
                | RFailed => { st with st_consecutive_failures ::= λ n, wrap32 (n + 1) }
                | Succeeded => { st with st_consecutive_failures := 0 }
                | _ => st
                end) }
      end
  | AutomationSlotsSkipped id version trigger_id count first_ms last_ms through_ms at_ms =>
      let r := { r with rg_defs ::= bmodify id
                   (λ st, { st with st_cursors ::= raise_cursor trigger_id through_ms }) } in
      let event_id := "missed:" +:+ trigger_id +:+ "@" +:+ pretty first_ms +:+ ".." +:+
                      pretty last_ms in
      let key := dispatch_key id version event_id in
      if is_some (bget key (rg_runs r)) then r
      else
        insert_run
          {| fr_automation_id := id; fr_version := version; fr_trigger_id := trigger_id;
             fr_trigger_kind := "schedule"; fr_event_id := event_id; fr_dispatch_key := key;
             fr_slot_ms := None; fr_catch_up := false; fr_missed := count; fr_principal := "";
             fr_test := false; fr_payload_sha256 := None; fr_findings := 0; fr_inputs := Jnull;
             fr_at_ms := at_ms |} Skipped "MISSED"
          (pretty count +:+ " scheduled slot(s) passed while the Core was not running; not replayed") r
  | AutomationAttentionAcknowledged key _ _ =>
      { r with rg_runs ::= bmodify key (λ x, { x with ar_acknowledged := true }) }
  end.

(** The fold of a whole ledger. *)
Definition fold_ledger `{Sha256} (log : list AutomationEvent) (r : Registry) : Registry :=
  foldl (λ r e, Registry_apply e r) r log.

(** [Registry::runs_of], newest first. *)
Definition runs_of (r : Registry) (automation_id : string) : list AutoRun :=
  sort_by (λ a b, ar_seq b <? ar_seq a)
    (List.filter (λ x, fr_automation_id (ar_firing x) =s automation_id) ((rg_runs r).*2)).

Definition active_runs (r : Registry) (automation_id : string) : list AutoRun :=
  List.filter (λ x, RunStatus_is_active (ar_status x)) (runs_of r automation_id).

Definition queued_runs (r : Registry) (automation_id : string) : list AutoRun :=
  sort_by (λ a b, ar_seq a <? ar_seq b)
    (List.filter (λ x, (fr_automation_id (ar_firing x) =s automation_id) &&
                       bool_decide (ar_status x = RQueued)) ((rg_runs r).*2)).

Definition started_since (r : Registry) (automation_id : option string) (since_ms : Z) : nat :=
  length (List.filter (λ x,
    negb (bool_decide (ar_status x = Skipped)) && (since_ms <=? fr_at_ms (ar_firing x)) &&
    match automation_id with
    | Some a => fr_automation_id (ar_firing x) =s a
    | None => true
    end) ((rg_runs r).*2)).

(** ** Shared lemmas *)

Lemma bget_modify {V} k k' (f : V → V) m :
  bget k' (bmodify k f m) = if decide (k' = k) then f <$> bget k m else bget k' m.
Proof.
  unfold bmodify. destruct (bget k m) as [v|] eqn:E; destruct (decide (k' = k)) as [->|Hne]; try done.
  - by rewrite bget_insert.
  - by rewrite bget_insert_ne.
Qed.

Lemma bget_insert_dec {V} k k' (v : V) m :
  bget k' (binsert k v m) = if decide (k' = k) then Some v else bget k' m.
Proof.
  destruct (decide (k' = k)) as [->|Hne]; [apply bget_insert|by apply bget_insert_ne].
Qed.

Lemma is_some_false {A} (o : option A) : is_some o = false → o = None.
Proof. by destruct o. Qed.

Section ledger.
Context {sha : Sha256}.

(** ** What is enabled was approved *)

(** The event that made an approval. *)
Definition approval_event (id : string) (e : Enabled) : AutomationEvent :=
  AutomationEnableApproved id (en_version e) (en_hash e) (en_effects e) (en_capabilities e)
    (en_paths e) (en_hosts e) (en_source_sha256 e) (en_repo_revision e) (en_approver e)
    (en_anchor_ms e) (en_approved_ms e).

(** The event that made a version. *)
Definition definition_event (id : string) (v : Version) : AutomationEvent :=
  AutomationDefined id (ve_version v) (ve_definition v) (ve_hash v) (ve_source v)
    (ve_workspace_root v) (ve_created_by v) (ve_created_ms v).

Definition disables (id : string) (x : AutomationEvent) : bool :=
  match x with AutomationDisabled id' _ _ _ => id' =s id | _ => false end.

(** Approved by an event of the log after which nothing disabled it. *)
Definition approved_in (log : list AutomationEvent) (id : string) (e : Enabled) : Prop :=
  ∃ pre post, log = pre ++ approval_event id e :: post ∧
    Forall (λ x, disables id x = false) post.

Definition history_ok (log : list AutomationEvent) (r : Registry) : Prop :=
  ∀ id st, bget id (rg_defs r) = Some st →
    (∀ e, st_enabled st = Some e → approved_in log id e) ∧
    (∀ v, v ∈ st_versions st → definition_event id v ∈ log).

Lemma approved_snoc log id e x :
  approved_in log id e → disables id x = false → approved_in (log ++ [x]) id e.
Proof.
  intros (pre & post & -> & H) Hx. exists pre, (post ++ [x]). rewrite <- app_assoc. split; [done|].
  apply Forall_app_2; [done|]. by constructor.
Qed.

(** Whether an event can change what is defined or enabled under [id]. *)
Definition concerns (id : string) (x : AutomationEvent) : bool :=
  match x with
  | AutomationDefined id' _ _ _ _ _ _ _ | AutomationEnableApproved id' _ _ _ _ _ _ _ _ _ _ _
  | AutomationDisabled id' _ _ _ => id' =s id
  | _ => false
  end.

Definition same_authority (st st' : State) : Prop :=
  st_enabled st' = st_enabled st ∧ st_versions st' = st_versions st.

(** Events about something else keep what is defined and enabled. *)
Lemma modify_keeps id id' f (m : bmap State) st' :
  (id' ≠ id ∨ ∀ st, same_authority st (f st)) → bget id (bmodify id' f m) = Some st' →
  ∃ st, bget id m = Some st ∧ same_authority st st'.
Proof.
  intros Hf. rewrite bget_modify. destruct (decide (id = id')) as [->|Hne].
  - destruct (bget id' m) as [st|]; [|done]. cbn. intros [= <-]. exists st. split; [done|].
    destruct Hf as [?|Hf]; [done|apply Hf].
  - intros ->. by exists st'.
Qed.

Lemma move_cursor_keeps f r id st' :
  bget id (rg_defs (move_cursor f r)) = Some st' →
  ∃ st, bget id (rg_defs r) = Some st ∧ same_authority st st'.
Proof.
  unfold move_cursor. destruct (fr_slot_ms f) as [slot|]; [|by intros ->; exists st'].
  destruct r. cbn. apply modify_keeps. right. by intros [].
Qed.

Lemma insert_run_defs f s a b r : rg_defs (insert_run f s a b r) = rg_defs r.
Proof. by destruct r. Qed.

Lemma apply_keeps x r id st' :
  concerns id x = false → bget id (rg_defs (Registry_apply x r)) = Some st' →
  ∃ st, bget id (rg_defs r) = Some st ∧ same_authority st st'.
Proof.
  intros Hc. assert (∀ st, same_authority st st) as Hrefl by done.
  destruct x; cbn in Hc; cbn [Registry_apply].
  - apply String.eqb_neq in Hc. destruct r; cbn. rewrite bget_insert_ne by done. by intros ->; exists st'.
  - apply String.eqb_neq in Hc. destruct r; cbn. apply modify_keeps. by left.
  - apply String.eqb_neq in Hc. destruct r; cbn. apply modify_keeps. by left.
  - destruct automation_id as [i|]; destruct r; cbn; [|by intros ->; exists st'].
    apply modify_keeps. right. by intros [].
  - destruct (is_some _); [by intros ->; exists st'|]. rewrite insert_run_defs. apply move_cursor_keeps.
  - destruct r; cbn. by intros ->; exists st'.
  - destruct (is_some _); [by intros ->; exists st'|]. rewrite insert_run_defs. apply move_cursor_keeps.
  - destruct r; cbn. by intros ->; exists st'.
  - destruct r; cbn. by intros ->; exists st'.
  - destruct (bget dispatch_key0 (rg_runs r)) as [run|]; [|by intros ->; exists st'].
    destruct (RunStatus_is_terminal _); [by intros ->; exists st'|]. destruct r; cbn.
    apply modify_keeps. right. intros []. by destruct status.
  - destruct (is_some _); [|rewrite insert_run_defs]; destruct r; cbn;
      (apply modify_keeps; right; by intros []).
  - destruct r; cbn. by intros ->; exists st'.
Qed.

Lemma disables_concerns id x : concerns id x = false → disables id x = false.
Proof. by destruct x. Qed.

Lemma history_step log r x : history_ok log r → history_ok (log ++ [x]) (Registry_apply x r).
Proof.
  intros Hok id st' Hst. destruct (concerns id x) eqn:Hc.
  - destruct x; cbn in Hc; try discriminate Hc; apply String.eqb_eq in Hc; subst; cbn in Hst.
    + destruct r as [defs ? ? ?]; cbn in Hst. rewrite bget_insert in Hst. injection Hst as <-.
      set (st := default State_default (bget id defs)).
      assert ((∀ e, st_enabled st = Some e → approved_in log id e) ∧
              (∀ v, v ∈ st_versions st → definition_event id v ∈ log)) as [He Hv].
      { unfold st. destruct (bget id defs) as [s|] eqn:E; [by apply Hok|]. cbn.
        split; [done|]. intros v Hv. by apply elem_of_nil in Hv. }
      clearbody st. clear Hok. destruct st as [? vs en ? ? ? ?]. unfold define. cbn in *.
      destruct (existsb _ vs); cbn.
      * split; [|set_solver]. intros e Ee. apply approved_snoc; auto.
      * assert (∀ v, v ∈ vs ++ [{| ve_version := version; ve_definition := definition;
          ve_hash := definition_hash; ve_source := source; ve_workspace_root := workspace_root;
          ve_created_by := created_by; ve_created_ms := at_ms |}] →
          definition_event id v ∈ log ++ [AutomationDefined id version definition definition_hash
            source workspace_root created_by at_ms]) as Hv'.
        { intros v [Hin| ->%list_elem_of_singleton]%elem_of_app; [set_solver|]. cbn. set_solver. }
        destruct en as [e|]; cbn; [destruct (negb _); cbn|]; split; try done.
        intros e' Ee. apply approved_snoc; auto.
    + destruct r as [defs ? ? ?]; cbn in Hst. rewrite bget_modify, decide_True in Hst by done.
      destruct (bget id defs) as [st|] eqn:E; [|done]. cbn in Hst. injection Hst as <-.
      destruct (Hok id st E) as [_ Hv]. cbn. split.
      * intros e [= <-]. exists log, []. split; [done|constructor].
      * intros v Hin. apply elem_of_app. left. auto.
    + destruct r as [defs ? ? ?]; cbn in Hst. rewrite bget_modify, decide_True in Hst by done.
      destruct (bget id defs) as [st|] eqn:E; [|done]. cbn in Hst. injection Hst as <-.
      destruct (Hok id st E) as [_ Hv]. cbn. split; [done|].
      intros v Hin. apply elem_of_app. left. auto.
  - destruct (apply_keeps x r id st' Hc Hst) as (st & E & He & Hv).
    destruct (Hok id st E) as [H1 H2]. rewrite He, Hv. split.
    + intros e Ee. apply approved_snoc; [auto|]. by apply disables_concerns.
    + intros v Hin. apply elem_of_app. left. auto.
Qed.

(** What runs is what an owner approved. If a definition is live after any
    ledger, then the ledger holds the event that defined exactly this version
    (text, source and workspace) and an approval that names its version and its
    hash, which no later event disabled; and no other version is newer. *)
Theorem live_was_approved log id st v :
  let r := fold_ledger log Registry_default in
  bget id (rg_defs r) = Some st → live st = Some v →
  definition_event id v ∈ log ∧
  (∃ e, approved_in log id e ∧ en_version e = ve_version v ∧ en_hash e = ve_hash v) ∧
  ∃ c, last (st_versions st) = Some c ∧ ve_version c = ve_version v.
Proof.
  cbv zeta. intros Hst Hl.
  assert (history_ok log (fold_ledger log Registry_default)) as Hok.
  { clear. induction log as [|x log IH] using rev_ind; [done|].
    unfold fold_ledger in *. rewrite foldl_app. by apply history_step. }
  destruct (Hok id st Hst) as [He Hv]. unfold live in Hl.
  destruct (st_enabled st) as [e|]; [|done]. cbn in Hl.
  destruct (List.find _ (st_versions st)) as [w|] eqn:Ef; [|done]. cbn in Hl.
  destruct (_ && _) eqn:Eb; [|done]. injection Hl as ->.
  apply andb_true_iff in Eb as [Eh%String.eqb_eq Ec].
  apply find_some_iff in Ef as (l1 & l2 & Evs & Ev%Z.eqb_eq & _).
  split_and!.
  - apply Hv. rewrite Evs. set_solver.
  - exists e. split_and!; [by apply He|done|done].
  - unfold current in Ec. destruct (last (st_versions st)) as [c|]; [|done].
    exists c. split; [done|]. apply Z.eqb_eq in Ec. congruence.
Qed.

(** ** Cursors never move back *)

Definition cursor_of (r : Registry) (id trigger : string) : option Z :=
  bget id (rg_defs r) ≫= λ st, bget trigger (st_cursors st).

(** A step on a definition that keeps or raises its cursors. *)
Definition raises (f : State → State) : Prop :=
  ∀ st tr c, bget tr (st_cursors st) = Some c →
    ∃ c', bget tr (st_cursors (f st)) = Some c' ∧ c ≤ c'.

Lemma raises_same f : (∀ st, st_cursors (f st) = st_cursors st) → raises f.
Proof. intros Hf st tr c Hc. exists c. by rewrite Hf. Qed.

Lemma raise_cursor_raises k v : raises (λ st, { st with st_cursors ::= raise_cursor k v }).
Proof.
  intros st tr c Hc. destruct st; cbn in *. unfold raise_cursor. rewrite bget_insert_dec.
  destruct (decide (tr = k)) as [->|]; [|by exists c].
  rewrite Hc. cbn. eexists. split; [done|lia].
Qed.

Lemma approve_raises e : raises (approve e).
Proof.
  intros st tr c Hc. destruct st; cbn in *. rewrite (bget_map (λ c, Z.max c (en_anchor_ms e))), Hc. cbn. eexists. split; [done|lia].
Qed.

Lemma define_raises id v : raises (define id v).
Proof.
  apply raises_same. intros []. unfold define. cbn. destruct (existsb _ _); [done|]. cbn.
  destruct st_enabled0 as [en|]; [|done]. by destruct (negb _).
Qed.

Lemma bmodify_raises id f (m : bmap State) id' tr c :
  raises f → bget id' m ≫= (λ st, bget tr (st_cursors st)) = Some c →
  ∃ c', bget id' (bmodify id f m) ≫= (λ st, bget tr (st_cursors st)) = Some c' ∧ c ≤ c'.
Proof.
  intros Hf Hc. rewrite bget_modify. destruct (decide (id' = id)) as [->|]; [|by exists c].
  destruct (bget id m) as [st|]; [|done]. cbn in *. by apply Hf.
Qed.

Lemma insert_run_cursor f s a b r id tr : cursor_of (insert_run f s a b r) id tr = cursor_of r id tr.
Proof. unfold cursor_of. by rewrite insert_run_defs. Qed.

Lemma move_cursor_raises f r id tr c :
  cursor_of r id tr = Some c → ∃ c', cursor_of (move_cursor f r) id tr = Some c' ∧ c ≤ c'.
Proof.
  unfold move_cursor. destruct (fr_slot_ms f); [|by exists c]. unfold cursor_of. destruct r; cbn.
  apply bmodify_raises, raise_cursor_raises.
Qed.

Lemma cursor_step x r id tr c :
  cursor_of r id tr = Some c → ∃ c', cursor_of (Registry_apply x r) id tr = Some c' ∧ c ≤ c'.
Proof.
  intros Hc. assert (∃ c', cursor_of r id tr = Some c' ∧ c ≤ c') as Hsame by (exists c; done).
  destruct x; cbn [Registry_apply].
  - unfold cursor_of in *. destruct r as [defs ? ? ?]; cbn in *. rewrite bget_insert_dec.
    destruct (decide (id = automation_id)) as [->|]; [|done].
    destruct (bget automation_id defs) as [st|]; [|done]. cbn in *. by apply define_raises.
  - unfold cursor_of in *. destruct r; cbn in *. by apply bmodify_raises; [apply approve_raises|].
  - unfold cursor_of in *. destruct r; cbn in *. by apply bmodify_raises; [apply raises_same|].
  - destruct automation_id as [i|]; unfold cursor_of in *; destruct r; cbn in *; [|done].
    by apply bmodify_raises; [apply raises_same|].
  - destruct (is_some _); [done|]. rewrite insert_run_cursor. by apply move_cursor_raises.
  - by destruct r.
  - destruct (is_some _); [done|]. rewrite insert_run_cursor. by apply move_cursor_raises.
  - by destruct r.
  - by destruct r.
  - destruct (bget _ _) as [run|]; [|done]. destruct (RunStatus_is_terminal _); [done|].
    unfold cursor_of in *. destruct r; cbn in *. apply bmodify_raises; [|done].
    apply raises_same. intros []. by destruct status.
  - assert (∃ c', cursor_of { r with rg_defs ::= bmodify automation_id
      (λ st, { st with st_cursors ::= raise_cursor trigger_id through_ms }) } id tr = Some c' ∧ c ≤ c')
      as Hr by (unfold cursor_of in *; destruct r; cbn in *; apply bmodify_raises;
        [apply raise_cursor_raises|done]).
    destruct (is_some _); [done|]. by rewrite insert_run_cursor.
  - by destruct r.
Qed.

(** A handled slot stays handled. Whatever events follow, the cursor of a
    trigger never moves back and never disappears; and recording a firing of a
    slot, or a window of skipped ones, moves it to the slot at least. With the
    evaluation of schedules, which fires only slots behind the cursor, no slot
    fires twice across restarts. *)
Theorem cursor_never_back log r id tr c :
  cursor_of r id tr = Some c →
  (∃ c', cursor_of (fold_ledger log r) id tr = Some c' ∧ c ≤ c') ∧
  (∀ f initial slot, fr_automation_id f = id → fr_trigger_id f = tr → fr_slot_ms f = Some slot →
     bget (fr_dispatch_key f) (rg_runs r) = None →
     ∃ c', cursor_of (fold_ledger (AutomationFired f initial :: log) r) id tr = Some c' ∧ slot ≤ c') ∧
  (∀ version count first last through at_,
     ∃ c', cursor_of (fold_ledger (AutomationSlotsSkipped id version tr count first last through at_
             :: log) r) id tr = Some c' ∧ through ≤ c').
Proof.
  intros Hc.
  assert (∀ r c, cursor_of r id tr = Some c →
    ∃ c', cursor_of (fold_ledger log r) id tr = Some c' ∧ c ≤ c') as Hfold.
  { clear. induction log as [|x log IH]; intros r c Hc; [by exists c|].
    destruct (cursor_step x r id tr c Hc) as (c1 & H1 & ?). destruct (IH _ _ H1) as (c2 & H2 & ?).
    exists c2. split; [done|lia]. }
  split_and!; [by apply Hfold| |].
  - intros f initial slot Hid Htr Hs Hn. cbn. rewrite Hn. cbn.
    assert (∃ c', cursor_of (insert_run f initial "" "" (move_cursor f r)) id tr = Some c' ∧ slot ≤ c')
      as (c1 & H1 & ?).
    { rewrite insert_run_cursor. unfold move_cursor. rewrite Hs. unfold cursor_of in *.
      destruct r as [defs ? ? ?]; cbn in *. rewrite bget_modify, Hid, decide_True by done.
      destruct (bget id defs) as [st|]; [|done]. cbn in *. unfold raise_cursor.
      rewrite Htr, bget_insert. eexists. split; [done|lia]. }
    destruct (Hfold _ _ H1) as (c2 & H2 & ?). exists c2. split; [exact H2|lia].
  - intros version count first last through at_.
    set (ev := AutomationSlotsSkipped id version tr count first last through at_).
    assert (∃ c', cursor_of (Registry_apply ev r) id tr = Some c' ∧ through ≤ c') as (c1 & H1 & ?).
    { unfold ev. cbn [Registry_apply]. assert (∃ c', cursor_of { r with rg_defs ::= bmodify id
        (λ st, { st with st_cursors ::= raise_cursor tr through }) } id tr = Some c' ∧ through ≤ c') as Hr.
      { unfold cursor_of in *. destruct r as [defs ? ? ?]; cbn in *.
        rewrite bget_modify, decide_True by done. destruct (bget id defs) as [st|]; [|done]. cbn in *.
        unfold raise_cursor. rewrite bget_insert. eexists. split; [done|lia]. }
      destruct (is_some _); [done|]. by rewrite insert_run_cursor. }
    destruct (Hfold _ _ H1) as (c2 & H2 & ?). exists c2. split; [exact H2|lia].
Qed.

(** ** One run per dispatch key *)

Lemma insert_run_get f s a b r key run :
  bget (fr_dispatch_key f) (rg_runs r) = None → bget key (rg_runs r) = Some run →
  bget key (rg_runs (insert_run f s a b r)) = Some run.
Proof. intros Hn Hr. destruct r; cbn in *. rewrite bget_insert_ne; [done|congruence]. Qed.

Lemma move_cursor_runs f r : rg_runs (move_cursor f r) = rg_runs r.
Proof. unfold move_cursor. by destruct (fr_slot_ms f), r. Qed.

(** What may still change of a run that is over. *)
Definition same_outcome (a b : AutoRun) : Prop :=
  ar_firing b = ar_firing a ∧ ar_seq b = ar_seq a ∧
  (RunStatus_is_terminal (ar_status a) = true →
   ∃ ack gate, b = { a with ar_acknowledged := ack; ar_gate := gate }).

Lemma run_step x r key run :
  bget key (rg_runs r) = Some run →
  ∃ run', bget key (rg_runs (Registry_apply x r)) = Some run' ∧ same_outcome run run'.
Proof.
  intros Hr. assert (same_outcome run run) as Hrefl.
  { split_and!; [done..|]. intros _. exists (ar_acknowledged run), (ar_gate run). by destruct run. }
  assert (∃ run', bget key (rg_runs r) = Some run' ∧ same_outcome run run') as Hsame by (exists run; done).
  assert (∀ k f, (∀ y, same_outcome y (f y)) →
    ∃ run', bget key (bmodify k f (rg_runs r)) = Some run' ∧ same_outcome run run') as Hmod.
  { intros k f Hf. rewrite bget_modify. destruct (decide (key = k)) as [->|]; [|done].
    rewrite Hr. cbn. by eexists. }
  destruct x; cbn [Registry_apply]; try (destruct r; exact Hsame).
  - by destruct automation_id, r.
  - destruct (bget (fr_dispatch_key firing) (rg_runs r)) eqn:E; [done|]. exists run. split; [|done].
    apply insert_run_get; by rewrite move_cursor_runs.
  - destruct r; cbn in *. apply Hmod. intros []. unfold same_outcome. cbn.
    destruct (RunStatus_is_terminal ar_status0) eqn:E; cbn; [|split_and!; done].
    split_and!; [done..|]. eauto.
  - destruct (bget (fr_dispatch_key firing) (rg_runs r)) eqn:E; [done|]. exists run. split; [|done].
    apply insert_run_get; by rewrite move_cursor_runs.
  - destruct r; cbn in *. apply Hmod. intros []. unfold same_outcome. cbn.
    destruct (RunStatus_is_terminal ar_status0) eqn:E; cbn; [|split_and!; done].
    split_and!; [done..|]. eauto.
  - destruct r; cbn in *. apply Hmod. intros []. unfold same_outcome. cbn.
    destruct ar_gate0; cbn; split_and!; try done; eauto.
  - destruct (bget dispatch_key0 (rg_runs r)) as [y|] eqn:Ey; [|done].
    destruct (RunStatus_is_terminal (ar_status y)) eqn:Et; [done|]. destruct r; cbn in *.
    rewrite bget_insert_dec. destruct (decide (key = dispatch_key0)) as [->|]; [|done].
    eexists. split; [done|]. simplify_eq. destruct run. unfold same_outcome. cbn in *.
    by rewrite Et.
  - destruct (is_some _) eqn:E; [by destruct r|]. exists run. split; [|done].
    apply insert_run_get; [|by destruct r]. by apply is_some_false.
  - destruct r; cbn in *. apply Hmod. intros []. unfold same_outcome. cbn.
    split_and!; try done; eauto.
Qed.

(** One run per dispatch key. Once a firing is recorded under a key, no later
    event replaces it, and once its run is over its status, reason, task, cost and
    outputs are final: only the gate's answer and a person's acknowledgement can
    still be added. A second firing with a recorded key changes nothing at all. *)
Theorem one_run_per_key log r key run :
  bget key (rg_runs r) = Some run →
  (∃ run', bget key (rg_runs (fold_ledger log r)) = Some run' ∧ same_outcome run run') ∧
  ∀ f initial, fr_dispatch_key f = key → Registry_apply (AutomationFired f initial) r = r.
Proof.
  intros Hr. split; [|intros f initial <-; cbn; by rewrite Hr].
  revert r run Hr. induction log as [|x log IH]; intros r run Hr.
  { exists run. split; [done|]. split_and!; [done..|]. intros _.
    exists (ar_acknowledged run), (ar_gate run). by destruct run. }
  destruct (run_step x r key run Hr) as (run1 & H1 & F1 & S1 & T1).
  destruct (IH _ _ H1) as (run2 & H2 & F2 & S2 & T2). exists run2. split; [done|].
  split_and!; [congruence..|]. intros Ht. destruct (T1 Ht) as (ack & gate & ->).
  destruct (T2 Ht) as (ack' & gate' & ->). exists ack', gate'. by destruct run.
Qed.

End ledger.

(** ** Examples *)

Definition nightly_firing : Firing :=
  {| fr_automation_id := "a"; fr_version := 1; fr_trigger_id := "s"; fr_trigger_kind := "schedule";
     fr_event_id := "e"; fr_dispatch_key := "k"; fr_slot_ms := Some 600; fr_catch_up := false;
     fr_missed := 0; fr_principal := "user:x"; fr_test := false; fr_payload_sha256 := None;
     fr_findings := 0; fr_inputs := Jnull; fr_at_ms := 601 |}.

Definition nightly_log : list AutomationEvent :=
  [ AutomationDefined "a" 1 nightly "h1" Local "/w" "x" 1;
    AutomationEnableApproved "a" 1 "h1" ReversibleWrite ["fs.write"] ["reports/**"] [] None None
      "owner" 10 11;
    AutomationFired nightly_firing Pending;
    AutomationRunFinished "k" RFailed "TASK_FAILED" "" None Jnull 700 ].

Definition nightly_registry : Registry :=
  @fold_ledger Example.sha256 nightly_log Registry_default.

Lemma live_was_approved_witness :
  ∃ st v, bget "a" (rg_defs nightly_registry) = Some st ∧ live st = Some v ∧
    definition_event "a" v ∈ nightly_log.
Proof.
  eexists _, _. split; [reflexivity|]. split; [reflexivity|].
  eapply (live_was_approved (sha := Example.sha256) nightly_log "a"); reflexivity.
Defined.

Lemma cursor_never_back_witness :
  cursor_of nightly_registry "a" "s" = Some 600 ∧
  ∃ c', cursor_of (@fold_ledger Example.sha256
    [AutomationDisabled "a" "OWNER" "" 800] nightly_registry) "a" "s" = Some c' ∧ 600 ≤ c'.
Proof.
  assert (cursor_of nightly_registry "a" "s" = Some 600) as Hc by reflexivity.
  split; [exact Hc|].
  exact (proj1 (cursor_never_back (sha := Example.sha256) [AutomationDisabled "a" "OWNER" "" 800]
    nightly_registry "a" "s" 600 Hc)).
Defined.

Lemma one_run_per_key_witness :
  ∃ run run', bget "k" (rg_runs nightly_registry) = Some run ∧ ar_status run = RFailed ∧
    bget "k" (rg_runs (@fold_ledger Example.sha256
      [AutomationDispatched "k" "t" "s" 900] nightly_registry)) = Some run' ∧ same_outcome run run'.
Proof.
  eexists. destruct (one_run_per_key (sha := Example.sha256) [AutomationDispatched "k" "t" "s" 900]
    nightly_registry "k" _ eq_refl) as [(run' & H1 & H2) _].
  exists run'. split; [reflexivity|]. split; [reflexivity|]. split; [exact H1|exact H2].
Defined.
