(* ===== verification/Webhook.v ===== *)
(** * Signed webhooks

    [crates/automation/src/webhook.rs]: the signature header of a delivery, its
    verification, and the cache that refuses a replay. HMAC-SHA256 and the hex
    codec are third-party code and parameters. *)

From stdpp Require Import gmap.
From S2P Require Import Prelude RustStr.
#[local] Open Scope Z_scope.

(** [Hmac::<Sha256>]: the code of a message under a key, if the key is accepted. *)
Class Hmac := hmac : string → string → option string.

(** The [hex] crate. *)
Class Hex := {
  hex_encode : string → string;
  hex_decode : string → option string
}.

(** Documented behaviour of the crate: encoding gives lower-case hexadecimal
    digits and decodes back. *)
Definition is_hex_digit (a : ascii) : bool :=
  is_ascii_digit a || ((97 <=? byte_of a) && (byte_of a <=? 102)).
Class LawfulHex `{Hex} : Prop := {
  hex_round : ∀ s, hex_decode (hex_encode s) = Some s;
  hex_digits : ∀ s, str_all is_hex_digit (hex_encode s) = true
}.

Definition DEFAULT_WINDOW_SECONDS : Z := 300.
Definition MAX_NONCE_BYTES : Z := 64.

Inductive Refusal :=
  | Malformed
  | BadNonce
  | Stale
  | Future
  | BadSignature
  | Replayed.

Definition Refusal_code (r : Refusal) : string :=
  match r with
  | Malformed => "SIGNATURE_MALFORMED"
  | BadNonce => "SIGNATURE_BAD_NONCE"
  | Stale => "SIGNATURE_STALE"
  | Future => "SIGNATURE_FUTURE"
  | BadSignature => "SIGNATURE_INVALID"
  | Replayed => "WEBHOOK_REPLAYED"
  end.

Record Verified := {
  vf_timestamp_s : Z;
  vf_nonce : string
}.

(** Subtraction and multiplication on [i64] in a release build. *)
Definition wrap_i64 (x : Z) : Z := (x - i64_min) mod (u64_max + 1) + i64_min.

Definition plain_nonce (n : string) : bool :=
  negb (str_is_empty n) && (str_len n <=? MAX_NONCE_BYTES) &&
  str_all (λ b, is_ascii_alnum b || Ascii.eqb b "-" || Ascii.eqb b "_") n.

(** The loop over the parts of the header. *)
Record Header := {
  hd_t : option Z;
  hd_n : option string;
  hd_v1 : option string
}.

Fixpoint parse_header (parts : list string) (h : Header) : result Refusal Header :=
  match parts with
  | [] => Ok h
  | part :: parts =>
      match split_once "=" (trim part) with
      | None => Err Malformed
      | Some (k, v) =>
          if k =s "t" then parse_header parts { h with hd_t := parse_i64 v }
          else if k =s "n" then parse_header parts { h with hd_n := Some v }
          else if k =s "v1" then parse_header parts { h with hd_v1 := Some v }
          else Err Malformed
      end
  end.

Section webhook.
Context {hm : Hmac} {hx : Hex}.

(** The signed text: [v1.<t>.<nonce>.] and the body. *)
Definition signed_text (timestamp_s : Z) (nonce body : string) : string :=
  ("v1." +:+ pretty timestamp_s +:+ "." +:+ nonce +:+ ".") +:+ body.

Definition mac (secret : string) (timestamp_s : Z) (nonce body : string) : option string :=
  hmac secret (signed_text timestamp_s nonce body).

Definition sign (secret : string) (timestamp_s : Z) (nonce body : string) : string :=
  "t=" +:+ pretty timestamp_s +:+ ",n=" +:+ nonce +:+ ",v1=" +:+
  hex_encode (default "" (mac secret timestamp_s nonce body)).

Definition verify (secret header body : string) (now_s window_s : Z) : result Refusal Verified :=
  h ← parse_header (split_on "," header) {| hd_t := None; hd_n := None; hd_v1 := None |};
  match hd_t h, hd_n h, hd_v1 h with
  | Some t, Some n, Some v1 =>
      if negb (plain_nonce n) then Err BadNonce
      else
        given ← ok_or (hex_decode v1) Malformed;
        expected ← ok_or (mac secret t n body) Malformed;
        if negb (given =s expected) then Err BadSignature
        else if window_s <? wrap_i64 (now_s - t) then Err Stale
        else if window_s <? wrap_i64 (t - now_s) then Err Future
        else Ok {| vf_timestamp_s := t; vf_nonce := n |}
  | _, _, _ => Err Malformed
  end.

(** [ReplayCache]: when each nonce of an endpoint was recorded. *)
Definition ReplayCache : Type := gmap (string * string) Z.

(** [seen.retain(..)]. *)
Definition retain (now_s window_s : Z) : ReplayCache → ReplayCache :=
  filter (λ e, wrap_i64 (now_s - e.2) ≤ wrap_i64 (window_s * 2)).
Arguments retain : simpl never.

Definition check_and_record (endpoint nonce : string) (now_s window_s : Z)
    : SE ReplayCache Refusal unit :=
  se_mod (retain now_s window_s);;
  seen ← se_get;
  match seen !! (endpoint, nonce) with
  | Some _ => se_err Replayed
  | None => se_mod (<[(endpoint, nonce) := now_s]>)
  end.

(** ** Signatures *)

Lemma plain_nonce_chars n :
  plain_nonce n = true → str_all (λ b, is_ascii_alnum b || Ascii.eqb b "-" || Ascii.eqb b "_") n = true.
Proof. unfold plain_nonce. intros H. by apply andb_true_iff in H as [_ H]. Qed.

(** The signed text determines the timestamp, the nonce and the body: a signature
    cannot be moved under another of them. *)
Lemma signed_text_inj t1 n1 b1 t2 n2 b2 :
  plain_nonce n1 = true → plain_nonce n2 = true →
  signed_text t1 n1 b1 = signed_text t2 n2 b2 → t1 = t2 ∧ n1 = n2 ∧ b1 = b2.
Proof.
  intros H1%plain_nonce_chars H2%plain_nonce_chars. unfold signed_text. rewrite !str_app_assoc.
  change ("v1." +:+ ?x) with (String "v" (String "1" (String "." x))).
  intros Heq. injection Heq as Heq.
  assert (∀ t : Z, contains_char "." (pretty t) = false) as Ht.
  { intros t. eapply (str_all_no_char is_signed_digit); [done|apply pretty_signed]. }
  assert (∀ (t : Z) n b, split_once "." (pretty t +:+ "." +:+ n +:+ "." +:+ b) =
    Some (pretty t, n +:+ "." +:+ b)) as Hs by (intros t n b; by apply split_once_app).
  pose proof (Hs t1 n1 b1) as E1. rewrite Heq, Hs in E1. injection E1 as Et En.
  assert (∀ n b, str_all (λ b, is_ascii_alnum b || Ascii.eqb b "-" || Ascii.eqb b "_") n = true →
    split_once "." (n +:+ "." +:+ b) = Some (n, b)) as Hn.
  { intros n b Hc. apply split_once_app. by eapply str_all_no_char; [|exact Hc]. }
  pose proof (Hn n1 b1 H1) as E1. rewrite <- En, (Hn n2 b2 H2) in E1. injection E1 as <- <-.
  split; [|done]. symmetry. by apply pretty_inj.
Qed.

(** What a verification that succeeds has checked. *)
Lemma verify_ok secret header body now w v :
  verify secret header body now w = Ok v →
  ∃ h v1, parse_header (split_on "," header) {| hd_t := None; hd_n := None; hd_v1 := None |} = Ok h ∧
    hd_t h = Some (vf_timestamp_s v) ∧ hd_n h = Some (vf_nonce v) ∧ hd_v1 h = Some v1 ∧
    plain_nonce (vf_nonce v) = true ∧
    is_Some (mac secret (vf_timestamp_s v) (vf_nonce v) body) ∧
    hex_decode v1 = mac secret (vf_timestamp_s v) (vf_nonce v) body ∧
    wrap_i64 (now - vf_timestamp_s v) ≤ w ∧ wrap_i64 (vf_timestamp_s v - now) ≤ w.
Proof.
  unfold verify. intros (h & Hh & Hv)%bind_ok. exists h. rewrite Hh.
  destruct (hd_t h) as [t|], (hd_n h) as [n|], (hd_v1 h) as [v1|]; try done.
  destruct (plain_nonce n) eqn:Hn; [cbn in Hv|done].
  apply bind_ok in Hv as (given & Hg & Hv). apply bind_ok in Hv as (expected & He & Hv).
  destruct (String.eqb_spec given expected) as [->|]; [cbn in Hv|done].
  destruct (Z.ltb_spec w (wrap_i64 (now - t))); [done|].
  destruct (Z.ltb_spec w (wrap_i64 (t - now))); [done|]. injection Hv as <-. cbn.
  exists v1. unfold ok_or in *. destruct (hex_decode v1) as [g|], (mac secret t n body) as [e|]; try done.
  simplify_eq. split_and!; eauto.
Qed.

(** A signature belongs to one delivery. If the code is injective in the
    signed text under a secret, then two accepted deliveries whose headers carry
    the same signature have the same timestamp, the same nonce and the same body;
    so a body cannot be exchanged under a signature, nor a signature moved to
    another time or nonce. *)
Theorem signature_binds secret h1 b1 now1 w1 v1 h2 b2 now2 w2 v2 :
  (∀ m m' c, hmac secret m = Some c → hmac secret m' = Some c → m = m') →
  verify secret h1 b1 now1 w1 = Ok v1 → verify secret h2 b2 now2 w2 = Ok v2 →
  (result_ok (parse_header (split_on "," h1) {| hd_t := None; hd_n := None; hd_v1 := None |}) ≫= hd_v1) =
  (result_ok (parse_header (split_on "," h2) {| hd_t := None; hd_n := None; hd_v1 := None |}) ≫= hd_v1) →
  v1 = v2 ∧ b1 = b2.
Proof.
  intros Hinj (p1 & s1 & -> & _ & _ & E1 & N1 & [c Hc] & D1 & _)%verify_ok
    (p2 & s2 & -> & _ & _ & E2 & N2 & _ & D2 & _)%verify_ok Hs.
  cbn in Hs. rewrite E1, E2 in Hs. injection Hs as ->.
  assert (signed_text (vf_timestamp_s v1) (vf_nonce v1) b1 =
          signed_text (vf_timestamp_s v2) (vf_nonce v2) b2) as Ht.
  { apply (Hinj _ _ c); [exact Hc|]. unfold mac in *. congruence. }
  apply signed_text_inj in Ht as (Ht & Hn & ->); [|done..]. split; [|done].
  destruct v1, v2. cbn in *. congruence.
Qed.

(** ** Round trip *)

Context {lawful : LawfulHex}.

Lemma part_plain k s :
  str_all is_plain k = true → str_all is_plain s = true → contains_char "=" k = false →
  split_once "=" (trim (k +:+ "=" +:+ s)) = Some (k, s).
Proof.
  intros Hk Hs Hc. rewrite trim_plain.
  - by apply split_once_app.
  - rewrite !str_all_app, Hk, Hs. done.
Qed.

Lemma is_plain_range a : 33 ≤ byte_of a ≤ 126 → is_plain a = true.
Proof. unfold is_plain. intros. apply andb_true_iff. rewrite !Z.leb_le. lia. Qed.

Lemma signed_digit_plain a : is_signed_digit a = true → is_plain a = true.
Proof.
  intros H. apply is_plain_range. unfold is_signed_digit, is_ascii_digit in H.
  apply orb_true_iff in H as [H| ->%Ascii.eqb_eq]; [bool_to_prop; lia|]. vm_compute. split; discriminate.
Qed.

Lemma hex_digit_plain a : is_hex_digit a = true → is_plain a = true.
Proof.
  intros H. apply is_plain_range. unfold is_hex_digit, is_ascii_digit in H.
  apply orb_true_iff in H as [H|H]; bool_to_prop; lia.
Qed.

Lemma nonce_char_plain a :
  is_ascii_alnum a || Ascii.eqb a "-" || Ascii.eqb a "_" = true → is_plain a = true.
Proof.
  intros H. apply is_plain_range. unfold is_ascii_alnum, is_ascii_alpha, is_ascii_upper, is_ascii_lower,
    is_ascii_digit in H.
  rewrite !orb_true_iff in H. destruct H as [[[[H|H]|H]| ->%Ascii.eqb_eq]| ->%Ascii.eqb_eq];
    bool_to_prop; try lia; vm_compute; split; discriminate.
Qed.

Lemma wrap_i64_small x : in_i64 x → wrap_i64 x = x.
Proof.
  unfold in_i64, wrap_i64, i64_min, i64_max, u64_max. intros. rewrite Z.mod_small; lia.
Qed.

(** What [verify] makes of a header [sign] built for the same body. *)
Lemma verify_signed secret t nonce body now w code :
  in_i64 t → plain_nonce nonce = true → mac secret t nonce body = Some code →
  verify secret (sign secret t nonce body) body now w =
    if w <? wrap_i64 (now - t) then Err Stale
    else if w <? wrap_i64 (t - now) then Err Future
    else Ok {| vf_timestamp_s := t; vf_nonce := nonce |}.
Proof.
  intros Ht Hn Hm. unfold verify, sign. rewrite Hm. change (default "" (Some code)) with code.
  pose proof (plain_nonce_chars _ Hn) as Hnc.
  assert (split_on "," ("t=" +:+ pretty t +:+ ",n=" +:+ nonce +:+ ",v1=" +:+ hex_encode code) =
    ["t" +:+ "=" +:+ pretty t; "n" +:+ "=" +:+ nonce; "v1" +:+ "=" +:+ hex_encode code]) as ->.
  { rewrite <- (split_on_join_inv "," ["t" +:+ "=" +:+ pretty t; "n" +:+ "=" +:+ nonce;
      "v1" +:+ "=" +:+ hex_encode code]); [|done|].
    - f_equal.
    - repeat constructor; rewrite !contains_char_app; apply orb_false_iff; split; try done;
        apply orb_false_iff; split; try done.
      + eapply (str_all_no_char is_signed_digit); [done|apply pretty_signed].
      + by eapply str_all_no_char; [|exact Hnc].
      + eapply str_all_no_char; [|apply hex_digits]. done. }
  cbn [parse_header].
  rewrite part_plain; [|done|eapply str_all_impl; [apply signed_digit_plain|apply pretty_signed]|done].
  rewrite part_plain; [|done|eapply str_all_impl; [apply nonce_char_plain|done]|done].
  rewrite part_plain; [|done|eapply str_all_impl; [apply hex_digit_plain|apply hex_digits]|done].
  unfold mac in Hm |- *. cbn -[plain_nonce]. rewrite parse_i64_pretty by done. cbn -[plain_nonce]. rewrite Hn, hex_round, Hm. cbn.
  by rewrite String.eqb_refl.
Qed.

(** What is signed verifies. The header [sign] builds for a body, with a plain
    nonce and a timestamp inside the window around the receiver's clock, is
    accepted for that body, and yields that timestamp and that nonce; outside the
    window, and within 2^63 seconds, it is refused as stale or as of the future. *)
Theorem verify_sign secret t nonce body now w code :
  in_i64 t → in_i64 (now - t) → in_i64 (t - now) → plain_nonce nonce = true →
  mac secret t nonce body = Some code →
  verify secret (sign secret t nonce body) body now w =
    if decide (w < now - t) then Err Stale
    else if decide (w < t - now) then Err Future
    else Ok {| vf_timestamp_s := t; vf_nonce := nonce |}.
Proof.
  intros Ht H1 H2 Hn Hm. rewrite (verify_signed _ _ _ _ _ _ code), !wrap_i64_small by done.
  destruct (Z.ltb_spec w (now - t)), (decide (w < now - t)); try lia; [done|].
  destruct (Z.ltb_spec w (t - now)), (decide (w < t - now)); by try lia.
Qed.

(** The window does not hold at the end of the type. A correctly signed
    delivery whose timestamp is exactly 2^63 seconds before the receiver's clock
    is accepted as fresh by a build without overflow checks, whatever the window:
    both differences wrap to the least number. *)
Theorem oldest_timestamp_accepted secret nonce body now w code :
  0 ≤ now ≤ i64_max → 0 ≤ w → plain_nonce nonce = true →
  let t := now - i64_max - 1 in
  mac secret t nonce body = Some code →
  verify secret (sign secret t nonce body) body now w =
    Ok {| vf_timestamp_s := t; vf_nonce := nonce |}.
Proof.
  intros Hnow Hw Hn t Hm. rewrite (verify_signed _ _ _ _ _ _ code);
    [|unfold t, in_i64, i64_min, i64_max in *; lia|done..].
  assert (wrap_i64 (now - t) = i64_min) as ->
    by (replace (now - t) with (i64_max + 1) by (unfold t; lia); reflexivity).
  assert (wrap_i64 (t - now) = i64_min) as ->
    by (replace (t - now) with (- i64_max - 1) by (unfold t; lia); reflexivity).
  destruct (Z.ltb_spec w i64_min); [unfold i64_min in *; lia|done].
Qed.

(** ** Replays *)

(** A delivery as a receiver sees it, and what a receiver does with it. *)
Record Delivery := {
  dl_endpoint : string;
  dl_secret : string;
  dl_header : string;
  dl_body : string;
  dl_now : Z
}.

Definition receive (w : Z) (d : Delivery) : SE ReplayCache Refusal Verified :=
  v ← se_lift (verify (dl_secret d) (dl_header d) (dl_body d) (dl_now d) w);
  check_and_record (dl_endpoint d) (vf_nonce v) (dl_now d) w;;
  mret v.

Definition receive_all (w : Z) (ds : list Delivery) (c : ReplayCache) : ReplayCache :=
  foldl (λ c d, (receive w d c).1) c ds.

(** Clocks and windows far from the ends of the type. *)
Definition sane_max : Z := 1000000000000000000.
Definition sane (w now : Z) : Prop := 0 ≤ w < sane_max ∧ 0 ≤ now < sane_max.

Lemma wrap_i64_cases x :
  - u64_max ≤ x ≤ u64_max →
  (in_i64 x ∧ wrap_i64 x = x) ∨
  (i64_max < x ∧ wrap_i64 x = x - (u64_max + 1)) ∨ (x < i64_min ∧ wrap_i64 x = x + (u64_max + 1)).
Proof.
  intros Hx. destruct (decide (in_i64 x)) as [Hi|Hi]; [left; split; [done|by apply wrap_i64_small]|].
  right. unfold in_i64, wrap_i64, i64_min, i64_max, u64_max in *.
  destruct (decide (0 ≤ x)); [left|right]; (split; [lia|]).
  - rewrite (Z.mod_eq _ (18446744073709551615 + 1)) by lia.
    rewrite <- (Z.div_unique (x - -9223372036854775808) (18446744073709551615 + 1) 1
      (x - -9223372036854775808 - 18446744073709551616)); lia.
  - rewrite (Z.mod_eq _ (18446744073709551615 + 1)) by lia.
    rewrite <- (Z.div_unique (x - -9223372036854775808) (18446744073709551615 + 1) (-1)
      (x - -9223372036854775808 + 18446744073709551616)); lia.
Qed.

Lemma parse_i64_in s n : parse_i64 s = Some n → in_i64 n.
Proof.
  assert (∀ r, parse_unsigned i64_max r = Some n → in_i64 n) as Hu.
  { intros r H%parse_unsigned_in. unfold in_i64, i64_min, i64_max in *. lia. }
  assert (∀ r, (if str_is_empty r then None
    else k ← digits_value 0 r; if k <=? - i64_min then Some (- k) else None) = Some n → in_i64 n) as Hneg.
  { intros r. destruct (str_is_empty r); [done|]. destruct (digits_value 0 r) as [k|] eqn:E; [cbn|done].
    apply digits_value_nonneg in E; [|lia]. destruct (Z.leb_spec k (- i64_min)); [|done].
    intros [= <-]. unfold in_i64, i64_min, i64_max in *. lia. }
  destruct s as [|a s]; [apply Hu|].
  destruct (decide (a = "-"%char)) as [->|Ha]; [apply Hneg|].
  assert (parse_i64 (String a s) = parse_unsigned i64_max (String a s)) as ->; [|apply Hu].
  clear Hu Hneg. destruct a as [[] [] [] [] [] [] [] []]; try reflexivity; congruence.
Qed.

Lemma parse_header_t parts h h' t :
  (∀ t, hd_t h = Some t → in_i64 t) → parse_header parts h = Ok h' → hd_t h' = Some t → in_i64 t.
Proof.
  revert h. induction parts as [|p parts IH]; intros h Hh; cbn [parse_header].
  - intros [= <-]. auto.
  - destruct (split_once "=" (trim p)) as [[k v]|]; [|done].
    destruct (k =s "t"); [|destruct (k =s "n"); [|destruct (k =s "v1"); [|done]]]; apply IH.
    + cbn. intros x Hx. by eapply parse_i64_in.
    + by destruct h.
    + by destruct h.
Qed.

(** Acceptance bounds the age of a delivery, also for timestamps at the ends of
    the type, where the differences wrap; but for the one timestamp that is 2^63
    seconds old, whose two differences both wrap to the least number. *)
Lemma verify_window secret header body now w v :
  sane w now → verify secret header body now w = Ok v →
  Z.abs (now - vf_timestamp_s v) ≤ w ∨ now - vf_timestamp_s v = i64_max + 1.
Proof.
  intros [Hw Hnow] (h & v1 & Hh & Ht & _ & _ & _ & _ & _ & H1 & H2)%verify_ok.
  apply parse_header_t with (t := vf_timestamp_s v) in Hh; [|done|done].
  set (t := vf_timestamp_s v) in *. clearbody t. unfold in_i64, sane_max in *.
  assert (- u64_max ≤ now - t ≤ u64_max ∧ - u64_max ≤ t - now ≤ u64_max) as [R1 R2]
    by (unfold i64_min, i64_max, u64_max in *; lia).
  destruct (wrap_i64_cases (now - t) R1) as [[? E1]|[[? E1]|[? E1]]];
    destruct (wrap_i64_cases (t - now) R2) as [[? E2]|[[? E2]|[? E2]]];
    rewrite E1 in H1; rewrite E2 in H2;
    unfold in_i64, i64_min, i64_max, u64_max in *; lia.
Qed.

Lemma check_and_record_eq endpoint nonce now w c :
  check_and_record endpoint nonce now w c =
    match retain now w c !! (endpoint, nonce) with
    | Some _ => (retain now w c, Err Replayed)
    | None => (<[(endpoint, nonce) := now]> (retain now w c), Ok tt)
    end.
Proof.
  unfold check_and_record. cbv [mbind se_bind se_mod se_get]. by destruct (retain now w c !! _).
Qed.

Lemma receive_eq w d c :
  receive w d c =
    match verify (dl_secret d) (dl_header d) (dl_body d) (dl_now d) w with
    | Ok v =>
        match check_and_record (dl_endpoint d) (vf_nonce v) (dl_now d) w c with
        | (c', Ok _) => (c', Ok v)
        | (c', Err e) => (c', Err e)
        end
    | Err e => (c, Err e)
    end.
Proof. done. Qed.

Lemma cache_keeps w endpoint nonce now c k a :
  sane w now → sane w a → a ≤ now ≤ a + 2 * w → c !! k = Some a →
  (check_and_record endpoint nonce now w c).1 !! k = Some a.
Proof.
  intros [Hw Hn] [_ Ha] Hr Hk. unfold sane_max in *.
  rewrite check_and_record_eq.
  assert (retain now w c !! k = Some a) as Hf.
  { apply map_lookup_filter_Some. split; [done|]. cbn.
    rewrite !wrap_i64_small by (unfold in_i64, i64_min, i64_max; lia). lia. }
  destruct (retain now w c !! (endpoint, nonce)) eqn:E; cbn [fst]; [done|].
  unfold ReplayCache in *. rewrite lookup_insert_ne; [done|]. intros <-. congruence.
Qed.

Lemma receive_keeps w d c k a :
  sane w (dl_now d) → sane w a → a ≤ dl_now d ≤ a + 2 * w → c !! k = Some a →
  (receive w d c).1 !! k = Some a.
Proof.
  intros Hd Ha Hr Hk. rewrite receive_eq. destruct (verify _ _ _ _ _) as [v|e]; [|done].
  pose proof (cache_keeps w (dl_endpoint d) (vf_nonce v) (dl_now d) c k a Hd Ha Hr Hk) as H.
  by destruct (check_and_record _ _ _ _ c) as [c' [[]|e]].
Qed.

Lemma receive_all_keeps w ds c k a :
  Forall (λ d, sane w (dl_now d) ∧ a ≤ dl_now d ≤ a + 2 * w) ds → sane w a → c !! k = Some a →
  receive_all w ds c !! k = Some a.
Proof.
  intros Hds Ha. revert c. induction Hds as [|d ds [Hd Hr] _ IH]; intros c Hk; [done|].
  cbn. apply IH. by apply receive_keeps.
Qed.

(** A delivery is accepted once. Whatever else arrives in between, a delivery
    that repeats the timestamp and the nonce of one that the endpoint accepted is
    not accepted again: while its timestamp is inside the window the cache still
    holds the nonce, since it keeps nonces for twice the window. The clock must
    not go back and stay away from the ends of its type. *)
Theorem delivery_accepted_once w c d1 mid d2 v :
  Forall (λ d, sane w (dl_now d) ∧ dl_now d1 ≤ dl_now d ≤ dl_now d2) (d1 :: mid ++ [d2]) →
  dl_endpoint d1 = dl_endpoint d2 →
  (receive w d1 c).2 = Ok v →
  (receive w d2 (receive_all w mid (receive w d1 c).1)).2 ≠ Ok v.
Proof.
  intros Hall He H1 H2. apply Forall_cons in Hall as [[S1 _] Hall].
  apply Forall_app in Hall as [Hmid Hd2]. apply Forall_cons in Hd2 as [[S2 T2] _].
  assert ((receive w d1 c).1 !! (dl_endpoint d1, vf_nonce v) = Some (dl_now d1) ∧
          (Z.abs (dl_now d1 - vf_timestamp_s v) ≤ w ∨ dl_now d1 - vf_timestamp_s v = i64_max + 1))
    as [Hk A1].
  { rewrite receive_eq in H1 |- *. destruct (verify _ _ _ _ _) as [v1|e] eqn:E; [|done].
    destruct (check_and_record _ _ _ _ c) as [c' [[]|e]] eqn:Ec; [|done]. cbn in *.
    injection H1 as ->. split; [|by eapply verify_window].
    rewrite check_and_record_eq in Ec. destruct (retain _ _ c !! _); [done|].
    injection Ec as <-. apply lookup_insert_eq. }
  set (c1 := (receive w d1 c).1) in *. clearbody c1.
  assert (receive_all w mid c1 !! (dl_endpoint d2, vf_nonce v) = Some (dl_now d1) ∧
          dl_now d2 ≤ dl_now d1 + 2 * w) as [Hk2 Hlt].
  { assert (dl_now d2 ≤ dl_now d1 + 2 * w) as Hle.
    { rewrite receive_eq in H2. destruct (verify _ _ _ _ _) as [v2|e] eqn:E; [|done].
      destruct (check_and_record _ _ _ _ _) as [c' [[]|e]]; [|done]. cbn in H2. injection H2 as ->.
      apply verify_window in E; [|done]. destruct S1, S2.
      unfold sane_max, i64_max in *. lia. }
    split; [|done]. rewrite <- He. apply receive_all_keeps; [|done|done].
    eapply Forall_impl; [exact Hmid|]. cbn. intros d [Hs Ht]. split; [done|lia]. }
  rewrite receive_eq in H2. destruct (verify _ _ _ _ _) as [v2|e] eqn:E; [|done].
  rewrite check_and_record_eq in H2.
  destruct (retain _ _ (receive_all w mid c1) !! (dl_endpoint d2, vf_nonce v2)) eqn:Ef; [done|].
  cbn in H2. injection H2 as ->.
  unfold ReplayCache in *. apply map_lookup_filter_None in Ef as [Ef|Ef]; [congruence|].
  apply (Ef _ Hk2). cbn. destruct S1 as [Hw Hs1], S2 as [_ Hs2].
  unfold sane_max in *.
  rewrite !wrap_i64_small by (unfold in_i64, i64_min, i64_max; lia). lia.
Qed.

End webhook.

(** ** Examples *)

(** A code that is injective, and a hex codec. *)
Definition plain_hmac : Hmac := λ secret m, Some m.

Definition hex_digit (n : N) : ascii := if (n <? 10)%N then ascii_of_N (48 + n) else ascii_of_N (87 + n).
Definition hex_value (a : ascii) : option N :=
  let n := N_of_ascii a in
  if is_ascii_digit a then Some (n - 48)%N
  else if is_hex_digit a then Some (n - 87)%N else None.

Fixpoint encode (s : string) : string :=
  match s with
  | "" => ""
  | String a s => String (hex_digit (N_of_ascii a / 16)) (String (hex_digit (N_of_ascii a mod 16)) (encode s))
  end.
Fixpoint decode (s : string) : option string :=
  match s with
  | "" => Some ""
  | String a (String b s) =>
      x ← hex_value a; y ← hex_value b; r ← decode s; Some (String (ascii_of_N (16 * x + y)) r)
  | _ => None
  end.
Definition hex_codec : Hex := {| hex_encode := encode; hex_decode := decode |}.

Lemma hex_byte a :
  is_hex_digit (hex_digit (N_of_ascii a / 16)) && is_hex_digit (hex_digit (N_of_ascii a mod 16)) = true ∧
  (x ← hex_value (hex_digit (N_of_ascii a / 16)); y ← hex_value (hex_digit (N_of_ascii a mod 16));
   Some (ascii_of_N (16 * x + y))) = Some a.
Proof. by destruct a as [[] [] [] [] [] [] [] []]. Qed.

#[export] Instance hex_codec_lawful : @LawfulHex hex_codec.
Proof.
  split; cbn.
  - induction s as [|a s IH]; cbn; [done|]. destruct (hex_byte a) as [_ H]. rewrite IH.
    destruct (hex_value (hex_digit (N_of_ascii a / 16))) as [x|]; cbn in H |- *; [|done].
    destruct (hex_value (hex_digit (N_of_ascii a mod 16))) as [y|]; cbn in H |- *; [|done].
    by injection H as ->.
  - induction s as [|a s IH]; cbn; [done|]. destruct (hex_byte a) as [H _].
    by rewrite IH, andb_true_r.
Qed.

Definition ping (now : Z) : Delivery :=
  {| dl_endpoint := "ci"; dl_secret := "s"; dl_body := "{}"; dl_now := now;
     dl_header := sign (hm := plain_hmac) (hx := hex_codec) "s" 1000 "n-1" "{}" |}.

Lemma signature_binds_witness :
  ∃ v, verify (hm := plain_hmac) (hx := hex_codec) "s" (dl_header (ping 1000)) "{}" 1000 300 = Ok v ∧
    v = v ∧ "{}" = "{}".
Proof.
  eexists. split; [vm_compute; reflexivity|].
  eapply (signature_binds (hm := plain_hmac) (hx := hex_codec) "s" (dl_header (ping 1000)) "{}" 1000 300 _
    (dl_header (ping 1000)) "{}" 1000 300).
  - intros m m' c H H'. injection H as <-. by injection H' as <-.
  - vm_compute. reflexivity.
  - vm_compute. reflexivity.
  - reflexivity.
Defined.

Lemma verify_sign_witness :
  verify (hm := plain_hmac) (hx := hex_codec) "s" (dl_header (ping 1000)) "{}" 1200 300 =
    Ok {| vf_timestamp_s := 1000; vf_nonce := "n-1" |}.
Proof.
  refine (verify_sign (hm := plain_hmac) (hx := hex_codec) "s" 1000 "n-1" "{}" 1200 300
    (signed_text 1000 "n-1" "{}") _ _ _ _ _); [split; discriminate..|reflexivity|reflexivity].
Defined.

Lemma oldest_timestamp_accepted_witness :
  verify (hm := plain_hmac) (hx := hex_codec) "s"
    (sign (hm := plain_hmac) (hx := hex_codec) "s" (1200 - i64_max - 1) "n-1" "{}") "{}" 1200 300 =
    Ok {| vf_timestamp_s := 1200 - i64_max - 1; vf_nonce := "n-1" |}.
Proof.
  refine (oldest_timestamp_accepted (hm := plain_hmac) (hx := hex_codec) "s" "n-1" "{}" 1200 300
    (signed_text (1200 - i64_max - 1) "n-1" "{}") _ _ _ _);
    [split; discriminate|discriminate|reflexivity|reflexivity].
Defined.

Lemma delivery_accepted_once_witness :
  let v := {| vf_timestamp_s := 1000; vf_nonce := "n-1" |} in
  (receive (hm := plain_hmac) (hx := hex_codec) 300 (ping 1000) ∅).2 = Ok v ∧
  (receive (hm := plain_hmac) (hx := hex_codec) 300 (ping 1300)
     (receive (hm := plain_hmac) (hx := hex_codec) 300 (ping 1000) ∅).1).2 ≠ Ok v.
Proof.
  cbv zeta. assert ((receive (hm := plain_hmac) (hx := hex_codec) 300 (ping 1000) ∅).2 =
    Ok {| vf_timestamp_s := 1000; vf_nonce := "n-1" |}) as H by (vm_compute; reflexivity).
  split; [exact H|].
  refine (delivery_accepted_once (hm := plain_hmac) (hx := hex_codec) 300 ∅ (ping 1000) [] (ping 1300)
    _ _ eq_refl H).
  unfold sane, sane_max. repeat constructor; cbn; lia.
Defined.
