(* ===== verification/Ledger.v ===== *)
(** * The effect receipt chain and the authority epochs

    [crates/policy/src/ledger.rs] and [crates/policy/src/epoch.rs]: receipts of
    protected effects chained by their hashes, and the checks that a receipt
    names the epoch its decision was made in. [serde_json]'s printer and SHA-256
    are parameters; that they are injective is a hypothesis of the theorems on
    tamper evidence. *)

From stdpp Require Import countable.
From S2P Require Import Prelude RustStr BTree External ToolCall.
#[local] Open Scope Z_scope.

(** ** JSON values

    The values serialized here hold no fractions, so a number is an integer. *)
Inductive json :=
  | JNull
  | JBool (b : bool)
  | JNumber (n : Z)
  | JString (s : string)
  | JArray (l : list json)
  | JObject (m : bmap json).

(** [Value::to_string], the compact printer of [serde_json]. *)
Class JsonText := json_text : json → string.

(** The inner [sort] of [canonical_json]. *)
Fixpoint sort_json (v : json) : json :=
  match v with
  | JObject m => JObject (bmap_of (map (λ kv, (kv.1, sort_json kv.2)) m))
  | JArray a => JArray (map sort_json a)
  | other => other
  end.

Definition canonical_json `{JsonText} (v : json) : string := json_text (sort_json v).

(** ** Serialization of a receipt, as [derive(Serialize)] writes it *)

Definition opt_json {A} (f : A → json) (o : option A) : json :=
  match o with Some a => f a | None => JNull end.

(** [skip_serializing_if = "Option::is_none"]. *)
Definition skip_none {A} (k : string) (f : A → json) (o : option A) : list (string * json) :=
  match o with Some a => [(k, f a)] | None => [] end.

Definition stamp_value (s : AuthorizationStamp) : json :=
  JObject (bmap_of [("epoch", JNumber (stamp_epoch s));
                    ("snapshot_hash", JString (stamp_snapshot_hash s))]).

Section ledger.
Context {idt : IdText}.

Definition id_value (id : Z) : json := JString (id_text id).

Definition receipt_fields (r : EffectReceipt) : list (string * json) :=
  [ ("effect_id", id_value (er_effect_id r));
    ("previous_receipt_hash", opt_json JString (er_previous_receipt_hash r));
    ("task_id", id_value (er_task_id r));
    ("tool_call_id", id_value (er_tool_call_id r));
    ("capability_lease_id", opt_json id_value (er_capability_lease_id r));
    ("intent_hash", JString (er_intent_hash r));
    ("policy_decision", JString (er_policy_decision r));
    ("approval_id", opt_json id_value (er_approval_id r));
    ("execution_target", JString (er_execution_target r));
    ("evidence_ref", opt_json JString (er_evidence_ref r));
    ("status", JString (er_status r));
    ("occurred_at", JNumber (er_occurred_at r)) ] ++
  skip_none "reversibility" (λ x, JString (Reversibility_label x)) (er_reversibility r) ++
  skip_none "compensates" id_value (er_compensates r) ++
  skip_none "authorization" stamp_value (er_authorization r) ++
  [ ("receipt_hash", JString (er_receipt_hash r)) ].

Definition receipt_value (r : EffectReceipt) : json := JObject (bmap_of (receipt_fields r)).

(** ** The chain *)

Definition STATUS_AUTHORIZED : string := "AUTHORIZED".

Definition is_authorization (r : EffectReceipt) : bool := er_status r =s STATUS_AUTHORIZED.

Definition result_of (chain : list EffectReceipt) (call : Z) : option EffectReceipt :=
  List.find (λ r, (er_tool_call_id r =? call) && negb (is_authorization r)) chain.

Definition authorization_of (chain : list EffectReceipt) (call : Z) : option EffectReceipt :=
  List.find (λ r, (er_tool_call_id r =? call) && is_authorization r) chain.

Definition in_doubt (chain : list EffectReceipt) : list EffectReceipt :=
  List.filter (λ r, is_authorization r && negb (is_some (result_of chain (er_tool_call_id r))))
    chain.

Context {sha : Sha256} {jtext : JsonText} {dbg : DebugStr}.

Definition receipt_hash (r : EffectReceipt) : string :=
  let v := match receipt_value r with
           | JObject m => JObject (bremove "receipt_hash" m)
           | v => v
           end in
  sha256_hex (canonical_json v).

Definition seal (r : EffectReceipt) : EffectReceipt :=
  { r with er_receipt_hash := receipt_hash r }.

Definition debug_opt (o : option string) : string :=
  match o with Some s => "Some(" +:+ debug_str s +:+ ")" | None => "None" end.

(** The loop of [verify_chain], at receipt [i] after the hash [prev]. *)
Fixpoint verify_from (i : Z) (prev : option string) (chain : list EffectReceipt)
    : result string unit :=
  match chain with
  | [] => Ok tt
  | r :: chain =>
      if negb (bool_decide (er_previous_receipt_hash r = prev)) then
        Err ("receipt " +:+ pretty i +:+ " (" +:+ id_text (er_effect_id r) +:+ ") links to " +:+
             debug_opt (er_previous_receipt_hash r) +:+ ", expected " +:+ debug_opt prev)
      else
        let h := receipt_hash r in
        if negb (h =s er_receipt_hash r) then
          Err ("receipt " +:+ pretty i +:+ " (" +:+ id_text (er_effect_id r) +:+ ") hash " +:+
               er_receipt_hash r +:+ " does not recompute (" +:+ h +:+ ")")
        else verify_from (i + 1) (Some (er_receipt_hash r)) chain
  end.

Definition verify_chain (chain : list EffectReceipt) : result string unit :=
  verify_from 0 None chain.

(** ** Epochs *)

(** [epoch::LeaseSnapshot] and [epoch::CapabilitySnapshot]. *)
Record LeaseSnapshot := {
  ls_lease_id : string;
  ls_generation : Z;
  ls_effect_ceiling : string;
  ls_operations : list string;
  ls_resources_digest : string
}.

Record CapabilitySnapshot := {
  cs_epoch : Z;
  cs_run_id : string;
  cs_turn_id : string;
  cs_round : Z;
  cs_config_generation : string;
  cs_config_ref : string;
  cs_mode : string;
  cs_execution_profile : string;
  cs_lease : option LeaseSnapshot;
  cs_projected_tools : list string;
  cs_projection_hash : string;
  cs_skills : list string
}.

Definition strings_value (l : list string) : json := JArray (map JString l).

Definition lease_value (l : LeaseSnapshot) : json :=
  JObject (bmap_of [("lease_id", JString (ls_lease_id l));
                    ("generation", JNumber (ls_generation l));
                    ("effect_ceiling", JString (ls_effect_ceiling l));
                    ("operations", strings_value (ls_operations l));
                    ("resources_digest", JString (ls_resources_digest l))]).

Definition snapshot_value (s : CapabilitySnapshot) : json :=
  JObject (bmap_of [("epoch", JNumber (cs_epoch s));
                    ("run_id", JString (cs_run_id s));
                    ("turn_id", JString (cs_turn_id s));
                    ("round", JNumber (cs_round s));
                    ("config_generation", JString (cs_config_generation s));
                    ("config_ref", JString (cs_config_ref s));
                    ("mode", JString (cs_mode s));
                    ("execution_profile", JString (cs_execution_profile s));
                    ("lease", opt_json lease_value (cs_lease s));
                    ("projected_tools", strings_value (cs_projected_tools s));
                    ("projection_hash", JString (cs_projection_hash s));
                    ("skills", strings_value (cs_skills s))]).

Definition snapshot_hash (s : CapabilitySnapshot) : string :=
  sha256_hex (canonical_json (snapshot_value s)).

Definition stamp (s : CapabilitySnapshot) : AuthorizationStamp :=
  {| stamp_epoch := cs_epoch s; stamp_snapshot_hash := snapshot_hash s |}.

(** The loop of [verify_snapshots], at the epoch it expects. *)
Fixpoint verify_snapshots_from (expected : Z) (records : list (CapabilitySnapshot * string))
    : result string unit :=
  match records with
  | [] => Ok tt
  | (snap, recorded) :: records =>
      let h := snapshot_hash snap in
      if negb (h =s recorded) then
        Err ("snapshot of epoch " +:+ pretty (cs_epoch snap) +:+ " records hash " +:+ recorded +:+
             ", which does not recompute (" +:+ h +:+ ")")
      else if negb (cs_epoch snap =? expected) then
        Err ("epoch " +:+ pretty (cs_epoch snap) +:+ " follows epoch " +:+ pretty (expected - 1) +:+
             ": the sequence must be monotonic without gaps")
      else verify_snapshots_from (expected + 1) records
  end.

Definition verify_snapshots (records : list (CapabilitySnapshot * string)) : result string unit :=
  verify_snapshots_from 1 records.

(** [short]; a digest is ASCII, so the cut falls between characters. *)
Definition short (h : string) : string := String.substring 0 12 h.

(** One receipt of [verify_receipt_epochs]. *)
Definition verify_receipt_epoch (decision_of : Z → option AuthorizationStamp)
    (snapshot_hash_of : Z → Z → option string) (r : EffectReceipt) : result string unit :=
  let decided := decision_of (er_tool_call_id r) in
  let head := "receipt " +:+ id_text (er_effect_id r) in
  match er_authorization r, decided with
  | None, None => Ok tt
  | None, Some d =>
      Err (head +:+ " (" +:+ er_status r +:+
           ") carries no epoch, but its decision was made in epoch " +:+ pretty (stamp_epoch d))
  | Some a, None =>
      Err (head +:+ " (" +:+ er_status r +:+ ") claims epoch " +:+ pretty (stamp_epoch a) +:+
           ", but its decision carries none")
  | Some a, Some d =>
      if negb (bool_decide (a = d)) then
        Err (head +:+ " (" +:+ er_status r +:+ ") names epoch " +:+ pretty (stamp_epoch a) +:+
             " (" +:+ short (stamp_snapshot_hash a) +:+ "), its decision was made in epoch " +:+
             pretty (stamp_epoch d) +:+ " (" +:+ short (stamp_snapshot_hash d) +:+ ")")
      else
        match snapshot_hash_of (er_task_id r) (stamp_epoch a) with
        | Some h =>
            if h =s stamp_snapshot_hash a then Ok tt
            else Err (head +:+ " names snapshot " +:+ short (stamp_snapshot_hash a) +:+
                      " for epoch " +:+ pretty (stamp_epoch a) +:+ ", the recorded snapshot is " +:+
                      short h)
        | None =>
            Err (head +:+ " names epoch " +:+ pretty (stamp_epoch a) +:+
                 ", which has no recorded snapshot")
        end
  end.

Fixpoint verify_receipt_epochs (chain : list EffectReceipt)
    (decision_of : Z → option AuthorizationStamp) (snapshot_hash_of : Z → Z → option string)
    : result string unit :=
  match chain with
  | [] => Ok tt
  | r :: chain =>
      _ ← verify_receipt_epoch decision_of snapshot_hash_of r;
      verify_receipt_epochs chain decision_of snapshot_hash_of
  end.

(** ** The chain is what its hashes say *)

(** The hash the next receipt must link to. *)
Definition head_hash (prev : option string) (chain : list EffectReceipt) : option string :=
  match last chain with Some r => Some (er_receipt_hash r) | None => prev end.

(** [receipt_hash] is the last field of the serialization, and is taken out. *)
Definition hashed_fields (r : EffectReceipt) : list (string * json) :=
  removelast (receipt_fields r).

Lemma receipt_fields_split r :
  receipt_fields r = hashed_fields r ++ [("receipt_hash", JString (er_receipt_hash r))].
Proof. by destruct r as [? ? ? ? ? ? ? ? ? ? ? ? [] [] [] ?]. Qed.

Lemma receipt_hash_alt r :
  receipt_hash r =
  sha256_hex (canonical_json (JObject (bremove "receipt_hash" (bmap_of (hashed_fields r))))).
Proof.
  unfold receipt_hash, receipt_value. do 2 f_equal. rewrite receipt_fields_split.
  unfold bmap_of. rewrite foldl_app. cbn [foldl fst snd]. by rewrite bremove_insert.
Qed.

Lemma seal_hash r : receipt_hash (seal r) = receipt_hash r.
Proof. rewrite !receipt_hash_alt. by destruct r as [? ? ? ? ? ? ? ? ? ? ? ? [] [] [] ?]. Qed.

(** A field of a canonical object. *)
Definition jget (k : string) (v : json) : option json :=
  match v with JObject m => bget k m | _ => None end.

Lemma jget_canonical l k without :
  NoDup l.*1 → k ≠ without →
  jget k (sort_json (JObject (bremove without (bmap_of l)))) = sort_json <$> bget k l.
Proof.
  intros Hnd Hne. cbn [sort_json jget]. rewrite bget_bmap_of.
  - by rewrite bget_map, bget_remove_ne, bget_bmap_of.
  - replace ((map _ _).*1) with ((bremove without (bmap_of l)).*1).
    + apply bmap_wf_NoDup, bremove_wf, bmap_of_wf.
    + by induction (bremove without (bmap_of l)) as [|[]]; cbn; f_equal.
Qed.

Lemma hashed_fields_nodup r : NoDup (hashed_fields r).*1.
Proof.
  destruct r as [? ? ? ? ? ? ? ? ? ? ? ? [] [] [] ?]; cbn;
    apply (bool_decide_unpack _); vm_compute; exact I.
Qed.

Lemma verify_from_snoc i prev chain r :
  verify_from i prev (chain ++ [r]) = Ok tt ↔
  verify_from i prev chain = Ok tt ∧
  er_previous_receipt_hash r = head_hash prev chain ∧ er_receipt_hash r = receipt_hash r.
Proof.
  revert i prev; induction chain as [|x chain IH]; intros i prev; cbn [app verify_from].
  - unfold head_hash. cbn [last].
    destruct (bool_decide_reflect (er_previous_receipt_hash r = prev)); cbn [negb]; [|naive_solver].
    destruct (String.eqb_spec (receipt_hash r) (er_receipt_hash r)); cbn [negb]; naive_solver.
  - destruct (negb (bool_decide _)); [naive_solver|].
    destruct (negb (_ =s _)); [naive_solver|]. rewrite IH.
    unfold head_hash. rewrite last_cons. by destruct (last chain).
Qed.
(** What a receipt's hash covers, field by field. *)
Lemma bget_skip_same {A} k (f : A → json) o l :
  bget k (skip_none k f o ++ l) = match o with Some a => Some (f a) | None => bget k l end.
Proof. destruct o; cbn; [by rewrite String.eqb_refl|done]. Qed.

Lemma bget_skip_other {A} k k' (f : A → json) o l :
  (k =s k') = false → bget k (skip_none k' f o ++ l) = bget k l.
Proof. intros Hk. destruct o; cbn; by rewrite ?Hk. Qed.

Lemma hashed_fields_alt r :
  hashed_fields r = take 12 (receipt_fields r) ++
    skip_none "reversibility" (λ x, JString (Reversibility_label x)) (er_reversibility r) ++
    skip_none "compensates" id_value (er_compensates r) ++
    skip_none "authorization" stamp_value (er_authorization r) ++ [].
Proof. by destruct r as [? ? ? ? ? ? ? ? ? ? ? ? [] [] [] ?]. Qed.

Section collision_free.
Hypothesis sha256_inj : ∀ a b, sha256_hex a = sha256_hex b → a = b.
Hypothesis json_text_inj : ∀ u v, json_text u = json_text v → u = v.
Hypothesis id_text_inj : ∀ x y, id_text x = id_text y → x = y.

Lemma opt_json_inj {A} (f : A → json) o o' :
  (∀ a b, sort_json (f a) = sort_json (f b) → a = b) → (∀ a, sort_json (f a) ≠ JNull) →
  sort_json (opt_json f o) = sort_json (opt_json f o') → o = o'.
Proof.
  intros Hf Hn. destruct o, o'; cbn; intros Heq; [f_equal; by apply Hf| | |done].
  - by destruct (Hn a).
  - by destruct (Hn a).
Qed.

Lemma stamp_value_inj s s' : sort_json (stamp_value s) = sort_json (stamp_value s') → s = s'.
Proof. destruct s, s'. cbn. intros [=]. by subst. Qed.

Lemma Reversibility_label_inj x y : Reversibility_label x = Reversibility_label y → x = y.
Proof. by destruct x, y. Qed.

(** The field [k] of two receipts with equal hashes. *)
Ltac same_field Hf k E :=
  pose proof (Hf k ltac:(done)) as E; cbn in E; rewrite ?take_0 in E; cbn [app] in E;
  repeat first [rewrite bget_skip_same in E | rewrite bget_skip_other in E by done];
  cbn [bget] in E.

Lemma receipt_hash_inj r r' :
  receipt_hash r = receipt_hash r' → { r with er_receipt_hash := er_receipt_hash r' } = r'.
Proof.
  rewrite !receipt_hash_alt. intros Heq%sha256_inj%json_text_inj.
  assert (Hf : ∀ k, k ≠ "receipt_hash" →
    sort_json <$> bget k (hashed_fields r) = sort_json <$> bget k (hashed_fields r')).
  { intros k Hk. rewrite <- !(jget_canonical _ _ "receipt_hash") by
      (done || apply hashed_fields_nodup). by rewrite Heq. }
  clear Heq. rewrite !hashed_fields_alt in Hf.
  assert (Hid : ∀ a b, sort_json (id_value a) = sort_json (id_value b) → a = b)
    by (intros a b [= ?]; auto).
  assert (Hst : ∀ a b, sort_json (JString a) = sort_json (JString b) → a = b) by (by intros ?? [= ?]).
  destruct r as [f1 f2 f3 f4 f5 f6 f7 f8 f9 f10 f11 f12 f13 f14 f15 f16],
    r' as [g1 g2 g3 g4 g5 g6 g7 g8 g9 g10 g11 g12 g13 g14 g15 g16].
  same_field Hf "effect_id" E1. same_field Hf "previous_receipt_hash" E2.
  same_field Hf "task_id" E3. same_field Hf "tool_call_id" E4.
  same_field Hf "capability_lease_id" E5. same_field Hf "intent_hash" E6.
  same_field Hf "policy_decision" E7. same_field Hf "approval_id" E8.
  same_field Hf "execution_target" E9. same_field Hf "evidence_ref" E10.
  same_field Hf "status" E11. same_field Hf "occurred_at" E12.
  same_field Hf "reversibility" E13. same_field Hf "compensates" E14.
  same_field Hf "authorization" E15.
  clear Hf. injection E2 as E2%opt_json_inj; [|done..]. injection E5 as E5%opt_json_inj; [|done..].
  injection E8 as E8%opt_json_inj; [|done..]. injection E10 as E10%opt_json_inj; [|done..].
  assert (f13 = g13) by (destruct f13, g13; cbn in E13; try done; f_equal;
    apply Reversibility_label_inj; congruence).
  assert (f14 = g14) by (destruct f14, g14; cbn in E14; try done; f_equal; apply Hid;
    cbn; congruence).
  assert (f15 = g15) by (destruct f15, g15; cbn in E15; try done; f_equal; apply stamp_value_inj;
    cbn; congruence).
  cbn. f_equal; try congruence; apply Hid; cbn; congruence.
Qed.

(** C34: the receipt chain is tamper evident. Given that the digest and the
    printer do not collide, two verified chains with the same last hash are the
    same chain: no receipt can be altered, dropped, inserted or reordered below
    a head hash that was kept. *)
Theorem chain_tamper_evident c c' :
  verify_chain c = Ok tt → verify_chain c' = Ok tt →
  er_receipt_hash <$> last c = er_receipt_hash <$> last c' → c = c'.
Proof.
  unfold verify_chain. revert c'. induction c as [|r c IH] using rev_ind; intros c'.
  { destruct c' as [|r' c' _] using rev_ind; [done|]. by rewrite last_snoc. }
  destruct c' as [|r' c' _] using rev_ind; [by rewrite last_snoc|].
  rewrite !verify_from_snoc, !last_snoc. intros (Hc & Hp & Hh) (Hc' & Hp' & Hh') [= Heq].
  assert (Hr : { r with er_receipt_hash := er_receipt_hash r' } = r')
    by (apply receipt_hash_inj; congruence).
  rewrite <- Heq in Hr. assert (r = r') as <- by (rewrite <- Hr; by destruct r).
  f_equal. apply IH; [done..|]. rewrite Hp in Hp'. unfold head_hash in Hp'.
  destruct (last c), (last c'); cbn; congruence.
Qed.
End collision_free.

(** Appending to a verified chain. A receipt extends a verified chain to a
    verified one exactly when it links to the last hash and carries its own;
    so the receipt the Core seals after the last one always does. *)
Theorem verify_chain_append c r :
  verify_chain c = Ok tt →
  (verify_chain (c ++ [r]) = Ok tt ↔
   er_previous_receipt_hash r = head_hash None c ∧ er_receipt_hash r = receipt_hash r) ∧
  (er_previous_receipt_hash r = head_hash None c → verify_chain (c ++ [seal r]) = Ok tt).
Proof.
  unfold verify_chain. intros Hc. rewrite !verify_from_snoc. split; [naive_solver|].
  intros Hp. rewrite seal_hash. by destruct r.
Qed.

(** An effect is in doubt exactly when the chain authorizes its call and
    reports no outcome for it. *)
Theorem in_doubt_exact c r :
  r ∈ in_doubt c ↔
  r ∈ c ∧ is_authorization r = true ∧
  ∀ r', r' ∈ c → er_tool_call_id r' = er_tool_call_id r → is_authorization r' = true.
Proof.
  unfold in_doubt, result_of. rewrite elem_of_list_filter_bool, andb_true_iff, negb_true_iff.
  do 2 apply and_iff_compat_l.
  destruct (List.find _ c) as [x|] eqn:E; cbn.
  - split; [done|]. intros Hall. apply find_some_iff in E as (l1 & l2 & -> & Hx & _).
    bool_to_prop. rewrite Hall in *; [done|set_solver|done].
  - apply find_none_forall in E. rewrite Forall_forall in E. split; [|done]. intros _ r' Hr' Hid.
    specialize (E _ Hr'). apply andb_false_iff in E as [E|E]; bool_to_prop; congruence.
Qed.

(** [verify_snapshots] accepts exactly the records whose epochs count from
    one without a gap and whose hashes recompute. *)
Theorem verify_snapshots_exact records :
  verify_snapshots records = Ok tt ↔
  (cs_epoch ∘ fst) <$> records = Z.of_nat <$> seq 1 (length records) ∧
  Forall (λ rec, rec.2 = snapshot_hash rec.1) records.
Proof.
  unfold verify_snapshots. change 1 with (Z.of_nat 1). generalize 1%nat as n.
  induction records as [|[s h] records IH]; intros n; cbn [verify_snapshots_from length seq fmap list_fmap].
  { split; [|done]. intros _. split; [done|constructor]. }
  rewrite Forall_cons. cbn [fst snd compose].
  destruct (String.eqb_spec (snapshot_hash s) h) as [<-|]; cbn [negb]; [|naive_solver].
  destruct (Z.eqb_spec (cs_epoch s) (Z.of_nat n)) as [->|]; cbn [negb]; [|naive_solver].
  replace (Z.of_nat n + 1) with (Z.of_nat (S n)) by lia. rewrite IH. split.
  - intros [Hs Hh]. split; [by f_equal|done].
  - intros [[= Hs] [_ Hh]]. done.
Qed.

(** The receipt names the stamp of its decision, and the recorded snapshot. *)
Definition stamped (decision_of : Z → option AuthorizationStamp)
    (snapshot_hash_of : Z → Z → option string) (r : EffectReceipt) : Prop :=
  er_authorization r = decision_of (er_tool_call_id r) ∧
  ∀ a, er_authorization r = Some a →
    snapshot_hash_of (er_task_id r) (stamp_epoch a) = Some (stamp_snapshot_hash a).

Lemma verify_receipt_epoch_exact d s r : verify_receipt_epoch d s r = Ok tt ↔ stamped d s r.
Proof.
  unfold verify_receipt_epoch, stamped.
  destruct (er_authorization r) as [a|], (d (er_tool_call_id r)) as [b|];
    [|split; [done|by intros [? _]]..|by split].
  case_bool_decide as Hab; cbn [negb]; [subst|split; [done|by intros [[= ?] _]]].
  destruct (s (er_task_id r) (stamp_epoch b)) as [h|] eqn:Es.
  - destruct (String.eqb_spec h (stamp_snapshot_hash b)) as [->|Hne].
    + split; [|done]. intros _. split; [done|]. by intros a [= <-].
    + split; [done|]. intros [_ Ha]. specialize (Ha b eq_refl). congruence.
  - split; [done|]. intros [_ Ha]. specialize (Ha b eq_refl). congruence.
Qed.

(** [verify_receipt_epochs] accepts a chain exactly when every receipt names
    the stamp its decision was made under, and the snapshot recorded for that
    epoch: a stamp stripped, added, changed or without a record is refused. *)
Theorem verify_receipt_epochs_exact c d s :
  verify_receipt_epochs c d s = Ok tt ↔ Forall (stamped d s) c.
Proof.
  induction c as [|r c IH]; cbn [verify_receipt_epochs]; [by split; [constructor|]|].
  rewrite bind_ok, Forall_cons, <- IH, <- verify_receipt_epoch_exact. split.
  - intros ([] & ? & ?). done.
  - intros [? ?]. by exists tt.
Qed.

End ledger.

(** ** A chain of two receipts *)

Module LedgerExample.

Fixpoint tree_of (v : json) : gen_tree (bool + (Z + string)) :=
  match v with
  | JNull => GenNode 0 []
  | JBool b => GenNode 1 [GenLeaf (inl b)]
  | JNumber n => GenNode 2 [GenLeaf (inr (inl n))]
  | JString s => GenNode 3 [GenLeaf (inr (inr s))]
  | JArray l => GenNode 4 (map tree_of l)
  | JObject m => GenNode 5 (map (λ kv, GenNode 6 [GenLeaf (inr (inr kv.1)); tree_of kv.2]) m)
  end.

Lemma tree_of_inj : ∀ u v, tree_of u = tree_of v → u = v.
Proof.
  fix IH 1. intros [|b|n|s|l|m] [|b'|n'|s'|l'|m']; cbn; intros Heq; try discriminate Heq.
  - done.
  - by injection Heq as ->.
  - by injection Heq as ->.
  - by injection Heq as ->.
  - injection Heq as Heq. f_equal. revert l' Heq.
    induction l as [|x l IHl]; intros [|x' l'] Heq; try discriminate Heq; [done|].
    cbn in Heq. injection Heq as Hx Hl. f_equal; [by apply IH|by apply IHl].
  - injection Heq as Heq. f_equal. revert m' Heq.
    induction m as [|[k x] m IHm]; intros [|[k' x'] m'] Heq; try discriminate Heq; [done|].
    cbn in Heq. injection Heq as -> Hx Hm. f_equal; [f_equal; by apply IH|by apply IHm].
Qed.

(** A printer that never gives two values the same text. *)
Definition text : JsonText := λ v, pretty (N.pos (encode (tree_of v))).

Lemma text_inj u v : json_text (JsonText := text) u = json_text (JsonText := text) v → u = v.
Proof.
  unfold json_text, text. intros Heq%(inj pretty). injection Heq as Heq%(inj encode).
  by apply tree_of_inj.
Qed.

#[local] Existing Instances Example.sha256 Example.idtext Example.debug text.

Definition first_receipt : EffectReceipt := seal
  {| er_effect_id := 1; er_previous_receipt_hash := None; er_task_id := 2; er_tool_call_id := 3;
     er_capability_lease_id := None; er_intent_hash := "i"; er_policy_decision := "approval:x";
     er_approval_id := None; er_execution_target := "local"; er_evidence_ref := None;
     er_status := STATUS_AUTHORIZED; er_occurred_at := 1; er_reversibility := None;
     er_compensates := None; er_authorization := None; er_receipt_hash := "" |}.

Definition outcome : EffectReceipt :=
  { first_receipt with er_effect_id := 4;
    er_previous_receipt_hash := Some (er_receipt_hash first_receipt); er_status := "SUCCESS" }.
Definition two_receipts : list EffectReceipt := [first_receipt] ++ [seal outcome].

Lemma outcome_links : er_previous_receipt_hash outcome = head_hash None [first_receipt].
Proof. reflexivity. Qed.

Lemma seal_linked c r :
  verify_chain c = Ok tt → er_previous_receipt_hash r = head_hash None c →
  verify_chain (c ++ [seal r]) = Ok tt.
Proof.
  unfold verify_chain. intros Hc Hp. rewrite verify_from_snoc, seal_hash. by destruct r.
Qed.

Lemma first_verified : verify_chain [first_receipt] = Ok tt.
Proof. refine (seal_linked [] _ _ _); reflexivity. Qed.

Lemma both_verified : verify_chain two_receipts = Ok tt.
Proof. exact (seal_linked [first_receipt] outcome first_verified outcome_links). Qed.

Lemma verify_chain_append_witness :
  verify_chain [first_receipt] = Ok tt ∧ verify_chain two_receipts = Ok tt.
Proof.
  exact (conj first_verified
    (proj2 (verify_chain_append [first_receipt] outcome first_verified) outcome_links)).
Defined.

Lemma chain_tamper_evident_witness :
  verify_chain two_receipts = Ok tt ∧
  ∀ c, verify_chain c = Ok tt →
    er_receipt_hash <$> last c = er_receipt_hash <$> last two_receipts → c = two_receipts.
Proof.
  split; [exact both_verified|]. intros c Hc Hl.
  exact (chain_tamper_evident (λ _ _ H, H) text_inj pretty_Z_inj c two_receipts Hc both_verified Hl).
Defined.

End LedgerExample.
