(* ===== verification/ChildBudget.v ===== *)
(** * Hierarchical budgets

    [crates/core-runtime/src/budget.rs]: a child's budget is a slice of its
    parent's; and the way [services/modbit-core/src/spawn.rs] uses it when a child
    is admitted and when it runs again. Amounts are [u64] in [Z], with the
    saturation of each operation. *)

From stdpp Require Import relations.
From S2P Require Import Prelude RustStr.
#[local] Open Scope Z_scope.

Definition PARENT_RESERVE_ROUNDS : Z := 2.
Definition PARENT_RESERVE_TURNS : Z := 2.
Definition PARENT_RESERVE_TOOL_CALLS : Z := 4.
Definition DEFAULT_CHILD_TURNS : Z := 20.

Record Held := {
  hd_turns : Z;
  hd_tool_calls : Z;
  hd_cost_minor : Z;
  hd_wall_ms : Z
}.

Definition Held_default : Held :=
  {| hd_turns := 0; hd_tool_calls := 0; hd_cost_minor := 0; hd_wall_ms := 0 |}.

Definition Held_plus (self o : Held) : Held :=
  {| hd_turns := sat_add u64_max (hd_turns self) (hd_turns o);
     hd_tool_calls := sat_add u64_max (hd_tool_calls self) (hd_tool_calls o);
     hd_cost_minor := sat_add u64_max (hd_cost_minor self) (hd_cost_minor o);
     hd_wall_ms := Z.max (hd_wall_ms self) (hd_wall_ms o) |}.

Definition max_consumable (self o : Held) : Held :=
  {| hd_turns := Z.max (hd_turns self) (hd_turns o);
     hd_tool_calls := Z.max (hd_tool_calls self) (hd_tool_calls o);
     hd_cost_minor := Z.max (hd_cost_minor self) (hd_cost_minor o);
     hd_wall_ms := Z.max (hd_wall_ms self) (hd_wall_ms o) |}.

Record Caps := {
  cp_turns : Z;
  cp_tool_calls : Z;
  cp_cost_minor : option Z;
  cp_wall_ms : option Z
}.

Record ChildHold := { ch_reserved : Held; ch_spent : Held; ch_live : bool }.

Definition ChildHold_held (c : ChildHold) : Held :=
  if ch_live c then max_consumable (ch_reserved c) (ch_spent c) else ch_spent c.

Definition committed (children : list ChildHold) : Held :=
  foldl (λ acc c,
    let h := ChildHold_held c in
    {| hd_turns := sat_add u64_max (hd_turns acc) (hd_turns h);
       hd_tool_calls := sat_add u64_max (hd_tool_calls acc) (hd_tool_calls h);
       hd_cost_minor := sat_add u64_max (hd_cost_minor acc) (hd_cost_minor h);
       hd_wall_ms := 0 |}) Held_default children.

Record Remaining := {
  rm_turns : Z;
  rm_tool_calls : Z;
  rm_cost_minor : option Z;
  rm_wall_ms : option Z
}.

Definition remaining (cap : Caps) (own children : Held) : Remaining :=
  {| rm_turns := sat_sub (sat_sub (cp_turns cap) (hd_turns own)) (hd_turns children);
     rm_tool_calls :=
       sat_sub (sat_sub (cp_tool_calls cap) (hd_tool_calls own)) (hd_tool_calls children);
     rm_cost_minor :=
       (λ c, sat_sub (sat_sub c (hd_cost_minor own)) (hd_cost_minor children))
       <$> cp_cost_minor cap;
     rm_wall_ms := (λ w, sat_sub w (hd_wall_ms own)) <$> cp_wall_ms cap |}.

Definition remaining_for_children (cap : Caps) (own children : Held) : Remaining :=
  let rem := remaining cap own children in
  let per_turn := hd_cost_minor own / Z.max (hd_turns own) 1 in
  let keep := sat_mul u64_max per_turn PARENT_RESERVE_ROUNDS in
  { rem with rm_cost_minor ::= fmap (λ c, sat_sub c keep) }.

Record Request := { rq_turns : Z; rq_tool_calls : Z; rq_cost_minor : Z; rq_wall_ms : Z }.

Record Grant := {
  gr_turns : Z;
  gr_tool_calls : Z;
  gr_cost_minor : option Z;
  gr_wall_ms : option Z
}.

Record Insufficient := { in_dimension : string; in_remaining : Z }.

Definition Insufficient_display (e : Insufficient) : string :=
  "the parent has " +:+ pretty (in_remaining e) +:+ " " +:+ in_dimension e +:+
  " left to give a child".

(** The grant in a dimension with an optional cap. *)
Definition clamp_capped (room : option Z) (want : Z → Z) (dimension : string)
    : result Insufficient (option Z) :=
  match room with
  | None => Ok None
  | Some room =>
      let grant := Z.min (want room) room in
      if grant =? 0 then Err {| in_dimension := dimension; in_remaining := room |}
      else Ok (Some grant)
  end.

Definition clamp (req : Request) (default_tool_calls : Z) (rem : Remaining) (slots_left : Z)
    : result Insufficient Grant :=
  let turn_room := sat_sub (rm_turns rem) PARENT_RESERVE_TURNS in
  let call_room := sat_sub (rm_tool_calls rem) PARENT_RESERVE_TOOL_CALLS in
  let share room := Z.max (room / (slots_left + 1)) 1 in
  let want_turns :=
    if rq_turns req =? 0 then Z.min DEFAULT_CHILD_TURNS (share turn_room) else rq_turns req in
  let want_calls :=
    if rq_tool_calls req =? 0 then Z.min default_tool_calls (share call_room)
    else rq_tool_calls req in
  let turns := Z.min want_turns turn_room in
  if turns =? 0 then Err {| in_dimension := "turns"; in_remaining := rm_turns rem |}
  else
    let tool_calls := Z.min want_calls call_room in
    if tool_calls =? 0 then Err {| in_dimension := "tool calls"; in_remaining := rm_tool_calls rem |}
    else
      cost_minor ← clamp_capped (rm_cost_minor rem)
        (λ room, if rq_cost_minor req =? 0 then room / (slots_left + 1) else rq_cost_minor req)
        "cost";
      wall_ms ← clamp_capped (rm_wall_ms rem)
        (λ room, if rq_wall_ms req =? 0 then room else rq_wall_ms req) "wall clock";
      let or_stated (granted : option Z) (stated : Z) :=
        match granted with
        | Some g => Some g
        | None => if 0 <? stated then Some stated else None
        end in
      Ok {| gr_turns := turns;
            gr_tool_calls := tool_calls;
            gr_cost_minor := or_stated cost_minor (rq_cost_minor req);
            gr_wall_ms := or_stated wall_ms (rq_wall_ms req) |}.

(** The cap of a resumed child in a dimension with optional caps. *)
Definition regrant_capped (capsule : option Z) (used : Z) (rem : option Z) : option Z :=
  match capsule, rem with
  | Some c, Some r => Some (Z.min c (sat_add u64_max used r))
  | None, Some r => Some (sat_add u64_max used r)
  | c, None => c
  end.

Definition regrant (capsule : Caps) (used : Held) (rem : Remaining) : Caps :=
  {| cp_turns :=
       Z.min (cp_turns capsule)
         (sat_add u64_max (hd_turns used) (sat_sub (rm_turns rem) PARENT_RESERVE_TURNS));
     cp_tool_calls :=
       Z.min (cp_tool_calls capsule)
         (sat_add u64_max (hd_tool_calls used)
            (sat_sub (rm_tool_calls rem) PARENT_RESERVE_TOOL_CALLS));
     cp_cost_minor :=
       regrant_capped (cp_cost_minor capsule) (hd_cost_minor used) (rm_cost_minor rem);
     cp_wall_ms := regrant_capped (cp_wall_ms capsule) (hd_wall_ms used) (rm_wall_ms rem) |}.

(** ** The Core's use of it *)

(** [harness::Budgets] and its default. *)
Record Budgets := {
  bu_max_turns : Z;
  bu_max_tool_calls : Z;
  bu_max_consecutive_no_progress_turns : Z;
  bu_max_cost_minor : option Z;
  bu_max_wall_ms : option Z;
  bu_max_children : Z
}.

Definition DEFAULT_MAX_TOOL_CALLS : Z := 1000.

Definition Budgets_caps (b : Budgets) : Caps :=
  {| cp_turns := bu_max_turns b;
     cp_tool_calls := bu_max_tool_calls b;
     cp_cost_minor := bu_max_cost_minor b;
     cp_wall_ms := bu_max_wall_ms b |}.

(** The budget fields of [AgentExecutionCapsule]; zero is no cap. *)
Record CapsuleBudget := {
  ca_max_turns : Z;
  ca_max_tool_calls : Z;
  ca_max_cost_minor : Z;
  ca_max_wall_ms : Z
}.



(** What the clamp of a spawn changed, in words. *)
Definition clamp_notes (asked : Request) (g : Grant) : list string :=
  let lowered (name : string) (want : Z) (given : option Z) : list string :=
    match given with
    | Some x =>
        if negb (want =? 0) && (x <? want)
        then [name +:+ " " +:+ pretty want +:+ " -> " +:+ pretty x] else []
    | None => []
    end in
  lowered "max_turns" (rq_turns asked) (Some (gr_turns g)) ++
  lowered "max_tool_calls" (rq_tool_calls asked) (Some (gr_tool_calls g)) ++
  lowered "max_cost_minor" (rq_cost_minor asked) (gr_cost_minor g) ++
  lowered "max_wall_ms" (rq_wall_ms asked) (gr_wall_ms g).

Definition clamp_refused (e : Insufficient) (rem : Remaining) : string :=
  let or_uncapped (unit_ : string) (o : option Z) : string :=
    match o with Some c => pretty c +:+ unit_ | None => "uncapped" end in
  Insufficient_display e +:+
  "; a child's budget is a slice of its parent's remainder (turns " +:+ pretty (rm_turns rem) +:+
  ", tool calls " +:+ pretty (rm_tool_calls rem) +:+
  ", cost " +:+ or_uncapped "" (rm_cost_minor rem) +:+
  ", wall clock " +:+ or_uncapped " ms" (rm_wall_ms rem) +:+
  "). Finish the work yourself or wait for a child to settle".

(** [spawn::clamp_for]: the grant against what every child holds now, and what
    the clamp changed; or why nothing can be given. *)
Definition clamp_for (asked : Request) (parent : Budgets) (own : Held) (holds : list ChildHold)
    : result string (Grant * list string) :=
  let live := Z.of_nat (length (List.filter ch_live holds)) in
  let rem := remaining_for_children (Budgets_caps parent) own (committed holds) in
  let slots := sat_sub (bu_max_children parent) live in
  match clamp asked DEFAULT_MAX_TOOL_CALLS rem (if slots <=? u32_max then slots else 0) with
  | Err e => Err (clamp_refused e rem)
  | Ok g => Ok (g, clamp_notes asked g)
  end.

Definition capsule_caps (capsule : option CapsuleBudget) : Caps :=
  {| cp_turns :=
       match capsule with
       | Some c => if ca_max_turns c =? 0 then 20 else ca_max_turns c
       | None => 20
       end;
     cp_tool_calls :=
       match capsule with
       | Some c => if ca_max_tool_calls c =? 0 then DEFAULT_MAX_TOOL_CALLS else ca_max_tool_calls c
       | None => DEFAULT_MAX_TOOL_CALLS
       end;
     cp_cost_minor :=
       c ← capsule; if 0 <? ca_max_cost_minor c then Some (ca_max_cost_minor c) else None;
     cp_wall_ms :=
       c ← capsule; if 0 <? ca_max_wall_ms c then Some (ca_max_wall_ms c) else None |}.

(** [spawn::regrant], given the parent's caps and spend and what its children
    hold, by agent id. *)
Definition spawn_regrant (parent : Caps) (own : Held) (holds : list (Z * ChildHold)) (child : Z)
    (capsule : option CapsuleBudget) : Budgets :=
  let mine := snd <$> List.find (λ h, h.1 =? child) holds in
  let others := snd <$> List.filter (λ h, negb (h.1 =? child)) holds in
  let used := match mine with Some h => ch_spent h | None => Held_default end in
  let rem := remaining_for_children parent own (committed others) in
  let g := regrant (capsule_caps capsule) used rem in
  {| bu_max_turns := Z.min u32_max (cp_turns g);
     bu_max_tool_calls := Z.min u32_max (cp_tool_calls g);
     bu_max_consecutive_no_progress_turns := 3;
     bu_max_cost_minor := cp_cost_minor g;
     bu_max_wall_ms := cp_wall_ms g;
     bu_max_children := 0 |}.

(** ** The sum of what is held *)

(** The dimensions that add up, each with its cap. *)
Definition consumables : list ((Held → Z) * (Caps → option Z)) :=
  [(hd_turns, λ c, Some (cp_turns c)); (hd_tool_calls, λ c, Some (cp_tool_calls c));
   (hd_cost_minor, cp_cost_minor)].

Fixpoint total (f : Held → Z) (kids : list ChildHold) : Z :=
  match kids with
  | [] => 0
  | c :: kids => f (ChildHold_held c) + total f kids
  end.

Definition held_nonneg (h : Held) : Prop := ∀ f c, (f, c) ∈ consumables → 0 ≤ f h.

(** What a parent has spent and its children hold is inside its caps. *)
Definition within_caps (cap : Caps) (own : Held) (kids : list ChildHold) : Prop :=
  ∀ f c k, (f, c) ∈ consumables → c cap = Some k → f own + total f kids ≤ k.

Lemma consumables_cases (P : (Held → Z) → (Caps → option Z) → Prop) :
  P hd_turns (λ c, Some (cp_turns c)) → P hd_tool_calls (λ c, Some (cp_tool_calls c)) →
  P hd_cost_minor cp_cost_minor → ∀ f c, (f, c) ∈ consumables → P f c.
Proof. intros ??? f c. unfold consumables. rewrite !elem_of_cons, elem_of_nil. naive_solver. Qed.

Lemma child_total_app f a b : total f (a ++ b) = total f a + total f b.
Proof. induction a as [|c a IH]; cbn; lia. Qed.

Lemma child_total_nonneg f c kids :
  (f, c) ∈ consumables → Forall (λ k, held_nonneg (ChildHold_held k)) kids → 0 ≤ total f kids.
Proof.
  intros Hf. induction 1 as [|k kids Hk _ IH]; cbn; [lia|]. specialize (Hk f c Hf). lia.
Qed.

(** What the code sums is the exact sum, cut at the width of the integers. *)
Lemma committed_dim f c kids :
  (f, c) ∈ consumables → Forall (λ k, held_nonneg (ChildHold_held k)) kids →
  f (committed kids) = Z.min u64_max (total f kids).
Proof.
  intros Hf Hk.
  assert (Hgen : ∀ acc, held_nonneg acc → (∀ g c, (g, c) ∈ consumables → g acc ≤ u64_max) →
    f (foldl (λ acc c,
      let h := ChildHold_held c in
      {| hd_turns := sat_add u64_max (hd_turns acc) (hd_turns h);
         hd_tool_calls := sat_add u64_max (hd_tool_calls acc) (hd_tool_calls h);
         hd_cost_minor := sat_add u64_max (hd_cost_minor acc) (hd_cost_minor h);
         hd_wall_ms := 0 |}) acc kids) = Z.min u64_max (f acc + total f kids)).
  { induction Hk as [|k kids Hh Hk IH]; intros acc Ha Hb; cbn [foldl].
    - cbn. specialize (Hb f c Hf). lia.
    - rewrite IH.
      + pose proof (child_total_nonneg f c kids Hf Hk). specialize (Hh f c Hf). specialize (Ha f c Hf).
        cbn [total]. clear IH Hk Hb. revert f c Hf H Hh Ha.
        apply (consumables_cases (λ f c, _ → _ → _ → _)); cbn; unfold_width; lia.
      + intros g d Hg. specialize (Ha g d Hg). specialize (Hh g d Hg). clear -Hg Ha Hh.
        revert g d Hg Ha Hh. apply (consumables_cases (λ f c, _ → _ → _)); cbn; unfold_width; lia.
      + intros g d Hg. clear -Hg. revert g d Hg.
        apply consumables_cases; cbn; unfold_width; lia. }
  unfold committed. rewrite Hgen; [|intros g d; revert g d; apply consumables_cases; cbn; unfold_width; lia..].
  f_equal. revert f c Hf Hgen. apply (consumables_cases (λ f c, _ → _)); cbn; lia.
Qed.

(** ** Admission never overcommits *)



Record Family := { fa_cap : Caps; fa_own : Held; fa_kids : list ChildHold }.


(** The caps are [u64], amounts are not negative, the sums are inside the caps. *)
Definition family_inv (f : Family) : Prop :=
  (∀ g c k, (g, c) ∈ consumables → c (fa_cap f) = Some k → k ≤ u64_max) ∧
  held_nonneg (fa_own f) ∧
  Forall (λ k, held_nonneg (ch_spent k)) (fa_kids f) ∧
  within_caps (fa_cap f) (fa_own f) (fa_kids f).

Lemma child_held_cases f c r s live :
  (f, c) ∈ consumables →
  f (ChildHold_held {| ch_reserved := r; ch_spent := s; ch_live := live |}) =
  if live then Z.max (f r) (f s) else f s.
Proof.
  intros Hf. destruct live; [|done]. cbn. revert f c Hf.
  apply (consumables_cases (λ f c, _)); done.
Qed.

Lemma child_held_nonneg k : held_nonneg (ch_spent k) → held_nonneg (ChildHold_held k).
Proof.
  destruct k as [r s live]. cbn. intros Hs f c Hf. rewrite (child_held_cases f c) by done.
  specialize (Hs f c Hf). destruct live; lia.
Qed.

Lemma family_kids_nonneg f :
  family_inv f → Forall (λ k, held_nonneg (ChildHold_held k)) (fa_kids f).
Proof.
  intros (_ & _ & Hk & _). eapply Forall_impl; [exact Hk|]. apply child_held_nonneg.
Qed.

(** Inside the caps nothing saturates, so what remains is what is left. *)
Lemma remaining_exact f g c k :
  family_inv f → (g, c) ∈ consumables → c (fa_cap f) = Some k →
  sat_sub (sat_sub k (g (fa_own f))) (g (committed (fa_kids f))) =
  k - g (fa_own f) - total g (fa_kids f).
Proof.
  intros Hinv Hg Hc. pose proof (family_kids_nonneg _ Hinv) as Hk.
  destruct Hinv as (Hw & Ho & _ & Hcap). rewrite (committed_dim g c) by done.
  specialize (Hw g c k Hg Hc). specialize (Ho g c Hg). specialize (Hcap g c k Hg Hc).
  pose proof (child_total_nonneg g c _ Hg Hk). unfold sat_sub. lia.
Qed.

Lemma keep_nonneg own : held_nonneg own →
  0 ≤ sat_mul u64_max (hd_cost_minor own / Z.max (hd_turns own) 1) PARENT_RESERVE_ROUNDS.
Proof.
  intros Ho. pose proof (Ho hd_cost_minor cp_cost_minor ltac:(set_solver)).
  assert (0 ≤ hd_cost_minor own / Z.max (hd_turns own) 1) by (apply Z.div_pos; lia).
  unfold sat_mul, u64_max, PARENT_RESERVE_ROUNDS. lia.
Qed.






(** The cap of a resumed child, dimension by dimension. *)
Lemma regrant_dim f g c capsule used own kids cap k m :
  family_inv f → fa_cap f = cap → fa_own f = own → fa_kids f = kids →
  held_nonneg used → g used ≤ u64_max → (g, c) ∈ consumables → c cap = Some k →
  c (regrant capsule used (remaining_for_children cap own (committed kids))) = Some m →
  m ≤ g used + (k - g own - total g kids) ∧
  (∀ q, c capsule = Some q → m ≤ q ∧ (g used ≤ q → g used ≤ m)).
Proof.
  intros Hinv <- <- <- Hu Hmax Hg Hk Hm.
  pose proof (remaining_exact f g c k Hinv Hg Hk) as Hr.
  pose proof (keep_nonneg _ (proj1 (proj2 Hinv))) as Hkeep.
  pose proof Hinv as (Hw & Ho & _ & Hcap).
  specialize (Hw g c k Hg Hk). specialize (Ho g c Hg). specialize (Hcap g c k Hg Hk).
  pose proof (Hu g c Hg) as Hug. pose proof (child_total_nonneg g c _ Hg (family_kids_nonneg _ Hinv)).
  clear Hinv Hu. revert g c Hg Hk Hm Hr Hw Ho Hcap Hug Hmax H.
  apply (consumables_cases (λ g c, _ → _ → _ → _ → _ → _ → _ → _ → _ → _)); cbn.
  - intros [= <-] [= <-] Hr ? ? ? ? ? ?. rewrite Hr. unfold PARENT_RESERVE_TURNS. unfold_width.
    split; [lia|]. intros q [= <-]. lia.
  - intros [= <-] [= <-] Hr ? ? ? ? ? ?. rewrite Hr. unfold PARENT_RESERVE_TOOL_CALLS. unfold_width.
    split; [lia|]. intros q [= <-]. lia.
  - intros Hk Hm Hr ? ? ? ? ? ?. rewrite Hk in Hm. cbn in Hm. rewrite Hr in Hm.
    destruct (cp_cost_minor capsule) as [q|]; cbn in Hm; simplify_eq;
      set (keep := sat_mul _ _ _) in *; clearbody keep; unfold_width;
      (split; [lia|]); intros q' Hq'; simplify_eq; lia.
Qed.

(** A child that runs again is covered. If what remains is computed with
    what the child itself has spent still counted, the cap it gets keeps parent
    and children inside the caps even if it spends all of it; it is never above
    the child's own capsule, and never below what the child already spent. *)
Theorem regrant_covered cap own others child capsule g c k m :
  family_inv {| fa_cap := cap; fa_own := own; fa_kids := others ++ [child] |} →
  ch_live child = false → (g, c) ∈ consumables → c cap = Some k →
  c (regrant capsule (ch_spent child)
       (remaining_for_children cap own (committed (others ++ [child])))) = Some m →
  g own + total g others + m ≤ k ∧
  (∀ q, c capsule = Some q → m ≤ q ∧ (g (ch_spent child) ≤ q → g (ch_spent child) ≤ m)).
Proof.
  intros Hinv Hl Hg Hk Hm.
  assert (Hs : held_nonneg (ch_spent child)).
  { destruct Hinv as (_ & _ & Hkids & _). cbn in Hkids.
    apply Forall_app in Hkids as [_ Hc]. exact (Forall_inv Hc). }
  assert (Hmax : g (ch_spent child) ≤ u64_max).
  { pose proof (family_kids_nonneg _ Hinv) as [Hn _]%Forall_app.
    pose proof (child_total_nonneg g c others Hg Hn). destruct Hinv as (Hw & Ho & _ & Hcap).
    specialize (Hw g c k Hg Hk). specialize (Ho g c Hg). specialize (Hcap g c k Hg Hk).
    cbn in Hcap, Ho. rewrite child_total_app in Hcap. cbn [total] in Hcap.
    unfold ChildHold_held in Hcap. rewrite Hl in Hcap. lia. }
  destruct (regrant_dim _ g c capsule (ch_spent child) _ _ _ k m Hinv eq_refl eq_refl eq_refl Hs Hmax Hg Hk Hm)
    as [Hle Hq].
  split; [|done]. cbn [fa_own fa_kids] in Hle. rewrite child_total_app in Hle. cbn [total] in Hle.
  unfold ChildHold_held in Hle. rewrite Hl in Hle. lia.
Qed.

(** ** Examples *)

Definition amounts (turns calls : Z) : Held :=
  {| hd_turns := turns; hd_tool_calls := calls; hd_cost_minor := 0; hd_wall_ms := 0 |}.
Definition hundred : Caps :=
  {| cp_turns := 100; cp_tool_calls := 1000; cp_cost_minor := None; cp_wall_ms := None |}.

(** A child that stopped after 40 of its 50 turns, and one admitted since. *)
Definition parked : ChildHold :=
  {| ch_reserved := amounts 50 100; ch_spent := amounts 40 10; ch_live := false |}.
Definition running : ChildHold :=
  {| ch_reserved := amounts 58 100; ch_spent := amounts 0 0; ch_live := true |}.
Definition parked_capsule : CapsuleBudget :=
  {| ca_max_turns := 50; ca_max_tool_calls := 100; ca_max_cost_minor := 0; ca_max_wall_ms := 0 |}.

(** The Core's resume of a child leaves the child's own spend out of what the
    parent has left and adds it back, so it can overcommit: a parent of 100 turns
    whose running child holds 58 lets a child that spent 40 of its 50 turns run
    on to 50, although 58 and 50 are more than the parent has. *)
Theorem resume_overcommits :
  within_caps hundred Held_default [parked; running] ∧
  bu_max_turns (spawn_regrant hundred Held_default [(1, parked); (2, running)] 1
                  (Some parked_capsule)) = 50 ∧
  cp_turns hundred < hd_turns (ChildHold_held running) + 50.
Proof.
  split; [|by vm_compute]. unfold within_caps. intros f c k Hf. revert f c Hf.
  apply (consumables_cases (λ f c, _ → _)); cbn; intros; simplify_eq; lia.
Qed.


Lemma regrant_covered_witness :
  regrant (capsule_caps (Some parked_capsule)) (amounts 40 10)
    (remaining_for_children hundred Held_default (committed [running; parked])) =
    {| cp_turns := 40; cp_tool_calls := 100; cp_cost_minor := None; cp_wall_ms := None |} ∧
  0 + total hd_turns [running] + 40 ≤ 100.
Proof.
  split; [reflexivity|].
  refine (proj1 (regrant_covered hundred Held_default [running] parked
    (capsule_caps (Some parked_capsule)) hd_turns (λ c, Some (cp_turns c)) 100 40 _ _ _ _ _));
    [|reflexivity|left|reflexivity|reflexivity].
  split_and!.
  - intros f c k Hf. revert f c Hf. apply (consumables_cases (λ f c, _ → _)); cbn; intros;
      simplify_eq; unfold u64_max; lia.
  - intros f c. revert f c. apply consumables_cases; cbn; lia.
  - repeat constructor; intros f c; revert f c; apply consumables_cases; cbn; lia.
  - intros f c k Hf. revert f c Hf. apply (consumables_cases (λ f c, _ → _)); cbn; intros;
      simplify_eq; lia.
Defined.
