(* ===== verification/BudgetPolicy.v ===== *)
(** * The budget-raise policy

    [crates/policy/src/budget.rs]: who may raise a task's caps, and how far. Zero
    is "no cap" for cost and wall clock, so caps are compared by their effective
    value. *)

From S2P Require Import Prelude RustStr External.
#[local] Open Scope Z_scope.

Definition RAISE_EFFECT : string := "task.budget.raise".
Definition ASK_REASON : string := "BUDGET_RAISE".
Definition CEILING_EXCEEDED : string := "BUDGET_CEILING_EXCEEDED".
Definition POLICY_INVALID : string := "BUDGET_POLICY_INVALID".
Definition NEEDS_APPROVAL : string := "BUDGET_RAISE_NEEDS_APPROVAL".
Definition DENIED : string := "BUDGET_RAISE_DENIED".
Definition APPROVAL_PENDING : string := "BUDGET_RAISE_APPROVAL_PENDING".

Record Caps := { cost_minor : Z; wall_ms : Z; children : Z }.

Definition Caps_from_set (max_cost_minor max_wall_ms max_children : Z) (forbid_spawn : bool)
    (default_children : Z) : Caps :=
  {| cost_minor := max_cost_minor;
     wall_ms := max_wall_ms;
     children := if forbid_spawn then 0
                 else if 0 <? max_children then max_children
                 else default_children |}.

Definition Caps_unset (default_children : Z) : Caps :=
  {| cost_minor := 0; wall_ms := 0; children := default_children |}.

Definition eff (v : Z) : Z := if v =? 0 then u64_max else v.

Record Raised := { ra_cost : bool; ra_wall : bool; ra_children : bool }.

Definition Raised_any (r : Raised) : bool := ra_cost r || ra_wall r || ra_children r.

Definition raised (from to : Caps) : Raised :=
  {| ra_cost := eff (cost_minor from) <? eff (cost_minor to);
     ra_wall := eff (wall_ms from) <? eff (wall_ms to);
     ra_children := children from <? children to |}.

Inductive Requester := Requester_Person | Requester_Autonomous.
Inductive RaiseApproval := RaiseApproval_Autonomous | RaiseApproval_Always.

Record BudgetPolicy := {
  ceiling_cost_minor : option Z;
  ceiling_wall_ms : option Z;
  ceiling_children : option Z;
  raise_approval : RaiseApproval;
  invalid : option string
}.

Definition BudgetPolicy_default : BudgetPolicy :=
  {| ceiling_cost_minor := None; ceiling_wall_ms := None; ceiling_children := None;
     raise_approval := RaiseApproval_Autonomous; invalid := None |}.

Inductive BudgetDecision :=
  | BudgetDecision_Allow (rule : string)
  | BudgetDecision_ApprovalRequired (reason : string)
  | BudgetDecision_Deny (code reason : string).

(** One clause of [BudgetPolicy::parse]: the policy after it, or why it is not
    understood. *)
Definition parse_clause (clause : string) (p : BudgetPolicy) : result string BudgetPolicy :=
  match split_once "=" clause with
  | None => Err ("`" +:+ clause +:+ "` is not key=value")
  | Some (k, v) =>
      let k := trim k in
      let v := trim v in
      let bad what := "`" +:+ k +:+ "=" +:+ v +:+ "`: " +:+ what in
      let positive (set : Z → BudgetPolicy) :=
        match parse_u64 v with
        | Some n => if 0 <? n then Ok (set n) else Err (bad "a ceiling is a positive whole number")
        | None => Err (bad "a ceiling is a positive whole number")
        end in
      if k =s "ceiling_cost_minor" then positive (λ n, { p with ceiling_cost_minor := Some n })
      else if k =s "ceiling_wall_ms" then positive (λ n, { p with ceiling_wall_ms := Some n })
      else if k =s "ceiling_children" then
        match parse_u32 v with
        | Some n => Ok { p with ceiling_children := Some n }
        | None => Err (bad "a ceiling is a whole number")
        end
      else if k =s "raise_approval" then
        if v =s "autonomous" then Ok { p with raise_approval := RaiseApproval_Autonomous }
        else if v =s "always" then Ok { p with raise_approval := RaiseApproval_Always }
        else Err (bad "`autonomous` or `always`")
      else Err ("unknown key `" +:+ k +:+ "`")
  end.

Fixpoint parse_clauses (clauses : list string) (p : BudgetPolicy) : BudgetPolicy :=
  match clauses with
  | [] => p
  | clause :: clauses =>
      match parse_clause clause p with
      | Ok p => parse_clauses clauses p
      | Err why => { p with invalid := Some why }
      end
  end.

(** [BudgetPolicy::parse]. *)
Definition BudgetPolicy_parse (spec : string) : BudgetPolicy :=
  parse_clauses (List.filter (λ c, negb (str_is_empty c)) (trim <$> split_on ";" spec))
    BudgetPolicy_default.

(** [BudgetPolicy::clamp]. *)
Definition cut (v : Z) (ceil : option Z) : Z :=
  match ceil with Some m => Z.min (eff v) m | None => v end.

Definition BudgetPolicy_clamp (self : BudgetPolicy) (c : Caps) : Caps :=
  {| cost_minor := cut (cost_minor c) (ceiling_cost_minor self);
     wall_ms := cut (wall_ms c) (ceiling_wall_ms self);
     children := match ceiling_children self with
                 | Some m => Z.min (children c) m
                 | None => children c
                 end |}.

Definition show (v : Z) : string := if v =? 0 then "no cap" else pretty v.

(** Above a ceiling that is set, in a dimension that is raised. *)
Definition above (is_raised : bool) (ceiling : option Z) (asked : Z) : option Z :=
  match ceiling with
  | Some m => if is_raised && (m <? asked) then Some m else None
  | None => None
  end.

(** [BudgetPolicy::decide]. *)
Definition BudgetPolicy_decide (self : BudgetPolicy) (from to : Caps) (who : Requester)
    : BudgetDecision :=
  let r := raised from to in
  if negb (Raised_any r) then BudgetDecision_Allow "not-a-raise"
  else
    match invalid self with
    | Some why =>
        BudgetDecision_Deny POLICY_INVALID
          ("the budget policy could not be read (" +:+ why +:+
           "); no raise is allowed until it can")
    | None =>
    match above (ra_cost r) (ceiling_cost_minor self) (eff (cost_minor to)) with
    | Some m =>
        BudgetDecision_Deny CEILING_EXCEEDED
          ("the cost cap may not exceed " +:+ pretty m +:+
           " minor currency units by organization policy; " +:+ show (cost_minor to) +:+
           " was asked for")
    | None =>
    match above (ra_wall r) (ceiling_wall_ms self) (eff (wall_ms to)) with
    | Some m =>
        BudgetDecision_Deny CEILING_EXCEEDED
          ("the time cap may not exceed " +:+ pretty m +:+ " ms by organization policy; " +:+
           show (wall_ms to) +:+ " was asked for")
    | None =>
    match above (ra_children r) (ceiling_children self) (children to) with
    | Some m =>
        BudgetDecision_Deny CEILING_EXCEEDED
          ("no more than " +:+ pretty m +:+ " live children are allowed by organization policy; "
           +:+ pretty (children to) +:+ " were asked for")
    | None =>
        match who, raise_approval self with
        | Requester_Autonomous, _ =>
            BudgetDecision_ApprovalRequired
              "a run never raises its own budget; a person approves this exact raise"
        | Requester_Person, RaiseApproval_Always =>
            BudgetDecision_ApprovalRequired
              "organization policy asks for an approval of every budget raise"
        | Requester_Person, RaiseApproval_Autonomous => BudgetDecision_Allow "within-ceiling"
        end
    end end end end.

Definition NUL : string := String "000" "".

Definition caps_text (c : Caps) : string :=
  pretty (cost_minor c) +:+ "/" +:+ pretty (wall_ms c) +:+ "/" +:+ pretty (children c).

(** [intent_hash]. *)
Definition intent_hash `{Sha256} (task_hex : string) (from to : Caps) (decisions_on_log : Z)
    : string :=
  sha256_hex (RAISE_EFFECT +:+ NUL +:+ task_hex +:+ NUL +:+ caps_text from +:+ NUL +:+
              caps_text to +:+ NUL +:+ pretty decisions_on_log).

(** ** Properties *)

(** The organization's ceilings, on the effective caps. *)
Definition within_ceilings (p : BudgetPolicy) (c : Caps) : Prop :=
  (∀ m, ceiling_cost_minor p = Some m → eff (cost_minor c) ≤ m) ∧
  (∀ m, ceiling_wall_ms p = Some m → eff (wall_ms c) ≤ m) ∧
  (∀ m, ceiling_children p = Some m → children c ≤ m).

(** No cap of [to] is above the one of [from]. *)
Definition not_above (from to : Caps) : Prop :=
  eff (cost_minor to) ≤ eff (cost_minor from) ∧ eff (wall_ms to) ≤ eff (wall_ms from) ∧
  children to ≤ children from.

(** The dimensions [to] raises stay inside the ceilings. *)
Definition raise_within (p : BudgetPolicy) (from to : Caps) : Prop :=
  (∀ m, eff (cost_minor from) < eff (cost_minor to) → ceiling_cost_minor p = Some m →
        eff (cost_minor to) ≤ m) ∧
  (∀ m, eff (wall_ms from) < eff (wall_ms to) → ceiling_wall_ms p = Some m → eff (wall_ms to) ≤ m) ∧
  (∀ m, children from < children to → ceiling_children p = Some m → children to ≤ m).

Lemma not_raised from to : Raised_any (raised from to) = false ↔ not_above from to.
Proof.
  unfold Raised_any, raised, not_above. cbn. rewrite !orb_false_iff, !Z.ltb_ge. tauto.
Qed.

Lemma above_none b ceil asked :
  above b ceil asked = None ↔ ∀ m, b = true → ceil = Some m → asked ≤ m.
Proof.
  unfold above. destruct ceil as [m|]; [|naive_solver].
  destruct b; cbn; [|naive_solver]. destruct (Z.ltb_spec m asked).
  - split; [done|]. intros Hm. specialize (Hm m eq_refl eq_refl). lia.
  - split; [|done]. intros _ m' _ [= <-]. done.
Qed.

Lemma raise_within_above p from to :
  raise_within p from to ↔
  above (ra_cost (raised from to)) (ceiling_cost_minor p) (eff (cost_minor to)) = None ∧
  above (ra_wall (raised from to)) (ceiling_wall_ms p) (eff (wall_ms to)) = None ∧
  above (ra_children (raised from to)) (ceiling_children p) (children to) = None.
Proof.
  unfold raise_within. rewrite !above_none. cbn. split; intros (Ha & Hb & Hc);
    (split_and!; intros m Hr; [apply (Ha m)|apply (Hb m)|apply (Hc m)]); by apply Z.ltb_lt.
Qed.

(** What the budget policy decides, exactly. A change that raises nothing is
    allowed. A raise is refused when the policy cannot be read or a raised cap
    goes above its ceiling; otherwise it is allowed for a person, unless the
    organization has every raise approved, and a run's own raise always needs a
    person's approval. *)
Theorem budget_decide_exact p from to who :
  match BudgetPolicy_decide p from to who with
  | BudgetDecision_Allow _ =>
      not_above from to ∨
      invalid p = None ∧ raise_within p from to ∧ who = Requester_Person ∧
      raise_approval p = RaiseApproval_Autonomous
  | BudgetDecision_ApprovalRequired _ =>
      ¬ not_above from to ∧ invalid p = None ∧ raise_within p from to ∧
      (who = Requester_Autonomous ∨ raise_approval p = RaiseApproval_Always)
  | BudgetDecision_Deny code _ =>
      ¬ not_above from to ∧
      (code = POLICY_INVALID ∧ is_Some (invalid p) ∨
       code = CEILING_EXCEEDED ∧ ¬ raise_within p from to)
  end.
Proof.
  unfold BudgetPolicy_decide. cbv zeta.
  pose proof (raise_within_above p from to) as Hw. pose proof (not_raised from to) as Hn.
  destruct (Raised_any (raised from to)); cbn [negb]; [|left; by apply Hn].
  assert (¬ not_above from to) by (rewrite <- Hn; done). clear Hn.
  destruct (invalid p); [naive_solver|].
  destruct (above (ra_cost _) _ _); [split; [done|]; right; split; [done|]; rewrite Hw; by intros (? & ? & ?)|].
  destruct (above (ra_wall _) _ _); [split; [done|]; right; split; [done|]; rewrite Hw; by intros (? & ? & ?)|].
  destruct (above (ra_children _) _ _); [split; [done|]; right; split; [done|]; rewrite Hw; by intros (? & ? & ?)|].
  assert (Hr : raise_within p from to) by (by apply Hw). clear Hw.
  destruct who, (raise_approval p); [right|..]; split_and!; auto.
Qed.

Lemma eff_pos v : 0 ≤ v → 0 < eff v.
Proof. unfold eff. destruct (Z.eqb_spec v 0); unfold u64_max; lia. Qed.

Lemma cut_eff v m : 0 ≤ v → 0 < m → eff (cut v (Some m)) = Z.min (eff v) m.
Proof.
  intros Hv Hm. pose proof (eff_pos v Hv). cbn. unfold eff at 1.
  destruct (Z.eqb_spec (Z.min (eff v) m) 0); [lia|done].
Qed.

(** The ceilings a policy states are positive, as [parse] has them. *)
Definition ceilings_positive (p : BudgetPolicy) : Prop :=
  (∀ m, ceiling_cost_minor p = Some m → 0 < m) ∧ (∀ m, ceiling_wall_ms p = Some m → 0 < m) ∧
  (∀ m, ceiling_children p = Some m → 0 ≤ m).

(** What [BudgetPolicy_clamp] makes of each cap, compared as the code compares them. *)
Lemma clamp_eff p c :
  ceilings_positive p → 0 ≤ cost_minor c → 0 ≤ wall_ms c →
  let lower v o := match o with Some m => Z.min v m | None => v end in
  eff (cost_minor (BudgetPolicy_clamp p c)) = lower (eff (cost_minor c)) (ceiling_cost_minor p) ∧
  eff (wall_ms (BudgetPolicy_clamp p c)) = lower (eff (wall_ms c)) (ceiling_wall_ms p) ∧
  children (BudgetPolicy_clamp p c) = lower (children c) (ceiling_children p).
Proof.
  intros (Hc & Hw & _) Hcost Hwall. cbn [BudgetPolicy_clamp cost_minor wall_ms children].
  split_and!; [destruct (ceiling_cost_minor p)|destruct (ceiling_wall_ms p)|]; try done;
    apply cut_eff; auto.
Qed.

(** C36: the clamp of a task's caps to the organization's ceilings, which are positive, is
    the most that both allow: it is inside the ceilings, never above the task's own caps
    (no cap counting as the largest), and every other choice of caps with these two
    properties is not above it; where the task has no cap on cost or time it gets exactly
    the ceiling, and applying the clamp twice is applying it once. *)
Theorem budget_clamp_sound p c :
  ceilings_positive p → 0 ≤ cost_minor c → 0 ≤ wall_ms c →
  within_ceilings p (BudgetPolicy_clamp p c) ∧ not_above c (BudgetPolicy_clamp p c) ∧
  (∀ c', within_ceilings p c' → not_above c c' → not_above (BudgetPolicy_clamp p c) c') ∧
  (∀ m, ceiling_cost_minor p = Some m → m ≤ u64_max → cost_minor c = 0 →
     cost_minor (BudgetPolicy_clamp p c) = m) ∧
  (∀ m, ceiling_wall_ms p = Some m → m ≤ u64_max → wall_ms c = 0 →
     wall_ms (BudgetPolicy_clamp p c) = m) ∧
  BudgetPolicy_clamp p (BudgetPolicy_clamp p c) = BudgetPolicy_clamp p c.
Proof.
  intros Hp Hcost Hwall. destruct (clamp_eff p c Hp Hcost Hwall) as (E1 & E2 & E3).
  unfold within_ceilings, not_above. rewrite E1, E2, E3. split_and!.
  1-3: intros m ->; lia.
  1-3: by repeat case_match; lia.
  - intros c' (H1 & H2 & H3) (N1 & N2 & N3). clear E1 E2 E3.
    split_and!; case_match; first [apply Z.min_glb; by auto|done].
  - intros m Hm Hu Hz. cbn. rewrite Hm, Hz. cbn. lia.
  - intros m Hm Hu Hz. cbn. rewrite Hm, Hz. cbn. lia.
  - unfold BudgetPolicy_clamp at 1 3. f_equal.
    + cbn in E1 |- *. destruct (ceiling_cost_minor p) as [m|]; [|done]. cbn [cut] in *. rewrite E1. lia.
    + cbn in E2 |- *. destruct (ceiling_wall_ms p) as [m|]; [|done]. cbn [cut] in *. rewrite E2. lia.
    + cbn. destruct (ceiling_children p); lia.
Qed.

(** A text of a number holds neither the slash nor the NUL. *)
Lemma pretty_no_sep n c :
  0 ≤ n → is_ascii_digit c = false → contains_char c (pretty n) = false.
Proof. intros Hn Hc. by apply digits_no_char, pretty_digits. Qed.

Lemma nul_app l r l' r' :
  contains_char "000" l = false → contains_char "000" l' = false →
  l +:+ NUL +:+ r = l' +:+ NUL +:+ r' → l = l' ∧ r = r'.
Proof.
  intros Hl Hl' Heq. change (NUL +:+ r) with (String "000" r) in Heq.
  change (NUL +:+ r') with (String "000" r') in Heq.
  pose proof (split_once_app "000" l r Hl) as E. rewrite Heq, split_once_app in E by done.
  by injection E as -> ->.
Qed.

Lemma slash_app l r l' r' :
  contains_char "/" l = false → contains_char "/" l' = false →
  l +:+ "/" +:+ r = l' +:+ "/" +:+ r' → l = l' ∧ r = r'.
Proof.
  intros Hl Hl' Heq. change ("/" +:+ r) with (String "/" r) in Heq.
  change ("/" +:+ r') with (String "/" r') in Heq.
  pose proof (split_once_app "/" l r Hl) as E. rewrite Heq, split_once_app in E by done.
  by injection E as -> ->.
Qed.

Definition caps_nonneg (c : Caps) : Prop := 0 ≤ cost_minor c ∧ 0 ≤ wall_ms c ∧ 0 ≤ children c.

Lemma caps_text_inj c c' : caps_nonneg c → caps_nonneg c' → caps_text c = caps_text c' → c = c'.
Proof.
  intros (? & ? & ?) (? & ? & ?). unfold caps_text.
  intros [Hc [Hw Hk]%slash_app]%slash_app; [|by apply pretty_no_sep..].
  apply (inj pretty) in Hc, Hw, Hk. destruct c, c'; cbn in *. congruence.
Qed.

Lemma caps_text_no_nul c : caps_nonneg c → contains_char "000" (caps_text c) = false.
Proof.
  intros (? & ? & ?). unfold caps_text. rewrite !contains_char_app.
  by rewrite !pretty_no_sep.
Qed.

(** An approval of a raise is for that raise. With a digest that does not
    collide, two raises with the same intent hash are of the same task, from the
    same caps to the same caps, with the same number of cap decisions on the log;
    so once the raise is applied and the log has moved on, the hash names no
    raise that can still be asked. *)
Theorem raise_intent_exact `{Sha256} t f g n t' f' g' n' :
  (∀ a b, sha256_hex a = sha256_hex b → a = b) →
  contains_char "000" t = false → contains_char "000" t' = false →
  caps_nonneg f → caps_nonneg g → caps_nonneg f' → caps_nonneg g' → 0 ≤ n → 0 ≤ n' →
  intent_hash t f g n = intent_hash t' f' g' n' → t = t' ∧ f = f' ∧ g = g' ∧ n = n'.
Proof.
  intros Hinj Ht Ht' Hf Hg Hf' Hg' Hn Hn' Heq%Hinj.
  apply nul_app in Heq as [_ Heq]; [|done..].
  apply nul_app in Heq as [Et Heq]; [|done..].
  apply nul_app in Heq as [Ef Heq]; [|by apply caps_text_no_nul..].
  apply nul_app in Heq as [Eg En]; [|by apply caps_text_no_nul..].
  apply caps_text_inj in Ef, Eg; [|done..]. by apply (inj pretty) in En.
Qed.

(** ** Reading a policy back *)

Definition clause (key value : string) : string := key +:+ "=" +:+ value.
Definition opt_clause (key : string) (o : option Z) : list string :=
  match o with Some n => [clause key (pretty n)] | None => [] end.

(** The text of a policy, as an operator writes it. *)
Definition policy_clauses (p : BudgetPolicy) : list string :=
  opt_clause "ceiling_cost_minor" (ceiling_cost_minor p) ++
  opt_clause "ceiling_wall_ms" (ceiling_wall_ms p) ++
  opt_clause "ceiling_children" (ceiling_children p) ++
  [clause "raise_approval"
     (match raise_approval p with
      | RaiseApproval_Autonomous => "autonomous"
      | RaiseApproval_Always => "always"
      end)].
Definition policy_text (p : BudgetPolicy) : string := Prelude.join ";" (policy_clauses p).

(** A clause that survives splitting at semicolons and trimming. *)
Definition plain_clause (s : string) : Prop :=
  str_all is_plain s = true ∧ contains_char ";" s = false ∧ str_is_empty s = false.

Lemma clauses_read l :
  l ≠ [] → Forall plain_clause l →
  List.filter (λ c, negb (str_is_empty c)) (trim <$> split_on ";" (Prelude.join ";" l)) = l.
Proof.
  intros Hne Hl. rewrite split_on_join_inv; [|done|].
  - clear Hne. induction Hl as [|s l (Hp & _ & He) _ IH]; cbn; [done|].
    rewrite (trim_plain s Hp), He. cbn. by rewrite IH.
  - eapply Forall_impl; [exact Hl|]. by intros s (_ & ? & _).
Qed.

Lemma clause_plain key v :
  plain_clause key → str_all is_plain v = true → contains_char ";" v = false →
  plain_clause (clause key v).
Proof.
  intros (Hp & Hs & He) Hv Hv'. unfold plain_clause, clause.
  rewrite !str_all_app, !contains_char_app, Hp, Hs, Hv, Hv'. split_and!; [done..|].
  by destruct key.
Qed.

Lemma clause_split key v :
  str_all is_plain key = true → contains_char "=" key = false → str_all is_plain v = true →
  split_once "=" (clause key v) = Some (key, v) ∧ trim key = key ∧ trim v = v.
Proof.
  intros Hk Hc Hv. split_and!; [|by apply trim_plain..]. unfold clause.
  change ("=" +:+ v) with (String "=" v). by apply split_once_app.
Qed.

Lemma number_plain n : 0 ≤ n → str_all is_plain (pretty n) = true ∧ contains_char ";" (pretty n) = false.
Proof. intros Hn. split; [by apply digits_plain, pretty_digits|by apply pretty_no_sep]. Qed.

(** The numbers fit their types. *)
Definition policy_wf (p : BudgetPolicy) : Prop :=
  (∀ m, ceiling_cost_minor p = Some m → 0 < m ≤ u64_max) ∧
  (∀ m, ceiling_wall_ms p = Some m → 0 < m ≤ u64_max) ∧
  (∀ m, ceiling_children p = Some m → 0 ≤ m ≤ u32_max).

Lemma parse_number key n p :
  0 ≤ n →
  str_all is_plain key = true → contains_char "=" key = false →
  parse_clause (clause key (pretty n)) p =
  (let bad what := "`" +:+ key +:+ "=" +:+ pretty n +:+ "`: " +:+ what in
   let positive (set : Z → BudgetPolicy) :=
     match parse_u64 (pretty n) with
     | Some n => if 0 <? n then Ok (set n) else Err (bad "a ceiling is a positive whole number")
     | None => Err (bad "a ceiling is a positive whole number")
     end in
   if key =s "ceiling_cost_minor" then positive (λ n, { p with ceiling_cost_minor := Some n })
   else if key =s "ceiling_wall_ms" then positive (λ n, { p with ceiling_wall_ms := Some n })
   else if key =s "ceiling_children" then
     match parse_u32 (pretty n) with
     | Some n => Ok { p with ceiling_children := Some n }
     | None => Err (bad "a ceiling is a whole number")
     end
   else if key =s "raise_approval" then
     if pretty n =s "autonomous" then Ok { p with raise_approval := RaiseApproval_Autonomous }
     else if pretty n =s "always" then Ok { p with raise_approval := RaiseApproval_Always }
     else Err (bad "`autonomous` or `always`")
   else Err ("unknown key `" +:+ key +:+ "`")).
Proof.
  intros Hn Hk He. destruct (number_plain n Hn) as [Hp _].
  destruct (clause_split key (pretty n) Hk He Hp) as (E & Ek & Ev).
  unfold parse_clause. by rewrite E, Ek, Ev.
Qed.

Lemma parse_cost n p : 0 < n ≤ u64_max →
  parse_clause (clause "ceiling_cost_minor" (pretty n)) p = Ok { p with ceiling_cost_minor := Some n }.
Proof.
  intros Hn. rewrite parse_number by (done || lia). cbn -[pretty].
  unfold parse_u64. rewrite parse_pretty by lia. by rewrite (proj2 (Z.ltb_lt 0 n)) by lia.
Qed.

Lemma parse_wall n p : 0 < n ≤ u64_max →
  parse_clause (clause "ceiling_wall_ms" (pretty n)) p = Ok { p with ceiling_wall_ms := Some n }.
Proof.
  intros Hn. rewrite parse_number by (done || lia). cbn -[pretty].
  unfold parse_u64. rewrite parse_pretty by lia. by rewrite (proj2 (Z.ltb_lt 0 n)) by lia.
Qed.

Lemma parse_children n p : 0 ≤ n ≤ u32_max →
  parse_clause (clause "ceiling_children" (pretty n)) p = Ok { p with ceiling_children := Some n }.
Proof.
  intros Hn. rewrite parse_number by (done || lia). cbn -[pretty].
  unfold parse_u32. by rewrite parse_pretty by lia.
Qed.

Lemma policy_clauses_plain p : policy_wf p → Forall plain_clause (policy_clauses p).
Proof.
  intros (Hc & Hw & Hk). unfold policy_clauses.
  assert (Hopt : ∀ key o, plain_clause key → (∀ m, o = Some m → 0 ≤ m) →
    Forall plain_clause (opt_clause key o)).
  { intros key [n|] Hkey Hn; cbn; [|constructor]. repeat constructor.
    all: apply clause_plain; [done|apply number_plain; by apply Hn..]. }
  repeat apply Forall_app_2; [apply Hopt; [done|]..|].
  - intros m Hm. specialize (Hc m Hm). lia.
  - intros m Hm. specialize (Hw m Hm). lia.
  - intros m Hm. specialize (Hk m Hm). lia.
  - repeat constructor; by destruct (raise_approval p).
Qed.

(** A policy reads back. The text of a valid policy whose numbers fit their
    types parses to exactly that policy: no ceiling is lost, changed or lifted. *)
Theorem budget_policy_roundtrip p :
  policy_wf p → invalid p = None → BudgetPolicy_parse (policy_text p) = p.
Proof.
  intros Hwf Hi. unfold BudgetPolicy_parse, policy_text.
  rewrite clauses_read; [|by unfold policy_clauses; destruct (ceiling_cost_minor p), (ceiling_wall_ms p),
    (ceiling_children p)|by apply policy_clauses_plain].
  destruct Hwf as (Hc & Hw & Hk). unfold policy_clauses.
  destruct p as [[c|] [w|] [k|] ra inv]; cbn in Hi; subst inv; cbn [ceiling_cost_minor
    ceiling_wall_ms ceiling_children raise_approval opt_clause app parse_clauses];
    rewrite ?parse_cost by (by apply Hc); cbn [parse_clauses];
    rewrite ?parse_wall by (by apply Hw); cbn [parse_clauses];
    rewrite ?parse_children by (by apply Hk); cbn [parse_clauses]; by destruct ra.
Qed.

(** ** Witnesses *)

Definition org_policy : BudgetPolicy :=
  {| ceiling_cost_minor := Some 5000; ceiling_wall_ms := Some 7200000; ceiling_children := Some 2;
     raise_approval := RaiseApproval_Always; invalid := None |}.

Lemma budget_policy_roundtrip_witness :
  policy_text org_policy =
    "ceiling_cost_minor=5000;ceiling_wall_ms=7200000;ceiling_children=2;raise_approval=always" ∧
  BudgetPolicy_parse (policy_text org_policy) = org_policy.
Proof.
  split; [vm_compute; reflexivity|]. apply (budget_policy_roundtrip org_policy); [|reflexivity].
  split_and!; intros m [= <-]; unfold u64_max, u32_max; lia.
Defined.

Lemma budget_clamp_sound_witness :
  within_ceilings org_policy (BudgetPolicy_clamp org_policy (Caps_unset 3)) ∧
  BudgetPolicy_clamp org_policy (Caps_unset 3) =
    {| cost_minor := 5000; wall_ms := 7200000; children := 2 |}.
Proof.
  split; [|reflexivity]. apply (budget_clamp_sound org_policy (Caps_unset 3)); [|cbn; lia..].
  split_and!; intros m [= <-]; lia.
Defined.

Lemma raise_intent_exact_witness :
  let h := @intent_hash Example.sha256 "ab" (Caps_unset 3) (Caps_unset 4) 0 in
  h ≠ @intent_hash Example.sha256 "ab" (Caps_unset 3) (Caps_unset 4) 1.
Proof.
  intros h Heq.
  destruct (raise_intent_exact (H := Example.sha256) "ab" (Caps_unset 3) (Caps_unset 4) 0
    "ab" (Caps_unset 3) (Caps_unset 4) 1 (λ _ _ H, H) eq_refl eq_refl) as (_ & _ & _ & Hn);
    [unfold caps_nonneg; cbn; lia..|exact Heq|lia].
Defined.
