(* ===== verification/InputQueue.v ===== *)
(** * The input queue of a task

    [crates/core-runtime/src/input_queue.rs]: the inputs a person queued for a
    running task, as a fold over the task's log. [InputQueue_apply] is the fold's
    step. An abstract queue ([Queue]: the waiting inputs in dispatch order, the
    settled ones by id) says what the records mean; the fold over the flat list
    with its in-place edits, removals and index insertions refines it. *)

From stdpp Require Import gmap sorting.
From S2P Require Import Prelude RustStr BTree StateMachine Task.
#[local] Open Scope Z_scope.

Inductive ItemState :=
  | Queued
  | Dispatched
  | Removed.

#[export] Instance ItemState_eq_dec : EqDecision ItemState.
Proof. solve_decision. Defined.

Record QueueItem := {
  qi_input_id : string;
  qi_mode : InputMode;
  qi_text : string;
  qi_provenance : string;
  qi_untrusted : bool;
  qi_model : string;
  qi_state : ItemState;
  qi_edited : bool;
  qi_sent_now : bool;
  qi_queued_offset : Z;
  qi_changed_offset : Z
}.

Record InterruptRecord := {
  ir_interrupt_id : string;
  ir_kind : string;
  ir_input_id : string;
  ir_requested_offset : Z;
  ir_applied : bool
}.

Record SendBehavior := {
  sb_while_running : string;
  sb_send_now : string
}.

(** [SendBehavior::default]. *)
Definition SendBehavior_default : SendBehavior :=
  {| sb_while_running := "QUEUE"; sb_send_now := "INTERRUPT" |}.

Definition WHILE_RUNNING : list string := ["QUEUE"; "COLLECT"; "STEER"; "STOP_AND_SEND"].
Definition SEND_NOW : list string := ["INTERRUPT"; "STEER"].

Record InputQueue := {
  iq_items : list QueueItem;
  iq_interrupts : list InterruptRecord;
  iq_behavior : SendBehavior;
  iq_behavior_offset : Z
}.

(** [InputQueue::new]. *)
Definition InputQueue_new : InputQueue :=
  {| iq_items := []; iq_interrupts := []; iq_behavior := SendBehavior_default;
     iq_behavior_offset := 0 |}.

Definition has_id (id : string) (i : QueueItem) : bool := qi_input_id i =s id.
Definition is_queued (i : QueueItem) : bool := bool_decide (qi_state i = Queued).

(** The test of [queued_mut]; a write through the reference it returns is
    [update_first (queued_id id)]. *)
Definition queued_id (id : string) (i : QueueItem) : bool := has_id id i && is_queued i.

Definition queued_mut (id : string) (q : InputQueue) : option QueueItem :=
  List.find (queued_id id) (iq_items q).

Definition update_queued (id : string) (f : QueueItem → QueueItem) (q : InputQueue)
    : InputQueue := { q with iq_items ::= update_first (queued_id id) f }.

(** [move_before]. *)
Definition move_before (id before : string) (q : InputQueue) : InputQueue :=
  match position (has_id id) (iq_items q), List.find (has_id id) (iq_items q) with
  | Some from, Some item =>
      let items := vec_remove from (iq_items q) in
      let at_ := if (before =s "") || (before =s id) then None
                 else position (queued_id before) items in
      { q with iq_items := match at_ with
                           | Some at_ => vec_insert at_ item items
                           | None => items ++ [item]
                           end }
  | _, _ => q
  end.

(** [promote]. *)
Definition promote (id : string) (q : InputQueue) : InputQueue :=
  match position (has_id id) (iq_items q), List.find (has_id id) (iq_items q) with
  | Some from, Some item =>
      let items := vec_remove from (iq_items q) in
      let at_ := default (length items)
                   (position (λ i, is_queued i && negb (qi_sent_now i)) items) in
      { q with iq_items := vec_insert at_ item items }
  | _, _ => q
  end.

(** The least [queued_offset] of the waiting inputs. *)
Fixpoint min_queued_offset (l : list QueueItem) : option Z :=
  match l with
  | [] => None
  | i :: l =>
      if is_queued i
      then Some (match min_queued_offset l with
                 | Some m => Z.min (qi_queued_offset i) m
                 | None => qi_queued_offset i
                 end)
      else min_queued_offset l
  end.

(** [filter(Queued).min_by_key(queued_offset)], whose result is the first of
    the least ones. *)
Definition oldest_queued (l : list QueueItem) (i : QueueItem) : bool :=
  is_queued i && bool_decide (min_queued_offset l = Some (qi_queued_offset i)).

Definition edit_item (offset : Z) (text : string) (mode : option InputMode) (model : string)
    (i : QueueItem) : QueueItem :=
  let i := if str_is_empty text then i else { i with qi_text := text } in
  let i := match mode with Some m => { i with qi_mode := m } | None => i end in
  let i := if str_is_empty model then i else { i with qi_model := model } in
  { i with qi_edited := true; qi_changed_offset := offset }.

Definition settle_item (offset : Z) (s : ItemState) (i : QueueItem) : QueueItem :=
  { i with qi_state := s; qi_changed_offset := offset }.

Definition touch_item (offset : Z) (i : QueueItem) : QueueItem :=
  { i with qi_changed_offset := offset }.

Definition send_item (offset : Z) (i : QueueItem) : QueueItem :=
  { i with qi_sent_now := true; qi_changed_offset := offset }.

(** [InputQueue::apply]. *)
Definition InputQueue_apply (offset : Z) (event : TaskEvent) (q : InputQueue) : InputQueue :=
  match event with
  | SendBehaviorSet while_running send_now =>
      let q := if contains_str WHILE_RUNNING while_running
               then { q with iq_behavior ::= λ b, { b with sb_while_running := while_running } }
               else q in
      let q := if contains_str SEND_NOW send_now
               then { q with iq_behavior ::= λ b, { b with sb_send_now := send_now } }
               else q in
      { q with iq_behavior_offset := offset }
  | TaskInputQueued input_id mode text provenance untrusted =>
      if existsb (has_id input_id) (iq_items q) then q
      else { q with iq_items ::= λ l, l ++
        [{| qi_input_id := input_id; qi_mode := mode; qi_text := text;
            qi_provenance := provenance; qi_untrusted := untrusted; qi_model := "";
            qi_state := Queued; qi_edited := false; qi_sent_now := false;
            qi_queued_offset := offset; qi_changed_offset := offset |}] }
  | TaskInputEdited input_id text mode model =>
      update_queued input_id (edit_item offset text mode model) q
  | TaskInputRemoved input_id _ => update_queued input_id (settle_item offset Removed) q
  | TaskInputReordered input_id before_input_id =>
      if is_some (queued_mut input_id q)
      then update_queued input_id (touch_item offset) (move_before input_id before_input_id q)
      else q
  | TaskInterruptRequested interrupt_id kind input_id _ =>
      if existsb (λ r, ir_interrupt_id r =s interrupt_id) (iq_interrupts q) then q
      else
        let q := { q with iq_interrupts ::= λ l, l ++
          [{| ir_interrupt_id := interrupt_id; ir_kind := kind; ir_input_id := input_id;
              ir_requested_offset := offset; ir_applied := false |}] } in
        if (kind =s "SEND_NOW") && is_some (queued_mut input_id q)
        then update_queued input_id (send_item offset) (promote input_id q)
        else q
  | TaskInterruptApplied interrupt_id _ _ _ _ _ =>
      { q with iq_interrupts ::= update_first (λ r, ir_interrupt_id r =s interrupt_id)
                                   (λ r, { r with ir_applied := true }) }
  | TaskSteered _ _ _ input_ids =>
      let q := match input_ids with
               | [] => { q with iq_items ::= λ l,
                           update_first (oldest_queued l) (settle_item offset Dispatched) l }
               | _ => q
               end in
      foldl (λ q id, update_queued id (settle_item offset Dispatched) q) q input_ids
  | _ => q
  end.

(** A log of the task, folded in order. *)
Definition fold_log (log : list (Z * TaskEvent)) (q : InputQueue) : InputQueue :=
  foldl (λ q r, InputQueue_apply r.1 r.2 q) q log.

Definition pending (q : InputQueue) : list QueueItem := List.filter is_queued (iq_items q).

(** [InputQueue::all]. *)
Definition InputQueue_all (q : InputQueue) : list QueueItem :=
  pending q ++ sort_by (λ a b, qi_queued_offset a <? qi_queued_offset b)
                 (List.filter (λ i, negb (is_queued i)) (iq_items q)).

Definition InputQueue_get (id : string) (q : InputQueue) : option QueueItem :=
  List.find (has_id id) (iq_items q).

Definition unapplied_interrupts (q : InputQueue) : list InterruptRecord :=
  List.filter (λ r, negb (ir_applied r)) (iq_interrupts q).

Definition InputQueue_interrupt (id : string) (q : InputQueue) : option InterruptRecord :=
  List.find (λ r, ir_interrupt_id r =s id) (iq_interrupts q).

(** ** The abstract queue *)

Record Queue := {
  waiting : list QueueItem;
  settled : gmap string QueueItem;
  interrupts : list InterruptRecord
}.

Definition empty_queue : Queue := {| waiting := []; settled := ∅; interrupts := [] |}.

Definition known (s : Queue) (id : string) : bool :=
  existsb (has_id id) (waiting s) || bool_decide (is_Some (settled s !! id)).

Definition without (id : string) (w : list QueueItem) : list QueueItem :=
  List.filter (λ i, negb (has_id id i)) w.

(** Before the input [b], or at the end when [b] is not waiting. *)
Fixpoint insert_before (b : string) (x : QueueItem) (w : list QueueItem) : list QueueItem :=
  match w with
  | [] => [x]
  | y :: w => if has_id b y then x :: y :: w else y :: insert_before b x w
  end.

(** Before the first input that was not sent now. *)
Fixpoint insert_sent (x : QueueItem) (w : list QueueItem) : list QueueItem :=
  match w with
  | [] => [x]
  | y :: w => if qi_sent_now y then y :: insert_sent x w else x :: y :: w
  end.

(** [f] applied to the waiting input [id]; the others are kept. *)
Definition edit_waiting (id : string) (f : QueueItem → QueueItem) (w : list QueueItem)
    : list QueueItem := (λ i, if has_id id i then f i else i) <$> w.

Definition settle (offset : Z) (st : ItemState) (id : string) (s : Queue) : Queue :=
  match List.find (has_id id) (waiting s) with
  | Some i => { s with waiting := without id (waiting s);
                       settled := <[id := settle_item offset st i]> (settled s) }
  | None => s
  end.

(** The id of the waiting input that was queued first. *)
Definition oldest (w : list QueueItem) : option string :=
  qi_input_id <$> List.find (λ i, forallb (λ j, qi_queued_offset i <=? qi_queued_offset j) w) w.

Definition queue_step (offset : Z) (event : TaskEvent) (s : Queue) : Queue :=
  match event with
  | TaskInputQueued id mode text provenance untrusted =>
      if known s id then s
      else { s with waiting := waiting s ++
        [{| qi_input_id := id; qi_mode := mode; qi_text := text;
            qi_provenance := provenance; qi_untrusted := untrusted; qi_model := "";
            qi_state := Queued; qi_edited := false; qi_sent_now := false;
            qi_queued_offset := offset; qi_changed_offset := offset |}] }
  | TaskInputEdited id text mode model =>
      { s with waiting := edit_waiting id (edit_item offset text mode model) (waiting s) }
  | TaskInputRemoved id _ => settle offset Removed id s
  | TaskInputReordered id b =>
      match List.find (has_id id) (waiting s) with
      | Some i =>
          let i := touch_item offset i in
          let w := without id (waiting s) in
          { s with waiting := if b =s "" then w ++ [i] else insert_before b i w }
      | None => s
      end
  | TaskInterruptRequested ir kind id _ =>
      if existsb (λ r, ir_interrupt_id r =s ir) (interrupts s) then s
      else
        let s := { s with interrupts := interrupts s ++
          [{| ir_interrupt_id := ir; ir_kind := kind; ir_input_id := id;
              ir_requested_offset := offset; ir_applied := false |}] } in
        match List.find (has_id id) (waiting s) with
        | Some i =>
            if kind =s "SEND_NOW"
            then { s with waiting := insert_sent (send_item offset i) (without id (waiting s)) }
            else s
        | None => s
        end
  | TaskInterruptApplied ir _ _ _ _ _ =>
      { s with interrupts := update_first (λ r, ir_interrupt_id r =s ir)
                               (λ r, { r with ir_applied := true }) (interrupts s) }
  | TaskSteered _ _ _ [] =>
      match oldest (waiting s) with
      | Some id => settle offset Dispatched id s
      | None => s
      end
  | TaskSteered _ _ _ ids => foldl (λ s id, settle offset Dispatched id s) s ids
  | _ => s
  end.

(** The abstract queue a concrete one stands for. *)
Definition settled_of (l : list QueueItem) : gmap string QueueItem :=
  list_to_map ((λ i, (qi_input_id i, i)) <$> List.filter (λ i, negb (is_queued i)) l).

Definition queue_of (q : InputQueue) : Queue :=
  {| waiting := pending q; settled := settled_of (iq_items q); interrupts := iq_interrupts q |}.

Arguments settled_of : simpl never.
Arguments edit_waiting : simpl never.
Arguments without : simpl never.
Arguments has_id : simpl never.
Arguments is_queued : simpl never.
Arguments settle_item : simpl never.

(** ** Shared lemmas *)

(** Ids are unique. *)
Definition queue_wf (q : InputQueue) : Prop := NoDup (qi_input_id <$> iq_items q).

Lemma has_id_true id i : has_id id i = true ↔ qi_input_id i = id.
Proof. apply String.eqb_eq. Qed.

Lemma has_id_false id i : has_id id i = false ↔ qi_input_id i ≠ id.
Proof. apply String.eqb_neq. Qed.

Lemma queued_id_false id i : is_queued i = true → queued_id id i = has_id id i.
Proof. unfold queued_id. intros ->. apply andb_true_r. Qed.

Lemma NoDup_no_id id (l : list QueueItem) :
  id ∉ qi_input_id <$> l → Forall (λ j, has_id id j = false) l.
Proof.
  intros H. apply Forall_forall. intros j Hj. apply has_id_false. intros <-.
  apply H. by apply list_elem_of_fmap_2.
Qed.

(** An input of a queue with unique ids, and its neighbours. *)
Lemma split_unique id l1 (x : QueueItem) l2 :
  NoDup (qi_input_id <$> l1 ++ x :: l2) → qi_input_id x = id →
  Forall (λ j, has_id id j = false) l1 ∧ Forall (λ j, has_id id j = false) l2.
Proof.
  rewrite fmap_app, fmap_cons. intros (_ & H1 & [H2 _]%NoDup_cons)%NoDup_app <-.
  split; apply NoDup_no_id; [|done]. intros Hx. apply (H1 _ Hx). left.
Qed.

Lemma find_first {A} (p : A → bool) l1 x l2 :
  Forall (λ j, p j = false) l1 → p x = true → List.find p (l1 ++ x :: l2) = Some x.
Proof. induction 1 as [|y l1 Hy _ IH]; intros Hx; cbn; [by rewrite Hx|rewrite Hy; auto]. Qed.

Lemma position_first {A} (p : A → bool) l1 x l2 :
  Forall (λ j, p j = false) l1 → p x = true → position p (l1 ++ x :: l2) = Some (length l1).
Proof.
  induction 1 as [|y l1 Hy _ IH]; intros Hx; cbn; [by rewrite Hx|].
  rewrite Hy. by rewrite IH.
Qed.

Lemma update_first_at {A} (p : A → bool) f l1 x l2 :
  Forall (λ j, p j = false) l1 → p x = true →
  update_first p f (l1 ++ x :: l2) = l1 ++ f x :: l2.
Proof.
  induction 1 as [|y l1 Hy _ IH]; intros Hx; cbn; [by rewrite Hx|].
  rewrite Hy. by rewrite IH.
Qed.

Lemma update_first_none {A} (p : A → bool) f l :
  Forall (λ j, p j = false) l → update_first p f l = l.
Proof. induction 1 as [|y l Hy _ IH]; cbn; [done|]. by rewrite Hy, IH. Qed.

Lemma filter_all {A} (p : A → bool) l : Forall (λ j, p j = true) l → List.filter p l = l.
Proof. induction 1 as [|y l Hy _ IH]; cbn; [done|]. by rewrite Hy, IH. Qed.

Lemma forall_weaken (p p' : QueueItem → bool) l :
  (∀ i, p' i = false → p i = false) →
  Forall (λ j, p' j = false) l → Forall (λ j, p j = false) l.
Proof. intros H Hl. eapply Forall_impl; [exact Hl|]. auto. Qed.

Lemma has_id_queued_id id i : has_id id i = false → queued_id id i = false.
Proof. unfold queued_id. by intros ->. Qed.

Lemma forall_pending (p : QueueItem → bool) l :
  Forall (λ j, p j = false) l → Forall (λ j, p j = false) (List.filter is_queued l).
Proof. induction 1 as [|y l Hy _ IH]; cbn; [done|]. destruct (is_queued y); auto. Qed.

Lemma without_none id w : Forall (λ j, has_id id j = false) w → without id w = w.
Proof.
  intros H. apply filter_all. eapply Forall_impl; [exact H|]. by intros j ->.
Qed.

(** Looking for the waiting input [id] of a queue: either there is none, or
    the list splits at it. *)
Lemma queued_split id q :
  queue_wf q →
  (queued_mut id q = None ∧ Forall (λ j, queued_id id j = false) (iq_items q) ∧
   List.find (has_id id) (pending q) = None) ∨
  (∃ l1 x l2, iq_items q = l1 ++ x :: l2 ∧ qi_input_id x = id ∧ is_queued x = true ∧
     Forall (λ j, has_id id j = false) l1 ∧ Forall (λ j, has_id id j = false) l2 ∧
     queued_mut id q = Some x ∧ List.find (has_id id) (pending q) = Some x ∧
     without id (pending q) = List.filter is_queued (l1 ++ l2)).
Proof.
  intros Hwf. unfold queued_mut, pending. destruct (List.find (queued_id id) (iq_items q)) as [x|] eqn:E.
  - right. apply find_some_iff in E as (l1 & l2 & Hl & [Hx Hq]%andb_true_iff & _).
    apply has_id_true in Hx. unfold queue_wf in Hwf. rewrite Hl in Hwf.
    destruct (split_unique id _ _ _ Hwf Hx) as [H1 H2].
    exists l1, x, l2. rewrite Hl, !List.filter_app. cbn. rewrite Hq. split_and!; try done.
    + apply find_first; [by apply forall_pending|by apply has_id_true].
    + unfold without. rewrite List.filter_app. cbn. rewrite (proj2 (has_id_true _ _) Hx). cbn.
      change (without id (List.filter is_queued l1) ++ without id (List.filter is_queued l2) =
        List.filter is_queued l1 ++ List.filter is_queued l2).
      by rewrite !without_none by by apply forall_pending.
  - left. apply find_none_forall in E. split_and!; try done.
    apply find_none_forall. clear Hwf. induction E as [|y l Hy _ IH]; cbn; [done|].
    destruct (is_queued y) eqn:Eq; [|done]. constructor; [|done].
    by rewrite queued_id_false in Hy.
Qed.

Lemma settled_of_queued l1 x l2 :
  is_queued x = true → settled_of (l1 ++ x :: l2) = settled_of (l1 ++ l2).
Proof. intros Hx. unfold settled_of. rewrite !List.filter_app. cbn. by rewrite Hx. Qed.

Lemma settled_of_settled l1 x l2 :
  is_queued x = false → NoDup (qi_input_id <$> l1 ++ x :: l2) →
  settled_of (l1 ++ x :: l2) = <[qi_input_id x := x]> (settled_of (l1 ++ l2)).
Proof.
  intros Hx Hnd. unfold settled_of. rewrite !List.filter_app. cbn. rewrite Hx. cbn.
  rewrite !fmap_app, fmap_cons. rewrite !list_to_map_app. cbn.
  rewrite <- insert_union_r; [done|]. apply not_elem_of_list_to_map. rewrite <- list_fmap_compose.
  destruct (split_unique _ _ _ _ Hnd eq_refl) as [H1 _]. clear Hnd.
  induction H1 as [|y l1 Hy _ IH]; cbn; [apply not_elem_of_nil|].
  destruct (is_queued y); cbn; [done|]. apply not_elem_of_cons. split; [|done].
  apply has_id_false in Hy. congruence.
Qed.

Lemma edit_waiting_none id f w :
  Forall (λ j, has_id id j = false) w → edit_waiting id f w = w.
Proof.
  unfold edit_waiting. induction 1 as [|y l Hy _ IH]; cbn; [done|]. rewrite Hy. by f_equal.
Qed.

Lemma edit_waiting_cons id f y w :
  edit_waiting id f (y :: w) = (if has_id id y then f y else y) :: edit_waiting id f w.
Proof. done. Qed.

Lemma edit_waiting_at id f l1 x l2 :
  Forall (λ j, has_id id j = false) l1 → Forall (λ j, has_id id j = false) l2 →
  qi_input_id x = id → edit_waiting id f (l1 ++ x :: l2) = l1 ++ f x :: l2.
Proof.
  intros H1%(edit_waiting_none id f) H2%(edit_waiting_none id f) Hx.
  unfold edit_waiting in *. rewrite fmap_app, fmap_cons, H1, H2.
  by rewrite (proj2 (has_id_true _ _) Hx).
Qed.

(** An edit that keeps the input waiting. *)
Lemma queue_of_update id f q :
  queue_wf q → (∀ i, qi_state (f i) = qi_state i) →
  queue_of (update_queued id f q) =
    { queue_of q with waiting := edit_waiting id f (pending q) }.
Proof.
  intros Hwf Hf. assert (∀ i, is_queued (f i) = is_queued i) as Hq
    by (intros i; unfold is_queued; by rewrite Hf).
  destruct (queued_split id q Hwf) as [(_ & Hn & Hp)|(l1 & x & l2 & Hl & Hx & Hxq & H1 & H2 & _)].
  - apply find_none_forall in Hp. unfold queue_of, pending, update_queued in *. cbn.
    by rewrite update_first_none, edit_waiting_none.
  - unfold queue_of, pending, update_queued. destruct q as [items ? ? ?]. cbn in *. subst items.
    rewrite update_first_at; [|eapply forall_weaken; [apply has_id_queued_id|done]|
      rewrite queued_id_false by done; by apply has_id_true].
    rewrite !settled_of_queued by by rewrite ?Hq. f_equal.
    rewrite !List.filter_app. cbn. rewrite Hq, Hxq.
    by rewrite edit_waiting_at by auto using forall_pending.
Qed.

(** An edit that settles the input. *)
Lemma queue_of_settle offset st id q :
  queue_wf q → st ≠ Queued →
  queue_of (update_queued id (settle_item offset st) q) = settle offset st id (queue_of q).
Proof.
  intros Hwf Hst. unfold settle. cbn [queue_of waiting].
  destruct (queued_split id q Hwf) as
    [(_ & Hn & Hp)|(l1 & x & l2 & Hl & Hx & Hxq & H1 & H2 & _ & Hp & Hw)]; rewrite Hp.
  - unfold queue_of, pending, update_queued. cbn. by rewrite update_first_none.
  - rewrite Hw. unfold queue_of, pending, update_queued. destruct q as [items ? ? ?]. cbn in *. subst items.
    rewrite update_first_at; [|eapply forall_weaken; [apply has_id_queued_id|done]|
      rewrite queued_id_false by done; by apply has_id_true].
    assert (is_queued (settle_item offset st x) = false) as Hq by by apply bool_decide_eq_false.
    rewrite settled_of_settled, (settled_of_queued l1 x l2), !List.filter_app; [|done..|].
    + cbn. rewrite Hq. change (qi_input_id (settle_item offset st x)) with (qi_input_id x). by rewrite Hx.
    + unfold queue_wf in Hwf. cbn in Hwf. by rewrite !fmap_app, !fmap_cons in *.
Qed.

(** Where [move_before] and [promote] put an input, read on the waiting ones. *)
Lemma pending_place b x l :
  is_queued x = true →
  List.filter is_queued (match position (queued_id b) l with
                         | Some at_ => vec_insert at_ x l
                         | None => l ++ [x]
                         end) = insert_before b x (List.filter is_queued l) ∧
  settled_of (match position (queued_id b) l with
              | Some at_ => vec_insert at_ x l
              | None => l ++ [x]
              end) = settled_of l.
Proof.
  intros Hx. split.
  - induction l as [|y l IH]; cbn; [by rewrite Hx|].
    unfold queued_id at 1. destruct (is_queued y) eqn:Hy, (has_id b y) eqn:Hb; cbn;
      rewrite ?Hx, ?Hy, ?Hb; try done; rewrite <- IH;
      destruct (position _ l); cbn; by rewrite ?Hy.
  - destruct (position _ l) as [n|].
    + unfold vec_insert. rewrite settled_of_queued by done. by rewrite take_drop.
    + rewrite settled_of_queued by done. by rewrite app_nil_r.
Qed.

Lemma pending_promote x l :
  is_queued x = true →
  let at_ := default (length l) (position (λ i, is_queued i && negb (qi_sent_now i)) l) in
  List.filter is_queued (vec_insert at_ x l) = insert_sent x (List.filter is_queued l) ∧
  settled_of (vec_insert at_ x l) = settled_of l.
Proof.
  intros Hx. cbn. split.
  - induction l as [|y l IH]; cbn; [by rewrite Hx|].
    destruct (is_queued y) eqn:Hy, (qi_sent_now y) eqn:Hb; cbn; rewrite ?Hx, ?Hy, ?Hb; try done;
      rewrite <- IH; destruct (position _ l); cbn; by rewrite ?Hy.
  - unfold vec_insert. rewrite settled_of_queued by done. by rewrite take_drop.
Qed.

Lemma insert_before_touch id b x f w :
  Forall (λ j, has_id id j = false) w → qi_input_id x = id →
  edit_waiting id f (insert_before b x w) = insert_before b (f x) w.
Proof.
  intros Hw Hx%has_id_true. induction Hw as [|y w Hy Hw IH]; cbn;
    [by rewrite edit_waiting_cons, Hx|].
  destruct (has_id b y); rewrite !edit_waiting_cons, ?Hx, Hy; f_equal; [|done].
  f_equal. by apply edit_waiting_none.
Qed.

Lemma insert_sent_touch id x f w :
  Forall (λ j, has_id id j = false) w → qi_input_id x = id →
  edit_waiting id f (insert_sent x w) = insert_sent (f x) w.
Proof.
  intros Hw Hx%has_id_true. induction Hw as [|y w Hy Hw IH]; cbn;
    [by rewrite edit_waiting_cons, Hx|].
  destruct (qi_sent_now y); rewrite !edit_waiting_cons, ?Hx, Hy; f_equal; [done|].
  f_equal. by apply edit_waiting_none.
Qed.

Lemma insert_before_absent b x w :
  Forall (λ j, has_id b j = false) w → insert_before b x w = w ++ [x].
Proof. induction 1 as [|y w Hy _ IH]; cbn; [done|]. by rewrite Hy, IH. Qed.

(** The ids of a queue only grow, and stay unique. *)
Lemma update_first_ids p f (l : list QueueItem) :
  (∀ i, qi_input_id (f i) = qi_input_id i) →
  qi_input_id <$> update_first p f l = qi_input_id <$> l.
Proof. apply update_first_map. Qed.

Lemma vec_remove_find id l n x :
  position (has_id id) l = Some n → List.find (has_id id) l = Some x →
  x :: vec_remove n l ≡ₚ l.
Proof.
  intros (y & l1 & l2 & -> & <- & Hy & H1)%position_some Hx.
  rewrite find_first in Hx by done. simplify_eq. rewrite vec_remove_app.
  by rewrite <- Permutation_middle.
Qed.

Lemma move_before_perm id b q : iq_items (move_before id b q) ≡ₚ iq_items q.
Proof.
  unfold move_before. destruct (position (has_id id) _) as [n|] eqn:En; [|done].
  destruct (List.find (has_id id) _) as [x|] eqn:Ex; [|done].
  pose proof (vec_remove_find _ _ _ _ En Ex) as Hp. destruct q. cbn in *.
  unfold constant. destruct (if _ || _ then _ else _); (etrans; [|exact Hp]).
  - apply vec_insert_perm.
  - by rewrite <- Permutation_cons_append.
Qed.

Lemma promote_perm id q : iq_items (promote id q) ≡ₚ iq_items q.
Proof.
  unfold promote. destruct (position (has_id id) _) as [n|] eqn:En; [|done].
  destruct (List.find (has_id id) _) as [x|] eqn:Ex; [|done].
  pose proof (vec_remove_find _ _ _ _ En Ex) as Hp. destruct q. cbn in *.
  unfold constant. etrans; [|exact Hp]. apply vec_insert_perm.
Qed.

Lemma wf_perm q q' : iq_items q' ≡ₚ iq_items q → queue_wf q → queue_wf q'.
Proof. unfold queue_wf. by intros ->. Qed.

Lemma wf_update id f q :
  (∀ i, qi_input_id (f i) = qi_input_id i) → queue_wf q → queue_wf (update_queued id f q).
Proof.
  unfold queue_wf, update_queued. destruct q; cbn. intros. by rewrite update_first_ids.
Qed.

Lemma edit_item_id offset t m mo i : qi_input_id (edit_item offset t m mo i) = qi_input_id i.
Proof. unfold edit_item. by destruct (str_is_empty t), m, (str_is_empty mo). Qed.

Lemma edit_item_state offset t m mo i : qi_state (edit_item offset t m mo i) = qi_state i.
Proof. unfold edit_item. by destruct (str_is_empty t), m, (str_is_empty mo). Qed.

Lemma wf_steered offset ids q :
  queue_wf q →
  queue_wf (foldl (λ q id, update_queued id (settle_item offset Dispatched) q) q ids).
Proof. revert q. induction ids as [|id ids IH]; intros q Hq; cbn; [done|]. by apply IH, wf_update. Qed.

#[local] Hint Resolve wf_update edit_item_id wf_steered : modbit.

Lemma queue_wf_apply offset ev q : queue_wf q → queue_wf (InputQueue_apply offset ev q).
Proof.
  intros Hq. destruct ev; try exact Hq; cbn [InputQueue_apply].
  - apply wf_steered. destruct input_ids; [|done].
    unfold queue_wf in *. destruct q. cbn in *. by rewrite update_first_ids.
  - destruct (existsb _ _) eqn:E; [done|]. unfold queue_wf in *. destruct q. cbn in *.
    rewrite fmap_app. apply NoDup_app. split_and!; [done| |apply NoDup_singleton].
    intros x Hx ->%list_elem_of_singleton. apply existsb_false in E.
    apply list_elem_of_fmap in Hx as (i & Hi & Hx). rewrite Forall_forall in E.
    specialize (E _ Hx). by apply has_id_false in E.
  - by destruct (contains_str _ _), (contains_str _ _), q.
  - apply wf_update; auto with modbit.
  - by apply wf_update.
  - destruct (is_some _); [|done]. apply wf_update; [done|].
    eapply wf_perm; [apply move_before_perm|done].
  - destruct (existsb _ _); [done|]. destruct q. cbn. destruct (_ && _); [|done].
    apply wf_update; [done|]. eapply wf_perm; [apply promote_perm|done].
Qed.

Lemma queue_wf_fold log q : queue_wf q → queue_wf (fold_log log q).
Proof.
  revert q. induction log as [|r log IH]; intros q Hq; cbn; [done|]. by apply IH, queue_wf_apply.
Qed.

Lemma queue_wf_new : queue_wf InputQueue_new.
Proof. apply NoDup_nil_2. Qed.

#[local] Hint Resolve queue_wf_apply queue_wf_fold queue_wf_new : modbit.

(** ** The fold refines the abstract queue *)

Lemma min_queued_offset_spec l m :
  min_queued_offset l = Some m ↔
  (∃ i, i ∈ List.filter is_queued l ∧ qi_queued_offset i = m) ∧
  ∀ j, j ∈ List.filter is_queued l → m ≤ qi_queued_offset j.
Proof.
  revert m. induction l as [|i l IH]; intros m; cbn; [set_solver|].
  destruct (is_queued i); [|apply IH]. destruct (min_queued_offset l) as [n|] eqn:E.
  - destruct (proj1 (IH n) eq_refl) as [(k & Hk & Hkn) Hmin]. split.
    + intros [= <-]. split; [|intros j [->|Hj]%elem_of_cons; [lia|specialize (Hmin _ Hj); lia]].
      destruct (Z.min_spec (qi_queued_offset i) n) as [[_ ->]|[_ ->]].
      * exists i. split; [left|done].
      * exists k. split; [by right|done].
    + intros [(k' & Hk' & <-) Hall]. f_equal. apply Z.le_antisymm.
      * apply elem_of_cons in Hk' as [->|Hk']; [lia|]. specialize (Hmin _ Hk'). lia.
      * pose proof (Hall i ltac:(left)). pose proof (Hall k ltac:(by right)). lia.
  - assert (List.filter is_queued l = []) as ->.
    { clear -E. induction l as [|y l IH]; cbn in *; [done|]. destruct (is_queued y); [done|auto]. }
    set_solver.
Qed.

Lemma oldest_queued_spec l i :
  i ∈ l → oldest_queued l i =
    is_queued i && forallb (λ j, qi_queued_offset i <=? qi_queued_offset j)
                     (List.filter is_queued l).
Proof.
  intros Hi. unfold oldest_queued. destruct (is_queued i) eqn:Hq; [|done]. cbn.
  apply eq_bool_prop_intro. rewrite bool_decide_spec, min_queued_offset_spec, Is_true_true, forallb_true.
  split.
  - intros [_ H] j Hj. apply Z.leb_le. auto.
  - intros H. split; [|intros j Hj; by apply Z.leb_le, H]. exists i. split; [|done].
    by apply elem_of_list_filter_bool.
Qed.

Lemma update_first_ext {A} (p p' : A → bool) f l :
  (∀ i, i ∈ l → p i = p' i) → update_first p f l = update_first p' f l.
Proof.
  induction l as [|y l IH]; intros H; cbn; [done|]. rewrite H by left.
  destruct (p' y); [done|]. f_equal. apply IH. intros. apply H. by right.
Qed.

(** The legacy steer settles the input the abstract queue calls the oldest. *)
Lemma queue_of_oldest offset q :
  queue_wf q →
  queue_of { q with iq_items ::= λ l,
               update_first (oldest_queued l) (settle_item offset Dispatched) l } =
  match oldest (pending q) with
  | Some id => settle offset Dispatched id (queue_of q)
  | None => queue_of q
  end.
Proof.
  intros Hwf.
  set (old i := forallb (λ j, qi_queued_offset i <=? qi_queued_offset j) (pending q)).
  assert (update_first (oldest_queued (iq_items q)) (settle_item offset Dispatched) (iq_items q) =
    update_first (λ i, is_queued i && old i) (settle_item offset Dispatched) (iq_items q)) as Hu
    by (apply update_first_ext, oldest_queued_spec).
  unfold oldest. change (List.find _ (pending q)) with (List.find old (pending q)).
  assert (List.find (λ i, is_queued i && old i) (iq_items q) = List.find old (pending q)) as Hf.
  { unfold pending. clearbody old. clear. induction (iq_items q) as [|y l IH]; cbn; [done|].
    destruct (is_queued y); cbn; [|done]. by destruct (old y). }
  clearbody old. destruct (List.find old (pending q)) as [x|] eqn:Ex; cbn [fmap option_fmap option_map].
  - rewrite <- queue_of_settle by done. unfold update_queued. destruct q as [l ? ? ?]. cbn in *.
    rewrite Hu. f_equal. f_equal.
    apply find_some_iff in Hf as (l1 & l2 & -> & Hx & H1).
    rewrite update_first_at by done. apply andb_true_iff in Hx as [Hx _].
    destruct (split_unique _ _ _ _ Hwf eq_refl) as [H1' _].
    rewrite update_first_at; [done| |].
    + eapply forall_weaken; [apply has_id_queued_id|done].
    + rewrite queued_id_false by done. by apply has_id_true.
  - destruct q as [l ? ? ?]. cbn in *. rewrite Hu, update_first_none; [done|].
    by apply find_none_forall.
Qed.

(** A move of the waiting input [id], then a write to it. *)
Lemma queue_of_move id b f q x :
  queue_wf q → (∀ i, qi_state (f i) = qi_state i) → queued_mut id q = Some x →
  queue_of (update_queued id f (move_before id b q)) =
    { queue_of q with waiting := if b =s "" then without id (pending q) ++ [f x]
                                 else insert_before b (f x) (without id (pending q)) }.
Proof.
  intros Hwf Hf Hx. rewrite queue_of_update; [|eapply wf_perm; [apply move_before_perm|done]|done].
  destruct (queued_split id q Hwf) as
    [(Hn & _)|(l1 & y & l2 & Hl & Hy & Hyq & H1 & H2 & Hm & Hp & Hw)]; [congruence|].
  rewrite Hm in Hx. injection Hx as <-. rewrite Hw.
  assert (Forall (λ j, has_id id j = false) (List.filter is_queued (l1 ++ l2))) as H12
    by (apply forall_pending, Forall_app; done).
  unfold move_before. rewrite Hl, position_first, find_first, vec_remove_app
    by first [done | by apply has_id_true].
  unfold queue_of, pending. destruct q as [items ? ? ?]. cbn in *. subst items.
  destruct (pending_place b y (l1 ++ l2) Hyq) as [Hpw Hps].
  destruct (String.eqb_spec b "") as [->|Hb]; cbn.
  - unfold constant. rewrite List.filter_app, settled_of_queued by done. cbn. rewrite Hyq, app_nil_r.
    rewrite (settled_of_queued l1 y l2) by done. f_equal.
    by apply edit_waiting_at.
  - destruct (String.eqb_spec b id) as [->|Hbi]; cbn.
    + unfold constant. rewrite List.filter_app, settled_of_queued by done. cbn.
      rewrite Hyq, app_nil_r, (settled_of_queued l1 y l2) by done. f_equal.
      rewrite insert_before_absent by done. by apply edit_waiting_at.
    + unfold constant. rewrite Hpw, Hps, (settled_of_queued l1 y l2) by done. f_equal.
      by apply insert_before_touch.
Qed.

Lemma queue_of_promote id f q x :
  queue_wf q → (∀ i, qi_state (f i) = qi_state i) → queued_mut id q = Some x →
  queue_of (update_queued id f (promote id q)) =
    { queue_of q with waiting := insert_sent (f x) (without id (pending q)) }.
Proof.
  intros Hwf Hf Hx. rewrite queue_of_update; [|eapply wf_perm; [apply promote_perm|done]|done].
  destruct (queued_split id q Hwf) as
    [(Hn & _)|(l1 & y & l2 & Hl & Hy & Hyq & H1 & H2 & Hm & Hp & Hw)]; [congruence|].
  rewrite Hm in Hx. injection Hx as <-. rewrite Hw.
  assert (Forall (λ j, has_id id j = false) (List.filter is_queued (l1 ++ l2))) as H12
    by (apply forall_pending, Forall_app; done).
  unfold promote. rewrite Hl, position_first, find_first, vec_remove_app
    by first [done | by apply has_id_true].
  unfold queue_of, pending. destruct q as [items ? ? ?]. cbn in *. subst items.
  destruct (pending_promote y (l1 ++ l2) Hyq) as [Hpw Hps]. cbn in *. unfold constant.
  rewrite Hpw, Hps, (settled_of_queued l1 y l2) by done. f_equal. by apply insert_sent_touch.
Qed.

Lemma queued_mut_pending id q :
  queue_wf q → queued_mut id q = List.find (has_id id) (pending q).
Proof.
  intros Hwf. destruct (queued_split id q Hwf) as
    [(-> & _ & ->)|(l1 & x & l2 & _ & _ & _ & _ & _ & -> & -> & _)]; done.
Qed.

Lemma known_items id q : existsb (has_id id) (iq_items q) = known (queue_of q) id.
Proof.
  unfold known, queue_of, pending, settled_of. cbn. induction (iq_items q) as [|y l IH]; cbn; [done|].
  rewrite IH. destruct (is_queued y); cbn; [by rewrite orb_assoc|].
  destruct (has_id id y) eqn:E; cbn; [apply has_id_true in E|apply has_id_false in E].
  - rewrite E, lookup_insert_eq. rewrite bool_decide_true by eauto. by rewrite orb_true_r.
  - by rewrite lookup_insert_ne.
Qed.

Lemma queue_of_steered offset ids q :
  queue_wf q →
  queue_of (foldl (λ q id, update_queued id (settle_item offset Dispatched) q) q ids) =
  foldl (λ s id, settle offset Dispatched id s) (queue_of q) ids.
Proof.
  revert q. induction ids as [|id ids IH]; intros q Hq; cbn [foldl]; [done|].
  rewrite IH by by apply wf_update. by rewrite queue_of_settle.
Qed.

Lemma queue_step_refines offset ev q :
  queue_wf q → queue_of (InputQueue_apply offset ev q) = queue_step offset ev (queue_of q).
Proof.
  intros Hq. destruct ev; try reflexivity; cbn [InputQueue_apply queue_step].
  - destruct input_ids as [|id ids]; [by apply queue_of_oldest|]. by apply queue_of_steered.
  - rewrite <- known_items. destruct (existsb _ _); [done|].
    unfold queue_of, pending. destruct q. cbn. rewrite List.filter_app. f_equal.
    rewrite settled_of_queued by done. by rewrite app_nil_r.
  - by destruct (contains_str _ _), (contains_str _ _).
  - apply queue_of_update; [done|]. intros i. apply edit_item_state.
  - by apply queue_of_settle.
  - cbn [waiting queue_of]. rewrite <- queued_mut_pending by done.
    destruct (queued_mut input_id q) as [x|] eqn:Ex; cbn [is_some]; [|done].
    by erewrite queue_of_move.
  - change (interrupts (queue_of q)) with (iq_interrupts q). destruct (existsb _ _); [done|].
    change (waiting _) with (pending q).
    rewrite <- queued_mut_pending by done.
    set (q' := { q with iq_interrupts ::= _ }). change (queued_mut input_id q) with (queued_mut input_id q').
    destruct (queued_mut input_id q') as [x|] eqn:Ex; cbn [is_some]; [|by rewrite andb_false_r].
    rewrite andb_true_r. destruct (kind =s "SEND_NOW"); [|done].
    by erewrite queue_of_promote.
Qed.

Lemma queue_of_fold log q :
  queue_wf q →
  queue_of (fold_log log q) = foldl (λ s r, queue_step r.1 r.2 s) (queue_of q) log.
Proof.
  revert q. induction log as [|r log IH]; intros q Hq; [done|].
  cbn [foldl]. rewrite <- queue_step_refines by done. apply IH. auto with modbit.
Qed.

(** C37: the queue is the abstract one. Folding any log of a task gives exactly
    the queue that the meaning of its records gives: inputs wait in order and
    once per id, an edit changes a waiting input, a removal and a dispatch take
    it out for good, a move puts it before a waiting one or last, Send now puts
    it before every input that was not sent, a steer without ids takes the
    oldest, and a record about an input that no longer waits changes nothing. *)
Theorem input_queue_refines log :
  queue_of (fold_log log InputQueue_new) =
  foldl (λ s r, queue_step r.1 r.2 s) empty_queue log.
Proof.
  exact (queue_of_fold log InputQueue_new queue_wf_new).
Qed.

(** ** Inputs are settled once *)

(** A record [ev] settles the input [i]. *)
Definition settles (ev : TaskEvent) (i : QueueItem) : Prop :=
  match qi_state i with
  | Queued => False
  | Dispatched => ∃ t p u ids, ev = TaskSteered t p u ids ∧ (ids = [] ∨ qi_input_id i ∈ ids)
  | Removed => ∃ r, ev = TaskInputRemoved (qi_input_id i) r
  end.

Lemma elem_of_pending i q : i ∈ pending q ↔ i ∈ iq_items q ∧ is_queued i = true.
Proof. unfold pending. rewrite elem_of_list_filter_bool. naive_solver. Qed.

(** A write to a waiting input: what is in the list afterwards. *)
Lemma elem_of_update_first p f (l : list QueueItem) i :
  (∀ x, p x = true → is_queued x = true) → i ∈ update_first p f l →
  i ∈ l ∨ ∃ x, x ∈ l ∧ is_queued x = true ∧ p x = true ∧ i = f x.
Proof.
  intros Hp Hi. destruct (update_first_split p f l) as [[E _]|(l1 & x & l2 & -> & Hx & _ & E)];
    rewrite E in Hi; [by left|].
  apply elem_of_app in Hi as [Hi|[->|Hi]%elem_of_cons]; [left; set_solver| |left; set_solver].
  right. exists x. split_and!; auto. set_solver.
Qed.

Lemma update_first_keeps p f (l : list QueueItem) i :
  (∀ x, p x = true → is_queued x = true) → i ∈ l → is_queued i = false →
  i ∈ update_first p f l.
Proof.
  intros Hp Hi Hn. destruct (update_first_split p f l) as [[-> _]|(l1 & x & l2 & -> & Hx & _ & ->)]; [done|].
  apply elem_of_app in Hi as [Hi|[->|Hi]%elem_of_cons]; [set_solver| |set_solver].
  by rewrite Hp in Hn.
Qed.

Lemma queued_id_queued id x : queued_id id x = true → is_queued x = true.
Proof. unfold queued_id. intros H. by apply andb_true_iff in H as [_ H]. Qed.

Lemma oldest_queued_queued l x : oldest_queued l x = true → is_queued x = true.
Proof. unfold oldest_queued. intros H. by apply andb_true_iff in H as [H _]. Qed.

#[local] Hint Resolve queued_id_queued oldest_queued_queued : modbit.

Lemma update_queued_keeps id f q i :
  i ∈ iq_items q → is_queued i = false → i ∈ iq_items (update_queued id f q).
Proof. destruct q; cbn. intros. apply update_first_keeps; eauto with modbit. Qed.

(** What settled stays as it is. *)
Lemma settled_stays offset ev q i :
  i ∈ iq_items q → is_queued i = false → i ∈ iq_items (InputQueue_apply offset ev q).
Proof.
  intros Hi Hn. destruct ev; try exact Hi; cbn [InputQueue_apply].
  - assert (∀ q, i ∈ iq_items q → i ∈ iq_items
      (foldl (λ q id, update_queued id (settle_item offset Dispatched) q) q input_ids)) as Hf.
    { clear -Hn. induction input_ids as [|id ids IH]; intros q Hi; cbn [foldl]; [done|].
      apply IH. by apply update_queued_keeps. }
    apply Hf. destruct input_ids; [|done]. destruct q. cbn in *.
    apply update_first_keeps; eauto with modbit.
  - destruct (existsb _ _); [done|]. destruct q. cbn in *. apply elem_of_app. by left.
  - by destruct (contains_str _ _), (contains_str _ _), q.
  - by apply update_queued_keeps.
  - by apply update_queued_keeps.
  - destruct (is_some _); [|done]. apply update_queued_keeps; [|done]. by rewrite move_before_perm.
  - destruct (existsb _ _); [done|]. destruct (_ && _); [|by destruct q].
    apply update_queued_keeps; [|done]. by rewrite promote_perm; destruct q.
Qed.

(** What is settled after a record was settled before it, or was waiting and
    the record settled it. *)
Definition newly_settled (offset : Z) (ev : TaskEvent) (q : InputQueue) (i : QueueItem) : Prop :=
  ∃ j, j ∈ pending q ∧ i = settle_item offset (qi_state i) j ∧ settles ev i.

Lemma update_queued_waiting id f q i :
  (∀ x, qi_state (f x) = qi_state x) → i ∈ iq_items (update_queued id f q) →
  is_queued i = false → i ∈ iq_items q.
Proof.
  intros Hf Hi Hn. destruct q; cbn in *.
  apply elem_of_update_first in Hi as [?|(x & _ & Hx & _ & ->)]; [done| |eauto with modbit].
  unfold is_queued in *. by rewrite Hf, Hx in Hn.
Qed.

Lemma update_queued_settle id offset st q i :
  i ∈ iq_items (update_queued id (settle_item offset st) q) →
  i ∈ iq_items q ∨ ∃ j, j ∈ pending q ∧ qi_input_id j = id ∧ i = settle_item offset st j.
Proof.
  intros Hi. unfold pending. destruct q; cbn in *.
  apply elem_of_update_first in Hi as [?|(x & Hx & Hq & Hp & ->)]; [by left| |eauto with modbit].
  right. exists x. split_and!; [by apply elem_of_list_filter_bool| |done].
  apply andb_true_iff in Hp as [Hp _]. by apply has_id_true.
Qed.

Lemma steered_settles offset ids q i :
  i ∈ iq_items (foldl (λ q id, update_queued id (settle_item offset Dispatched) q) q ids) →
  i ∈ iq_items q ∨
  ∃ j, j ∈ pending q ∧ qi_input_id j ∈ ids ∧ i = settle_item offset Dispatched j.
Proof.
  revert q. induction ids as [|id ids IH]; intros q Hi; cbn [foldl] in Hi; [by left|].
  destruct (IH _ Hi) as [Hq|(j & Hj & Hid & ->)].
  - apply update_queued_settle in Hq as [?|(j & ? & <- & ->)]; [by left|].
    right. exists j. split_and!; [done|left|done].
  - apply elem_of_pending in Hj as [Hj Hjq].
    apply update_queued_settle in Hj as [Hj|(k & _ & _ & ->)]; [|done].
    right. exists j. split_and!; [by apply elem_of_pending|by right|done].
Qed.

Lemma settled_comes offset ev q i :
  i ∈ iq_items (InputQueue_apply offset ev q) → is_queued i = false →
  i ∈ iq_items q ∨ newly_settled offset ev q i.
Proof.
  intros Hi Hn. destruct ev; try (left; exact Hi); cbn [InputQueue_apply] in Hi.
  - apply steered_settles in Hi as [Hi|(j & Hj & Hid & ->)].
    + destruct input_ids; [|by left]. unfold newly_settled, pending. destruct q; cbn in *.
      apply elem_of_update_first in Hi as [?|(x & Hx & Hq & _ & ->)]; [by left| |eauto with modbit].
      right. exists x. split_and!; [by apply elem_of_list_filter_bool|done|].
      unfold settles, settle_item. cbn. eauto 10.
    + destruct input_ids; [by apply elem_of_nil in Hid|].
      right. exists j. split_and!; [done..|]. unfold settles, settle_item. cbn. eauto 10.
  - left. destruct (existsb _ _); [done|]. destruct q; cbn in *.
    by apply elem_of_app in Hi as [?| ->%list_elem_of_singleton].
  - left. by destruct (contains_str _ _), (contains_str _ _), q.
  - left. eapply update_queued_waiting; [|done..]. intros x. apply edit_item_state.
  - apply update_queued_settle in Hi as [?|(j & Hj & <- & ->)]; [by left|].
    right. exists j. split_and!; [done..|]. unfold settles, settle_item. cbn. eauto.
  - left. destruct (is_some _); [|done]. eapply update_queued_waiting in Hi; [|done..].
    by rewrite move_before_perm in Hi.
  - left. destruct (existsb _ _); [done|]. destruct (_ && _); [|by destruct q].
    eapply update_queued_waiting in Hi; [|done..]. by rewrite promote_perm in Hi; destruct q.
Qed.

Lemma get_unique q i : queue_wf q → i ∈ iq_items q → InputQueue_get (qi_input_id i) q = Some i.
Proof.
  intros Hq (l1 & l2 & Hl)%list_elem_of_split. unfold InputQueue_get, queue_wf in *. rewrite Hl in *.
  apply find_first; [|by apply has_id_true]. by destruct (split_unique _ _ _ _ Hq eq_refl).
Qed.

(** An input is dispatched or removed once, by the record that says so. Every
    settled input of a folded log was waiting when one record of the log, a
    steer naming it (or naming none) or its removal, settled it; it is that
    waiting input with its new state and the record's offset, so it was
    dispatched with the text its last edit gave it; and no later record of any
    log changes anything of it. *)
Theorem input_settled_once log i :
  i ∈ iq_items (fold_log log InputQueue_new) → qi_state i ≠ Queued →
  (∃ pre offset ev post j, log = pre ++ (offset, ev) :: post ∧
     j ∈ pending (fold_log pre InputQueue_new) ∧
     i = settle_item offset (qi_state i) j ∧ settles ev i) ∧
  ∀ later, InputQueue_get (qi_input_id i) (fold_log (log ++ later) InputQueue_new) = Some i.
Proof.
  intros Hi Hn. assert (is_queued i = false) as Hq by by apply bool_decide_eq_false. split.
  - revert i Hi Hn Hq. induction log as [|[offset ev] log IH] using rev_ind; intros i Hi Hn Hq.
    { by apply elem_of_nil in Hi. }
    unfold fold_log in Hi. rewrite foldl_app in Hi. cbn [foldl] in Hi.
    apply settled_comes in Hi as [Hi|(j & Hj & Hij & Hs)]; [| |done].
    + destruct (IH _ Hi Hn Hq) as (pre & o & e & post & j & -> & ?).
      exists pre, o, e, (post ++ [(offset, ev)]), j. by rewrite <- app_assoc.
    + exists log, offset, ev, [], j. done.
  - intros later. apply get_unique; [auto with modbit|].
    induction later as [|[offset ev] later IH] using rev_ind; [by rewrite app_nil_r|].
    rewrite app_assoc. unfold fold_log in *. rewrite foldl_app. cbn [foldl]. by apply settled_stays.
Qed.

(** ** Dispatch order *)

(** The waiting inputs of a log without reorders: the sent ones first, the
    others behind them in the order they were queued. *)
Definition in_dispatch_order (limit : Z) (w : list QueueItem) : Prop :=
  ∃ sent rest, w = sent ++ rest ∧
    Forall (λ i, qi_sent_now i = true) sent ∧ Forall (λ i, qi_sent_now i = false) rest ∧
    StronglySorted (λ a b, qi_queued_offset a < qi_queued_offset b) rest ∧
    Forall (λ i, qi_queued_offset i < limit) rest.

(** Writes that keep an input's place. *)
Lemma order_map limit f w :
  (∀ i, qi_sent_now (f i) = qi_sent_now i) →
  (∀ i, qi_queued_offset (f i) = qi_queued_offset i) →
  in_dispatch_order limit w → in_dispatch_order limit (f <$> w).
Proof.
  intros Hs Ho (sent & rest & -> & H1 & H2 & H3 & H4). exists (f <$> sent), (f <$> rest).
  rewrite fmap_app, !Forall_fmap. split_and!; [done| | | |].
  - eapply Forall_impl; [exact H1|]. intros i. cbn. by rewrite Hs.
  - eapply Forall_impl; [exact H2|]. intros i. cbn. by rewrite Hs.
  - clear -H3 Ho. induction H3 as [|y l _ IH Hy]; cbn; constructor; [done|].
    apply Forall_fmap. eapply Forall_impl; [exact Hy|]. intros i. cbn. by rewrite !Ho.
  - eapply Forall_impl; [exact H4|]. intros i. cbn. by rewrite Ho.
Qed.

Lemma StronglySorted_filter_bool {A} (R : A → A → Prop) (p : A → bool) l :
  StronglySorted R l → StronglySorted R (List.filter p l).
Proof.
  induction 1 as [|y l _ IH Hy]; cbn; [constructor|]. destruct (p y); [|done].
  constructor; [done|]. rewrite Forall_forall in *. intros z [Hz _]%elem_of_list_filter_bool. auto.
Qed.

Lemma order_filter limit p w :
  in_dispatch_order limit w → in_dispatch_order limit (List.filter p w).
Proof.
  intros (sent & rest & -> & H1 & H2 & H3 & H4).
  exists (List.filter p sent), (List.filter p rest).
  assert (∀ P (l : list QueueItem), Forall P l → Forall P (List.filter p l)) as Hf.
  { intros P l. rewrite !Forall_forall. intros H x [Hx _]%elem_of_list_filter_bool. auto. }
  rewrite List.filter_app. split_and!; auto using StronglySorted_filter_bool.
Qed.

Lemma order_weaken limit limit' w :
  limit ≤ limit' → in_dispatch_order limit w → in_dispatch_order limit' w.
Proof.
  intros Hl (sent & rest & -> & H1 & H2 & H3 & H4). exists sent, rest. split_and!; try done.
  eapply Forall_impl; [exact H4|]. intros i. cbn. lia.
Qed.

Lemma order_sent limit x w :
  qi_sent_now x = true → in_dispatch_order limit w → in_dispatch_order limit (insert_sent x w).
Proof.
  intros Hx (sent & rest & -> & H1 & H2 & H3 & H4). exists (sent ++ [x]), rest.
  split_and!; try done; [|by apply Forall_app_2; [|apply Forall_singleton]].
  induction H1 as [|y sent Hy _ IH]; cbn.
  - destruct rest as [|y rest]; [done|]. cbn. apply Forall_cons in H2 as [Hy _]. by rewrite Hy.
  - rewrite Hy. f_equal. exact IH.
Qed.

Lemma settle_order limit offset st id s :
  in_dispatch_order limit (waiting s) → in_dispatch_order limit (waiting (settle offset st id s)).
Proof. unfold settle. intros H. destruct (List.find _ _); [|done]. by apply order_filter. Qed.

Definition not_reorder (ev : TaskEvent) : bool :=
  match ev with TaskInputReordered _ _ => false | _ => true end.

Lemma order_step limit offset ev s :
  limit ≤ offset → not_reorder ev = true →
  in_dispatch_order limit (waiting s) →
  in_dispatch_order (offset + 1) (waiting (queue_step offset ev s)).
Proof.
  intros Hl Hr Hlim. assert (in_dispatch_order (offset + 1) (waiting s)) as Ho
    by (eapply order_weaken; [|done]; lia).
  destruct ev; try exact Ho; try discriminate Hr; cbn [queue_step].
  - destruct input_ids as [|id ids].
    + destruct (oldest _); [|done]. by apply settle_order.
    + generalize (id :: ids). clear -Ho. intros l. revert s Ho.
      induction l as [|x l IH]; intros s Ho; cbn [foldl]; [done|]. by apply IH, settle_order.
  - destruct (known _ _); [done|]. destruct Hlim as (sent & rest & Hw & H1 & H2 & H3 & H4).
    exists sent, (rest ++ [{| qi_input_id := input_id; qi_mode := mode; qi_text := text;
      qi_provenance := provenance; qi_untrusted := untrusted; qi_model := "";
      qi_state := Queued; qi_edited := false; qi_sent_now := false;
      qi_queued_offset := offset; qi_changed_offset := offset |}]).
    destruct s as [w ? ?]. cbn in *. subst w. unfold constant. rewrite <- app_assoc.
    split_and!; [done..|by apply Forall_app_2; [|apply Forall_singleton]| |].
    + apply StronglySorted_app. split_and!; [|done|repeat constructor].
      intros y z Hy ->%list_elem_of_singleton. cbn. rewrite Forall_forall in H4.
      specialize (H4 _ Hy). lia.
    + apply Forall_app_2; [|apply Forall_singleton; cbn; lia].
      eapply Forall_impl; [exact H4|]. intros i. cbn. lia.
  - apply order_map; [..|done]; intros i; destruct (has_id _ i); try done;
      unfold edit_item; by destruct (str_is_empty text), mode, (str_is_empty model).
  - by apply settle_order.
  - destruct (existsb _ _); [done|]. destruct (List.find _ _); [|done].
    destruct (kind =s "SEND_NOW"); [|done]. by apply order_sent; [|apply order_filter].
Qed.

(** In a log without reorders, whose offsets grow, the waiting inputs are
    dispatched in the promised order: those sent now first, then the others in
    the order they were queued. *)
Theorem dispatch_order log :
  StronglySorted (λ a b, a.1 < b.1) log →
  Forall (λ r, not_reorder r.2 = true) log →
  ∃ limit, in_dispatch_order limit (pending (fold_log log InputQueue_new)).
Proof.
  intros Hs Hr.
  change (pending ?q) with (waiting (queue_of q)).
  rewrite queue_of_fold by apply queue_wf_new.
  assert (∃ limit, in_dispatch_order limit (waiting (queue_of InputQueue_new)) ∧
    Forall (λ r, limit ≤ r.1) log) as (limit & Ho & Hl).
  { exists (match log with [] => 0 | r :: _ => r.1 end). split.
    - exists [], []. split_and!; done || constructor.
    - destruct log as [|r log]; [done|]. inv Hs. constructor; [lia|].
      eapply Forall_impl; [done|]. cbn. lia. }
  revert limit Ho Hl. generalize (queue_of InputQueue_new).
  induction log as [|r log IH]; intros s limit Ho Hl; [by exists limit|].
  apply StronglySorted_cons in Hs as [Hb Hs]. apply Forall_cons in Hr as [Hr1 Hr].
  apply Forall_cons in Hl as [Hl1 _]. cbn [foldl]. apply (IH Hs Hr _ (r.1 + 1)).
  - by eapply order_step.
  - eapply Forall_impl; [exact Hb|]. cbn. lia.
Qed.

(** ** Examples *)

Definition queue_log : list (Z * TaskEvent) :=
  [ (1, TaskInputQueued "a" FollowUp "first" "" false);
    (2, TaskInputQueued "b" Collect "second" "" false);
    (3, TaskInputQueued "c" Steer "third" "" false);
    (4, TaskInputEdited "b" "second, edited" None "");
    (5, TaskInterruptRequested "i" "SEND_NOW" "c" "");
    (6, TaskSteered "" "" false ["c"; "b"]);
    (7, TaskInputEdited "b" "too late" None "") ].

Lemma input_settled_once_witness :
  ∃ i, InputQueue_get "b" (fold_log (queue_log ++ [(8, TaskInputRemoved "b" "")]) InputQueue_new) = Some i ∧
    qi_state i = Dispatched ∧ qi_text i = "second, edited".
Proof.
  set (i := {| qi_input_id := "b"; qi_mode := Collect; qi_text := "second, edited";
    qi_provenance := ""; qi_untrusted := false; qi_model := ""; qi_state := Dispatched;
    qi_edited := true; qi_sent_now := false; qi_queued_offset := 2; qi_changed_offset := 6 |}).
  exists i. split; [|split; reflexivity].
  refine (proj2 (input_settled_once queue_log i _ _) [(8, TaskInputRemoved "b" "")]); [|discriminate].
  apply list_elem_of_In. vm_compute. auto.
Defined.

Lemma dispatch_order_witness :
  ∃ limit, in_dispatch_order limit (pending (fold_log (take 5 queue_log) InputQueue_new)) ∧
    qi_input_id <$> pending (fold_log (take 5 queue_log) InputQueue_new) = ["c"; "a"; "b"].
Proof.
  destruct (dispatch_order (take 5 queue_log)) as (limit & H).
  - repeat constructor.
  - repeat constructor.
  - exists limit. split; [exact H|reflexivity].
Defined.
