(* ===== verification/Denials.v ===== *)
(** * The watch over refusals

    [crates/core-runtime/src/denials.rs]: what a refusal tells the model, and the
    fold over a task's events that parks a task which keeps being refused. *)

From S2P Require Import Prelude RustStr External.
#[local] Open Scope Z_scope.

Definition STREAK_LIMIT : Z := 3.
Definition WINDOW : nat := 50.
Definition WINDOW_LIMIT : nat := 10.
Definition DENIAL_STREAK : string := "DENIAL_STREAK".

Definition NO_DETOUR : string :=
  "Do not reach the same effect by another route (a different command, tool, path or wrapper). Continue only with a materially safer alternative that needs no further permission; otherwise stop and ask the user what to do.".

Definition guidance (code : string) : string :=
  if code =s "APPROVAL_DENIED" then "The user refused this effect. " +:+ NO_DETOUR
  else if code =s "APPROVAL_EXPIRED" then
    "No one answered in time. That is not a refusal and says nothing about whether the effect is safe or unsafe. Ask again only if the effect is still needed. " +:+ NO_DETOUR
  else if code =s "HOOK_DENIED" then "A configured hook refused this call. " +:+ NO_DETOUR
  else "Policy refused this call. " +:+ NO_DETOUR.

Inductive Trip :=
  | Streak (n : Z)
  | Window (denied of_ : nat).

Definition Trip_reason (t : Trip) : string :=
  match t with
  | Streak n => pretty n +:+ " tool calls in a row were refused; the task is parked so you can look at what the agent is attempting. Resume with StartTask, after steering it or changing the run mode or rules"
  | Window denied of_ => pretty (Z.of_nat denied) +:+ " of the last " +:+ pretty (Z.of_nat of_) +:+ " tool results were refusals; the task is parked so you can look at what the agent is attempting. Resume with StartTask, after steering it or changing the run mode or rules"
  end.

Record DenialWatch := {
  dw_consecutive : Z;
  dw_window : list bool
}.

Definition DenialWatch_default : DenialWatch := {| dw_consecutive := 0; dw_window := [] |}.

(** [while window.len() > WINDOW { window.pop_front() }]. *)
Fixpoint pop_to_window (w : list bool) : list bool :=
  match w with
  | [] => []
  | _ :: w' => if Nat.ltb WINDOW (length w) then pop_to_window w' else w
  end.

(** [DenialWatch::observe]. *)
Definition observe (denied : bool) (w : DenialWatch) : DenialWatch :=
  {| dw_consecutive := if denied then wrap32 (dw_consecutive w + 1) else 0;
     dw_window := pop_to_window (dw_window w ++ [denied]) |}.

(** [DenialWatch::trip]. *)
Definition trip (w : DenialWatch) : option Trip :=
  if STREAK_LIMIT <=? dw_consecutive w then Some (Streak (dw_consecutive w))
  else
    let denied := length (List.filter id (dw_window w)) in
    if Nat.leb WINDOW_LIMIT denied then Some (Window denied (length (dw_window w))) else None.

Section events.
Context {J : Json}.

(** [DenialWatch::observe_event]. *)
Definition observe_event (event_type : string) (payload : Value) (w : DenialWatch)
    : DenialWatch :=
  if (event_type =s "ToolCallPolicyDecision") &&
     bool_decide (json_get payload "allowed" ≫= as_bool = Some false) &&
     negb (bool_decide (json_get payload "approval_required" ≫= as_bool = Some true))
  then observe true w
  else if event_type =s "ToolCallFailed" then
    observe (match json_get payload "failure_code" ≫= as_str with
             | Some c => (c =s "APPROVAL_DENIED") || (c =s "APPROVAL_EXPIRED")
             | None => false
             end) w
  else if event_type =s "ToolCallSucceeded" then observe false w
  else if (event_type =s "TaskNeedsAttention") &&
          bool_decide ((json_get payload "diagnostic" ≫= λ d, json_get d "code") ≫= as_str =
                       Some DENIAL_STREAK)
  then DenialWatch_default
  else w.

Definition fold_events (log : list (string * Value)) (w : DenialWatch) : DenialWatch :=
  foldl (λ w e, observe_event e.1 e.2 w) w log.

(** ** What the watch counts *)

(** The result an event stands for, if it is one: refused or not. *)
Definition result_of (e : string * Value) : option bool :=
  if e.1 =s "ToolCallPolicyDecision" then
    if bool_decide (json_get e.2 "allowed" ≫= as_bool = Some false) &&
       negb (bool_decide (json_get e.2 "approval_required" ≫= as_bool = Some true))
    then Some true else None
  else if e.1 =s "ToolCallFailed" then
    Some (bool_decide (json_get e.2 "failure_code" ≫= as_str = Some "APPROVAL_DENIED" ∨
                       json_get e.2 "failure_code" ≫= as_str = Some "APPROVAL_EXPIRED"))
  else if e.1 =s "ToolCallSucceeded" then Some false
  else None.

(** The notice that parks a task for its refusals. *)
Definition is_park (e : string * Value) : bool :=
  (e.1 =s "TaskNeedsAttention") &&
  bool_decide ((json_get e.2 "diagnostic" ≫= λ d, json_get d "code") ≫= as_str =
               Some DENIAL_STREAK).

(** The results of a log since the task was last parked. *)
Fixpoint results (log : list (string * Value)) : list bool :=
  match log with
  | [] => []
  | e :: log' =>
      if existsb is_park log' then results log'
      else (if is_park e then [] else option_list (result_of e)) ++ omap result_of log'
  end.

(** How many refusals end a list of results. *)
Definition trailing (l : list bool) : nat :=
  default (length l) (position negb (reverse l)).

Lemma results_snoc log e :
  results (log ++ [e]) =
    if is_park e then [] else results log ++ option_list (result_of e).
Proof.
  induction log as [|x log IH]; cbn.
  - destruct (is_park e); [done|]. by rewrite app_nil_r.
  - rewrite existsb_app. cbn. rewrite IH, orb_false_r. destruct (is_park e) eqn:E.
    + by rewrite orb_true_r.
    + rewrite orb_false_r. destruct (existsb is_park log); [done|].
      rewrite omap_app. cbn. by rewrite <- app_assoc.
Qed.

Lemma pop_to_window_drop w : pop_to_window w = drop (length w - WINDOW) w.
Proof.
  induction w as [|b w IH]; [done|]. cbn [pop_to_window].
  destruct (Nat.ltb_spec WINDOW (length (b :: w))) as [Hlt|Hge].
  - rewrite IH. cbn [length] in *. by replace (S (length w) - WINDOW)%nat with (S (length w - WINDOW)) by lia.
  - by replace (length (b :: w) - WINDOW)%nat with O by lia.
Qed.

(** [observe_event] seen through [result_of]. *)
Lemma observe_event_spec e w :
  observe_event e.1 e.2 w =
    if is_park e then DenialWatch_default
    else match result_of e with Some d => observe d w | None => w end.
Proof.
  unfold observe_event, is_park, result_of. destruct e as [t v]; cbn.
  destruct (String.eqb_spec t "ToolCallPolicyDecision") as [->|H1]; cbn.
  { by destruct (_ && _). }
  destruct (String.eqb_spec t "ToolCallFailed") as [->|H2]; cbn.
  { f_equal. destruct (json_get v "failure_code" ≫= as_str) as [c|].
    - destruct (String.eqb_spec c "APPROVAL_DENIED"), (String.eqb_spec c "APPROVAL_EXPIRED");
        cbn; symmetry; first [apply bool_decide_eq_true | apply bool_decide_eq_false]; naive_solver.
    - symmetry. apply bool_decide_eq_false. naive_solver. }
  destruct (String.eqb_spec t "ToolCallSucceeded") as [->|H3]; cbn; [done|].
  by destruct (String.eqb_spec t "TaskNeedsAttention") as [->|H4]; cbn.
Qed.

Lemma trailing_snoc l d : trailing (l ++ [d]) = if d then S (trailing l) else O.
Proof.
  unfold trailing. rewrite reverse_snoc. cbn. destruct d; cbn; [|done].
  destruct (position negb (reverse l)); cbn; [done|]. rewrite length_app. cbn. lia.
Qed.

(** The state of the watch after a list of results. *)
Definition watch_of (l : list bool) : DenialWatch :=
  {| dw_consecutive := wrap32 (Z.of_nat (trailing l));
     dw_window := drop (length l - WINDOW) l |}.

Lemma observe_watch_of d l : observe d (watch_of l) = watch_of (l ++ [d]).
Proof.
  unfold observe, watch_of. cbn. rewrite trailing_snoc. f_equal.
  - destruct d; [|done]. unfold wrap32. rewrite Zplus_mod_idemp_l. f_equal. lia.
  - rewrite pop_to_window_drop, !length_app, length_drop. cbn [length].
    rewrite <- drop_app_le by lia. rewrite drop_drop. f_equal. lia.
Qed.

Lemma fold_events_watch log : fold_events log DenialWatch_default = watch_of (results log).
Proof.
  induction log as [|e log IH] using rev_ind; [done|].
  unfold fold_events in *. rewrite foldl_app. cbn [foldl]. rewrite IH, observe_event_spec, results_snoc.
  destruct (is_park e); [done|]. destruct (result_of e) as [d|]; cbn; [|by rewrite app_nil_r].
  apply observe_watch_of.
Qed.

(** The watch is exact. Rebuilt from any log of fewer than 2^32 events, it
    trips exactly when the results since the task was last parked end in three
    or more refusals, or hold ten or more among the last fifty: the first with
    the length of the streak, the second with the two counts. Nothing else in
    the log counts, and no other history parks a task. *)
Theorem denial_watch_exact log :
  Z.of_nat (length log) ≤ u32_max →
  let rs := results log in
  let recent := drop (length rs - 50) rs in
  let denied := length (List.filter id recent) in
  trip (fold_events log DenialWatch_default) =
    if (3 <=? trailing rs)%nat then Some (Streak (Z.of_nat (trailing rs)))
    else if (10 <=? denied)%nat then Some (Window denied (length recent)) else None.
Proof.
  intros Hlen. cbv zeta. rewrite fold_events_watch. unfold trip, watch_of. cbn -[Nat.leb].
  assert (length (results log) ≤ length log)%nat as Hr.
  { clear. induction log as [|e log IH] using rev_ind; [done|].
    rewrite results_snoc, length_app. cbn. destruct (is_park e); cbn; [lia|].
    rewrite length_app. destruct (result_of e); cbn; lia. }
  assert (trailing (results log) ≤ length (results log))%nat as Ht.
  { unfold trailing. destruct (position negb _) as [n|] eqn:E; cbn; [|lia].
    apply position_some in E as (x & l1 & l2 & E & <- & _).
    apply (f_equal length) in E. rewrite length_reverse, length_app in E. cbn in E. lia. }
  assert (wrap32 (Z.of_nat (trailing (results log))) = Z.of_nat (trailing (results log))) as ->
    by (unfold wrap32; apply Z.mod_small; unfold u32_max in *; lia).
  unfold STREAK_LIMIT. destruct (Z.leb_spec 3 (Z.of_nat (trailing (results log)))),
    (Nat.leb_spec 3 (trailing (results log))); try lia; done.
Qed.

End events.

(** ** Examples *)

Definition refused : string * Value (Json := Example.json) :=
  ("ToolCallPolicyDecision", Example.JObj [("allowed", Example.JBool false)]).
Definition succeeded : string * Value (Json := Example.json) :=
  ("ToolCallSucceeded", Example.JObj []).

Lemma denial_watch_exact_witness :
  trip (fold_events (J := Example.json) [refused; succeeded; refused; refused; refused]
          DenialWatch_default) = Some (Streak 3).
Proof.
  refine (denial_watch_exact (J := Example.json)
    [refused; succeeded; refused; refused; refused] _).
  vm_compute. discriminate.
Defined.
