(* ===== verification/Conflict.v ===== *)
(** * Write conflicts between parallel workers

    [crates/core-runtime/src/conflict.rs]: whether a builder's write scope
    conflicts with the workers already admitted. [detect] takes what the
    repository knows of its files as a trait ([RepoFacts], a class here). *)

From S2P Require Import Prelude RustStr BTree.
#[local] Open Scope Z_scope.

Definition SymbolFact : Type := string * string * option string.

(** The trait [RepoFacts]. *)
Class RepoFacts (F : Type) := {
  paths : F → list string;
  symbols_of : F → string → list SymbolFact;
  importers_of : F → string → list string
}.

Record Facts := {
  fa_paths : list string;
  fa_symbols : list (string * list SymbolFact);
  fa_importers : list (string * list string)
}.

(** [impl RepoFacts for Facts]. *)
#[export] Instance Facts_RepoFacts : RepoFacts Facts := {|
  paths := fa_paths;
  symbols_of f path := from_option snd [] (List.find (λ e, e.1 =s path) (fa_symbols f));
  importers_of f path := from_option snd [] (List.find (λ e, e.1 =s path) (fa_importers f))
|}.

Record ConflictPolicy := {
  cp_hot_spot_importers : nat;
  cp_shared_patterns : list string;
  cp_generated_patterns : list string;
  cp_fixture_patterns : list string
}.

Definition ConflictPolicy_default : ConflictPolicy :=
  {| cp_hot_spot_importers := 5;
     cp_shared_patterns :=
       [ "Cargo.lock"; "Cargo.toml"; "package.json"; "package-lock.json"; "pnpm-lock.yaml";
         "yarn.lock"; "go.mod"; "go.sum"; "poetry.lock"; "requirements.txt"; "tsconfig.json";
         "migrations/**"; "**/migrations/**"; "schema.*"; "**/schema.*";
         ".github/workflows/**"; "*.lock" ];
     cp_generated_patterns :=
       [ "**/generated/**"; "**/gen/**"; "*_pb.*"; "**/*_pb.*"; "*.gen.*"; "**/*.gen.*" ];
     cp_fixture_patterns :=
       [ "tests/fixtures/**"; "**/fixtures/**"; "**/__snapshots__/**"; "**/testdata/**" ] |}.

Inductive Rule :=
  | PathOverlap
  | SymbolOwnership
  | HotSpot
  | SharedFile
  | GeneratedFile
  | TestFixture.

Inductive Severity :=
  | Block
  | Warn.

#[export] Instance Severity_eq_dec : EqDecision Severity.
Proof. solve_decision. Defined.

Record Conflict := {
  co_rule : Rule;
  co_severity : Severity;
  co_with : string;
  co_subject : string;
  co_detail : string
}.

Definition norm (p : string) : string :=
  replace_char "\" "/" (trim_end_by (Ascii.eqb "/") (trim_dot_slash (trim p))).

(** [rec] of [glob_match], on the bytes of pattern and text. [any_suffix f s] is
    [(0..=s.len()).any(|i| f(&s[i..]))]; with [in_segment] the indices stop
    behind the first slash. *)
Fixpoint any_suffix (f : list ascii → bool) (s : list ascii) : bool :=
  f s || match s with [] => false | _ :: s' => any_suffix f s' end.

Fixpoint any_in_segment (f : list ascii → bool) (s : list ascii) : bool :=
  f s || match s with
         | [] => false
         | c :: s' => negb (Ascii.eqb c "/") && any_in_segment f s'
         end.

Fixpoint rec (p s : list ascii) : bool :=
  match p with
  | [] => match s with [] => true | _ => false end
  | "*"%char :: p1 =>
      match p1 with
      | "*"%char :: p2 =>
          match p2 with
          | "/"%char :: p3 => any_suffix (rec p3) s
          | _ => any_suffix (rec p2) s
          end
      | _ => any_in_segment (rec p1) s
      end
  | "?"%char :: p1 =>
      match s with [] => false | c :: s' => negb (Ascii.eqb c "/") && rec p1 s' end
  | c :: p1 => match s with [] => false | d :: s' => Ascii.eqb d c && rec p1 s' end
  end.

Definition glob_match (pattern path : string) : bool :=
  let bytes := String.list_ascii_of_string in
  if negb (contains_char "/" pattern)
  then rec (bytes pattern) (bytes (rsplit_first (Ascii.eqb "/") path))
  else rec (bytes pattern) (bytes path).

Definition scope_covers (entry path : string) : bool :=
  let e := norm entry in
  let p := norm path in
  if str_is_empty e then false
  else if (e =s "**") || (e =s "*") then true
  else
    match (match strip_suffix "/**" e with Some r => Some r | None => strip_suffix "/*" e end) with
    | Some prefix => (p =s prefix) || starts_with (prefix +:+ "/") p
    | None =>
        if contains_char "*" e then glob_match e p
        else (e =s p) || starts_with (e +:+ "/") p
    end.

Definition any_pattern (patterns : list string) (path : string) : bool :=
  existsb (λ p, glob_match p (norm path)) patterns.

Definition is_public_kind (kind : string) : bool :=
  contains_str ["function"; "method"; "class"; "struct"; "enum"; "interface"; "trait"; "type";
                "const"; "module"] kind.

(** [container.map(|c| format!("{c}::{name}")).unwrap_or(name)]. *)
Definition symbol_key (s : SymbolFact) : string :=
  match s.2 with Some c => c +:+ "::" +:+ s.1.1 | None => s.1.1 end.

(** [f.rsplit_once('/').map(|(d, _)| d).unwrap_or("")]. *)
Definition dir_of (f : string) : string :=
  match rsplit_once "/" f with Some (d, _) => d | None => "" end.

Section detect.
Context `{RepoFacts F} (facts : F).

Definition files_in (scope : list string) : list string :=
  List.filter (λ p, existsb (λ s, scope_covers s p) scope) (paths facts).

(** Rule 1. *)
Definition path_overlaps (candidate : list string) (w : string * list string) : list Conflict :=
  c ← candidate; o ← w.2;
  if scope_covers c o || scope_covers o c
  then [{| co_rule := PathOverlap; co_severity := Block; co_with := w.1; co_subject := c;
           co_detail := "`" +:+ c +:+ "` and `" +:+ o +:+ "` cover the same paths" |}]
  else [].

(** The public symbols of the candidate's files, with the file. *)
Definition public_symbols (files : list string) : list (string * string) :=
  f ← files; s ← symbols_of facts f;
  if is_public_kind s.1.2 then [(symbol_key s, f)] else [].

(** Rule 2. *)
Definition symbol_conflicts (cand_files : list string) (cand_symbols : list (string * string))
    (who : string) (other_files : list string) : list Conflict :=
  f ← other_files;
  if contains_str cand_files f then []
  else
    s ← symbols_of facts f;
    if negb (is_public_kind s.1.2) then []
    else
      let key := symbol_key s in
      match List.find (λ e, e.1 =s key) cand_symbols with
      | Some (_, cf) =>
          [{| co_rule := SymbolOwnership; co_severity := Block; co_with := who; co_subject := key;
              co_detail := "`" +:+ key +:+ "` is defined in `" +:+ cf +:+ "` (candidate) and `" +:+
                           f +:+ "` (" +:+ who +:+ ")" |}]
      | None => []
      end.

(** Rule 3, both directions. *)
Definition hot_spot (policy : ConflictPolicy) (f : string) (others : list string) : bool :=
  let importers := importers_of facts f in
  Nat.leb (cp_hot_spot_importers policy) (length importers) &&
  existsb (contains_str others) importers.

Definition hot_spots_held (policy : ConflictPolicy) (cand_files : list string) (who : string)
    (other_files : list string) : list Conflict :=
  f ← cand_files;
  if hot_spot policy f other_files
  then [{| co_rule := HotSpot; co_severity := Block; co_with := who; co_subject := f;
           co_detail := "`" +:+ f +:+ "` is imported by " +:+
             pretty (Z.of_nat (length (importers_of facts f))) +:+ " files, some in " +:+ who +:+
             "'s scope" |}]
  else [].

Definition hot_spots_met (policy : ConflictPolicy) (cand_files : list string) (who : string)
    (other_files : list string) : list Conflict :=
  f ← other_files;
  if hot_spot policy f cand_files
  then [{| co_rule := HotSpot; co_severity := Warn; co_with := who; co_subject := f;
           co_detail := who +:+ " holds `" +:+ f +:+ "`, imported by " +:+
             pretty (Z.of_nat (length (importers_of facts f))) +:+
             " files, some in the candidate's scope; verify after the merge" |}]
  else [].

(** Rule 6. *)
Definition fixture_conflicts (policy : ConflictPolicy) (cand_files : list string) (who : string)
    (other_files : list string) : list Conflict :=
  f ← cand_files;
  if negb (any_pattern (cp_fixture_patterns policy) f) then []
  else
    let dir := dir_of f in
    if existsb (λ o, any_pattern (cp_fixture_patterns policy) o && (dir_of o =s dir)) other_files
    then [{| co_rule := TestFixture; co_severity := Block; co_with := who; co_subject := f;
             co_detail := "fixtures under `" +:+ dir +:+ "` are in both scopes" |}]
    else [].

(** Rules 4 and 5: the files and the scope entries a pattern list names, sorted
    and without duplicates. *)
Definition exclusive_files (patterns candidate cand_files : list string) : list string :=
  dedup (sort_by (λ a b, is_lt (String.compare a b))
    (List.filter (any_pattern patterns) cand_files ++ List.filter (any_pattern patterns) candidate)).

Definition detect (candidate : list string) (admitted : list (string * list string))
    (policy : ConflictPolicy) : list Conflict :=
  let cand_files := files_in candidate in
  let cand_symbols := public_symbols cand_files in
  (admitted ≫= path_overlaps candidate) ++
  (w ← admitted;
   let other_files := files_in w.2 in
   symbol_conflicts cand_files cand_symbols w.1 other_files ++
   hot_spots_held policy cand_files w.1 other_files ++
   hot_spots_met policy cand_files w.1 other_files ++
   fixture_conflicts policy cand_files w.1 other_files) ++
  match admitted with
  | [] => []
  | _ =>
      let with_ := Prelude.join "," (admitted.*1) in
      (f ← exclusive_files (cp_shared_patterns policy) candidate cand_files;
       [{| co_rule := SharedFile; co_severity := Block; co_with := with_; co_subject := f;
           co_detail := "`" +:+ f +:+ "` is a migration, schema, shared configuration or lockfile; one worker at a time" |}]) ++
      (f ← exclusive_files (cp_generated_patterns policy) candidate cand_files;
       [{| co_rule := GeneratedFile; co_severity := Block; co_with := with_; co_subject := f;
           co_detail := "`" +:+ f +:+ "` is generated; regenerate once, after the merge" |}])
  end.

End detect.

Definition blocks (conflicts : list Conflict) : bool :=
  existsb (λ c, bool_decide (co_severity c = Block)) conflicts.

(** ** Globs *)

Definition no_slash (s : list ascii) : Prop := Forall (λ c, c ≠ "/"%char) s.

(** The language of a pattern. *)
Inductive matches : list ascii → list ascii → Prop :=
  | m_nil : matches [] []
  | m_dirs p s1 s2 :
      matches p s2 → matches ("*" :: "*" :: "/" :: p)%char (s1 ++ s2)
  | m_any p s1 s2 :
      hd_error p ≠ Some "/"%char → matches p s2 → matches ("*" :: "*" :: p)%char (s1 ++ s2)
  | m_segment p s1 s2 :
      hd_error p ≠ Some "*"%char → no_slash s1 → matches p s2 →
      matches ("*" :: p)%char (s1 ++ s2)
  | m_one p c s : c ≠ "/"%char → matches p s → matches ("?" :: p)%char (c :: s)
  | m_char p c s : c ≠ "*"%char → c ≠ "?"%char → matches p s → matches (c :: p) (c :: s).

Lemma any_suffix_true f s : any_suffix f s = true ↔ ∃ s1 s2, s = s1 ++ s2 ∧ f s2 = true.
Proof.
  induction s as [|c s IH]; cbn.
  - rewrite orb_false_r. split; [by exists [], []|]. intros (s1 & s2 & E & ?).
    symmetry in E. apply app_nil in E as [-> ->]. done.
  - rewrite orb_true_iff, IH. split.
    + intros [?|(s1 & s2 & -> & ?)]; [by exists [], (c :: s)|by exists (c :: s1), s2].
    + intros ([|d s1] & s2 & E & ?); cbn in E; simplify_eq; [by left|right; eauto].
Qed.

Lemma any_in_segment_true f s :
  any_in_segment f s = true ↔ ∃ s1 s2, s = s1 ++ s2 ∧ no_slash s1 ∧ f s2 = true.
Proof.
  unfold no_slash. induction s as [|c s IH]; cbn.
  - rewrite orb_false_r. split; [exists [], []; auto|]. intros (s1 & s2 & E & _ & ?).
    symmetry in E. apply app_nil in E as [-> ->]. done.
  - rewrite orb_true_iff, andb_true_iff, IH, negb_true_iff, Ascii.eqb_neq. split.
    + intros [?|(Hc & s1 & s2 & -> & ? & ?)]; [exists [], (c :: s); auto|].
      exists (c :: s1), s2. auto.
    + intros ([|d s1] & s2 & E & Hs & ?); cbn in E; simplify_eq; [by left|].
      apply Forall_cons in Hs as [??]. right. eauto 10.
Qed.

(** The equations of [rec], one per kind of pattern. *)
Lemma rec_dirs p s : rec ("*" :: "*" :: "/" :: p)%char s = any_suffix (rec p) s.
Proof. done. Qed.

Lemma rec_any p s :
  hd_error p ≠ Some "/"%char → rec ("*" :: "*" :: p)%char s = any_suffix (rec p) s.
Proof.
  intros Hp. destruct p as [|a p]; [done|].
  destruct (decide (a = "/"%char)) as [->|Ha]; [done|]. clear Hp.
  destruct a as [[] [] [] [] [] [] [] []]; try reflexivity; by destruct Ha.
Qed.

Lemma rec_segment p s :
  hd_error p ≠ Some "*"%char → rec ("*" :: p)%char s = any_in_segment (rec p) s.
Proof.
  intros Hp. destruct p as [|a p]; [done|].
  destruct (decide (a = "*"%char)) as [->|Ha]; [done|]. clear Hp.
  destruct a as [[] [] [] [] [] [] [] []]; try reflexivity; by destruct Ha.
Qed.

Lemma rec_char a p s :
  a ≠ "*"%char → a ≠ "?"%char →
  rec (a :: p) s = match s with [] => false | d :: s' => Ascii.eqb d a && rec p s' end.
Proof.
  intros H1 H2. destruct a as [[] [] [] [] [] [] [] []]; try reflexivity; congruence.
Qed.

(** The recursive matcher decides the language of globs: [**] any text (with
    a following slash any directories), [*] any text within a segment, [?] one
    byte of a segment, every other byte itself. *)
Theorem glob_rec_exact p s : rec p s = true ↔ matches p s.
Proof.
  split.
  - revert s. induction p as [p IH] using (induction_ltof1 _ (@length ascii)). unfold ltof in IH.
    intros s.
    destruct p as [|a p]; [destruct s; cbn; [constructor|done]|].
    destruct (decide (a = "*"%char)) as [->|Ha].
    { destruct p as [|b p].
      { rewrite rec_segment by done. intros (s1 & s2 & -> & ? & Hr)%any_in_segment_true.
        constructor; [done..|]. apply IH; [cbn; lia|done]. }
      destruct (decide (b = "*"%char)) as [->|Hb].
      - destruct (decide (hd_error p = Some "/"%char)) as [Hp|Hp].
        + destruct p as [|c p]; cbn in Hp; simplify_eq. rewrite rec_dirs.
          intros (s1 & s2 & -> & Hr)%any_suffix_true. constructor.
          apply IH; [cbn; lia|done].
        + rewrite rec_any by done. intros (s1 & s2 & -> & Hr)%any_suffix_true.
          constructor; [done|]. apply IH; [cbn; lia|done].
      - rewrite rec_segment by (cbn; congruence).
        intros (s1 & s2 & -> & ? & Hr)%any_in_segment_true.
        constructor; [cbn; congruence|done|]. apply IH; [cbn; lia|done]. }
    destruct (decide (a = "?"%char)) as [->|Hq].
    { cbn. destruct s as [|c s]; [done|].
      intros [Hc%negb_true_iff%Ascii.eqb_neq Hr]%andb_true_iff.
      constructor; [done|]. apply IH; [cbn; lia|done]. }
    rewrite rec_char by done. destruct s as [|d s]; [done|].
    intros [->%Ascii.eqb_eq Hr]%andb_true_iff. constructor; [done..|].
    apply IH; [cbn; lia|done].
  - induction 1 as [|p s1 s2 _ IH|p s1 s2 Hp _ IH|p s1 s2 Hp Hs _ IH|p c s Hc _ IH|p c s H1 H2 _ IH].
    + done.
    + rewrite rec_dirs. apply any_suffix_true. eauto.
    + rewrite rec_any by done. apply any_suffix_true. eauto.
    + rewrite rec_segment by done. apply any_in_segment_true. eauto 10.
    + cbn. rewrite IH, andb_true_r. by apply negb_true_iff, Ascii.eqb_neq.
    + rewrite rec_char by done. by rewrite Ascii.eqb_refl.
Qed.

(** ** What an admission without a blocking conflict means *)

(** [b] is [p] or a directory above it. *)
Definition above (b p : string) : Prop := p = b ∨ ∃ r, p = b +:+ "/" +:+ r.

Lemma above_true b p : ((p =s b) || starts_with (b +:+ "/") p) = true ↔ above b p.
Proof.
  unfold above. rewrite orb_true_iff, String.eqb_eq, starts_with_true.
  split; intros [?|(r & ->)]; eauto; right; exists r; by rewrite str_app_assoc.
Qed.

Lemma slash_comparable a b r1 r2 :
  a +:+ "/" +:+ r1 = b +:+ "/" +:+ r2 → above a b ∨ above b a.
Proof.
  revert b. induction a as [|c a IH]; intros b Heq.
  - destruct b as [|d b]; [by left; left|]. left. right.
    rewrite str_app_cons in Heq. cbn in Heq. injection Heq as -> _. by exists b.
  - destruct b as [|d b].
    + right. right. rewrite str_app_cons in Heq. cbn in Heq. injection Heq as -> _. by exists a.
    + rewrite !str_app_cons in Heq. injection Heq as -> Heq.
      destruct (IH b Heq) as [[->|(r & ->)]|[->|(r & ->)]].
      * by left; left.
      * left; right. exists r. by rewrite str_app_cons.
      * by right; left.
      * right; right. exists r. by rewrite str_app_cons.
Qed.

(** Two directories above one path: one is above the other. *)
Lemma above_comparable a b p : above a p → above b p → above a b ∨ above b a.
Proof.
  intros [E1|(r1 & E1)] [E2|(r2 & E2)].
  - left. left. congruence.
  - right. right. exists r2. congruence.
  - left. right. exists r1. congruence.
  - apply (slash_comparable a b r1 r2). congruence.
Qed.

(** The directory a scope entry names, when it is not a glob within a name: a
    path, or a path under which it covers everything. *)
Definition prefix_of (e : string) : option string :=
  match strip_suffix "/**" e with Some r => Some r | None => strip_suffix "/*" e end.

Definition entry_base (entry : string) : option string :=
  let e := norm entry in
  match prefix_of e with
  | Some r => Some r
  | None => if contains_char "*" e then None else Some e
  end.

(** An entry that is a path, a path with a trailing [/*] or [/**], or a pattern for
    everything: the path itself has no star. *)
Definition is_plain_entry (entry : string) : bool :=
  (norm entry =s "**") || (norm entry =s "*") ||
  match entry_base entry with Some b => negb (contains_char "*" b) | None => false end.

Lemma scope_covers_base entry b path :
  entry_base entry = Some b → norm entry ≠ "" → norm entry ≠ "**" → norm entry ≠ "*" →
  scope_covers entry path = true ↔ above b (norm path).
Proof.
  unfold entry_base, scope_covers. fold (prefix_of (norm entry)).
  intros Hb Hne H1%String.eqb_neq H2%String.eqb_neq. rewrite H1, H2. cbn.
  assert (str_is_empty (norm entry) = false) as -> by by destruct (norm entry).
  destruct (prefix_of (norm entry)) as [r|]; simplify_eq; [apply above_true|].
  destruct (contains_char "*" (norm entry)); simplify_eq. rewrite String.eqb_sym. apply above_true.
Qed.

Lemma base_above entry b : entry_base entry = Some b → above b (norm entry).
Proof.
  unfold entry_base, prefix_of. destruct (strip_suffix "/**" (norm entry)) as [r|] eqn:E1.
  - intros [= ->]. apply strip_suffix_some in E1 as ->. right. by exists "**".
  - destruct (strip_suffix "/*" (norm entry)) as [r|] eqn:E2.
    + intros [= ->]. apply strip_suffix_some in E2 as ->. right. by exists "*".
    + destruct (contains_char "*" _); intros; simplify_eq. by left.
Qed.

Lemma above_trans a b c : above a b → above b c → above a c.
Proof.
  intros [->|(r1 & ->)] [->|(r2 & ->)]; [by left|right; eauto..|].
  right. exists (r1 +:+ "/" +:+ r2). by rewrite !str_app_assoc.
Qed.

Lemma scope_covers_nonempty entry path : scope_covers entry path = true → norm entry ≠ "".
Proof. unfold scope_covers. intros Hc E. by rewrite E in Hc. Qed.

Lemma scope_covers_all entry path :
  norm entry = "**" ∨ norm entry = "*" → scope_covers entry path = true.
Proof. unfold scope_covers. by intros [-> | ->]. Qed.

(** Two plain entries that cover a common path: one covers the other. *)
Lemma plain_overlap c o p :
  is_plain_entry c = true → is_plain_entry o = true →
  scope_covers c p = true → scope_covers o p = true →
  scope_covers c o || scope_covers o c = true.
Proof.
  unfold is_plain_entry. intros Hc Ho Hcp Hop. apply orb_true_iff.
  rewrite !orb_true_iff, !String.eqb_eq in Hc. rewrite !orb_true_iff, !String.eqb_eq in Ho.
  destruct (decide (norm c = "**" ∨ norm c = "*")) as [Hx|Hnc]; [left; by apply scope_covers_all|].
  destruct (decide (norm o = "**" ∨ norm o = "*")) as [Hx|Hno]; [right; by apply scope_covers_all|].
  destruct Hc as [?|Hc]; [done|]. destruct Ho as [?|Ho]; [done|].
  destruct (entry_base c) as [bc|] eqn:Ec; [|done]. destruct (entry_base o) as [bo|] eqn:Eo; [|done].
  pose proof (scope_covers_nonempty _ _ Hcp) as Hnec. pose proof (scope_covers_nonempty _ _ Hop) as Hneo.
  apply Decidable.not_or in Hnc as [? ?]. apply Decidable.not_or in Hno as [? ?].
  apply (scope_covers_base c bc) in Hcp; [|done..]. apply (scope_covers_base o bo) in Hop; [|done..].
  destruct (above_comparable _ _ _ Hcp Hop).
  - left. apply (scope_covers_base c bc); [done..|]. eauto using above_trans, base_above.
  - right. apply (scope_covers_base o bo); [done..|]. eauto using above_trans, base_above.
Qed.

Section separation.
Context `{RepoFacts F} (facts : F).

Lemma blocks_false cs :
  blocks cs = false ↔ ∀ c, c ∈ cs → co_severity c ≠ Block.
Proof.
  unfold blocks. rewrite existsb_false, Forall_forall. split; intros Hx c Hc.
  - by apply (bool_decide_eq_false _), Hx.
  - by apply bool_decide_eq_false, Hx.
Qed.

Lemma blocks_app a b : blocks (a ++ b) = false ↔ blocks a = false ∧ blocks b = false.
Proof. unfold blocks. rewrite existsb_app. apply orb_false_iff. Qed.

Lemma blocks_bind {A} (f : A → list Conflict) l x :
  blocks (l ≫= f) = false → x ∈ l → blocks (f x) = false.
Proof.
  rewrite !blocks_false. intros Hb Hx c Hc. apply Hb. apply list_elem_of_bind. eauto.
Qed.

(** A blocking conflict under a test: without a block, the test failed. *)
Lemma blocks_if (b : bool) c : co_severity c = Block → blocks (if b then [c] else []) = false → b = false.
Proof. destruct b; [|done]. unfold blocks. cbn. by intros ->. Qed.

Lemma exclusive_blocked candidate ps f (mk : string → Conflict) :
  (∀ f, co_severity (mk f) = Block) →
  blocks (f ← exclusive_files ps candidate (files_in facts candidate); [mk f]) = false →
  f ∈ files_in facts candidate ∨ f ∈ candidate → any_pattern ps f = false.
Proof.
  intros Hmk Hb Hin. destruct (any_pattern ps f) eqn:E; [|done].
  apply blocks_bind with (x := f) in Hb.
  - by apply (blocks_if true) in Hb.
  - apply elem_of_dedup, elem_of_sort_by, elem_of_app.
    destruct Hin; [left|right]; by apply elem_of_list_filter_bool.
Qed.

Lemma public_symbol_listed files f s :
  f ∈ files → s ∈ symbols_of facts f → is_public_kind s.1.2 = true →
  (symbol_key s, f) ∈ public_symbols facts files.
Proof.
  intros Hf Hs Hk. apply list_elem_of_bind. exists f. split; [|done].
  apply list_elem_of_bind. exists s. split; [|done]. rewrite Hk. by left.
Qed.

(** C38: what an admission without a blocking conflict guarantees, against every
    worker already admitted. No path is covered by two plain entries, one of each
    scope (a plain entry is a path, a path with a trailing star pattern, or everything;
    globs inside a path are not compared, [glob_overlap_missed]). Of the files that the
    index of the repository lists: no public symbol is defined in a file of each scope
    (files of both apart); no file of the candidate that enough others import is
    imported by a file of the worker; their fixtures share no directory; and no file of
    the candidate, nor an entry of its scope taken as a path, is a shared or a generated
    one. A file that is not indexed yet escapes these last rules
    ([unindexed_shared_admitted]). *)
Theorem admitted_workers_separate candidate admitted policy who scope :
  blocks (detect facts candidate admitted policy) = false →
  (who, scope) ∈ admitted →
  let mine := files_in facts candidate in
  let theirs := files_in facts scope in
  (∀ c o p, c ∈ candidate → o ∈ scope → is_plain_entry c = true → is_plain_entry o = true →
     scope_covers c p = true → scope_covers o p = false) ∧
  (∀ f g s t, f ∈ mine → g ∈ theirs → g ∉ mine →
     s ∈ symbols_of facts f → t ∈ symbols_of facts g →
     is_public_kind s.1.2 = true → is_public_kind t.1.2 = true → symbol_key s ≠ symbol_key t) ∧
  (∀ f i, f ∈ mine → i ∈ importers_of facts f → i ∈ theirs →
     (length (importers_of facts f) < cp_hot_spot_importers policy)%nat) ∧
  (∀ f g, f ∈ mine → g ∈ theirs → any_pattern (cp_fixture_patterns policy) f = true →
     any_pattern (cp_fixture_patterns policy) g = true → dir_of f ≠ dir_of g) ∧
  (∀ f, f ∈ mine ∨ f ∈ candidate →
     any_pattern (cp_shared_patterns policy) f = false ∧
     any_pattern (cp_generated_patterns policy) f = false).
Proof.
  unfold detect. intros (H1 & (H2 & H3)%blocks_app)%blocks_app Hw. cbv zeta.
  pose proof (blocks_bind _ _ _ H1 Hw) as Hp.
  pose proof (blocks_bind _ _ _ H2 Hw) as
    (Hs & (Hh & (_ & Hf)%blocks_app)%blocks_app)%blocks_app.
  clear H1 H2. cbn [fst snd] in *.
  split_and!.
  - intros c o p Hc Ho Hpc Hpo Hcp. destruct (scope_covers o p) eqn:Hop; [|done].
    pose proof (plain_overlap _ _ _ Hpc Hpo Hcp Hop) as Hov.
    apply blocks_bind with (x := c) in Hp; [|done]. apply blocks_bind with (x := o) in Hp; [|done].
    apply blocks_if in Hp; [|done]. congruence.
  - intros f g s t Hfm Hgt Hgm Hsf Htg Hks Hkt Heq.
    apply blocks_bind with (x := g) in Hs; [|done]. apply contains_str_false in Hgm.
    cbn in Hs. rewrite Hgm in Hs. apply blocks_bind with (x := t) in Hs; [|done].
    rewrite Hkt in Hs. cbn in Hs.
    destruct (List.find _ _) as [[k cf]|] eqn:E; [done|].
    apply find_none_forall in E. rewrite Forall_forall in E.
    specialize (E _ (public_symbol_listed _ f s Hfm Hsf Hks)). cbn in E. by apply String.eqb_neq in E.
  - intros f i Hfm Hi Hit. apply blocks_bind with (x := f) in Hh; [|done].
    apply blocks_if in Hh; [|done]. apply andb_false_iff in Hh as [Hh|Hh].
    + by apply Nat.leb_gt in Hh.
    + apply existsb_false in Hh. rewrite Forall_forall in Hh.
      specialize (Hh _ Hi). by apply contains_str_false in Hh.
  - intros f g Hfm Hgt Hpf Hpg Heq. apply blocks_bind with (x := f) in Hf; [|done].
    rewrite Hpf in Hf. cbn in Hf. apply blocks_if in Hf; [|done].
    apply existsb_false in Hf. rewrite Forall_forall in Hf. specialize (Hf _ Hgt).
    rewrite Hpg, Heq, String.eqb_refl in Hf. done.
  - destruct admitted as [|a admitted]; [by apply elem_of_nil in Hw|].
    apply blocks_app in H3 as [Hsh Hge].
    intros f Hin. split;
      [eapply (exclusive_blocked _ _ f) in Hsh|eapply (exclusive_blocked _ _ f) in Hge]; done.
Qed.

End separation.

(** ** Examples *)

Definition two_apis : Facts :=
  {| fa_paths := ["src/api/users.rs"; "src/core/types.rs"; "docs/a.md"];
     fa_symbols := [("src/api/users.rs", [("User", "struct", None)])];
     fa_importers := [] |}.

Lemma admitted_workers_separate_witness :
  blocks (detect two_apis ["src/api/**"] [("w", ["src/core"; "docs/*"])] ConflictPolicy_default) = false ∧
  scope_covers "docs/*" "src/api/users.rs" = false.
Proof.
  assert (blocks (detect two_apis ["src/api/**"] [("w", ["src/core"; "docs/*"])]
            ConflictPolicy_default) = false) as Hb by reflexivity.
  split; [exact Hb|].
  refine (proj1 (admitted_workers_separate two_apis ["src/api/**"] [("w", ["src/core"; "docs/*"])]
    ConflictPolicy_default "w" ["src/core"; "docs/*"] Hb _) "src/api/**" "docs/*"
    "src/api/users.rs" _ _ _ _ _); [left|left|right; left|reflexivity..].
Defined.

(** Globs escape the overlap rules. A file that two scopes both cover by a
    glob within a name raises no conflict at all: neither pattern covers the
    other as text, and the symbol rule skips the common file as one that was
    already reported. And an entry with a star in a directory and [/**] at its
    end covers no file that its glob matches. *)
Theorem glob_overlap_missed :
  let facts := {| fa_paths := ["src/a.rs"]; fa_symbols := [("src/a.rs", [("f", "function", None)])];
                  fa_importers := [] |} in
  detect facts ["src/*.rs"] [("w", ["src/a*"])] ConflictPolicy_default = [] ∧
  files_in facts ["src/*.rs"] = ["src/a.rs"] ∧ files_in facts ["src/a*"] = ["src/a.rs"] ∧
  glob_match "crates/*/src/**" "crates/x/src/lib.rs" = true ∧
  scope_covers "crates/*/src/**" "crates/x/src/lib.rs" = false.
Proof. repeat split; reflexivity. Qed.

(** A shared file that the index does not list, below a directory of the scope, raises no
    conflict. *)
Example unindexed_shared_admitted :
  let facts := {| fa_paths := []; fa_symbols := []; fa_importers := [] |} in
  detect facts ["db/**"] [("w", ["src/**"])] ConflictPolicy_default = [] ∧
  scope_covers "db/**" "db/migrations/0001.sql" = true ∧
  any_pattern (cp_shared_patterns ConflictPolicy_default) "db/migrations/0001.sql" = true.
Proof. by vm_compute. Qed.
