(* ===== verification/Agent.v ===== *)
(** * Agents and the work graph

    [crates/domain/src/agent.rs]: the life of an agent node, the overlap of write
    scopes, and the work graph of a task: nodes with dependencies, changed by whole
    plan versions that are validated before anything is written. Node ids are
    strings; agent and task ids are numbers. *)

From stdpp Require Import relations.
From S2P Require Import Prelude RustStr BTree External Conflict.
#[local] Open Scope Z_scope.

(** ** Agent status *)

Inductive AgentStatus :=
  | AgentStatus_Proposed | AgentStatus_AdmissionPending | AgentStatus_Admitted
  | AgentStatus_Running | AgentStatus_Background | AgentStatus_Parked | AgentStatus_Waiting
  | AgentStatus_Completed | AgentStatus_Failed | AgentStatus_Cancelled.

#[export] Instance AgentStatus_eq_dec : EqDecision AgentStatus.
Proof. solve_decision. Defined.

Definition AgentStatus_is_terminal (self : AgentStatus) : bool :=
  match self with
  | AgentStatus_Completed | AgentStatus_Failed | AgentStatus_Cancelled => true
  | _ => false
  end.

Definition AgentStatus_can_transition (self to : AgentStatus) : bool :=
  match self, to with
  | AgentStatus_Proposed, AgentStatus_AdmissionPending | AgentStatus_Proposed, AgentStatus_Cancelled
  | AgentStatus_AdmissionPending, AgentStatus_Admitted
  | AgentStatus_AdmissionPending, AgentStatus_Failed
  | AgentStatus_AdmissionPending, AgentStatus_Cancelled
  | AgentStatus_Admitted, AgentStatus_Running | AgentStatus_Admitted, AgentStatus_Background
  | AgentStatus_Admitted, AgentStatus_Cancelled
  | AgentStatus_Running, AgentStatus_Background | AgentStatus_Background, AgentStatus_Running
  | AgentStatus_Running, AgentStatus_Parked | AgentStatus_Background, AgentStatus_Parked
  | AgentStatus_Parked, AgentStatus_Running | AgentStatus_Parked, AgentStatus_Background
  | AgentStatus_Parked, AgentStatus_Cancelled
  | AgentStatus_Running, AgentStatus_Waiting | AgentStatus_Background, AgentStatus_Waiting
  | AgentStatus_Waiting, AgentStatus_Running | AgentStatus_Waiting, AgentStatus_Background
  | AgentStatus_Waiting, AgentStatus_Parked | AgentStatus_Waiting, AgentStatus_Cancelled
  | AgentStatus_Running, AgentStatus_Completed | AgentStatus_Running, AgentStatus_Failed
  | AgentStatus_Running, AgentStatus_Cancelled
  | AgentStatus_Background, AgentStatus_Completed | AgentStatus_Background, AgentStatus_Failed
  | AgentStatus_Background, AgentStatus_Cancelled
  | AgentStatus_Completed, AgentStatus_Admitted | AgentStatus_Failed, AgentStatus_Admitted
  | AgentStatus_Cancelled, AgentStatus_Admitted => true
  | _, _ => false
  end.

(** ** Write scopes *)

(** The inner [norm] of [write_scopes_overlap]; unlike the one of the conflict
    rules it leaves backslashes alone. *)
Definition scope_norm (p : string) : string := trim_end_by (Ascii.eqb "/") (trim_dot_slash (trim p)).

Definition covers (pattern path : string) : bool :=
  let pattern := scope_norm pattern in
  let path := scope_norm path in
  if str_is_empty pattern || str_is_empty path then str_is_empty pattern && str_is_empty path
  else
    match (match strip_suffix "/**" pattern with
           | Some r => Some r
           | None => strip_suffix "/*" pattern
           end) with
    | Some prefix => (path =s prefix) || starts_with (prefix +:+ "/") path
    | None =>
        if (pattern =s "**") || (pattern =s "*") then true
        else (pattern =s path) || starts_with (pattern +:+ "/") path
             || starts_with (path +:+ "/") pattern
    end.

Definition write_scopes_overlap (a b : list string) : list (string * string) :=
  x ← a; y ← b; if covers x y || covers y x then [(x, y)] else [].

(** ** The work graph *)

Inductive WorkStatus := WPending | WReady | WActive | WBlocked | WDone | WFailed | WCancelled.

#[export] Instance WorkStatus_eq_dec : EqDecision WorkStatus.
Proof. solve_decision. Defined.

Definition WorkStatus_is_terminal (self : WorkStatus) : bool :=
  match self with WDone | WFailed | WCancelled => true | _ => false end.

Definition WorkStatus_debug (self : WorkStatus) : string :=
  match self with
  | WPending => "Pending" | WReady => "Ready" | WActive => "Active" | WBlocked => "Blocked"
  | WDone => "Done" | WFailed => "Failed" | WCancelled => "Cancelled"
  end.

Record WorkNode := {
  wn_id : string;
  wn_task_id : Z;
  wn_title : string;
  wn_depends_on : list string;
  wn_owner : option Z;
  wn_status : WorkStatus;
  wn_expected_artifacts : list string;
  wn_verification : string;
  wn_evidence_refs : list string;
  wn_blockers : list string;
  wn_attempts : Z;
  wn_plan_version : Z
}.

Record WorkNodeChange := {
  wc_id : string;
  wc_title : option string;
  wc_depends_on : option (list string);
  wc_status : option WorkStatus;
  wc_expected_artifacts : option (list string);
  wc_verification : option string;
  wc_evidence_refs : list string;
  wc_blockers : option (list string)
}.

Record WorkGraph := { wg_nodes : list WorkNode }.

Inductive WorkGraphError :=
  | UnknownDependency (id depends_on : string)
  | DependencyCycle (id : string)
  | DependencyNotDone (id depends_on : string)
  | EvidenceRequired (id : string)
  | TitleRequired (id : string)
  | InvalidId (id : string).

(** [nodes.iter().find(|n| &n.id == id)]. *)
Definition node (nodes : list WorkNode) (id : string) : option WorkNode :=
  List.find (λ n, wn_id n =s id) nodes.

(** The title of a change, when it is not blank. *)
Definition stated_title (c : WorkNodeChange) : option string :=
  t ← wc_title c; if str_is_empty (trim t) then None else Some (trim t).

Definition fresh_node (task_id plan_version : Z) (id title : string) : WorkNode :=
  {| wn_id := id; wn_task_id := task_id; wn_title := title; wn_depends_on := []; wn_owner := None;
     wn_status := WPending; wn_expected_artifacts := []; wn_verification := "";
     wn_evidence_refs := []; wn_blockers := []; wn_attempts := 0;
     wn_plan_version := plan_version |}.

Definition push_new (refs : list string) (r : string) : list string :=
  if contains_str refs r then refs else refs ++ [r].

(** The writes of one change to its node, up to the status. *)
Definition edit_fields (c : WorkNodeChange) (n : WorkNode) : WorkNode :=
  {| wn_id := wn_id n;
     wn_task_id := wn_task_id n;
     wn_title := default (wn_title n) (stated_title c);
     wn_depends_on :=
       match wc_depends_on c with
       | Some d => dedup (List.filter (λ x, negb (x =s wc_id c)) d)
       | None => wn_depends_on n
       end;
     wn_owner := wn_owner n;
     wn_status := wn_status n;
     wn_expected_artifacts := default (wn_expected_artifacts n) (wc_expected_artifacts c);
     wn_verification := default (wn_verification n) (wc_verification c);
     wn_evidence_refs := foldl push_new (wn_evidence_refs n) (wc_evidence_refs c);
     wn_blockers := default (wn_blockers n) (wc_blockers c);
     wn_attempts := wn_attempts n;
     wn_plan_version := wn_plan_version n |}.

(** The attempts after a change of status to [s]. *)
Definition attempts_to (s : WorkStatus) (n : WorkNode) : Z :=
  let a :=
    if bool_decide (s = WActive) &&
       (bool_decide (wn_status n = WFailed) || bool_decide (wn_status n = WBlocked))
    then wrap32 (wn_attempts n + 1) else wn_attempts n in
  if bool_decide (s = WActive) && (a =? 0) then 1 else a.

(** The whole body of the loop over the changes, for the node it changes. *)
Definition edit_node (plan_version : Z) (c : WorkNodeChange) (n : WorkNode) : WorkNode :=
  let n := edit_fields c n in
  let n :=
    match wc_status c with
    | Some s => { n with wn_attempts := attempts_to s n; wn_status := s }
    | None =>
        if existsb (λ b, negb (str_is_empty (trim b))) (wn_blockers n)
           && negb (WorkStatus_is_terminal (wn_status n))
        then { n with wn_status := WBlocked } else n
    end in
  { n with wn_plan_version := plan_version }.

Definition apply_change (task_id plan_version : Z) (nodes : list WorkNode) (c : WorkNodeChange)
    : result WorkGraphError (list WorkNode) :=
  if str_is_empty (wc_id c) || (64 <? str_len (wc_id c)) then Err (InvalidId (wc_id c))
  else if is_some (position (λ n, wn_id n =s wc_id c) nodes) then
    Ok (update_first (λ n, wn_id n =s wc_id c) (edit_node plan_version c) nodes)
  else
    match stated_title c with
    | None => Err (TitleRequired (wc_id c))
    | Some title =>
        Ok (nodes ++ [edit_node plan_version c (fresh_node task_id plan_version (wc_id c) title)])
    end.

Fixpoint apply_changes (task_id plan_version : Z) (changes : list WorkNodeChange)
    (nodes : list WorkNode) : result WorkGraphError (list WorkNode) :=
  match changes with
  | [] => Ok nodes
  | c :: changes =>
      nodes ← apply_change task_id plan_version nodes c;
      apply_changes task_id plan_version changes nodes
  end.

(** The first dependency that names no node, with the node it is of. *)
Definition unknown_dependency (nodes : list WorkNode) : option (string * string) :=
  head (n ← nodes; d ← wn_depends_on n;
        if existsb (λ m, wn_id m =s d) nodes then [] else [(wn_id n, d)]).

(** The inner [visit] of [first_cycle]: the node on a cycle, if one is found, and
    the ids done with. [None] when the fuel runs out, which [visit_total] shows
    never happens with one more than the number of nodes. *)
Fixpoint visit (fuel : nat) (nodes : list WorkNode) (id : string) (stack done : list string)
    : option (option string * list string) :=
  match fuel with
  | O => None
  | S fuel =>
      if contains_str done id then Some (None, done)
      else if contains_str stack id then Some (Some id, done)
      else
        match node nodes id with
        | None => Some (None, done ++ [id])
        | Some n =>
            (fix each (deps done : list string) :=
               match deps with
               | [] => Some (None, done ++ [id])
               | d :: deps =>
                   match visit fuel nodes d (stack ++ [id]) done with
                   | Some (None, done) => each deps done
                   | other => other
                   end
               end) (wn_depends_on n) done
        end
  end.

(** The loop of [first_cycle] over the nodes. *)
Fixpoint visit_nodes (nodes todo : list WorkNode) (done : list string) : option string :=
  match todo with
  | [] => None
  | n :: todo =>
      match visit (S (length nodes)) nodes (wn_id n) [] done with
      | Some (Some c, _) => Some c
      | Some (None, done) => visit_nodes nodes todo done
      | None => None
      end
  end.

Definition first_cycle (nodes : list WorkNode) : option string := visit_nodes nodes nodes [].

(** A touched node that is done has evidence, and its dependencies are done. A
    node looked up here exists, so the [None] of a lookup is not reached. *)
Definition check_done_node (nodes : list WorkNode) (id : string) : result WorkGraphError unit :=
  match node nodes id with
  | Some n =>
      if bool_decide (wn_status n = WDone) then
        if (match wn_evidence_refs n with [] => true | _ => false end) then Err (EvidenceRequired id)
        else
          match List.find (λ d, match node nodes d with
                                | Some dep => negb (bool_decide (wn_status dep = WDone))
                                | None => false
                                end) (wn_depends_on n) with
          | Some d => Err (DependencyNotDone id d)
          | None => Ok tt
          end
      else Ok tt
  | None => Ok tt
  end.

Fixpoint check_done (nodes : list WorkNode) (touched : list string) : result WorkGraphError unit :=
  match touched with
  | [] => Ok tt
  | id :: touched => _ ← check_done_node nodes id; check_done nodes touched
  end.

Definition done_ids (nodes : list WorkNode) : list string :=
  wn_id <$> List.filter (λ n, bool_decide (wn_status n = WDone)) nodes.

(** [Pending] and [Ready] follow the dependencies. *)
Definition follow (done : list string) (n : WorkNode) : WorkNode :=
  if bool_decide (wn_status n = WPending) || bool_decide (wn_status n = WReady)
  then { n with wn_status :=
           if forallb (contains_str done) (wn_depends_on n) then WReady else WPending }
  else n.

(** [WorkGraph::apply]. *)
Definition WorkGraph_apply (task_id plan_version : Z) (changes : list WorkNodeChange)
    : SE WorkGraph WorkGraphError (list WorkNode) := λ self,
  let next :=
    next ← apply_changes task_id plan_version changes (wg_nodes self);
    match unknown_dependency next with
    | Some (id, d) => Err (UnknownDependency id d)
    | None =>
        match first_cycle next with
        | Some id => Err (DependencyCycle id)
        | None =>
            let touched := wc_id <$> changes in
            _ ← check_done next touched;
            Ok (follow (done_ids next) <$> next)
        end
    end in
  match next with
  | Err e => (self, Err e)
  | Ok next => ({| wg_nodes := next |}, Ok (omap (node next) (wc_id <$> changes)))
  end.

Definition ready (g : WorkGraph) : list WorkNode :=
  List.filter (λ n, bool_decide (wn_status n = WReady)) (wg_nodes g).

(** The nodes that wait for [id], in the loop of [blocks_parent]: [None] when one
    of them is the parent's own, otherwise the frontier, last pushed first. *)
Fixpoint waiting_for (id : string) (nodes : list WorkNode) (frontier : list string)
    : option (list string) :=
  match nodes with
  | [] => Some frontier
  | n :: nodes =>
      if contains_str (wn_depends_on n) id && negb (WorkStatus_is_terminal (wn_status n)) then
        if is_some (wn_owner n) then waiting_for id nodes (wn_id n :: frontier) else None
      else waiting_for id nodes frontier
  end.

Fixpoint blocks_loop (fuel : nat) (nodes : list WorkNode) (frontier seen : list string)
    : option bool :=
  match fuel with
  | O => None
  | S fuel =>
      match frontier with
      | [] => Some false
      | id :: frontier =>
          if contains_str seen id then blocks_loop fuel nodes frontier seen
          else
            match waiting_for id nodes frontier with
            | None => Some true
            | Some frontier => blocks_loop fuel nodes frontier (id :: seen)
            end
      end
  end.

(** Every id is expanded once and pushes at most one id per node. *)
Definition blocks_fuel (nodes : list WorkNode) : nat := 2 + S (length nodes) * length nodes.

Definition blocks_parent (g : WorkGraph) (n : string) : bool :=
  default false (blocks_loop (blocks_fuel (wg_nodes g)) (wg_nodes g) [n] []).

Definition summary_line `{IdText} (n : WorkNode) : string :=
  wn_id n +:+ " [" +:+ WorkStatus_debug (wn_status n) +:+ "] " +:+ wn_title n +:+
  (match wn_depends_on n with [] => "" | l => " (after " +:+ Prelude.join ", " l +:+ ")" end) +:+
  (match wn_owner n with Some o => " owner " +:+ id_text o | None => "" end) +:+
  (match wn_blockers n with [] => "" | l => " blocked: " +:+ Prelude.join "; " l end) +:+
  (if 1 <? wn_attempts n then " attempts " +:+ pretty (wn_attempts n) else "").

Definition summary `{IdText} (g : WorkGraph) : list string := summary_line <$> wg_nodes g.

(** ** The cycle search is exact *)

(** [x] depends on [d]. *)
Definition dep (nodes : list WorkNode) (x d : string) : Prop :=
  ∃ n, node nodes x = Some n ∧ d ∈ wn_depends_on n.

(** No chain of dependencies goes on forever from [x]. *)
Definition grounded (nodes : list WorkNode) : string → Prop := Acc (λ d x, dep nodes x d).

Lemma node_id nodes x n : node nodes x = Some n → wn_id n = x ∧ n ∈ nodes.
Proof.
  intros [Hin E%String.eqb_eq]%List.find_some. split; [done|]. by apply list_elem_of_In.
Qed.

Lemma node_none nodes x : node nodes x = None ↔ x ∉ wn_id <$> nodes.
Proof.
  unfold node. rewrite find_none_forall, Forall_forall, list_elem_of_fmap. split.
  - intros Hn (n & -> & Hin). specialize (Hn n Hin). by rewrite String.eqb_refl in Hn.
  - intros Hn n Hin. apply String.eqb_neq. intros <-. eauto.
Qed.

Lemma grounded_no_cycle nodes x : grounded nodes x → ¬ tc (dep nodes) x x.
Proof.
  induction 1 as [x _ IH]. intros Hc. inversion Hc as [? ? Hx|? y ? Hxy Hyx]; subst.
  - by apply (IH x).
  - apply (IH y Hxy). by eapply tc_r.
Qed.

(** What a search from [id] finds, given a stack whose ids all lead to [id]. *)
Lemma visit_sound nodes fuel id stack done r done' :
  visit fuel nodes id stack done = Some (r, done') →
  (∀ s, s ∈ stack → tc (dep nodes) s id) → (∀ d, d ∈ done → grounded nodes d) →
  match r with
  | Some c => tc (dep nodes) c c
  | None => grounded nodes id ∧ ∀ d, d ∈ done' → grounded nodes d
  end.
Proof.
  revert id stack done r done'. induction fuel as [|fuel IH]; [done|].
  intros id stack done r done' H Hs Hd. cbn [visit] in H.
  destruct (contains_str done id) eqn:E1.
  { simplify_eq. apply contains_str_true in E1. auto. }
  destruct (contains_str stack id) eqn:E2.
  { simplify_eq. apply contains_str_true in E2. auto. }
  destruct (node nodes id) as [n|] eqn:En.
  - assert (Hdeps : ∀ d, d ∈ wn_depends_on n → dep nodes id d) by (intros d ?; by exists n).
    set (seen := wn_depends_on n) in *.
    assert (Hseen : ∀ d, d ∈ wn_depends_on n → d ∉ seen → grounded nodes d) by (subst seen; by intros).
    clearbody seen. clear E1 E2. revert done H Hd Hdeps Hseen.
    induction seen as [|d seen IHs]; intros done H Hd Hdeps Hseen.
    + simplify_eq. assert (Hid : grounded nodes id).
      { constructor. intros y (n' & Hn' & Hy). simplify_eq. apply Hseen; [done|apply not_elem_of_nil]. }
      split; [done|]. intros x [Hx| ->%list_elem_of_singleton]%elem_of_app; auto.
    + destruct (visit fuel nodes d (stack ++ [id]) done) as [[[c|] done1]|] eqn:Ev; simplify_eq.
      * apply IH in Ev; [done| |done].
        intros s [Hin| ->%list_elem_of_singleton]%elem_of_app.
        -- eapply tc_r; [by apply Hs|]. apply Hdeps. by left.
        -- constructor. apply Hdeps. by left.
      * apply IH in Ev as [Hg Hd1]; [| |done].
        -- apply (IHs done1); [done|done| |].
           ++ intros y Hy. apply Hdeps. by right.
           ++ intros y Hy Hny. destruct (decide (y = d)) as [->|]; [done|].
              apply Hseen; [done|]. rewrite elem_of_cons. naive_solver.
        -- intros s [Hin| ->%list_elem_of_singleton]%elem_of_app.
           ++ eapply tc_r; [by apply Hs|]. apply Hdeps. by left.
           ++ constructor. apply Hdeps. by left.
  - simplify_eq. assert (Hid : grounded nodes id).
    { constructor. intros y (n' & Hn' & _). congruence. }
    split; [done|]. intros x [Hx| ->%list_elem_of_singleton]%elem_of_app; auto.
Qed.

(** The search ends: the stack holds different ids of nodes. *)
Lemma visit_total nodes fuel id stack done :
  NoDup stack → (∀ s, s ∈ stack → s ∈ wn_id <$> nodes) →
  (length nodes < fuel + length stack)%nat → is_Some (visit fuel nodes id stack done).
Proof.
  revert id stack done. induction fuel as [|fuel IH]; intros id stack done Hnd Hsub Hlen.
  - pose proof (submseteq_length _ _ (NoDup_submseteq stack (wn_id <$> nodes) Hnd Hsub)) as Hle.
    rewrite length_fmap in Hle. lia.
  - cbn [visit]. destruct (contains_str done id); [done|].
    destruct (contains_str stack id) eqn:E; [done|]. apply contains_str_false in E.
    destruct (node nodes id) as [n|] eqn:En; [|done]. apply node_id in En as [<- Hin].
    generalize (wn_depends_on n) done. intros deps. induction deps as [|d deps IHd]; intros done'; [done|].
    destruct (IH d (stack ++ [wn_id n]) done') as [[[c|] done1] ->].
    + apply NoDup_app. split_and!; [done| |apply NoDup_singleton].
      intros x Hx ->%list_elem_of_singleton. done.
    + intros s [Hs| ->%list_elem_of_singleton]%elem_of_app; [auto|]. by apply list_elem_of_fmap_2.
    + rewrite length_app. cbn. lia.
    + done.
    + apply IHd.
Qed.

Lemma visit_nodes_exact nodes todo done :
  (∀ d, d ∈ done → grounded nodes d) →
  match visit_nodes nodes todo done with
  | Some c => tc (dep nodes) c c
  | None => ∀ n, n ∈ todo → grounded nodes (wn_id n)
  end.
Proof.
  revert done. induction todo as [|n todo IH]; intros done Hd; cbn [visit_nodes];
    [intros n Hn; by apply elem_of_nil in Hn|].
  destruct (visit_total nodes (S (length nodes)) (wn_id n) [] done) as [[r done1] Hv];
    [constructor|intros s Hs; by apply elem_of_nil in Hs|cbn; lia|].
  rewrite Hv. apply visit_sound in Hv; [|intros s Hs; by apply elem_of_nil in Hs|done].
  destruct r as [c|]; [done|]. destruct Hv as [Hn Hd1]. specialize (IH done1 Hd1).
  destruct (visit_nodes nodes todo done1); [done|]. intros m [->|Hm]%elem_of_cons; auto.
Qed.

Lemma first_cycle_none nodes : first_cycle nodes = None → ∀ x, grounded nodes x.
Proof.
  intros E x.
  pose proof (visit_nodes_exact nodes nodes [] ltac:(intros d Hd; by apply elem_of_nil in Hd)) as H.
  fold (first_cycle nodes) in H. rewrite E in H. destruct (node nodes x) as [n|] eqn:En.
  - apply node_id in En as [<- Hn]. by apply H.
  - constructor. intros y (n & Hn & _). congruence.
Qed.

(** The search for a cycle ends and is exact, whatever the nodes: it returns
    nothing exactly if no chain of dependencies goes on forever from any node, and
    the node it returns is on a cycle. *)
Theorem first_cycle_exact nodes :
  (first_cycle nodes = None ↔ ∀ x, grounded nodes x) ∧
  (∀ c, first_cycle nodes = Some c → tc (dep nodes) c c).
Proof.
  pose proof (visit_nodes_exact nodes nodes [] ltac:(intros d Hd; by apply elem_of_nil in Hd)) as H.
  fold (first_cycle nodes) in H. split; [split; [apply first_cycle_none|]|].
  - intros Hg. destruct (first_cycle nodes) as [c|]; [|reflexivity].
    by destruct (grounded_no_cycle nodes c).
  - intros c E. rewrite E in H. exact H.
Qed.

(** ** The graph stays consistent *)

Definition valid_id (id : string) : Prop := id ≠ "" ∧ str_len id ≤ 64.

Record graph_inv (nodes : list WorkNode) : Prop := {
  gi_ids : NoDup (wn_id <$> nodes);
  gi_valid : ∀ n, n ∈ nodes → valid_id (wn_id n);
  gi_known : ∀ n d, n ∈ nodes → d ∈ wn_depends_on n → d ∈ wn_id <$> nodes;
  gi_acyclic : ∀ x, grounded nodes x;
  gi_evidence : ∀ n, n ∈ nodes → wn_status n = WDone → wn_evidence_refs n ≠ [];
  gi_ready : ∀ n, n ∈ nodes → wn_status n = WReady ∨ wn_status n = WPending →
    wn_status n = WReady ↔ ∀ d, d ∈ wn_depends_on n → d ∈ done_ids nodes
}.

Lemma edit_node_id v c n : wn_id (edit_node v c n) = wn_id n.
Proof.
  unfold edit_node. destruct (wc_status c); [done|].
  by destruct (existsb _ _ && _).
Qed.

Lemma apply_change_ok t v nodes c next :
  apply_change t v nodes c = Ok next →
  NoDup (wn_id <$> nodes) → (∀ n, n ∈ nodes → valid_id (wn_id n)) →
  NoDup (wn_id <$> next) ∧ (∀ n, n ∈ next → valid_id (wn_id n)) ∧
  (∀ n, n ∈ next → wn_id n = wc_id c ∨ n ∈ nodes) ∧ wc_id c ∈ wn_id <$> next.
Proof.
  unfold apply_change. intros H Hnd Hval.
  destruct (str_is_empty (wc_id c)) eqn:Ee; [done|]. cbn [orb] in H.
  destruct (Z.ltb_spec 64 (str_len (wc_id c))) as [|Hlen]; [done|].
  assert (Hid : valid_id (wc_id c)) by (split; [by intros E; rewrite E in Ee|done]).
  destruct (position _ nodes) as [i|] eqn:Ep; cbn [is_some] in H.
  - injection H as <-.
    assert (Hids : wn_id <$> update_first (λ n, wn_id n =s wc_id c) (edit_node v c) nodes = wn_id <$> nodes)
      by (apply update_first_map; intros; apply edit_node_id).
    apply position_some in Ep as (x & l1 & l2 & -> & _ & Hx%String.eqb_eq & _).
    rewrite Hids. split_and!; [done| | |rewrite fmap_app, elem_of_app, <- Hx; right; by left].
    + intros n Hn. apply (list_elem_of_fmap_2 wn_id) in Hn. rewrite Hids in Hn.
      apply list_elem_of_fmap in Hn as (m & -> & Hm). auto.
    + intros n Hn.
      destruct (update_first_split (λ n, wn_id n =s wc_id c) (edit_node v c) (l1 ++ x :: l2))
        as [[E _]|(l3 & y & l4 & E & Hy%String.eqb_eq & _ & E2)]; [rewrite E in Hn; auto|].
      rewrite E2 in Hn. rewrite E. apply elem_of_app in Hn as [Hn|[->|Hn]%elem_of_cons].
      * right. apply elem_of_app. auto.
      * left. by rewrite edit_node_id.
      * right. apply elem_of_app. right. by right.
  - apply position_none in Ep. destruct (stated_title c) as [title|]; [|done]. injection H as <-.
    rewrite fmap_app, fmap_cons, fmap_nil, edit_node_id. cbn [wn_id fresh_node].
    split_and!.
    + apply NoDup_app. split_and!; [done| |apply NoDup_singleton].
      intros x (n & -> & Hn)%list_elem_of_fmap Heq%list_elem_of_singleton.
      rewrite Forall_forall in Ep. specialize (Ep n Hn). by rewrite Heq, String.eqb_refl in Ep.
    + intros n [Hn| ->%list_elem_of_singleton]%elem_of_app; [auto|]. by rewrite edit_node_id.
    + intros n [Hn| ->%list_elem_of_singleton]%elem_of_app; [auto|]. left. by rewrite edit_node_id.
    + apply elem_of_app. right. by left.
Qed.

Lemma apply_changes_ok t v cs nodes next :
  apply_changes t v cs nodes = Ok next →
  NoDup (wn_id <$> nodes) → (∀ n, n ∈ nodes → valid_id (wn_id n)) →
  NoDup (wn_id <$> next) ∧ (∀ n, n ∈ next → valid_id (wn_id n)) ∧
  (∀ n, n ∈ next → wn_id n ∈ wc_id <$> cs ∨ n ∈ nodes).
Proof.
  revert nodes. induction cs as [|c cs IH]; intros nodes H Hnd Hval; cbn in H; [simplify_eq; auto|].
  apply bind_ok in H as (mid & Hc & Hcs).
  destruct (apply_change_ok _ _ _ _ _ Hc Hnd Hval) as (Hnd1 & Hval1 & Hfrom & _).
  destruct (IH mid Hcs Hnd1 Hval1) as (Hnd2 & Hval2 & Hfrom2). split_and!; [done|done|].
  intros n Hn. rewrite fmap_cons, elem_of_cons.
  destruct (Hfrom2 n Hn) as [?|Hm]; [auto|]. destruct (Hfrom n Hm); auto.
Qed.

Lemma node_in nodes n : NoDup (wn_id <$> nodes) → n ∈ nodes → node nodes (wn_id n) = Some n.
Proof.
  intros Hnd Hin. destruct (node nodes (wn_id n)) as [m|] eqn:E.
  - apply node_id in E as [E Hm]. f_equal.
    apply list_elem_of_lookup in Hm as [i Hi], Hin as [j Hj].
    assert (i = j) as ->; [|congruence].
    eapply NoDup_lookup; [exact Hnd|by rewrite list_lookup_fmap, Hi|].
    rewrite list_lookup_fmap, Hj. cbn. by rewrite E.
  - apply node_none in E. destruct E. by apply list_elem_of_fmap_2.
Qed.

Lemma check_done_ok nodes touched id n :
  check_done nodes touched = Ok tt → id ∈ touched → node nodes id = Some n →
  wn_status n = WDone →
  wn_evidence_refs n ≠ [] ∧
  ∀ d m, d ∈ wn_depends_on n → node nodes d = Some m → wn_status m = WDone.
Proof.
  intros H Hin Hn Hs. induction touched as [|id' touched IH]; [by apply elem_of_nil in Hin|].
  cbn in H. apply bind_ok in H as ([] & Hc & H). apply elem_of_cons in Hin as [<-|Hin]; [|auto].
  unfold check_done_node in Hc. rewrite Hn, bool_decide_eq_true_2 in Hc by done.
  destruct (wn_evidence_refs n); [done|]. split; [done|]. intros d m Hd Hm.
  destruct (List.find _ _) eqn:E in Hc; [done|]. apply find_none_forall in E.
  rewrite Forall_forall in E. specialize (E d Hd). cbn in E. rewrite Hm in E.
  by apply negb_false_iff, bool_decide_eq_true in E.
Qed.

Lemma unknown_dependency_none nodes n d :
  unknown_dependency nodes = None → n ∈ nodes → d ∈ wn_depends_on n → d ∈ wn_id <$> nodes.
Proof.
  unfold unknown_dependency. intros H%head_None Hn Hd.
  destruct (existsb (λ m, wn_id m =s d) nodes) eqn:E.
  - apply existsb_true in E as (m & Hm & <-%String.eqb_eq). by apply list_elem_of_fmap_2.
  - assert (Hin : (wn_id n, d) ∈ (n ← nodes; d ← wn_depends_on n;
      if existsb (λ m, wn_id m =s d) nodes then [] else [(wn_id n, d)])).
    { apply list_elem_of_bind. exists n. split; [|done]. apply list_elem_of_bind. exists d.
      split; [|done]. rewrite E. by left. }
    rewrite H in Hin. by apply elem_of_nil in Hin.
Qed.

(** [follow] touches nothing but a [Pending] or [Ready] status. *)
Lemma follow_fields done n :
  wn_id (follow done n) = wn_id n ∧ wn_depends_on (follow done n) = wn_depends_on n ∧
  wn_evidence_refs (follow done n) = wn_evidence_refs n.
Proof. unfold follow. by destruct (_ || _). Qed.

Lemma follow_status done n :
  wn_status (follow done n) =
  match wn_status n with
  | WPending | WReady => if forallb (contains_str done) (wn_depends_on n) then WReady else WPending
  | s => s
  end.
Proof. unfold follow. destruct n as [? ? ? ? ? [] ? ? ? ? ? ?]; reflexivity. Qed.

Lemma follow_done done n : wn_status (follow done n) = WDone ↔ wn_status n = WDone.
Proof. rewrite follow_status. destruct (wn_status n); try done; by destruct (forallb _ _). Qed.

Lemma follow_node done nodes x : node (follow done <$> nodes) x = follow done <$> node nodes x.
Proof.
  unfold node. induction nodes as [|n nodes IH]; cbn; [done|].
  rewrite (proj1 (follow_fields done n)). by destruct (wn_id n =s x).
Qed.

Lemma follow_done_ids done (nodes : list WorkNode) : done_ids (follow done <$> nodes) = done_ids nodes.
Proof.
  unfold done_ids. induction nodes as [|n nodes IH]; cbn; [done|].
  rewrite (bool_decide_ext _ _ (follow_done done n)). destruct (bool_decide (wn_status n = WDone)); cbn;
    by rewrite ?IH, ?(proj1 (follow_fields done n)).
Qed.

Lemma follow_ids done (nodes : list WorkNode) : wn_id <$> (follow done <$> nodes) = wn_id <$> nodes.
Proof.
  rewrite <- list_fmap_compose. apply list_fmap_ext. intros _ n _. apply follow_fields.
Qed.

Lemma follow_grounded done nodes x : grounded nodes x → grounded (follow done <$> nodes) x.
Proof.
  induction 1 as [x _ IH]. constructor. intros y (n & Hn & Hy). apply IH.
  rewrite follow_node in Hn. destruct (node nodes x) as [m|] eqn:E; [|done]. injection Hn as <-.
  rewrite (proj1 (proj2 (follow_fields done m))) in Hy. by exists m.
Qed.

(** What an accepted plan version leaves behind. *)
Lemma apply_accepted t v cs g g' changed :
  WorkGraph_apply t v cs g = (g', Ok changed) → graph_inv (wg_nodes g) →
  graph_inv (wg_nodes g') ∧
  (∀ id n d, id ∈ wc_id <$> cs → node (wg_nodes g') id = Some n → wn_status n = WDone →
     d ∈ wn_depends_on n → d ∈ done_ids (wg_nodes g')).
Proof.
  unfold WorkGraph_apply. intros H [Hnd Hval _ _ Hev _].
  destruct (apply_changes t v cs (wg_nodes g)) as [next|] eqn:Ec; cbn in H; [|done].
  destruct (apply_changes_ok _ _ _ _ _ Ec Hnd Hval) as (Hnd1 & Hval1 & Hfrom).
  destruct (unknown_dependency next) as [[]|] eqn:Eu; [done|].
  destruct (first_cycle next) eqn:Ef; [done|].
  destruct (check_done next (wc_id <$> cs)) as [[]|] eqn:Ed; [|done].
  cbn in H. simplify_eq. cbn [wg_nodes]. set (done := done_ids next).
  pose proof (first_cycle_none next Ef) as Hacyc.
  assert (Hback : ∀ n, n ∈ follow done <$> next → ∃ m, n = follow done m ∧ m ∈ next)
    by (intros n Hn; by apply list_elem_of_fmap in Hn).
  assert (Hdone : ∀ d m, node next d = Some m → wn_status m = WDone → d ∈ done).
  { intros d m [<- Hm]%node_id Hs. apply list_elem_of_fmap_2.
    apply elem_of_list_filter_bool. by rewrite bool_decide_eq_true. }
  split; [split|].
  - by rewrite follow_ids.
  - intros n (m & -> & Hm)%Hback. rewrite (proj1 (follow_fields done m)). auto.
  - intros n d (m & -> & Hm)%Hback Hd. rewrite (proj1 (proj2 (follow_fields done m))) in Hd.
    rewrite follow_ids. by eapply unknown_dependency_none.
  - intros x. apply follow_grounded, Hacyc.
  - intros n (m & -> & Hm)%Hback Hs%follow_done. rewrite (proj2 (proj2 (follow_fields done m))).
    destruct (Hfrom m Hm) as [Ht|Hold]; [|auto].
    by apply (check_done_ok _ _ _ m Ed Ht (node_in _ _ Hnd1 Hm)).
  - intros n (m & -> & Hm)%Hback Hs. rewrite follow_status in Hs |- *.
    rewrite (proj1 (proj2 (follow_fields done m))), follow_done_ids.
    assert (Hf : forallb (contains_str done) (wn_depends_on m) = true ↔
      ∀ d, d ∈ wn_depends_on m → d ∈ done_ids next).
    { rewrite forallb_true. split; intros Hx d Hd; apply contains_str_true; auto. }
    destruct (wn_status m); try (by destruct Hs);
      destruct (forallb _ _); rewrite <- Hf; split; done.
  - intros id n d Hid Hn Hs Hd. rewrite follow_node in Hn.
    destruct (node next id) as [m|] eqn:Em; [|done]. injection Hn as <-.
    apply follow_done in Hs. rewrite (proj1 (proj2 (follow_fields done m))) in Hd.
    destruct (check_done_ok _ _ _ m Ed Hid Em Hs) as [_ Hdeps].
    pose proof (unknown_dependency_none next m d Eu (proj2 (node_id _ _ _ Em)) Hd) as Hk.
    rewrite follow_done_ids. destruct (node next d) as [k|] eqn:Ek.
    + apply (Hdone d k Ek). by apply (Hdeps d).
    + by apply node_none in Ek.
Qed.

(** A task's plan versions, one after the other; a refused one changes nothing. *)
Definition plan_versions (t : Z) (vs : list (list WorkNodeChange)) (g : WorkGraph) : WorkGraph :=
  (foldl (λ s cs, ((WorkGraph_apply t s.2 cs s.1).1, s.2 + 1)) (g, 1) vs).1.

Lemma graph_inv_nil : graph_inv [].
Proof.
  split; try (intros ? Hn; by apply elem_of_nil in Hn); try (intros ? ? Hn; by apply elem_of_nil in Hn).
  - apply NoDup_nil_2.
  - intros x. constructor. intros y (n & Hn & _). discriminate.
Qed.

(** C39: the work graph is consistent after any plan versions, accepted or refused.
    Node ids are unique and bounded; every dependency names a node, and no chain
    of dependencies goes in a circle; whatever is done has evidence; a node that
    waits is ready exactly if everything it depends on is done. *)
Theorem work_graph_invariant t vs : graph_inv (wg_nodes (plan_versions t vs {| wg_nodes := [] |})).
Proof.
  unfold plan_versions.
  assert (∀ g v, graph_inv (wg_nodes g) → graph_inv (wg_nodes
    (foldl (λ s cs, ((WorkGraph_apply t s.2 cs s.1).1, s.2 + 1)) (g, v) vs).1)) as Hgen;
    [|by apply Hgen, graph_inv_nil].
  induction vs as [|cs vs IH]; intros g v Hg; [done|]. cbn [foldl fst snd]. apply IH.
  destruct (WorkGraph_apply t v cs g) as [g' [changed|e]] eqn:E; cbn [fst].
  - by eapply apply_accepted.
  - unfold WorkGraph_apply in E. by case_match; simplify_eq.
Qed.

(** A plan version that marks a node done is accepted only with evidence for
    it and with everything the node depends on done; a refused version changes
    nothing. *)
Theorem work_done_checked t v cs g g' r :
  WorkGraph_apply t v cs g = (g', r) → graph_inv (wg_nodes g) →
  match r with
  | Ok _ => ∀ id n, id ∈ wc_id <$> cs → node (wg_nodes g') id = Some n → wn_status n = WDone →
      wn_evidence_refs n ≠ [] ∧ ∀ d, d ∈ wn_depends_on n → d ∈ done_ids (wg_nodes g')
  | Err _ => g' = g
  end.
Proof.
  intros H Hg. destruct r as [changed|e].
  - destruct (apply_accepted _ _ _ _ _ _ H Hg) as [Hinv Hdone]. intros id n Hid Hn Hs. split.
    + eapply gi_evidence; [exact Hinv| |done]. by apply (node_id _ id).
    + intros d Hd. by eapply Hdone.
  - unfold WorkGraph_apply in H. by case_match; simplify_eq.
Qed.

(** ** What the parent waits for *)

(** Some work of the parent waits for the node [id]: unfinished and unowned work
    depends on it, directly or through unfinished work that others own. *)
Inductive awaited (nodes : list WorkNode) : string → Prop :=
  | awaited_here id n :
      n ∈ nodes → id ∈ wn_depends_on n → WorkStatus_is_terminal (wn_status n) = false →
      wn_owner n = None → awaited nodes id
  | awaited_through id n :
      n ∈ nodes → id ∈ wn_depends_on n → WorkStatus_is_terminal (wn_status n) = false →
      awaited nodes (wn_id n) → awaited nodes id.

Lemma waiting_for_spec id nodes frontier :
  match waiting_for id nodes frontier with
  | None => ∃ n, n ∈ nodes ∧ id ∈ wn_depends_on n ∧
      WorkStatus_is_terminal (wn_status n) = false ∧ wn_owner n = None
  | Some frontier' =>
      (∀ n, n ∈ nodes → id ∈ wn_depends_on n → WorkStatus_is_terminal (wn_status n) = false →
         wn_owner n ≠ None ∧ wn_id n ∈ frontier') ∧
      (∀ x, x ∈ frontier' → x ∈ frontier ∨ ∃ n, n ∈ nodes ∧ x = wn_id n ∧ id ∈ wn_depends_on n ∧
         WorkStatus_is_terminal (wn_status n) = false) ∧
      (∀ x, x ∈ frontier → x ∈ frontier') ∧
      (length frontier' ≤ length frontier + length nodes)%nat
  end.
Proof.
  revert frontier. induction nodes as [|n nodes IH]; intros frontier; cbn [waiting_for].
  { split_and!; [intros n Hn; by apply elem_of_nil in Hn|auto|auto|cbn; lia]. }
  destruct (contains_str (wn_depends_on n) id && _) eqn:E.
  - apply andb_true_iff in E as [Hd%contains_str_true Ht%negb_true_iff].
    destruct (wn_owner n) as [o|] eqn:Eo; cbn [is_some].
    + specialize (IH (wn_id n :: frontier)). destruct (waiting_for id nodes _) as [f|].
      * destruct IH as (H1 & H2 & H3 & H4). split_and!.
        -- intros m [->|Hm]%elem_of_cons; [|auto]. intros _ _. split; [congruence|]. apply H3. by left.
        -- intros x Hx. destruct (H2 x Hx) as [[->|?]%elem_of_cons|(m & ? & ? & ? & ?)]; [|auto|].
           ++ right. exists n. split_and!; [by left|done..].
           ++ right. exists m. split_and!; [by right|done..].
        -- intros x Hx. apply H3. by right.
        -- cbn in *. lia.
      * destruct IH as (m & ? & ?). exists m. split; [by right|done].
    + exists n. split; [by left|done].
  - specialize (IH frontier). destruct (waiting_for id nodes frontier) as [f|].
    + destruct IH as (H1 & H2 & H3 & H4). split_and!; [| |done|cbn; lia].
      * intros m [->|Hm]%elem_of_cons Hd Ht; [|auto].
        apply contains_str_true in Hd. rewrite Hd, Ht in E. discriminate.
      * intros x Hx. destruct (H2 x Hx) as [?|(m & ? & ?)]; [auto|]. right. exists m.
        split; [by right|done].
    + destruct IH as (m & ? & ?). exists m. split; [by right|done].
Qed.

Lemma blocks_loop_spec nodes start fuel frontier seen :
  NoDup seen → (∀ x, x ∈ seen ∨ x ∈ frontier → x ∈ start :: (wn_id <$> nodes)) →
  (∀ x, x ∈ frontier → awaited nodes x → awaited nodes start) →
  (start ∈ seen ∨ start ∈ frontier) →
  (∀ id n, id ∈ seen → n ∈ nodes → id ∈ wn_depends_on n →
     WorkStatus_is_terminal (wn_status n) = false →
     wn_owner n ≠ None ∧ (wn_id n ∈ seen ∨ wn_id n ∈ frontier)) →
  (length frontier + (S (length nodes) - length seen) * length nodes < fuel)%nat →
  ∃ b, blocks_loop fuel nodes frontier seen = Some b ∧ (b = true ↔ awaited nodes start).
Proof.
  revert frontier seen. induction fuel as [|fuel IH]; intros frontier seen Hnd Hsub Hf Hst Hcl Hm; [by apply Nat.nlt_0_r in Hm|].
  cbn [blocks_loop]. destruct frontier as [|id frontier].
  - exists false. split; [done|]. split; [done|]. intros Ha. exfalso.
    destruct Hst as [Hst|Hst]; [|by apply elem_of_nil in Hst].
    revert Hst. clear - Ha Hcl. induction Ha as [id n Hn Hd Ht Ho|id n Hn Hd Ht _ IHa]; intros Hin.
    + by destruct (Hcl id n Hin Hn Hd Ht).
    + destruct (Hcl id n Hin Hn Hd Ht) as [_ [Hi|Hi]]; [auto|by apply elem_of_nil in Hi].
  - destruct (contains_str seen id) eqn:E.
    + apply contains_str_true in E. cbn [length] in Hm. apply IH; [done| | | | |lia].
      * intros x [?|?]; apply Hsub; [auto|]. right. by right.
      * intros x ?. apply Hf. by right.
      * destruct Hst as [?|[->|?]%elem_of_cons]; auto.
      * intros x n Hx Hn Hd Ht. destruct (Hcl x n Hx Hn Hd Ht) as [? [?|[->|?]%elem_of_cons]]; auto.
    + apply contains_str_false in E. pose proof (waiting_for_spec id nodes frontier) as Hw.
      destruct (waiting_for id nodes frontier) as [f|].
      2:{ exists true. split; [done|]. split; [intros _|done]. destruct Hw as (n & ? & ? & ? & ?).
          apply (Hf id); [by left|]. by eapply awaited_here. }
      destruct Hw as (H1 & H2 & H3 & H4).
      assert (Hids : (S (length seen) ≤ S (length nodes))%nat).
      { assert (NoDup (id :: seen)) as Hnd' by by constructor.
        assert (∀ x, x ∈ id :: seen → x ∈ start :: (wn_id <$> nodes)) as Hs'.
        { intros x [->|Hx]%elem_of_cons; apply Hsub; [right; by left|by left]. }
        pose proof (submseteq_length _ _ (NoDup_submseteq _ _ Hnd' Hs')) as Hle.
        cbn in Hle. rewrite length_fmap in Hle. lia. }
      apply IH; [by constructor| | | | |].
      * intros x [[->|Hx]%elem_of_cons|Hx]; [apply Hsub; right; by left|apply Hsub; by left|].
        destruct (H2 x Hx) as [Hx'|(n & Hn & -> & _)]; [apply Hsub; right; by right|].
        right. by apply list_elem_of_fmap_2.
      * intros x Hx Ha. destruct (H2 x Hx) as [Hx'|(n & Hn & -> & Hd & Ht)].
        -- apply (Hf x); [by right|done].
        -- apply (Hf id); [by left|]. by eapply awaited_through.
      * destruct Hst as [?|[->|?]%elem_of_cons]; [left; by right|left; by left|auto].
      * intros x n [->|Hx]%elem_of_cons Hn Hd Ht.
        -- destruct (H1 n Hn Hd Ht). auto.
        -- destruct (Hcl x n Hx Hn Hd Ht) as [Ho [Hi|[->|Hi]%elem_of_cons]]; (split; [done|]).
           ++ left. by right.
           ++ left. by left.
           ++ auto.
      * cbn [length] in *. replace (S (length nodes) - length seen)%nat
          with (S (S (length nodes) - S (length seen)))%nat in Hm by lia.
        rewrite Nat.mul_succ_l in Hm. lia.
Qed.

(** [blocks_parent] ends on every graph and answers exactly whether
    unfinished work that no child owns waits for the node, directly or through
    unfinished work that children own. *)
Theorem blocks_parent_exact g x : blocks_parent g x = true ↔ awaited (wg_nodes g) x.
Proof.
  unfold blocks_parent, blocks_fuel.
  destruct (blocks_loop_spec (wg_nodes g) x (2 + S (length (wg_nodes g)) * length (wg_nodes g)) [x] [])
    as (b & -> & Hb).
  - constructor.
  - intros y [Hy|Hy]; [by apply elem_of_nil in Hy|]. apply list_elem_of_singleton in Hy as ->. by left.
  - intros y ->%list_elem_of_singleton. done.
  - right. by left.
  - intros id n Hx. by apply elem_of_nil in Hx.
  - cbn [length]. lia.
  - exact Hb.
Qed.

(** ** Write scopes *)

(** The path [p] is inside the entry [x]: at or below the path the entry names,
    where a trailing star names everything below and a lone star everything. *)
Definition inside (x p : string) : Prop :=
  let e := scope_norm x in
  e ≠ "" ∧
  match prefix_of e with
  | Some prefix => above prefix p
  | None => e = "**" ∨ e = "*" ∨ above e p
  end.

Lemma prefix_above e r : prefix_of e = Some r → above r e.
Proof.
  unfold prefix_of. intros H. right. destruct (strip_suffix "/**" e) as [r'|] eqn:E.
  - injection H as ->. apply strip_suffix_some in E as ->. by exists "**".
  - apply strip_suffix_some in H as ->. by exists "*".
Qed.

Lemma above_starts b p : above b p → (p =s b) || starts_with (b +:+ "/") p = true.
Proof. apply above_true. Qed.

(** The path an entry names covers every entry at or below it. *)
Lemma covers_below x y b :
  scope_norm x ≠ "" → scope_norm y ≠ "" →
  default (scope_norm x) (prefix_of (scope_norm x)) = b → above b (scope_norm y) → covers x y = true.
Proof.
  unfold covers. fold (prefix_of (scope_norm x)). intros Hx Hy Hb Ha.
  assert (str_is_empty (scope_norm x) = false) as -> by by destruct (scope_norm x).
  assert (str_is_empty (scope_norm y) = false) as -> by by destruct (scope_norm y). cbn [orb].
  destruct (prefix_of (scope_norm x)) as [r|]; cbn in Hb; subst b; [by apply above_true|].
  destruct (_ || _); [done|]. apply above_true in Ha. rewrite String.eqb_sym.
  by rewrite <- orb_assoc, orb_assoc, Ha.
Qed.

(** Scopes without an overlap have no path in common: no path is inside an
    entry of each, if entries hold a star only at their end. (A star within a
    name is taken literally.) *)
Theorem write_scopes_separate a b x y p :
  write_scopes_overlap a b = [] → x ∈ a → y ∈ b → inside x p → ¬ inside y p.
Proof.
  intros H Hx Hy (Hnx & Hix) (Hny & Hiy).
  assert (Hno : covers x y = false ∧ covers y x = false).
  { apply orb_false_iff. destruct (covers x y || covers y x) eqn:E; [|done].
    assert (Hin : (x, y) ∈ write_scopes_overlap a b).
    { apply list_elem_of_bind. exists x. split; [|done]. apply list_elem_of_bind. exists y.
      rewrite E. split; [by left|done]. }
    rewrite H in Hin. by apply elem_of_nil in Hin. }
  assert (Hall : ∀ u v, scope_norm u = "**" ∨ scope_norm u = "*" → scope_norm v ≠ "" → covers u v = true).
  { intros u v Hu Hv. unfold covers. assert (str_is_empty (scope_norm v) = false) as Ev
      by by destruct (scope_norm v). destruct Hu as [-> | ->]; by rewrite Ev. }
  assert (Hbase : ∀ u, covers x y = false → covers y x = false → u = x ∨ u = y → inside u p →
    above (default (scope_norm u) (prefix_of (scope_norm u))) p).
  { intros u H1 H2 Hu (_ & Hi). destruct (prefix_of (scope_norm u)); [done|].
    destruct Hi as [Hi|[Hi|Hi]]; [| |done]; exfalso; destruct Hu as [-> | ->];
      first [rewrite (Hall x y) in H1 by auto; done | rewrite (Hall y x) in H2 by auto; done]. }
  destruct Hno as [H1 H2].
  pose proof (Hbase x H1 H2 (or_introl eq_refl) (conj Hnx Hix)) as Hpx.
  pose proof (Hbase y H1 H2 (or_intror eq_refl) (conj Hny Hiy)) as Hpy.
  assert (Hup : ∀ u, above (default (scope_norm u) (prefix_of (scope_norm u))) (scope_norm u)).
  { intros u. destruct (prefix_of (scope_norm u)) eqn:E; [by apply prefix_above|by left]. }
  destruct (above_comparable _ _ _ Hpx Hpy) as [Hc|Hc].
  - rewrite (covers_below x y _ Hnx Hny eq_refl) in H1; [done|]. eapply above_trans; [exact Hc|apply Hup].
  - rewrite (covers_below y x _ Hny Hnx eq_refl) in H2; [done|]. eapply above_trans; [exact Hc|apply Hup].
Qed.

(** ** Nothing runs without admission *)

Definition status_step (a b : AgentStatus) : Prop := AgentStatus_can_transition a b = true.

(** A node that runs has been admitted since it was proposed. *)
Lemma runs_admitted s :
  rtc status_step AgentStatus_Proposed s →
  s = AgentStatus_Proposed ∨ s = AgentStatus_AdmissionPending ∨ AgentStatus_is_terminal s = true ∨
  ∃ mid, mid = AgentStatus_Admitted ∧ rtc status_step AgentStatus_Proposed mid ∧ rtc status_step mid s.
Proof.
  revert s. apply (rtc_ind_r (λ s, _ ∨ _ ∨ _ ∨ _)); [auto|]. intros a b Hr Hs IH.
  destruct IH as [->|[->|[Ht|(m & -> & Hm & Hma)]]].
  - destruct b; try discriminate Hs; auto.
  - destruct b; try discriminate Hs; auto. right; right; right. exists AgentStatus_Admitted.
    split_and!; [done| |done]. by eapply rtc_r.
  - destruct a; try discriminate Ht; destruct b; try discriminate Hs;
      right; right; right; exists AgentStatus_Admitted; (split_and!; [done| |done]); by eapply rtc_r.
  - right; right; right. exists AgentStatus_Admitted. split_and!; [done|done|]. by eapply rtc_r.
Qed.

(** ** Examples *)

Definition change (id : string) (deps : list string) (status : option WorkStatus)
    (evidence : list string) : WorkNodeChange :=
  {| wc_id := id; wc_title := Some id; wc_depends_on := Some deps; wc_status := status;
     wc_expected_artifacts := None; wc_verification := None; wc_evidence_refs := evidence;
     wc_blockers := None |}.

Definition three_steps : WorkGraph :=
  plan_versions 7 [[change "read" [] None []; change "fix" ["read"] None []; change "test" ["fix"] None []];
                   [change "read" [] (Some WDone) ["offset:12"]]] {| wg_nodes := [] |}.

Example three_steps_status : wn_status <$> wg_nodes three_steps = [WDone; WReady; WPending].
Proof. reflexivity. Qed.

Example cycle_refused :
  (WorkGraph_apply 7 1 [change "a" ["b"] None []; change "b" ["a"] None []] {| wg_nodes := [] |}).2
  = Err (DependencyCycle "a").
Proof. reflexivity. Qed.

(** A done dependency can be reopened under a node that is done: only the nodes a
    version names are checked. *)
Example reopened_dependency :
  let g := plan_versions 7 [[change "a" [] (Some WDone) ["e"]; change "b" ["a"] (Some WDone) ["e"]];
                            [change "a" [] (Some WActive) []]] {| wg_nodes := [] |} in
  wn_status <$> wg_nodes g = [WActive; WDone].
Proof. reflexivity. Qed.

(** A star within a name hides an overlap. *)
Example star_in_name : write_scopes_overlap ["src/*.rs"] ["src/a.rs"] = [].
Proof. reflexivity. Qed.

Lemma work_done_checked_witness :
  ∃ n, node (wg_nodes (WorkGraph_apply 7 3 [change "fix" ["read"] (Some WDone) ["e"]] three_steps).1) "fix"
         = Some n ∧ wn_status n = WDone ∧ wn_evidence_refs n ≠ [].
Proof.
  eexists. split; [vm_compute; reflexivity|]. split; [reflexivity|].
  refine (proj1 (work_done_checked 7 3 [change "fix" ["read"] (Some WDone) ["e"]] three_steps _
    (Ok _) _ _ "fix" _ _ _ _)).
  - vm_compute. reflexivity.
  - apply (apply_accepted 7 2 [change "read" [] (Some WDone) ["offset:12"]]
      (plan_versions 7 [[change "read" [] None []; change "fix" ["read"] None [];
         change "test" ["fix"] None []]] {| wg_nodes := [] |}) three_steps _ ltac:(vm_compute; reflexivity)).
    apply (apply_accepted 7 1 [change "read" [] None []; change "fix" ["read"] None [];
         change "test" ["fix"] None []] {| wg_nodes := [] |} _ _ ltac:(vm_compute; reflexivity)).
    apply graph_inv_nil.
  - left.
  - vm_compute. reflexivity.
  - reflexivity.
Defined.

Lemma write_scopes_separate_witness :
  inside "src/api/" "src/api/users.rs" ∧ ¬ inside "src/web/**" "src/api/users.rs".
Proof.
  assert (H : inside "src/api/" "src/api/users.rs").
  { split; [discriminate|]. right. right. right. by exists "users.rs". }
  split; [exact H|].
  apply (write_scopes_separate ["src/api/"] ["src/web/**"] "src/api/" "src/web/**");
    [reflexivity|left|left|exact H].
Defined.
