(* ===== verification/ToolProjection.v ===== *)
(** * The tool projection and its budget

    [crates/core-runtime/src/projection.rs]: the modes in which the tools are
    offered to the model, and the degradation of a projection whose schemas cost
    more than its budget. Sizes are [usize] on 64 bits. *)

From S2P Require Import Prelude RustStr BTree External AutoDef Filter.
#[local] Open Scope Z_scope.

Inductive ProjectionMode := ProjectionMode_Direct | ProjectionMode_ExecOnly | ProjectionMode_Typed.

Definition ProjectionMode_default : ProjectionMode := ProjectionMode_Direct.

Definition ProjectionMode_as_str (self : ProjectionMode) : string :=
  match self with
  | ProjectionMode_Direct => "direct"
  | ProjectionMode_ExecOnly => "exec_only"
  | ProjectionMode_Typed => "typed"
  end.

Definition ProjectionMode_parse (s : string) : option ProjectionMode :=
  let s := trim s in
  if s =s "direct" then Some ProjectionMode_Direct
  else if s =s "exec_only" then Some ProjectionMode_ExecOnly
  else if s =s "typed" then Some ProjectionMode_Typed
  else None.

Definition EXEC_ONLY_SURFACE : list string :=
  ["proc.exec"; "proc.wait"; "user.ask"; "plan.update"; "task.complete"; "tool.search"].
Definition EXEC_ONLY_DEFERRED : list string := ["repair.attempt"; "context.fast"; "verify.run"].
Definition PROGRAM_TOOLS : list string := ["proc.exec"; "proc.wait"].
Definition AGENT_TOOLS : list string :=
  ["agent.spawn"; "agent.wait"; "agent.result"; "agent.cancel"; "agent.attend"; "agent.park";
   "agent.resume"; "agent.steer"].

(** [Value::to_string]. *)
Class ValueText := value_text : jvalue → string.

Definition schema_bytes `{ValueText} (name description : string) (input_schema : jvalue) : Z :=
  wrap64 (str_len name + str_len description + str_len (value_text input_schema)).

Definition is_core_registry (name : string) : bool :=
  starts_with "fs." name || starts_with "change." name || starts_with "shell." name
  || contains_str ["search.retrieve"; "search.exact"; "context.pack"; "proc.exec"; "proc.wait"] name.

(** The arms of [drop_rank], in the order of the code. *)
Definition drop_rank (name : string) (activated : bool) : Z :=
  if contains_str ["agent.attend"; "agent.park"; "agent.resume"; "agent.steer"] name then 0
  else if contains_str ["agent.cancel"; "agent.result"; "agent.wait"; "agent.spawn"] name then 1
  else if name =s "context.fast" then 2
  else if name =s "verify.run" then 3
  else if activated && negb (is_core_registry name) then 4
  else if contains_str ["search.retrieve"; "context.pack"] name then 5
  else if contains_str ["search.exact"; "shell.start"; "shell.read"; "shell.cancel"] name then 6
  else if name =s "shell.exec" then 7
  else if starts_with "fs." name then 8
  else if starts_with "change." name then 9
  else if contains_str ["proc.exec"; "proc.wait"] name then 10
  else 4.

Definition never_dropped (name : string) : bool :=
  contains_str ["user.ask"; "plan.update"; "task.complete"; "tool.search"; "review.report"] name.

Record Costed := { co_name : string; co_bytes : Z; co_activated : bool; co_pinned : bool }.
Record Dropped := { dr_name : string; dr_bytes : Z }.

Record BudgetOutcome := {
  bo_budget : option Z;
  bo_projected_bytes : Z;
  bo_requested_bytes : Z;
  bo_dropped : list Dropped;
  bo_over_budget : bool
}.

Definition BudgetOutcome_unbounded (bytes : Z) : BudgetOutcome :=
  {| bo_budget := None; bo_projected_bytes := bytes; bo_requested_bytes := bytes;
     bo_dropped := []; bo_over_budget := false |}.

Definition droppable (t : Costed) : bool := negb (never_dropped (co_name t)) && negb (co_pinned t).

(** The order of [min_by]: by rank, the larger of equals first, then by name. *)
Definition drops_before (a b : Costed) : comparison :=
  match drop_rank (co_name a) (co_activated a) ?= drop_rank (co_name b) (co_activated b) with
  | Eq =>
      match co_bytes b ?= co_bytes a with
      | Eq => String.compare (co_name a) (co_name b)
      | c => c
      end
  | c => c
  end.

(** [enumerate().filter(droppable).min_by(drops_before)]: the first least. *)
Fixpoint victim (i : nat) (kept : list Costed) : option (nat * Costed) :=
  match kept with
  | [] => None
  | t :: kept =>
      let rest := victim (S i) kept in
      if droppable t then
        match rest with
        | Some (j, m) => match drops_before m t with Lt => Some (j, m) | _ => Some (i, t) end
        | None => Some (i, t)
        end
      else rest
  end.

(** The [while] loop; every round removes a tool, so one round more than there
    are tools is enough ([drop_loop_exact]). *)
Fixpoint drop_loop (fuel : nat) (budget : Z) (kept : list Costed) (total : Z)
    (dropped : list Dropped) : Z * list Dropped :=
  match fuel with
  | O => (total, dropped)
  | S fuel =>
      if budget <? total then
        match victim 0 kept with
        | None => (total, dropped)
        | Some (i, t) =>
            drop_loop fuel budget (vec_remove i kept) (wrap64 (total - co_bytes t))
              (dropped ++ [{| dr_name := co_name t; dr_bytes := co_bytes t |}])
        end
      else (total, dropped)
  end.

Definition sum_bytes (tools : list Costed) : Z :=
  foldl (λ n t, wrap64 (n + co_bytes t)) 0 tools.

Definition enforce_budget (tools : list Costed) (budget : option Z) : BudgetOutcome :=
  let requested := sum_bytes tools in
  match budget with
  | None => BudgetOutcome_unbounded requested
  | Some budget =>
      let '(total, dropped) := drop_loop (S (length tools)) budget tools requested [] in
      {| bo_budget := Some budget; bo_projected_bytes := total; bo_requested_bytes := requested;
         bo_dropped := dropped; bo_over_budget := budget <? total |}
  end.

(** [v[key]] and [as_str] on a JSON value. *)
Definition index_str (v : jvalue) (key : string) : option string := str_of v key.

Definition signature_type (v : jvalue) : string :=
  match index_str v "type" with
  | Some t =>
      if t =s "array" then
        default "any" (i ← jget v "items"; index_str i "type") +:+ "[]"
      else t
  | None => "any"
  end.

Definition compact_signature (name : string) (schema : jvalue) : string :=
  let required := strings_of schema "required" in
  let fields :=
    match jget schema "properties" with
    | Some (Jobject props) =>
        (λ kv, kv.1 +:+ (if contains_str required kv.1 then "" else "?") +:+ ": " +:+
               signature_type kv.2) <$> props
    | _ => []
    end in
  "tools." +:+ name +:+ "({" +:+ Prelude.join ", " fields +:+ "})".

(** ** What the budget drops *)

Definition rank (t : Costed) : Z := drop_rank (co_name t) (co_activated t).
Definition as_dropped (t : Costed) : Dropped := {| dr_name := co_name t; dr_bytes := co_bytes t |}.

(** The exact sum. *)
Fixpoint bytes_of (l : list Costed) : Z :=
  match l with [] => 0 | t :: l => co_bytes t + bytes_of l end.

Lemma bytes_of_app a b : bytes_of (a ++ b) = bytes_of a + bytes_of b.
Proof. induction a as [|t a IH]; cbn; [done|]. lia. Qed.

Lemma bytes_of_nonneg l : Forall (λ t, 0 ≤ co_bytes t) l → 0 ≤ bytes_of l.
Proof. induction 1; cbn; lia. Qed.

Lemma sum_bytes_exact l n :
  Forall (λ t, 0 ≤ co_bytes t) l → 0 ≤ n → n + bytes_of l ≤ u64_max →
  foldl (λ n t, wrap64 (n + co_bytes t)) n l = n + bytes_of l.
Proof.
  intros Hl. revert n. induction Hl as [|t l Ht Hl IH]; intros n Hn Hb; cbn in *; [lia|].
  pose proof (bytes_of_nonneg l Hl). rewrite wrap64_small by (unfold in_u64; lia). rewrite IH; lia.
Qed.

Lemma drops_before_rank a b :
  match drops_before a b with Lt => rank a ≤ rank b | _ => rank b ≤ rank a end.
Proof.
  unfold drops_before, rank.
  destruct (Z.compare_spec (drop_rank (co_name a) (co_activated a))
    (drop_rank (co_name b) (co_activated b))); [|lia..].
  destruct (co_bytes b ?= co_bytes a); [destruct (String.compare _ _)|..]; lia.
Qed.

Lemma victim_spec i kept :
  match victim i kept with
  | None => Forall (λ t, droppable t = false) kept
  | Some (j, t) => ∃ pre post, kept = pre ++ t :: post ∧ j = (i + length pre)%nat ∧
      droppable t = true ∧ Forall (λ k, droppable k = true → rank t ≤ rank k) kept
  end.
Proof.
  revert i. induction kept as [|t kept IH]; intros i; cbn [victim]; [constructor|].
  specialize (IH (S i)). destruct (droppable t) eqn:Et.
  - destruct (victim (S i) kept) as [[j m]|].
    + destruct IH as (pre & post & -> & -> & Hm & Hall).
      pose proof (drops_before_rank m t) as Hc. destruct (drops_before m t).
      2:{ exists (t :: pre), post. split_and!; [done|cbn; lia|done|]. by constructor. }
      all: exists [], (pre ++ m :: post); split_and!; [done|cbn; lia|done|]; constructor; [done|].
      all: eapply Forall_impl; [exact Hall|]; intros k Hk Hd; specialize (Hk Hd); lia.
    + exists [], kept. split_and!; [done|cbn; lia|done|]. constructor; [done|].
      eapply Forall_impl; [exact IH|]. cbn. congruence.
  - destruct (victim (S i) kept) as [[j m]|].
    + destruct IH as (pre & post & -> & -> & Hm & Hall).
      exists (t :: pre), post. split_and!; [done|cbn; lia|done|]. constructor; [congruence|done].
    + by constructor.
Qed.

(** What has been dropped so far is as it should be: droppable, in rank order, and
    each drop was needed. *)
Record drops_ok (budget : Z) (kept dropped : list Costed) : Prop := {
  do_droppable : Forall (λ d, droppable d = true) dropped;
  do_order : ∀ d k, d ∈ dropped → k ∈ kept → droppable k = true → rank d ≤ rank k;
  do_needed : ∀ pre d, dropped = pre ++ [d] → budget < bytes_of kept + co_bytes d
}.

Lemma drop_loop_exact fuel budget tools kept dropped :
  tools ≡ₚ kept ++ dropped → Forall (λ t, 0 ≤ co_bytes t) tools → bytes_of kept ≤ u64_max →
  drops_ok budget kept dropped → (length kept < fuel)%nat →
  ∃ kept' dropped', tools ≡ₚ kept' ++ dropped' ∧
    drop_loop fuel budget kept (bytes_of kept) (as_dropped <$> dropped) =
      (bytes_of kept', as_dropped <$> dropped') ∧
    drops_ok budget kept' dropped' ∧
    (budget < bytes_of kept' → Forall (λ k, droppable k = false) kept').
Proof.
  revert kept dropped. induction fuel as [|fuel IH]; intros kept dropped Hp Hnn Hmax Hok Hf; [lia|].
  cbn [drop_loop]. destruct (Z.ltb_spec budget (bytes_of kept)) as [Hb|Hb].
  2:{ exists kept, dropped. split_and!; [done|done|done|lia]. }
  pose proof (victim_spec 0 kept) as Hv. destruct (victim 0 kept) as [[j t]|].
  2:{ exists kept, dropped. by split_and!. }
  destruct Hv as (pre & post & -> & -> & Hd & Hall). cbn [plus]. rewrite vec_remove_app.
  assert (Hkn : Forall (λ t, 0 ≤ co_bytes t) (pre ++ t :: post)).
  { apply Forall_forall. intros x Hx. rewrite Forall_forall in Hnn. apply Hnn. rewrite Hp.
    apply elem_of_app. by left. }
  assert (Hsum : bytes_of (pre ++ t :: post) = bytes_of (pre ++ post) + co_bytes t)
    by (rewrite !bytes_of_app; cbn; lia).
  assert (0 ≤ co_bytes t ∧ 0 ≤ bytes_of (pre ++ post)) as [Ht Hrest].
  { apply Forall_app in Hkn as [Hkp [Ht Hkq]%Forall_cons]. split; [done|].
    apply bytes_of_nonneg. by apply Forall_app. }
  rewrite Hsum, wrap64_small by (unfold in_u64; lia).
  replace (bytes_of (pre ++ post) + co_bytes t - co_bytes t) with (bytes_of (pre ++ post)) by lia.
  change [{| dr_name := co_name t; dr_bytes := co_bytes t |}] with (as_dropped <$> [t]).
  rewrite <- fmap_app. apply IH.
  - rewrite Hp. rewrite <- !app_assoc. cbn. apply Permutation_app_head.
    rewrite (Permutation_app_comm dropped [t]), app_assoc, (Permutation_app_comm post [t]). done.
  - done.
  - lia.
  - destruct Hok as [H1 H2 H3]. split.
    + apply Forall_app. by split; [|constructor].
    + rewrite Forall_forall in Hall. intros d k [Hin| ->%list_elem_of_singleton]%elem_of_app Hk Hdk.
      * apply H2; [done| |done]. apply elem_of_app. rewrite elem_of_cons.
        apply elem_of_app in Hk. tauto.
      * apply Hall; [|done]. apply elem_of_app. rewrite elem_of_cons. apply elem_of_app in Hk. tauto.
    + intros p d [_ ->]%app_inj_tail. lia.
  - rewrite length_app in *. cbn in Hf. lia.
Qed.

(** The budget of a projection. If the sizes add up within the type, the tools
    are split into those kept and those dropped, and the outcome reports exactly
    the bytes kept and the tools dropped, in order. Nothing protected or pinned is
    dropped; a dropped tool never ranks above a droppable one that was kept; the
    last drop was needed; and the outcome is over the budget exactly if what may
    never be dropped is, and then nothing else was kept. *)
Theorem enforce_budget_exact tools budget :
  Forall (λ t, 0 ≤ co_bytes t) tools → bytes_of tools ≤ u64_max →
  let o := enforce_budget tools (Some budget) in
  ∃ kept dropped, tools ≡ₚ kept ++ dropped ∧
    bo_projected_bytes o = bytes_of kept ∧ bo_requested_bytes o = bytes_of tools ∧
    bo_dropped o = as_dropped <$> dropped ∧
    drops_ok budget kept dropped ∧
    (bo_over_budget o = true ↔ budget < bytes_of kept) ∧
    (budget < bytes_of kept → Forall (λ k, droppable k = false) kept).
Proof.
  intros Hnn Hmax o.
  assert (Hreq : sum_bytes tools = bytes_of tools) by (apply sum_bytes_exact; done || lia).
  destruct (drop_loop_exact (S (length tools)) budget tools tools []) as (kept & dropped & Hp & Hl & Hok & Hov).
  - by rewrite app_nil_r.
  - done.
  - done.
  - split; [constructor|by intros d k Hd%elem_of_nil|by intros [] d E].
  - lia.
  - exists kept, dropped. unfold o, enforce_budget. rewrite Hreq. change (@nil Dropped) with (as_dropped <$> []).
    rewrite Hl. cbn. split_and!; try done. apply Z.ltb_lt.
Qed.

Definition crowded : list Costed :=
  [{| co_name := "task.complete"; co_bytes := 50; co_activated := false; co_pinned := false |};
   {| co_name := "fs.read"; co_bytes := 40; co_activated := false; co_pinned := false |};
   {| co_name := "agent.park"; co_bytes := 30; co_activated := false; co_pinned := false |};
   {| co_name := "verify.run"; co_bytes := 60; co_activated := false; co_pinned := true |}].

Lemma enforce_budget_exact_witness :
  let o := enforce_budget crowded (Some 120) in
  (dr_name <$> bo_dropped o) = ["agent.park"; "fs.read"] ∧ bo_over_budget o = false ∧
  ∃ kept dropped, crowded ≡ₚ kept ++ dropped ∧ drops_ok 120 kept dropped.
Proof.
  split; [reflexivity|]. split; [reflexivity|].
  destruct (enforce_budget_exact crowded 120) as (kept & dropped & Hp & _ & _ & _ & Hok & _).
  - repeat constructor; discriminate.
  - discriminate.
  - exists kept, dropped. by split.
Defined.
