(* ===== verification/ShellAcc.v ===== *)
(** * Shell effects: the accumulator, the program tables and the risk of a path

    The first half of [crates/tools/src/shell_class.rs]: what a classification
    collects ([Acc]) and reports ([ShellEffect]), the tables of programs, and the
    paths whose writing is more than a workspace write.

    No function of the classifier reads the accumulator it is handed: it only
    calls its methods, writes its flags and calls the classifier again. A function
    of the classifier is therefore translated to the list of those calls in the
    order in which it makes them ([Act]); [Acc_do] is what a call does to the
    accumulator, and ShellClass.v runs the recursive ones. *)

From S2P Require Import Prelude RustStr BTree ToolCall.
#[local] Open Scope Z_scope.

Definition MAX_DEPTH : nat := 6.
Definition MAX_REASONS : nat := 4.

Record ShellEffect := {
  se_class : EffectClass;
  se_inline_class : EffectClass;
  se_unclassified : bool;
  se_outside_workspace : bool;
  se_protected_path : bool;
  se_dependency_install : bool;
  se_reasons : list string
}.

(** [Ord::max] of the derived order. *)
Definition effect_max (a b : EffectClass) : EffectClass := if effect_gt a b then a else b.

Definition class_in (self : ShellEffect) (profile : string) : EffectClass :=
  if negb (profile =s "local_trusted") then se_class self
  else
    let known := effect_max (se_class self) (se_inline_class self) in
    if se_unclassified self then effect_max known EffectClass_ProtectedWrite else known.

Definition reason_in (self : ShellEffect) (profile : string) : option string :=
  if effect_gt (class_in self profile) EffectClass_ReversibleWrite
     && negb (match se_reasons self with [] => true | _ => false end)
  then Some (Prelude.join "; " (se_reasons self)) else None.

Record Acc := {
  acc_class : EffectClass;
  acc_inline : EffectClass;
  acc_unknown : bool;
  acc_outside_workspace : bool;
  acc_protected_path : bool;
  acc_dep_installs : Z;
  acc_taints_install : bool;
  acc_reasons : list string
}.

Definition Acc_new : Acc :=
  {| acc_class := EffectClass_ReversibleWrite; acc_inline := EffectClass_ReversibleWrite;
     acc_unknown := false; acc_outside_workspace := false; acc_protected_path := false;
     acc_dep_installs := 0; acc_taints_install := false; acc_reasons := [] |}.

Definition note (why : string) (self : Acc) : Acc :=
  if (length (acc_reasons self) <? MAX_REASONS)%nat && negb (contains_str (acc_reasons self) why)
  then { self with acc_reasons ::= λ l, l ++ [why] }
  else self.

(** A call that a function of the classifier makes. *)
Inductive Act :=
  | raise (class : EffectClass) (why : string)
  | raise_dependency_install (why : string)
  | raise_inline (class : EffectClass) (why : string)
  | unknown (why : string)
  | set_taints_install
  | set_outside_workspace
  | set_protected_path
  | Classify_cmd (argv : list string) (dyn_args : bool) (stdin : option string) (depth : nat)
  | Classify_string (src : string) (depth : nat).

Definition Acc_raise (class : EffectClass) (why : string) (self : Acc) : Acc :=
  let self := note why self in
  let self := if negb (effect_gt EffectClass_ExternalSideEffect class)
              then { self with acc_taints_install := true } else self in
  { self with acc_class := effect_max (acc_class self) class }.

Definition Acc_raise_dependency_install (why : string) (self : Acc) : Acc :=
  let self := note why self in
  { self with acc_dep_installs ::= λ n, wrap32 (n + 1);
              acc_class := effect_max (acc_class self) EffectClass_ExternalSideEffect }.

Definition Acc_raise_inline (class : EffectClass) (why : string) (self : Acc) : Acc :=
  let self := note why self in
  { self with acc_inline := effect_max (acc_inline self) class }.

Definition Acc_unknown (why : string) (self : Acc) : Acc :=
  { note ("unclassified: " +:+ why) self with acc_unknown := true }.

Definition Acc_do (self : Acc) (a : Act) : Acc :=
  match a with
  | raise class why => Acc_raise class why self
  | raise_dependency_install why => Acc_raise_dependency_install why self
  | raise_inline class why => Acc_raise_inline class why self
  | unknown why => Acc_unknown why self
  | set_taints_install => { self with acc_taints_install := true }
  | set_outside_workspace => { self with acc_outside_workspace := true }
  | set_protected_path => { self with acc_protected_path := true }
  | Classify_cmd _ _ _ _ | Classify_string _ _ => self
  end.

Definition Acc_run (acts : list Act) (self : Acc) : Acc := foldl Acc_do self acts.

Definition Acc_finish (self : Acc) : ShellEffect :=
  {| se_class := acc_class self;
     se_inline_class := acc_inline self;
     se_unclassified := acc_unknown self;
     se_outside_workspace := acc_outside_workspace self;
     se_protected_path := acc_protected_path self;
     se_dependency_install :=
       (0 <? acc_dep_installs self) && negb (acc_taints_install self)
       && bool_decide (acc_class self = EffectClass_ExternalSideEffect)
       && effect_gt EffectClass_ExternalSideEffect (acc_inline self);
     se_reasons := acc_reasons self |}.

Definition ascii_upper (a : ascii) : ascii :=
  if is_ascii_lower a then ascii_of_N (Z.to_N (byte_of a - 32)) else a.
Definition to_ascii_uppercase : string → string := str_map ascii_upper.

Definition dangerous_env (k : string) : bool :=
  let k := to_ascii_uppercase k in
  starts_with "LD_" k || starts_with "DYLD_" k
  || contains_str
       ["BASH_ENV"; "ENV"; "PROMPT_COMMAND"; "PATH"; "GIT_SSH"; "GIT_SSH_COMMAND";
        "GIT_EXTERNAL_DIFF"; "GIT_ASKPASS"; "GIT_PAGER"; "GIT_DIR"; "GIT_WORK_TREE";
        "GIT_CONFIG_COUNT"; "GIT_CONFIG_GLOBAL"; "PAGER"; "EDITOR"; "VISUAL"; "NODE_OPTIONS";
        "PYTHONSTARTUP"; "PYTHONPATH"; "RUSTC_WRAPPER"; "RUSTC_WORKSPACE_WRAPPER"; "RUSTFLAGS";
        "CARGO_BUILD_RUSTC_WRAPPER"] k.

(** ** Program tables *)

Definition SAFE : list string :=
  ["ls"; "cat"; "head"; "tail"; "wc"; "grep"; "egrep"; "fgrep"; "rg"; "ag"; "ack"; "fd";
   "fdfind"; "tree"; "stat"; "file"; "du"; "df"; "pwd"; "echo"; "printf"; "true"; "false";
   "test"; "["; "[["; "sleep"; "date"; "which"; "whereis"; "type"; "whoami"; "id";
   "uname"; "hostname"; "basename"; "dirname"; "realpath"; "readlink"; "sort"; "uniq";
   "cut"; "tr"; "diff"; "cmp"; "md5"; "md5sum"; "shasum"; "sha1sum"; "sha256sum";
   "sha512sum"; "cksum"; "xxd"; "od"; "hexdump"; "strings"; "jq"; "yq"; "less"; "more";
   "column"; "tac"; "rev"; "nl"; "paste"; "comm"; "join"; "fold"; "expand"; "unexpand";
   "seq"; "yes"; "printenv"; "mktemp"; "cd"; "pushd"; "popd"; "export"; "set"; "unset";
   "read"; "wait"; "exit"; "return"; ":"; "local"; "declare"; "typeset"; "readonly";
   "alias"; "unalias"; "shift"; "getopts"; "umask"; "ulimit"; "hash"; "let"; "break";
   "continue"; "fg"; "bg"; "jobs"; "history"; "tput"; "clear"; "reset"; "stty"; "tty";
   "locale"; "nproc"; "getconf"; "arch"; "sw_vers"; "lscpu"; "free"; "uptime"; "ps";
   "pgrep"; "lsof"; "pidof"; "expr"; "bc"; "dc"; "awk"; "gawk"; "mawk"; "sed"; "gsed";
   "tee"; "cp"; "mv"; "ln"; "rsync"; "mkdir"; "touch"; "install"; "chmod"; "truncate";
   "patch"; "tar"; "zip"; "unzip"; "gzip"; "gunzip"; "zcat"; "bzip2"; "xz"; "7z"; "7za";
   "iconv"; "base64"; "openssl"; "shuf"; "split"; "csplit"; "numfmt"; "units"; "bat";
   "delta"; "eza"; "exa"; "lsd"; "tokei"; "cloc"; "scc"; "ctags"; "shellcheck"; "shfmt";
   "hadolint"; "actionlint"; "yamllint"; "markdownlint"; "codespell"; "typos"; "diff3";
   "sdiff"; "colordiff"; "cargo-nextest"; "nextest"; "wasm-opt"; "sqlite3";
   "rustc-demangle"; "c++filt"; "nm"; "objdump"; "strip"; "ranlib"; "ar"; "as"; "ld";
   "otool"; "lipo"; "codesign"; "dsymutil"].

Definition BUILD : list string :=
  ["cargo"; "rustc"; "rustfmt"; "rustdoc"; "cargo-clippy"; "clippy-driver"; "rustup";
   "maturin"; "wasm-pack"; "trunk"; "go"; "gofmt"; "golangci-lint"; "npm"; "pnpm"; "yarn";
   "bun"; "tsc"; "tsx"; "ts-node"; "eslint"; "prettier"; "biome"; "vitest"; "jest";
   "mocha"; "ava"; "playwright"; "cypress"; "vite"; "webpack"; "rollup"; "esbuild";
   "turbo"; "nx"; "lerna"; "next"; "nuxt"; "astro"; "pip"; "pip3"; "pipx"; "pipenv";
   "poetry"; "pdm"; "uv"; "conda"; "mamba"; "rye"; "hatch"; "pytest"; "py.test"; "tox";
   "nox"; "ruff"; "mypy"; "pyright"; "black"; "isort"; "flake8"; "pylint"; "bandit";
   "coverage"; "sphinx-build"; "mkdocs"; "make"; "gmake"; "cmake"; "ctest"; "ninja";
   "meson"; "bazel"; "bazelisk"; "buck2"; "gradle"; "gradlew"; "mvn"; "mvnw"; "ant";
   "sbt"; "just"; "task"; "rake"; "bundle"; "gem"; "rspec"; "composer"; "phpunit";
   "phpstan"; "dotnet"; "msbuild"; "swift"; "swiftc"; "xcodebuild"; "xcrun"; "javac";
   "java"; "kotlinc"; "kotlin"; "scala"; "clang"; "clang++"; "gcc"; "g++"; "cc"; "c++";
   "protoc"; "buf"; "flatc"; "bison"; "flex"; "mix"; "rebar3"; "ghc"; "cabal"; "stack";
   "dune"; "zig"; "dart"; "flutter"; "opam"; "bats"; "tsup"; "tsc-alias"; "vue-tsc";
   "svelte-check"; "ng"; "stylelint"; "sass"; "tailwindcss"; "postcss"; "swc"; "babel";
   "parcel"; "oxlint"; "knip"; "depcheck"; "madge"; "vitepress"; "storybook"; "uvicorn";
   "gunicorn"; "alembic"; "staticcheck"; "goimports"; "gotestsum"; "rubocop"; "rails"].

Definition INTERPRETERS : list string :=
  ["python"; "python3"; "py"; "node"; "nodejs"; "deno"; "ruby"; "perl"; "php"; "lua";
   "luajit"; "rscript"; "julia"; "elixir"].

Definition SHELLS : list string :=
  ["sh"; "bash"; "zsh"; "dash"; "ksh"; "ash"; "fish"; "csh"; "tcsh"; "mksh"; "busybox"].

Definition NETWORK : list string :=
  ["curl"; "wget"; "nc"; "ncat"; "netcat"; "telnet"; "ftp"; "sftp"; "tftp"; "scp"; "ssh";
   "socat"; "nmap"; "mtr"; "ping"; "ping6"; "traceroute"; "dig"; "nslookup"; "host";
   "whois"; "aria2c"; "httpie"; "http"; "https"; "xh"; "lftp"; "mosh"; "docker"; "podman";
   "docker-compose"; "kubectl"; "helm"; "minikube"; "kind"; "terraform"; "tofu"; "pulumi";
   "ansible"; "ansible-playbook"; "vagrant"; "aws"; "gcloud"; "az"; "gsutil"; "doctl";
   "gh"; "glab"; "heroku"; "vercel"; "netlify"; "fly"; "flyctl"; "wrangler"; "firebase";
   "supabase"; "stripe"; "railway"; "pipx"; "npx"; "bunx"; "uvx"; "pnpx"; "brew"; "apt";
   "apt-get"; "aptitude"; "dnf"; "yum"; "apk"; "pacman"; "zypper"; "snap"; "flatpak";
   "port"; "nix"; "nix-env"; "choco"; "winget"; "scoop"; "open"; "xdg-open"; "mail";
   "sendmail"; "mutt"; "msmtp"; "twine"; "cargo-publish"; "jfrog"; "gem-push"; "conan";
   "vcpkg"; "pod"; "carthage"].

Definition SYSTEM : list string :=
  ["launchctl"; "systemctl"; "service"; "crontab"; "at"; "defaults"; "networksetup";
   "scutil"; "pmset"; "csrutil"; "spctl"; "tccutil"; "dscl"; "sysctl"; "mount"; "umount";
   "diskutil"; "hdiutil"; "ifconfig"; "route"; "iptables"; "pfctl"; "ufw"; "useradd";
   "userdel"; "usermod"; "groupadd"; "passwd"; "chsh"; "visudo"; "chown"; "chgrp";
   "xattr"; "osascript"; "kill"; "pkill"; "killall"; "shutdown"; "reboot"; "halt";
   "poweroff"; "telinit"; "chroot"; "setcap"; "update-alternatives"; "ldconfig";
   "modprobe"; "insmod"; "rmmod"; "nvram"; "bless"].

Definition SECRET_PROGRAMS : list string :=
  ["security"; "op"; "pass"; "gpg"; "gpg2"; "ssh-add"; "ssh-keygen"; "ssh-agent"; "age";
   "keychain"; "secret-tool"; "vault"; "sops"].

Definition DESTRUCTIVE : list string :=
  ["shred"; "srm"; "wipefs"; "mkfs"; "mke2fs"; "fdisk"; "sfdisk"; "parted"; "gdisk"].

Definition WRITERS_ALL : list string :=
  ["tee"; "touch"; "mkdir"; "chmod"; "truncate"; "patch"; "tar"; "zip"; "unzip"; "mv";
   "gzip"; "gunzip"; "bzip2"; "xz"; "7z"; "7za"; "split"].

Definition WRITERS_LAST : list string :=
  ["cp"; "ln"; "install"; "rsync"].

Definition DEPLOY_WORDS : list string :=
  ["deploy"; "publish"; "release"; "push"; "upload"; "login"; "logout"].

Definition NODE_PM : list string :=
  ["install"; "i"; "in"; "ins"; "add"; "ci"; "clean-install"; "update"; "up"; "upgrade";
   "upgrade-interactive"; "remove"; "rm"; "uninstall"; "un"; "link"; "ln"; "dedupe";
   "find-dupes"; "publish"; "unpublish"; "login"; "logout"; "adduser"; "token"; "owner";
   "access"; "deprecate"; "dist-tag"; "view"; "info"; "search"; "audit"; "outdated";
   "dlx"; "create"; "init"; "ping"; "doctor"; "fund"; "star"; "unstar"; "team"; "org";
   "hook"; "profile"; "self-update"; "patch"; "patch-commit"; "env"; "setup"; "store";
   "import"; "x"].

Definition PY_PM : list string :=
  ["install"; "i"; "uninstall"; "download"; "add"; "remove"; "update"; "upgrade"; "sync";
   "lock"; "publish"; "tool"; "self"; "create"; "wheel"; "index"; "search"; "inject";
   "ensurepath"; "python"].

Definition CARGO : list string :=
  ["install"; "publish"; "update"; "fetch"; "search"; "login"; "logout"; "owner"; "yank";
   "add"; "generate-lockfile"; "vendor"; "audit"; "deny"].

Definition GO : list string :=
  ["get"; "install"; "download"; "tidy"; "vendor"; "sync"].

Definition GEM_LIKE : list string :=
  ["install"; "uninstall"; "update"; "upgrade"; "add"; "remove"; "require"; "push";
   "yank"; "signin"; "signout"; "create-project"; "global"; "outdated"; "owner"; "fetch";
   "cert"; "pristine"].

Definition DOTNET : list string :=
  ["add"; "nuget"; "tool"; "workload"; "new"].

Definition DART : list string :=
  ["get"; "add"; "upgrade"; "downgrade"; "publish"; "global"; "remove"].

Definition SWIFT : list string :=
  ["resolve"; "update"].

Definition PW : list string :=
  ["install"; "install-deps"].

Definition RUSTUP : list string :=
  ["update"; "install"; "toolchain"; "component"; "target"; "self"; "default"; "override";
   "set"; "run"; "man"; "doc"].

Definition OPAM : list string :=
  ["install"; "update"; "upgrade"; "init"; "switch"; "pin"; "remove"].

Definition network_verbs (prog : string) : option (list string) :=
  if contains_str ["npm"; "pnpm"; "yarn"; "bun"] prog then Some NODE_PM
  else if contains_str ["pip"; "pip3"; "pipx"; "pipenv"; "poetry"; "pdm"; "uv"; "conda"; "mamba";
                        "rye"; "hatch"] prog then Some PY_PM
  else if prog =s "cargo" then Some CARGO
  else if prog =s "go" then Some GO
  else if contains_str ["gem"; "bundle"; "composer"; "mix"; "cabal"; "stack"] prog
  then Some GEM_LIKE
  else if prog =s "dotnet" then Some DOTNET
  else if contains_str ["dart"; "flutter"] prog then Some DART
  else if prog =s "swift" then Some SWIFT
  else if contains_str ["playwright"; "cypress"] prog then Some PW
  else if prog =s "rustup" then Some RUSTUP
  else if prog =s "opam" then Some OPAM
  else None.

(** ** Path risk *)

Definition HOME_SECRETS : list string :=
  [".ssh"; ".aws"; ".gnupg"; ".kube"; ".netrc"; ".npmrc"; ".pypirc"; ".git-credentials";
   ".docker/config.json"; ".config/gh"; ".config/gcloud"; ".azure"; ".password-store";
   ".cargo/credentials"; ".m2/settings.xml"; ".terraform.d/credentials";
   "Library/Keychains"].

(** The first prefix of the list that [p] has decides. *)
Fixpoint strip_first (prefixes : list string) (p : string) : option string :=
  match prefixes with
  | [] => None
  | pre :: prefixes =>
      match strip_prefix pre p with
      | Some r => Some r
      | None => strip_first prefixes p
      end
  end.

Definition under_home (p : string) : option string :=
  match strip_first ["~/"; "$HOME/"; "${HOME}/"] p with
  | Some r => Some r
  | None => r ← strip_first ["/Users/"; "/home/"] p; snd <$> split_once "/" r
  end.

Definition is_secret_path (p : string) : bool :=
  starts_with "/etc/shadow" p || starts_with "/etc/sudoers" p
  || match under_home p with
     | Some rest => existsb (λ s, (rest =s s) || starts_with (s +:+ "/") rest) HOME_SECRETS
     | None => false
     end.

Definition SYSTEM_ROOTS : list string :=
  ["/etc"; "/usr"; "/bin"; "/sbin"; "/lib"; "/lib64"; "/System"; "/Library";
   "/Applications"; "/opt"; "/boot"; "/root"; "/proc"; "/sys"; "/private/etc"; "/var/db";
   "/var/lib"; "/var/log"; "/var/root"; "/usr/local"].

Definition write_path_risk (p : string) : option string :=
  if str_is_empty p then None
  else if contains_str ["/"; "~"; "$HOME"; "${HOME}"] p
  then Some "a filesystem or home-directory root"
  else if existsb (λ c, c =s "..") (split_on "/" p)
  then Some "a path that climbs out of the workspace"
  else if match under_home p with Some rest => starts_with "." rest | None => false end
  then Some "a dotfile or config directory in the home directory"
  else if starts_with "/dev/" p && negb (contains_str ["/dev/null"; "/dev/stdout"; "/dev/stderr"] p)
  then Some "a device"
  else if existsb (λ r, (p =s r)
                        || match strip_prefix r p with Some x => starts_with "/" x | None => false end)
            SYSTEM_ROOTS
  then Some "a system location"
  else None.

Definition scan_secret_path (cand : string) : list Act :=
  if is_secret_path cand
  then [raise EffectClass_SecretAccess ("touches a credential store (`" +:+ cand +:+ "`)")]
  else [].

Definition scan_secret_paths (args : list string) : list Act :=
  flat_map (λ a,
    let v := match split_once "=" a with Some (_, v) => v | None => a end in
    scan_secret_path a ++ scan_secret_path v) args.

Definition check_write_paths (prog : string) (args : list string) : list Act :=
  let operands := List.filter (λ a, negb (starts_with "-" a)) args in
  let targets := if contains_str WRITERS_LAST prog
                 then match last operands with Some t => [t] | None => [] end
                 else operands in
  flat_map (λ t,
    match write_path_risk t with
    | Some why =>
        [set_outside_workspace;
         raise EffectClass_ProtectedWrite
           ("`" +:+ prog +:+ "` writes " +:+ why +:+ " (`" +:+ t +:+ "`)")]
    | None => []
    end) targets.
