(* ===== verification/ShellRead.v ===== *)
(** * Shell effects: reading a shell string

    The [Parser] of [crates/tools/src/shell_class.rs] and the loop of
    [classify_string] that cuts a script into commands. The text is kept as its
    bytes: every character the parser tells apart is ASCII, no byte of a
    multi-byte character is, and such characters are copied or skipped whole, so
    a cursor over the bytes reads the same words as one over the characters. A
    substitution met in a word is a [Classify_string] call. The loops over the
    input have as many rounds as there are bytes left and one more; every round
    reads a byte ([read_word_stops], [read_script_ends]). *)

From S2P Require Import Prelude RustStr ToolCall ShellAcc.
#[local] Open Scope Z_scope.

Definition TAB : ascii := "009".
Definition DQ : ascii := "034".
Definition SQ : ascii := "039".
Definition BSL : ascii := "092".
Definition BTICK : ascii := "096".
Definition text_of : list ascii → string := String.string_of_list_ascii.
Definition is_in (l : list ascii) (c : ascii) : bool := existsb (Ascii.eqb c) l.
Definition push (c : ascii) (text : string) : string := text +:+ String c "".

Record Word := { w_text : string; w_dynamic : bool }.

Record Cmd := {
  cmd_words : list Word;
  cmd_here_string : option string;
  cmd_heredoc : option string
}.

Record Parser := {
  pa_c : list ascii;
  pa_i : nat;
  pa_depth : nat;
  pa_pending_heredocs : list (string * bool)
}.

Definition rest_of (self : Parser) : list ascii := drop (pa_i self) (pa_c self).
Definition peek (self : Parser) : option ascii := pa_c self !! pa_i self.
Definition adv (n : nat) (self : Parser) : Parser := { self with pa_i ::= λ i, (i + n)%nat }.
Definition peek_is (c : ascii) (self : Parser) : bool :=
  match peek self with Some x => Ascii.eqb x c | None => false end.
Definition peek_in (l : list ascii) (self : Parser) : bool :=
  match peek self with Some x => is_in l x | None => false end.

(** Whether the text before the cursor ends in a white-space character; its last
    byte is at [i - 1]. *)
Definition prev_is_blank (self : Parser) : bool :=
  let back n := if (n <=? pa_i self)%nat then pa_c self !! (pa_i self - n)%nat else None in
  (pa_i self =? 0)%nat
  || match back 1%nat with Some z => is_ws1 z | None => false end
  || match back 2%nat, back 1%nat with Some y, Some z => is_ws2 y z | _, _ => false end
  || match back 3%nat, back 2%nat, back 1%nat with
     | Some x, Some y, Some z => is_ws3 x y z
     | _, _, _ => false
     end.

Fixpoint blanks (l : list ascii) : nat :=
  match l with
  | [] => 0%nat
  | c :: r =>
      if is_in [" "%char; TAB; CR] c then S (blanks r)
      else if Ascii.eqb c BSL then
        match r with
        | n :: r => if Ascii.eqb n NL then S (S (blanks r)) else 0%nat
        | [] => 0%nat
        end
      else 0%nat
  end.

Definition skip_blanks (self : Parser) : Parser := adv (blanks (rest_of self)) self.

Fixpoint skip_while (q : ascii → bool) (l : list ascii) : list ascii :=
  match l with
  | [] => []
  | c :: r => if q c then skip_while q r else l
  end.

Fixpoint count_while (q : ascii → bool) (l : list ascii) : nat :=
  match l with
  | [] => 0%nat
  | c :: r => if q c then S (count_while q r) else 0%nat
  end.

Definition next_non_blank_is_close_paren (self : Parser) : bool :=
  match skip_while (is_in [" "%char; TAB]) (rest_of (adv 1 self)) with
  | c :: _ => Ascii.eqb c ")"
  | [] => false
  end.

Fixpoint to_close_paren (l : list ascii) : nat :=
  match l with
  | [] => 0%nat
  | c :: r => if Ascii.eqb c ")" then 1%nat else S (to_close_paren r)
  end.

Definition skip_to_close_paren (self : Parser) : Parser := adv (to_close_paren (rest_of self)) self.

(** How many bytes there are up to and with the [close] that ends the nesting. *)
Fixpoint balanced (open close : ascii) (depth : nat) (quote : option ascii) (l : list ascii)
    : option nat :=
  match l with
  | [] => None
  | c :: r =>
      match quote with
      | Some q =>
          if Ascii.eqb c BSL && Ascii.eqb q DQ then
            match r with
            | [] => None
            | _ :: r => (λ n, S (S n)) <$> balanced open close depth quote r
            end
          else if Ascii.eqb c q then S <$> balanced open close depth None r
          else S <$> balanced open close depth quote r
      | None =>
          if Ascii.eqb c BSL then
            match r with
            | [] => None
            | _ :: r => (λ n, S (S n)) <$> balanced open close depth quote r
            end
          else if is_in [SQ; DQ] c then S <$> balanced open close depth (Some c) r
          else if Ascii.eqb c open then S <$> balanced open close (S depth) None r
          else if Ascii.eqb c close then
            let depth := (depth - 1)%nat in
            if (depth =? 0)%nat then Some 1%nat else S <$> balanced open close depth None r
          else S <$> balanced open close depth None r
      end
  end.

Definition read_balanced (open close : ascii) (self : Parser) : option string * Parser :=
  let l := rest_of self in
  match balanced open close 1 None l with
  | Some n => (Some (text_of (take (n - 1) l)), adv n self)
  | None => (None, adv (length l) self)
  end.

(** The text up to the closing backtick and how many bytes it takes. *)
Fixpoint backtick (l : list ascii) : option (string * nat) :=
  match l with
  | [] => None
  | c :: r =>
      if Ascii.eqb c BTICK then Some ("", 1%nat)
      else if Ascii.eqb c BSL then
        match r with
        | [] => None
        | n :: r => '(s, k) ← backtick r; Some (String n s, S (S k))
        end
      else '(s, k) ← backtick r; Some (String c s, S k)
  end.

Definition is_name_char (c : ascii) : bool := is_ascii_alnum c || Ascii.eqb c "_".

(** At a [$] or a backtick: whether the word became dynamic, its text, the cursor
    and the calls made. *)
Definition expansion (text : string) (self : Parser) : bool * string * Parser * list Act :=
  if peek_is BTICK self then
    let self := adv 1 self in
    match backtick (rest_of self) with
    | Some (inner, n) => (true, text, adv n self, [Classify_string inner (S (pa_depth self))])
    | None =>
        (true, text, adv (length (rest_of self)) self,
         [unknown "unterminated backtick substitution"])
    end
  else
    let self := adv 1 self in
    match peek self with
    | Some ch =>
        if Ascii.eqb ch "(" then
          let self := adv 1 self in
          if peek_is "(" self then
            let self := adv 1 self in
            let '(inner, self) := read_balanced "(" ")" self in
            match inner with
            | None => (false, push "0" text, self, [unknown "unterminated arithmetic expansion"])
            | Some _ =>
                let self := if peek_is ")" self then adv 1 self else self in
                (false, push "0" text, self, [])
            end
          else
            let '(inner, self) := read_balanced "(" ")" self in
            match inner with
            | Some inner => (true, text, self, [Classify_string inner (S (pa_depth self))])
            | None => (true, text, self, [unknown "unterminated command substitution"])
            end
        else if Ascii.eqb ch "{" then
          let '(inner, self) := read_balanced "{" "}" (adv 1 self) in
          match inner with
          | None => (true, text, self, [unknown "unterminated parameter expansion"])
          | Some _ => (true, text, self, [])
          end
        else if is_name_char ch || is_in ["@"; "*"; "#"; "?"; "$"; "!"; "-"]%char ch then
          let self := adv 1 self in
          let self := if is_ascii_alpha ch || Ascii.eqb ch "_"
                      then adv (count_while is_name_char (rest_of self)) self else self in
          (true, text, self, [])
        else (false, push "$" text, self, [])
    | None => (false, push "$" text, self, [])
    end.

(** The text up to the closing single quote and how many bytes it takes. *)
Fixpoint single_quoted (l : list ascii) : option (string * nat) :=
  match l with
  | [] => None
  | c :: r =>
      if Ascii.eqb c SQ then Some ("", 1%nat)
      else '(s, k) ← single_quoted r; Some (String c s, S k)
  end.

(** Inside double quotes; the first component is whether they are closed. *)
Fixpoint double_quoted (fuel : nat) (text : string) (dynamic : bool) (self : Parser)
    (acts : list Act) : bool * string * bool * Parser * list Act :=
  match fuel with
  | O => (false, text, dynamic, self, acts)
  | S fuel =>
      match peek self with
      | None => (false, text, dynamic, self, acts ++ [unknown "unterminated double quote"])
      | Some c =>
          if Ascii.eqb c DQ then (true, text, dynamic, adv 1 self, acts)
          else if Ascii.eqb c BSL then
            let self := adv 1 self in
            match peek self with
            | Some n =>
                let text := if negb (is_in [DQ; BSL; "$"%char; BTICK; NL] n)
                            then push BSL text else text in
                let text := if negb (Ascii.eqb n NL) then push n text else text in
                double_quoted fuel text dynamic (adv 1 self) acts
            | None => double_quoted fuel text dynamic self acts
            end
          else if is_in ["$"%char; BTICK] c then
            let '(d, text, self, a) := expansion text self in
            double_quoted fuel text (dynamic || d) self (acts ++ a)
          else double_quoted fuel (push c text) dynamic (adv 1 self) acts
      end
  end.

Definition WORD_END : list ascii := [" "%char; TAB; NL; CR; ";"%char; "&"%char; "|"%char; "("%char;
  ")"%char; "<"%char; ">"%char].

Fixpoint word_loop (fuel : nat) (text : string) (dynamic : bool) (self : Parser) (acts : list Act)
    : Word * Parser * list Act :=
  match fuel with
  | O => ({| w_text := text; w_dynamic := dynamic |}, self, acts)
  | S fuel =>
      match peek self with
      | None => ({| w_text := text; w_dynamic := dynamic |}, self, acts)
      | Some c =>
          if is_in WORD_END c then ({| w_text := text; w_dynamic := dynamic |}, self, acts)
          else if Ascii.eqb c BSL then
            let self := adv 1 self in
            match peek self with
            | Some n =>
                let text := if negb (Ascii.eqb n NL) then push n text else text in
                word_loop fuel text dynamic (adv 1 self) acts
            | None => word_loop fuel text dynamic self acts
            end
          else if Ascii.eqb c SQ then
            let self := adv 1 self in
            match single_quoted (rest_of self) with
            | Some (s, n) => word_loop fuel (text +:+ s) dynamic (adv n self) acts
            | None =>
                ({| w_text := text +:+ text_of (rest_of self); w_dynamic := true |},
                 adv (length (rest_of self)) self, acts ++ [unknown "unterminated single quote"])
            end
          else if Ascii.eqb c DQ then
            let self := adv 1 self in
            let '(closed, text, dynamic, self, acts) :=
              double_quoted (S (length (rest_of self))) text dynamic self acts in
            if closed then word_loop fuel text dynamic self acts
            else ({| w_text := text; w_dynamic := true |}, self, acts)
          else if is_in ["$"%char; BTICK] c then
            let '(d, text, self, a) := expansion text self in
            word_loop fuel text (dynamic || d) self (acts ++ a)
          else if is_in ["*"; "?"]%char c then word_loop fuel (push c text) true (adv 1 self) acts
          else word_loop fuel (push c text) dynamic (adv 1 self) acts
      end
  end.

Definition read_word (self : Parser) : Word * Parser * list Act :=
  if peek_in ["<"; ">"]%char self && peek_is "(" (adv 1 self) then
    let '(inner, self) := read_balanced "(" ")" (adv 2 self) in
    ({| w_text := "<(...)"; w_dynamic := true |}, self,
     match inner with
     | Some inner => [Classify_string inner (S (pa_depth self))]
     | None => [unknown "unterminated process substitution"]
     end)
  else word_loop (S (length (rest_of self))) "" false self [].

(** A path written by a redirection, and whether it is built from a variable. *)
Definition Risk : Type := string * bool.

Definition redirect_target (risks : list Risk) (self : Parser) : list Risk * Parser * list Act :=
  let self := skip_blanks self in
  let '(w, self, acts) := read_word self in
  if contains_str ["/dev/null"; "/dev/stdout"; "/dev/stderr"; "/dev/tty"; ""] (w_text w)
     || starts_with "/dev/fd/" (w_text w)
  then (risks, self, acts)
  else (risks ++ [(w_text w, w_dynamic w)], self, acts).

(** At [<] or [>]. *)
Definition redirect (risks : list Risk) (cur : Cmd) (self : Parser)
    : list Risk * Cmd * Parser * list Act :=
  let ch := default ">"%char (peek self) in
  let self := adv 1 self in
  if Ascii.eqb ch ">" then
    if negb (peek_in [">"; "|"]%char self) && peek_is "&" self then
      let '(_, self, acts) := read_word (skip_blanks (adv 1 self)) in
      (risks, cur, self, acts)
    else
      let self := if peek_in [">"; "|"]%char self then adv 1 self else self in
      let '(risks, self, acts) := redirect_target risks self in
      (risks, cur, self, acts)
  else if peek_is "<" self then
    let self := adv 1 self in
    if peek_is "<" self then
      let '(w, self, acts) := read_word (skip_blanks (adv 1 self)) in
      (risks, { cur with cmd_here_string := Some (w_text w) }, self, acts)
    else
      let strip_tabs := peek_is "-" self in
      let self := if strip_tabs then adv 1 self else self in
      let '(w, self, acts) := read_word (skip_blanks self) in
      (risks, cur, { self with pa_pending_heredocs ::= λ l, l ++ [(w_text w, strip_tabs)] }, acts)
  else
    let self := if peek_is "&" self then adv 1 self else self in
    let '(_, self, acts) := read_word (skip_blanks self) in
    (risks, cur, self, acts).

(** One line without its newline, and how many bytes it takes with it. *)
Fixpoint take_line (l : list ascii) : string * nat :=
  match l with
  | [] => ("", 0%nat)
  | c :: r =>
      if Ascii.eqb c NL then ("", 1%nat)
      else let '(s, n) := take_line r in (String c s, S n)
  end.

Fixpoint heredoc_body (fuel : nat) (delim : string) (strip : bool) (body : string) (self : Parser)
    : string * Parser :=
  match fuel with
  | O => (body, self)
  | S fuel =>
      match peek self with
      | None => (body, self)
      | Some _ =>
          let '(line, n) := take_line (rest_of self) in
          let self := adv n self in
          let cmp := if strip then trim_start_by (Ascii.eqb TAB) line else line in
          if cmp =s delim then (body, self)
          else heredoc_body fuel delim strip (push NL (body +:+ line)) self
      end
  end.

Definition consume_heredoc (st : Cmd * Parser) (pending : string * bool) : Cmd * Parser :=
  let '(cur, self) := st in
  let '(delim, strip) := pending in
  let '(body, self) := heredoc_body (S (length (rest_of self))) delim strip "" self in
  ({ cur with cmd_heredoc := Some body }, self).

Definition consume_heredocs (cur : Cmd) (self : Parser) : Cmd * Parser :=
  foldl consume_heredoc (cur, { self with pa_pending_heredocs := [] }) (pa_pending_heredocs self).

Definition Cmd_empty : Cmd := {| cmd_words := []; cmd_here_string := None; cmd_heredoc := None |}.

(** A command with no words is dropped, and with it what it was given to read. *)
Definition end_cmd (cur : Cmd) (cmds : list Cmd) : Cmd * list Cmd :=
  match cmd_words cur with
  | [] => (Cmd_empty, cmds)
  | _ => (Cmd_empty, cmds ++ [cur])
  end.

(** The variables of the loop of [classify_string] and the calls made so far. *)
Record Script := {
  sc_p : Parser;
  sc_cur : Cmd;
  sc_cmds : list Cmd;
  sc_risks : list Risk;
  sc_acts : list Act
}.

Definition push_word (w : Word) (cur : Cmd) : Cmd := { cur with cmd_words ::= λ l, l ++ [w] }.

Definition Script_end_cmd (s : Script) : Script :=
  let '(cur, cmds) := end_cmd (sc_cur s) (sc_cmds s) in
  { s with sc_cur := cur; sc_cmds := cmds }.

Definition Script_word (p : Parser) (s : Script) : Script :=
  let '(w, p, acts) := read_word p in
  { s with sc_p := p; sc_cur ::= push_word w; sc_acts ::= λ a, a ++ acts }.

(** At one of [; & | ( )]. *)
Definition Script_separator (ch : ascii) (p : Parser) (s : Script) : Script :=
  if Ascii.eqb ch "(" && (length (cmd_words (sc_cur s)) =? 1)%nat
     && next_non_blank_is_close_paren p
  then { s with sc_p := skip_to_close_paren p; sc_cur ::= λ c, { c with cmd_words := [] } }
  else
    let p := adv 1 p in
    if Ascii.eqb ch "&" && peek_is ">" p then
      let p := adv 1 p in
      let p := if peek_is ">" p then adv 1 p else p in
      let '(risks, p, acts) := redirect_target (sc_risks s) p in
      { s with sc_p := p; sc_risks := risks; sc_acts ::= λ a, a ++ acts }
    else
      let p := if peek_in ["&"; "|"; ";"]%char p && negb (Ascii.eqb ch "(")
                  && negb (Ascii.eqb ch ")") then adv 1 p else p in
      Script_end_cmd { s with sc_p := p }.

(** The [match] on the next character that is not a blank. *)
Definition Script_step (ch : ascii) (p : Parser) (s : Script) : Script :=
  if Ascii.eqb ch NL then
    let '(cur, p) := consume_heredocs (sc_cur s) (adv 1 p) in
    Script_end_cmd { s with sc_p := p; sc_cur := cur }
  else if is_in [";"; "&"; "|"; "("; ")"]%char ch then Script_separator ch p s
  else if is_in ["<"; ">"]%char ch then
    if peek_is "(" (adv 1 p) then Script_word p s
    else
      let '(risks, cur, p, acts) := redirect (sc_risks s) (sc_cur s) p in
      { s with sc_p := p; sc_cur := cur; sc_risks := risks; sc_acts ::= λ a, a ++ acts }
  else if Ascii.eqb ch "#"
          && (match cmd_words (sc_cur s) with [] => true | _ => false end || prev_is_blank p) then
    { s with sc_p := adv (count_while (λ c, negb (Ascii.eqb c NL)) (rest_of p)) p }
  else
    let '(w, p', acts) := read_word p in
    if str_all is_ascii_digit (w_text w) && negb (str_is_empty (w_text w))
       && peek_in ["<"; ">"]%char p'
    then { s with sc_p := p'; sc_acts ::= λ a, a ++ acts }
    else { s with sc_p := p'; sc_cur ::= push_word w; sc_acts ::= λ a, a ++ acts }.

Fixpoint read_loop (fuel : nat) (s : Script) : Script :=
  match fuel with
  | O => s
  | S fuel =>
      let p := skip_blanks (sc_p s) in
      match peek p with
      | None => { s with sc_p := p }
      | Some ch => read_loop fuel (Script_step ch p s)
      end
  end.

Definition Script_new (src : string) (depth : nat) : Script :=
  {| sc_p := {| pa_c := String.list_ascii_of_string src; pa_i := 0; pa_depth := depth;
                pa_pending_heredocs := [] |};
     sc_cur := Cmd_empty; sc_cmds := []; sc_risks := []; sc_acts := [] |}.

(** [classify_string] up to the end of its loop. *)
Definition read_script (src : string) (depth : nat) : Script :=
  let s := read_loop (S (String.length src)) (Script_new src depth) in
  Script_end_cmd s.

Definition redirect_acts (r : Risk) : list Act :=
  let '(target, dynamic) := r in
  (if (dynamic : bool) then [unknown "a redirection to a path built from a variable"]
   else match write_path_risk target with
        | Some why =>
            [set_outside_workspace;
             raise EffectClass_ProtectedWrite
               ("a redirection writes " +:+ why +:+ " (`" +:+ target +:+ "`)")]
        | None => []
        end)
  ++ scan_secret_path target.

Definition RESERVED : list string :=
  ["if"; "then"; "elif"; "else"; "fi"; "while"; "until"; "do"; "done"; "!"; "{"; "}"; "time";
   "coproc"].

Definition is_assignment (w : string) : bool :=
  match split_once "=" w with
  | None => false
  | Some (name, _) =>
      let name := default name (strip_suffix "+" name) in
      negb (str_is_empty name) && str_all is_name_char name
      && negb (match name with String c _ => is_ascii_digit c | "" => false end)
  end.

(** The reserved words and assignments before the command word: the calls made
    for them and the words that remain. *)
Fixpoint leading (words : list Word) : list Act * list Word :=
  match words with
  | [] => ([], [])
  | w :: rest =>
      if negb (w_dynamic w) && contains_str RESERVED (w_text w) then leading rest
      else if is_assignment (w_text w) then
        let '(acts, words) := leading rest in
        (set_taints_install ::
         match split_once "=" (w_text w) with
         | Some (name, _) =>
             if dangerous_env name
             then [raise EffectClass_ProtectedWrite
                     ("`" +:+ name +:+ "` changes what programs load or run")]
             else []
         | None => []
         end ++ acts, words)
      else ([], words)
  end.

Definition classify_simple (cmd : Cmd) (depth : nat) : list Act :=
  let '(acts, words) := leading (cmd_words cmd) in
  acts ++
  match words with
  | [] => []
  | head :: tail =>
      if negb (w_dynamic head) && contains_str ["for"; "select"; "function"] (w_text head) then []
      else if negb (w_dynamic head) && (w_text head =s "case") then [unknown "a `case` statement"]
      else if negb (w_dynamic head) && contains_str ["in"; "esac"] (w_text head) then []
      else if w_dynamic head
      then [unknown "the command word is built from a variable or a substitution"]
      else
        let argv := w_text <$> words in
        let dyn_args := existsb w_dynamic tail in
        let stdin := match cmd_heredoc cmd with Some h => Some h | None => cmd_here_string cmd end in
        [Classify_cmd argv dyn_args stdin (S depth)]
  end.

Definition classify_string (src : string) (depth : nat) : list Act :=
  if (MAX_DEPTH <? depth)%nat then [unknown "shell strings nested too deeply to resolve"]
  else
    let s := read_script src depth in
    sc_acts s ++ flat_map redirect_acts (sc_risks s)
    ++ flat_map (λ cmd, classify_simple cmd depth) (sc_cmds s).
