(* ===== verification/ShellClass.v ===== *)
(** * Shell effects: classifying a command

    The second half of [crates/tools/src/shell_class.rs]: what a program with its
    arguments does, from the wrappers it is run through to the sub-commands of
    git, and the entry points that classify the arguments of a shell-backed call
    or a line typed into a terminal. *)

From S2P Require Import Prelude RustStr BTree ToolCall AutoDef Filter ShellAcc ShellRead.
#[local] Open Scope Z_scope.

Definition is_path_sep (c : ascii) : bool := is_in ["/"%char; BSL] c.

Definition basename (p : string) : string := rsplit_first is_path_sep p.

(** The program a command word names. *)
Definition program (first : string) : string :=
  let prog := to_ascii_lowercase (basename first) in
  default prog (strip_suffix ".exe" prog).

Definition before_dashdash (args : list string) : list string :=
  match position (λ a, a =s "--") args with
  | Some i => take i args
  | None => args
  end.

(** How many leading arguments are options; past the end counts as the end. *)
Fixpoint skip_options (value_opts : list string) (args : list string) : nat :=
  match args with
  | [] => 0%nat
  | a :: rest =>
      if a =s "--" then 1%nat
      else if negb (starts_with "-" a) || (a =s "-") then 0%nat
      else if contains_str value_opts a then
        match rest with
        | [] => 1%nat
        | _ :: rest => S (S (skip_options value_opts rest))
        end
      else S (skip_options value_opts rest)
  end.

Definition any_arg (names : list string) (args : list string) : bool :=
  existsb (contains_str names) args.

(** The assignments after the options of [env]. *)
Fixpoint env_assignments (args : list string) : list Act * list string :=
  match args with
  | [] => ([], [])
  | a :: rest =>
      if contains_char "=" a && negb (starts_with "-" a) then
        let name := hd "" (split_on "=" a) in
        let '(acts, cmd) := env_assignments rest in
        (set_taints_install ::
         (if dangerous_env name
          then [raise EffectClass_ProtectedWrite
                  ("`" +:+ name +:+ "` changes what programs load or run")]
          else []) ++ acts, cmd)
      else ([], args)
  end.

Definition PLAIN_WRAPPERS : list string :=
  ["nice"; "ionice"; "nohup"; "setsid"; "caffeinate"; "stdbuf"; "unbuffer"; "time"; "chronic";
   "command"; "builtin"; "exec"; "arch"].

Definition wrapper_value_opts (prog : string) : list string :=
  if prog =s "nice" then ["-n"; "--adjustment"]
  else if prog =s "ionice" then ["-c"; "-n"; "-p"; "-P"; "-u"]
  else if prog =s "caffeinate" then ["-t"; "-w"]
  else if prog =s "stdbuf" then ["-i"; "-o"; "-e"]
  else if prog =s "time" then ["-f"; "-o"; "--format"; "--output"]
  else if prog =s "exec" then ["-a"]
  else if prog =s "arch" then ["-arch"]
  else [].

(** The words of one [-exec]: up to the terminator, which stays in the rest. *)
Fixpoint exec_words (args : list string) : list string :=
  match args with
  | [] => []
  | a :: rest => if contains_str [";"; "+"; String BSL ";"] a then [] else a :: exec_words rest
  end.

(** Skipped is how many of the arguments belong to an [-exec] before them. *)
Fixpoint find_loop (depth : nat) (skip : nat) (args : list string) : list Act :=
  match args with
  | [] => []
  | a :: rest =>
      match skip with
      | S skip => find_loop depth skip rest
      | O =>
          if a =s "-delete" then
            raise EffectClass_Destructive "`find -delete` removes files" :: find_loop depth 0 rest
          else if contains_str ["-exec"; "-execdir"; "-ok"; "-okdir"] a then
            let cmd := exec_words rest in
            Classify_cmd cmd true None (S depth) :: find_loop depth (S (length cmd)) rest
          else find_loop depth 0 rest
      end
  end.

Definition classify_find (args : list string) (depth : nat) : list Act := find_loop depth 0 args.

(** The [match] on wrappers; [None] where it falls through. *)
Definition classify_wrapper (prog : string) (rest : list string) (dyn_args : bool)
    (stdin : option string) (depth : nat) : option (list Act) :=
  if prog =s "env" then
    let i := skip_options ["-u"; "-C"; "--unset"; "--chdir"; "-S"; "--split-string"] rest in
    let '(acts, cmd) := env_assignments (drop i rest) in
    Some (acts ++ [Classify_cmd cmd dyn_args stdin (S depth)])
  else if contains_str ["sudo"; "doas"] prog then
    let i := skip_options ["-u"; "-g"; "-h"; "-p"; "-C"; "-D"; "-r"; "-t"; "-U"; "-R"; "-T";
                           "--user"; "--group"; "--host"; "--prompt"; "--chdir"] rest in
    let inner := drop i rest in
    Some (raise EffectClass_ProtectedWrite ("`" +:+ prog +:+ "` runs with elevated privileges") ::
          match inner with
          | [] => [unknown "a privileged interactive shell"]
          | _ =>
              if any_arg ["-s"; "-i"] (take i rest)
              then [Classify_string (Prelude.join " " inner) (S depth)]
              else [Classify_cmd inner dyn_args stdin (S depth)]
          end)
  else if prog =s "su" then
    Some (raise EffectClass_ProtectedWrite "`su` switches user" ::
          match position (contains_str ["-c"; "--command"]) rest with
          | Some i =>
              match rest !! S i with
              | Some s => [Classify_string s (S depth)]
              | None => []
              end
          | None => [unknown "an interactive shell as another user"]
          end)
  else if contains_str PLAIN_WRAPPERS prog && negb (match rest with [] => true | _ => false end)
  then
    if (prog =s "command") && any_arg ["-v"; "-V"] rest then Some []
    else if negb (prog =s "arch") || starts_with "-" (hd "" rest) then
      let i := skip_options (wrapper_value_opts prog) rest in
      Some [Classify_cmd (drop i rest) dyn_args stdin (S depth)]
    else None
  else if (prog =s "timeout") && negb (match rest with [] => true | _ => false end) then
    let i := skip_options ["-k"; "--kill-after"; "-s"; "--signal"] rest in
    Some [Classify_cmd (drop (S i) rest) dyn_args stdin (S depth)]
  else if prog =s "xargs" then
    let i := skip_options ["-I"; "-J"; "-L"; "-l"; "-n"; "-P"; "-s"; "-d"; "-E"; "-a"; "-R"; "-S"]
               rest in
    match drop i rest with
    | [] => Some []
    | inner => Some [Classify_cmd inner true None (S depth)]
    end
  else if contains_str ["find"; "gfind"] prog then Some (classify_find rest depth)
  else if prog =s "eval" then Some [Classify_string (Prelude.join " " rest) (S depth)]
  else if prog =s "trap" then
    match List.find (λ a, negb (starts_with "-" a)) rest with
    | Some s => Some [Classify_string s (S depth)]
    | None => Some []
    end
  else if contains_str ["source"; "."] prog then Some []
  else None.

(** The options of a shell: how many arguments they take and whether one of them
    is [-c]. *)
Fixpoint shell_options (args : list string) : nat * bool :=
  match args with
  | [] => (0%nat, false)
  | a :: rest =>
      if a =s "--" then (1%nat, false)
      else if negb (starts_with "-" a) && negb (starts_with "+" a) then (0%nat, false)
      else if contains_str ["-o"; "+o"; "-O"; "+O"; "--rcfile"; "--init-file"] a then
        match rest with
        | [] => (2%nat, false)
        | _ :: rest => let '(i, inline) := shell_options rest in (S (S i), inline)
        end
      else if starts_with "-" a && negb (starts_with "--" a)
              && match a with String _ r => contains_char "c" r | "" => false end
      then (1%nat, true)
      else let '(i, inline) := shell_options rest in (S i, inline)
  end.

Definition classify_shell (prog : string) (args : list string) (stdin : option string)
    (depth : nat) : list Act :=
  let '(i, inline) := shell_options args in
  if inline then
    match args !! i with
    | Some s => [Classify_string s (S depth)]
    | None => [unknown "`-c` without a command string"]
    end
  else if (prog =s "busybox")
          && match args with a :: _ => negb (contains_str SHELLS a) | [] => false end
  then [Classify_cmd args false stdin (S depth)]
  else if is_some (args !! i) then []
  else match stdin with
       | Some s => [Classify_string s (S depth)]
       | None => [unknown "an interactive shell whose commands are not known"]
       end.

(** The options and operands of [rm]: whether it is recursive, and the operands. *)
Fixpoint rm_args (options_done : bool) (args : list string) : bool * list string :=
  match args with
  | [] => (false, [])
  | a :: rest =>
      if negb options_done && (a =s "--") then rm_args true rest
      else if negb options_done && starts_with "--" a then
        let '(recursive, operands) := rm_args options_done rest in
        (contains_str ["--recursive"; "--dir"; "--no-preserve-root"] a || recursive, operands)
      else if negb options_done && starts_with "-" a && (1 <? str_len a) then
        let '(recursive, operands) := rm_args options_done rest in
        (match a with String _ r => str_any (is_in ["r"; "R"; "d"]%char) r | "" => false end
         || recursive, operands)
      else
        let '(recursive, operands) := rm_args options_done rest in (recursive, a :: operands)
  end.

Definition rm_risky (o : string) : bool :=
  starts_with "/" o || starts_with "~" o || contains_char "$" o
  || existsb (λ c, c =s "..") (split_on "/" o) || contains_str ["."; "./"; ""] o.

Definition classify_rm (args : list string) (dyn_args : bool) : list Act :=
  let '(recursive, operands) := rm_args false args in
  if (recursive : bool) then [raise EffectClass_Destructive "recursive removal"]
  else if dyn_args then
    [raise EffectClass_Destructive "removal of targets named by a glob, a variable or a pipe"]
  else
    flat_map (λ o,
      if rm_risky o
      then [raise EffectClass_Destructive
              ("removal of `" +:+ o +:+ "`, a path outside or at the root of the workspace")]
      else []) operands.

(** The first marker of the list that the code contains. *)
Definition first_marker (c : string) (ms : list string) : option string :=
  List.find (λ m, str_contains m c) ms.

Definition DELETE_MARKERS : list string :=
  ["rm -rf"; "rm -fr"; "rmtree"; "rmsync"; "fs.rm"; "rimraf"; "removedirs"; "os.remove";
   "os.unlink"; "os.rmdir"; "fileutils.rm"; "file.delete"; "git push --force";
   "git reset --hard"; "git clean"].
Definition NETWORK_MARKERS : list string :=
  ["http://"; "https://"; "socket"; "urllib"; "requests."; "fetch("; "xmlhttprequest";
   "net.connect"; "smtplib"; "ftplib"; "paramiko"; "http.client"; "aiohttp"; "httpx"; "curl ";
   "wget "; "net/http"; "open-uri"; "lwp"; "git push"; "ssh "].
Definition RUN_MARKERS : list string :=
  ["os.system"; "subprocess"; "child_process"; "popen"; "system("; "exec("; "execsync"; "spawn(";
   "`"; "shell_exec"; "proc_open"; "passthru"; "eval("].

Definition scan_inline_code (code : string) : list Act :=
  let c := to_ascii_lowercase code in
  match first_marker c DELETE_MARKERS with
  | Some m => [raise_inline EffectClass_Destructive ("inline code deletes files (`" +:+ m +:+ "`)")]
  | None => []
  end ++
  match first_marker c NETWORK_MARKERS with
  | Some m => [raise_inline EffectClass_ExternalSideEffect
                 ("inline code reaches the network (`" +:+ m +:+ "`)")]
  | None => []
  end ++
  match first_marker c RUN_MARKERS with
  | Some m => [unknown ("inline code runs other programs (`" +:+ m +:+ "`)")]
  | None => []
  end.

Definition interpreter_flags (prog : string) : list string * list string :=
  if contains_str ["python"; "python3"; "py"] prog then (["-c"], ["-W"; "-X"; "-Q"])
  else if contains_str ["node"; "nodejs"] prog then
    (["-e"; "--eval"; "-p"; "--print"],
     ["-r"; "--require"; "--import"; "--loader"; "--env-file"; "--inspect-port"])
  else if prog =s "deno" then (["eval"], [])
  else if prog =s "ruby" then (["-e"], ["-I"; "-r"])
  else if prog =s "perl" then (["-e"; "-E"], ["-I"; "-M"])
  else if prog =s "php" then (["-r"], ["-d"; "-c"])
  else if contains_str ["lua"; "luajit"] prog then (["-e"], ["-l"])
  else if prog =s "rscript" then (["-e"], [])
  else if prog =s "julia" then (["-e"; "--eval"; "-E"], ["-p"; "-t"])
  else if prog =s "elixir" then (["-e"], ["-r"; "-pr"; "-pa"])
  else ([], []).

(** [python -m module], with the arguments after the module. *)
Definition python_module (module : string) (tail : list string) : list Act :=
  if contains_str ["pip"; "pipx"; "ensurepip"; "venv"] module then
    let verbs := default [] (network_verbs "pip") in
    if (module =s "ensurepip") || existsb (contains_str verbs) tail
    then [raise EffectClass_ExternalSideEffect
            ("`python -m " +:+ module +:+ "` installs packages from the network")]
    else []
  else if contains_str ["http.server"; "smtpd"; "aiosmtpd"; "xmlrpc.server"; "ftplib"] module
  then [raise EffectClass_ExternalSideEffect
          ("`python -m " +:+ module +:+ "` opens a network service")]
  else [].

(** The loop over the arguments; [None] where it runs to the end. *)
Fixpoint interpreter_loop (prog : string) (inline_flags value_flags : list string)
    (args : list string) : option (list Act) :=
  match args with
  | [] => None
  | a :: rest =>
      if contains_str inline_flags a then
        match rest with
        | code :: _ => Some (scan_inline_code code)
        | [] => Some [unknown "inline code flag without code"]
        end
      else if (prog =s "deno") && contains_str ["install"; "add"; "upgrade"; "publish"; "deploy"] a
      then Some [raise EffectClass_ExternalSideEffect
                   ("`deno " +:+ a +:+ "` reaches the network")]
      else if (prog =s "deno")
              && contains_str ["run"; "test"; "task"; "check"; "fmt"; "lint"; "bench"] a
      then Some []
      else if (starts_with "python" prog || (prog =s "py")) && (a =s "-m")
      then Some (python_module (hd "" rest) (drop 1 rest))
      else if (starts_with "python" prog || (prog =s "py")) && (a =s "-")
      then Some [unknown "code read from standard input"]
      else if starts_with "-" a then
        if contains_str value_flags a then
          match rest with
          | [] => None
          | _ :: rest => interpreter_loop prog inline_flags value_flags rest
          end
        else interpreter_loop prog inline_flags value_flags rest
      else Some []
  end.

Definition classify_interpreter (prog : string) (args : list string) : list Act :=
  let '(inline_flags, value_flags) := interpreter_flags prog in
  if any_arg ["--version"; "-V"; "-version"; "--help"; "-h"] args then []
  else match interpreter_loop prog inline_flags value_flags args with
       | Some acts => acts
       | None =>
           if (prog =s "node") && any_arg ["--test"] args then []
           else [unknown ("`" +:+ prog +:+ "` with no script: an interactive session")]
       end.

Definition REFUSED_FLAGS : list string :=
  ["-g"; "--global"; "--location"; "--prefix"; "--registry"; "--global-dir";
   "--userconfig"; "--globalconfig"; "--index"; "--config"; "--manifest-path";
   "--target-dir"].

(** The words that are not options, without the toolchain of [cargo +nightly]. *)
Definition build_words (prog : string) (head : list string) : list string :=
  List.filter (λ a, negb (starts_with "-" a) && negb ((prog =s "cargo") && starts_with "+" a)) head.

Definition is_dependency_install (prog : string) (head : list string) : bool :=
  if existsb (λ a, existsb (λ f, (a =s f) || starts_with (f +:+ "=") a) REFUSED_FLAGS) head
  then false
  else
    let words := build_words prog head in
    if contains_str ["npm"; "pnpm"; "bun"] prog then
      match words with
      | [w] => contains_str ["install"; "i"; "in"; "ins"; "ci"; "clean-install"; "install-clean"] w
      | _ => false
      end
    else if prog =s "yarn" then match words with [] => true | [w] => w =s "install" | _ => false end
    else if prog =s "cargo" then match words with [w] => w =s "fetch" | _ => false end
    else if prog =s "go" then
      match words with [v; w] => (v =s "mod") && (w =s "download") | _ => false end
    else false.

Definition names_delivery (t : string) : bool :=
  let t := to_ascii_lowercase t in
  existsb (λ w, (t =s w)
                || match strip_prefix w t with
                   | Some (String c _) => is_in [":"; "-"; "_"; "."]%char c
                   | _ => false
                   end) DEPLOY_WORDS.

Definition by_sub (prog : string) : bool :=
  contains_str ["cargo"; "go"; "dotnet"; "gem"; "bundle"; "composer"; "mix"; "cabal"; "stack";
                "rustup"; "opam"; "playwright"; "cypress"] prog.

(** The verb that reaches the network, if the arguments have one. *)
Definition network_hit (prog : string) (verbs head : list string) : option string :=
  let words := build_words prog head in
  let hit := if by_sub prog
             then match words with w :: _ => if contains_str verbs w then Some w else None | [] => None end
             else List.find (contains_str verbs) head in
  let hit := if prog =s "go" then
               match words with
               | first :: more =>
                   if contains_str ["get"; "install"] first then Some first
                   else if contains_str ["mod"; "work"] first then
                     match more with
                     | second :: _ =>
                         if contains_str ["download"; "tidy"; "vendor"; "sync"] second
                         then Some second else None
                     | [] => None
                     end
                   else None
               | [] => None
               end
             else hit in
  let hit := if (prog =s "npm") && any_arg ["exec"] head then Some "exec" else hit in
  if negb (is_some hit) && (prog =s "yarn") && forallb (starts_with "-") head
  then Some "(install)" else hit.

(** A target named like a delivery. *)
Definition delivery_target (prog : string) (head : list string) : option string :=
  if contains_str ["make"; "gmake"; "just"; "task"; "rake"; "gradle"; "gradlew"; "mvn"; "mvnw";
                   "ant"; "sbt"] prog
  then List.find names_delivery head
  else if contains_str ["npm"; "pnpm"; "yarn"; "bun"] prog then
    let non_flags := List.filter (λ a, negb (starts_with "-" a)) head in
    t ← match non_flags with
        | first :: more =>
            if contains_str ["run"; "run-script"; "run-s"; "run-p"] first then List.hd_error more
            else if negb (prog =s "npm") then List.find (λ a, negb (starts_with "-" a)) head
            else None
        | [] => None
        end;
    if names_delivery t then Some t else None
  else None.

Definition classify_delivery (prog : string) (head : list string) : list Act :=
  match delivery_target prog head with
  | Some t => [raise EffectClass_ExternalSideEffect
                 ("`" +:+ prog +:+ " " +:+ t +:+ "` names a delivery to an external service")]
  | None => []
  end.

Definition classify_build (prog : string) (args : list string) : list Act :=
  let head := before_dashdash args in
  match network_verbs prog with
  | None => classify_delivery prog head
  | Some verbs =>
      match (if contains_str ["pnpm"; "yarn"; "bun"] prog
             then position (λ a, a =s "exec") head else None) with
      | Some i => [Classify_cmd (drop (S i) args) false None 1]
      | None =>
          match network_hit prog verbs head with
          | Some h =>
              let why := "`" +:+ prog +:+ " " +:+ h
                         +:+ "` fetches, installs or publishes through the network" in
              if is_dependency_install prog head then [raise_dependency_install why]
              else [raise EffectClass_ExternalSideEffect why]
          | None => classify_delivery prog head
          end
      end
  end.

Definition RISKY : list string :=
  ["core."; "alias."; "credential."; "diff."; "merge."; "filter."; "protocol."; "url.";
   "sequence."; "gpg."; "uploadpack."; "receive."; "http."; "ssh."].

Definition short_has (a : string) (letters : list ascii) : bool :=
  starts_with "-" a && negb (starts_with "--" a)
  && match a with String _ r => str_any (is_in letters) r | "" => false end.

(** The options before the sub-command of git: the calls made for them and the
    arguments from the sub-command on. *)
Fixpoint git_options (args : list string) : list Act * list string :=
  match args with
  | [] => ([], [])
  | a :: rest =>
      if contains_str ["-C"; "--git-dir"; "--work-tree"; "--namespace"; "--super-prefix";
                       "--config-env"] a
      then match rest with [] => ([], []) | _ :: rest => git_options rest end
      else if a =s "-c" then
        match rest with
        | [] => ([], [])
        | kv :: rest =>
            let key := to_ascii_lowercase (hd "" (split_on "=" kv)) in
            let '(acts, cmd) := git_options rest in
            ((if existsb (λ p, starts_with p key) RISKY
              then [set_protected_path;
                    raise EffectClass_ProtectedWrite
                      ("`git -c " +:+ key +:+ "` can make git run arbitrary programs")]
              else []) ++ acts, cmd)
        end
      else if starts_with "-" a then git_options rest
      else ([], args)
  end.

Definition GIT_REMOTE : list string :=
  ["fetch"; "pull"; "clone"; "ls-remote"; "lfs"; "svn"; "cvs"; "p4"; "send-email"; "daemon";
   "http-fetch"; "http-push"; "fetch-pack"; "send-pack"; "imap-send"].

Definition GIT_LOCAL : list string :=
  ["add"; "commit"; "mv"; "merge"; "cherry-pick"; "revert"; "am"; "apply"; "status"; "diff"; "log";
   "show"; "blame"; "ls-files"; "ls-tree"; "rev-parse"; "rev-list"; "describe"; "shortlog";
   "cat-file"; "grep"; "format-patch"; "diff-tree"; "diff-index"; "merge-base"; "for-each-ref";
   "symbolic-ref"; "show-ref"; "name-rev"; "count-objects"; "fsck"; "verify-commit"; "verify-tag";
   "check-ignore"; "check-attr"; "notes"; "init"; "help"; "version"; "whatchanged"; "range-diff";
   "show-branch"; "stage"; "hash-object"; "mktree"; "write-tree"; "commit-tree"; "read-tree";
   "sparse-checkout"; "bundle"; "ls-remote-local"; "diff-files"; "apply-mailbox"; "var";
   "annotate"; "cherry"; "difftool-none"; "get-tar-commit-id"].

Section Git.
Variables (sub : string) (rest : list string) (dyn_args : bool) (depth : nat).

Let flags : list string := before_dashdash rest.
Let has (names : list string) : bool := any_arg names flags.
Let has_prefix (p : string) : bool := existsb (starts_with p) flags.
Let sub2 : string := default "" (List.find (λ f, negb (starts_with "-" f)) flags).

Definition push_forced : bool :=
  has ["--force"; "-f"; "--force-if-includes"; "--mirror"; "--delete"; "--prune"; "-d"]
  || has_prefix "--force-with-lease"
  || existsb (λ f, short_has f ["f"; "d"]%char) flags
  || existsb (λ a, (starts_with "+" a && (1 <? str_len a))
                   || (starts_with ":" a && (1 <? str_len a))) rest
  || dyn_args.

Definition classify_git_remote : list Act :=
  if contains_str [""; "get-url"] sub2 then []
  else if contains_str ["show"; "update"; "prune"] sub2 then
    [raise EffectClass_ExternalSideEffect ("`git remote " +:+ sub2 +:+ "` talks to a remote")]
  else if match flags with f :: _ => f =s "-v" | [] => false end then []
  else [raise EffectClass_ProtectedWrite
          ("`git remote " +:+ sub2 +:+ "` rewrites the repository configuration")].

Definition classify_git_branch : list Act :=
  if has ["-D"; "-d"; "--delete"; "-f"; "--force"]
     || existsb (λ f, short_has f ["d"; "D"; "f"]%char) flags
  then [raise EffectClass_Destructive "`git branch` that deletes or resets a branch"]
  else if has ["-u"; "--set-upstream-to"; "--unset-upstream"] || has_prefix "--set-upstream-to"
  then [set_protected_path;
        raise EffectClass_ProtectedWrite "`git branch -u` writes the repository configuration"]
  else [].

Definition classify_git_config : list Act :=
  let read := has ["--get"; "--get-all"; "--get-regexp"; "--list"; "-l"; "--show-origin";
                   "--get-urlmatch"; "--show-scope"; "--name-only"] in
  if negb read || has ["--global"; "--system"]
  then [set_protected_path;
        raise EffectClass_ProtectedWrite
          "`git config` writes configuration, which can name programs git runs"]
  else [].

(** The [match] on the sub-command. *)
Definition classify_git_sub : list Act :=
  if sub =s "push" then
    if push_forced
    then [raise EffectClass_Destructive "`git push` that forces, deletes or may force remote refs"]
    else [raise EffectClass_ExternalSideEffect "`git push` publishes to a remote"]
  else if contains_str GIT_REMOTE sub then
    [raise EffectClass_ExternalSideEffect ("`git " +:+ sub +:+ "` talks to a remote")]
  else if (sub =s "archive") && has_prefix "--remote" then
    [raise EffectClass_ExternalSideEffect "`git archive --remote` talks to a remote"]
  else if sub =s "remote" then classify_git_remote
  else if sub =s "submodule" then
    if contains_str ["status"; "summary"; ""] sub2 then []
    else [raise EffectClass_ExternalSideEffect
            ("`git submodule " +:+ sub2 +:+ "` fetches or runs commands in submodules")]
  else if sub =s "credential" then
    [raise EffectClass_SecretAccess "`git credential` reads stored credentials"]
  else if starts_with "credential-" sub then
    [raise EffectClass_SecretAccess "a git credential helper reads stored credentials"]
  else if sub =s "reset" then
    if has ["--hard"; "--merge"; "--keep"]
    then [raise EffectClass_Destructive "`git reset --hard` discards uncommitted work"] else []
  else if sub =s "clean" then
    if has ["-n"; "--dry-run"] || existsb (λ f, short_has f ["n"]%char) flags then []
    else [raise EffectClass_Destructive "`git clean` deletes untracked files"]
  else if sub =s "checkout" then
    if any_arg ["--"; "."; "-f"; "--force"; "--ours"; "--theirs"] rest
    then [raise EffectClass_Destructive "`git checkout` that overwrites files of the working tree"]
    else []
  else if sub =s "switch" then
    if has ["-f"; "--force"; "--discard-changes"]
    then [raise EffectClass_Destructive "`git switch --discard-changes` discards work"] else []
  else if sub =s "restore" then
    let staged_only := has ["--staged"; "-S"] && negb (has ["--worktree"; "-W"]) in
    if negb staged_only
    then [raise EffectClass_Destructive "`git restore` overwrites files of the working tree"]
    else []
  else if sub =s "stash" then
    if contains_str ["drop"; "clear"] sub2
    then [raise EffectClass_Destructive ("`git stash " +:+ sub2 +:+ "` discards stashed work")]
    else []
  else if sub =s "branch" then classify_git_branch
  else if sub =s "tag" then
    if has ["-d"; "--delete"; "-f"; "--force"]
    then [raise EffectClass_Destructive "`git tag` that deletes or moves a tag"] else []
  else if sub =s "rebase" then
    [raise EffectClass_ProtectedWrite "`git rebase` rewrites history"]
  else if contains_str ["filter-branch"; "filter-repo"; "replace"; "prune"] sub then
    [raise EffectClass_Destructive ("`git " +:+ sub +:+ "` rewrites or deletes history")]
  else if sub =s "reflog" then
    if contains_str ["expire"; "delete"] sub2
    then [raise EffectClass_Destructive "`git reflog` expiry deletes recovery points"] else []
  else if contains_str ["gc"; "repack"; "maintenance"] sub then
    let prune := has_prefix "--prune" || has ["-d"; "-a"; "--cruft"] in
    [raise (if prune then EffectClass_Destructive else EffectClass_ProtectedWrite)
       ("`git " +:+ sub +:+ "` rewrites the object store")]
  else if sub =s "update-ref" then
    [raise (if has ["-d"] then EffectClass_Destructive else EffectClass_ProtectedWrite)
       "`git update-ref` writes refs directly"]
  else if sub =s "worktree" then
    if contains_str ["remove"; "prune"] sub2 && has ["-f"; "--force"]
    then [raise EffectClass_Destructive "`git worktree remove --force` deletes a worktree"] else []
  else if sub =s "config" then classify_git_config
  else if sub =s "rm" then
    if has ["-f"; "--force"]
    then [raise EffectClass_Destructive "`git rm --force` deletes local modifications"] else []
  else if sub =s "bisect" then
    match position (λ a, a =s "run") rest with
    | Some p => [Classify_cmd (drop (S p) rest) false None (S depth)]
    | None => []
    end
  else if contains_str GIT_LOCAL sub then []
  else [unknown ("`git " +:+ sub
                 +:+ "` is not a sub-command the classifier knows (an alias runs anything)")].
End Git.

Definition classify_git (args : list string) (dyn_args : bool) (depth : nat) : list Act :=
  let '(acts, cmd) := git_options args in
  acts ++ match cmd with
          | [] => []
          | sub :: rest => classify_git_sub sub rest dyn_args depth
          end.

Definition rsync_remote (a : string) : bool :=
  negb (starts_with "-" a)
  && (contains_char "@" a
      || match split_once ":" a with Some (l, _) => 1 <? str_len l | None => false end).

(** The checks of [classify_cmd] that do not end it. *)
Definition classify_files (prog : string) (rest : list string) : list Act :=
  (if prog =s "rsync" then
     (if existsb (starts_with "--delete") rest
      then [raise EffectClass_Destructive "`rsync --delete` removes files"] else [])
     ++ (if existsb rsync_remote rest
         then [raise EffectClass_ExternalSideEffect "`rsync` copies to or from a remote host"]
         else [])
   else [])
  ++ (if contains_str ["sed"; "gsed"] prog
         && negb (existsb (λ a, (a =s "-i") || starts_with "-i" a) rest)
      then []
      else if contains_str WRITERS_ALL prog || contains_str WRITERS_LAST prog
      then check_write_paths prog rest else [])
  ++ (if contains_str ["awk"; "gawk"; "mawk"] prog && existsb (str_contains "system(") rest
      then [unknown "an awk program that runs commands"] else [])
  ++ (if (prog =s "openssl") && any_arg ["s_client"; "s_server"] rest
      then [raise EffectClass_ExternalSideEffect "`openssl s_client` opens a connection"] else []).

(** A relative path, which names a program of the project. *)
Definition is_project_path (first : string) : bool :=
  str_any is_path_sep first
  && (let windows_absolute :=
        starts_with (String BSL "") first || starts_with (".." +:+ String BSL "") first
        || match String.get 1 first with Some c => Ascii.eqb c ":" | None => false end in
      negb (starts_with "/" first) && negb (starts_with "../" first) && negb (starts_with "~" first)
      && negb windows_absolute).

(** [classify_cmd] after the wrappers. *)
Definition classify_program (first prog : string) (rest : list string) (dyn_args : bool)
    (stdin : option string) (depth : nat) : list Act :=
  if contains_str SHELLS prog then classify_shell prog rest stdin depth
  else if prog =s "git" then classify_git rest dyn_args depth
  else if contains_str ["rm"; "rmdir"; "unlink"; "trash"; "trash-put"] prog
  then classify_rm rest dyn_args
  else if prog =s "dd" then
    if existsb (starts_with "of=") rest
    then [raise EffectClass_Destructive "`dd of=` overwrites its target"] else []
  else if contains_str DESTRUCTIVE prog || starts_with "mkfs." prog then
    [raise EffectClass_Destructive ("`" +:+ prog +:+ "` destroys data irrecoverably")]
  else if contains_str SECRET_PROGRAMS prog then
    [raise EffectClass_SecretAccess ("`" +:+ prog +:+ "` reads or manages credentials")]
  else if contains_str NETWORK prog then
    [raise EffectClass_ExternalSideEffect
       ("`" +:+ prog +:+ "` reaches the network or an external service")]
  else if contains_str SYSTEM prog then
    [set_outside_workspace;
     raise EffectClass_ProtectedWrite
       ("`" +:+ prog +:+ "` changes system state outside the workspace")]
  else
    classify_files prog rest ++
    (if contains_str INTERPRETERS prog then classify_interpreter prog rest
     else if contains_str BUILD prog || (prog =s "gradlew") || (prog =s "mvnw")
     then classify_build prog rest
     else if contains_str SAFE prog then []
     else if is_project_path first then []
     else [unknown ("`" +:+ first +:+ "` is not a program the classifier knows")]).

Definition classify_cmd (argv : list string) (dyn_args : bool) (stdin : option string)
    (depth : nat) : list Act :=
  if (MAX_DEPTH <? depth)%nat then [unknown "commands nested too deeply to resolve"]
  else match argv with
       | [] => []
       | first :: rest =>
           let prog := program first in
           scan_secret_paths rest ++
           match classify_wrapper prog rest dyn_args stdin depth with
           | Some acts => acts
           | None => classify_program first prog rest dyn_args stdin depth
           end
       end.

(** ** Running the calls *)

(** The calls one call makes. *)
Definition step (a : Act) : list Act :=
  match a with
  | Classify_cmd argv dyn_args stdin depth => classify_cmd argv dyn_args stdin depth
  | Classify_string src depth => classify_string src depth
  | _ => []
  end.

Definition is_call (a : Act) : bool :=
  match a with Classify_cmd _ _ _ _ | Classify_string _ _ => true | _ => false end.

(** The effects of a call in their order, down to [fuel] nested calls. *)
Fixpoint effects (fuel : nat) (a : Act) : list Act :=
  if is_call a then
    match fuel with
    | O => []
    | S fuel => flat_map (effects fuel) (step a)
    end
  else [a].

(** A bound on the nesting: every call is one level deeper than the call that
    makes it, except the command after [pnpm exec], which starts again at the
    first level and has one word [exec], so one letter x, less. *)
Fixpoint count_x (s : string) : nat :=
  match s with
  | "" => 0%nat
  | String c s => ((if Ascii.eqb c "x" then 1 else 0) + count_x s)%nat
  end.

Definition count_xs (l : list string) : nat := foldr (λ s n, (count_x s + n)%nat) 0%nat l.

Definition call_bound (a : Act) : nat :=
  match a with
  | Classify_cmd argv _ stdin depth =>
      (8 * Nat.max (count_xs argv) (from_option count_x 0 stdin) + (7 - depth))%nat
  | Classify_string src depth => (8 * count_x src + (7 - depth))%nat
  | _ => 0%nat
  end.

(** All the effects of a call. *)
Definition all_effects (a : Act) : list Act := effects (S (call_bound a)) a.

(** ** Entry points *)

Definition env_effects (env : bmap jvalue) : list Act :=
  (if match env with [] => true | _ => false end then [] else [set_taints_install])
  ++ flat_map (λ k,
       if dangerous_env k
       then [raise EffectClass_ProtectedWrite
               ("`" +:+ k +:+ "` in env changes what programs load or run")]
       else []) env.*1.

Definition env_of (args : jvalue) : option (bmap jvalue) :=
  match jget args "env" with Some (Jobject m) => Some m | _ => None end.

Definition classify_args (args : jvalue) : ShellEffect :=
  let argv := strings_of args "argv" in
  let stdin := str_of args "stdin" in
  let acc := match env_of args with
             | Some env => Acc_run (env_effects env) Acc_new
             | None => Acc_new
             end in
  Acc_finish (Acc_run (all_effects (Classify_cmd argv false stdin 0)) acc).

Definition rule_argv (args : jvalue) : option (list string) :=
  if match env_of args with Some (_ :: _) => true | _ => false end then None
  else match jget args "argv" with
       | Some (Jarray _) => Some (strings_of args "argv")
       | _ => None
       end.

Definition is_prompt_answer (line : string) : bool :=
  let t := trim line in
  str_is_empty t || contains_str ["y"; "yes"; "n"; "no"; "q"; "a"] (to_ascii_lowercase t)
  || str_all is_ascii_digit t.

Definition is_bare_word (line : string) : bool :=
  let t := trim line in
  negb (str_is_empty t)
  && str_all (λ c, is_ascii_alnum c || is_in ["_"; "."; "@"; ":"; "-"]%char c) t
  && negb (starts_with "-" t).

(** A line that is one bare word, classified on its own. *)
Definition classify_word (line : string) (acc : Acc) : Acc :=
  let word := Acc_run (all_effects (Classify_string line 0)) Acc_new in
  let acc := { acc with acc_class := effect_max (acc_class acc) (acc_class word);
                        acc_inline := effect_max (acc_inline acc) (acc_inline word) } in
  foldl (λ acc why, note why acc) acc
    (List.filter (λ w, negb (starts_with "unclassified" w)) (acc_reasons word)).

Definition input_line (st : Acc * list string) (line : string) : Acc * list string :=
  let '(acc, script) := st in
  if is_bare_word line then (classify_word line acc, script) else (acc, script ++ [line]).

Definition classify_input (args : jvalue) : ShellEffect :=
  let text := default "" (str_of args "text") in
  let '(acc, script) :=
    foldl input_line (Acc_new, []) (List.filter (λ l, negb (is_prompt_answer l)) (lines text)) in
  let acc :=
    match script with
    | [] => acc
    | _ =>
        let script := Prelude.join (String NL "") script in
        Acc_run (scan_inline_code script) (Acc_run (all_effects (Classify_string script 0)) acc)
    end in
  Acc_finish acc.

Definition classify_argv (argv : list string) (stdin : option string) : ShellEffect :=
  Acc_finish (Acc_run (all_effects (Classify_cmd argv false stdin 0)) Acc_new).
