(* ===== verification/ShellTotal.v ===== *)
(** * Shell effects: the classifier ends on every input

    The reader reaches the end of the text it is given, and the nesting of calls
    is bounded by [call_bound]: whatever the words of a script are, no call hands
    on more letters x than it was given, a call is one level deeper than the call
    that makes it, and the one call that starts again at the first level (the
    command after [pnpm exec]) drops a word with an x. *)

From S2P Require Import Prelude RustStr ToolCall ShellAcc ShellRead ShellClass.
#[local] Open Scope nat_scope.

(** ** Counting *)

Lemma count_x_app s t : count_x (s +:+ t) = count_x s + count_x t.
Proof. induction s as [|c s IH]; [done|]. rewrite str_app_cons. cbn [count_x]. rewrite IH. lia. Qed.

Lemma count_x_push c s : count_x (push c s) = count_x s + count_x (String c "").
Proof. apply count_x_app. Qed.

Definition count_l (l : list ascii) : nat := count_x (text_of l).

Lemma count_l_app l k : count_l (l ++ k) = count_l l + count_l k.
Proof. unfold count_l, text_of. rewrite list_ascii_app. apply count_x_app. Qed.

Lemma count_l_cons c l : count_l (c :: l) = count_x (String c "") + count_l l.
Proof. exact (count_l_app [c] l). Qed.

Lemma count_l_take_drop n l : count_l (take n l) + count_l (drop n l) = count_l l.
Proof. by rewrite <- count_l_app, take_drop. Qed.

Lemma count_l_take n m l : n ≤ m → count_l (take n l) ≤ count_l (take m l).
Proof.
  intros H. rewrite <- (take_drop n (take m l)), count_l_app, take_take.
  replace (n `min` m) with n by lia. lia.
Qed.

Lemma count_xs_cons s l : count_xs (s :: l) = count_x s + count_xs l.
Proof. done. Qed.

Lemma count_xs_app l k : count_xs (l ++ k) = count_xs l + count_xs k.
Proof. induction l as [|s l IH]; [done|]. cbn [app]. rewrite !count_xs_cons, IH. lia. Qed.

Lemma count_xs_drop n l : count_xs (drop n l) ≤ count_xs l.
Proof. rewrite <- (take_drop n l) at 2. rewrite count_xs_app. lia. Qed.

Lemma count_xs_elem s l : s ∈ l → count_x s ≤ count_xs l.
Proof.
  intros (l1 & l2 & ->)%list_elem_of_split. rewrite count_xs_app, count_xs_cons. lia.
Qed.

Lemma count_xs_lookup i s l : l !! i = Some s → count_x s ≤ count_xs l.
Proof. intros H. by apply count_xs_elem, (list_elem_of_lookup_2 l i). Qed.

Lemma count_x_join l : count_x (Prelude.join " " l) = count_xs l.
Proof.
  induction l as [|s [|s' l] IH]; [done|apply eq_sym, Nat.add_0_r|].
  change (Prelude.join " " (s :: s' :: l)) with (s +:+ " " +:+ Prelude.join " " (s' :: l)).
  rewrite !count_x_app, IH, (count_xs_cons s). done.
Qed.

(** ** Calls *)

(** The calls a call at [depth] on at most [n] letters x may make; a dependency
    install is not among them, see [made]. *)
Definition below (n depth : nat) (b : Act) : Prop :=
  match b with
  | Classify_cmd argv _ stdin d =>
      (d = S depth ∧ count_xs argv ≤ n ∧ from_option count_x 0 stdin ≤ n)
      ∨ (d = 1 ∧ count_xs argv < n ∧ stdin = None)
  | Classify_string s d => d = S depth ∧ count_x s ≤ n
  | raise_dependency_install _ => False
  | _ => True
  end.

Lemma below_le n m depth b : n ≤ m → below n depth b → below m depth b.
Proof. destruct b; cbn; intros; intuition lia. Qed.

Lemma belows_le n m depth l : n ≤ m → Forall (below n depth) l → Forall (below m depth) l.
Proof. intros H Hl. eapply Forall_impl; [exact Hl|]. intros b. by apply below_le. Qed.

(** A list of calls given by cases: what is left are the recursive ones. *)
Ltac calls :=
  repeat match goal with
  | |- Forall _ [] => apply Forall_nil_2
  | |- Forall _ (_ :: _) => apply Forall_cons_2
  | |- Forall _ (_ ++ _) => apply Forall_app_2
  | |- below _ _ _ => progress cbn [below]
  | |- True => exact I
  | |- Forall _ (let _ := _ in _) => cbv zeta
  | |- Forall _ (match ?x with _ => _ end) => destruct x eqn:?
  end.

Lemma flat_map_below {A} (f : A → list Act) n depth l :
  (∀ x, x ∈ l → Forall (below n depth) (f x)) → Forall (below n depth) (flat_map f l).
Proof.
  induction l as [|x l IH]; intros H; cbn; [constructor|].
  apply Forall_app_2; [apply H; by left|]. apply IH. intros y Hy. apply H. by right.
Qed.

(** ** The cursor *)

Definition left_x (p : Parser) : nat := count_l (rest_of p).
Definition remaining (p : Parser) : nat := length (rest_of p).

Lemma rest_adv n p : rest_of (adv n p) = drop n (rest_of p).
Proof. unfold rest_of, adv. cbn. rewrite drop_drop. f_equal. Qed.

Lemma peek_rest p : peek p = head (rest_of p).
Proof.
  unfold peek, rest_of. destruct (pa_c p !! pa_i p) as [c|] eqn:E.
  - by erewrite drop_S by exact E.
  - rewrite drop_ge by (by apply lookup_ge_None). done.
Qed.

Lemma peek_cons p c : peek p = Some c → ∃ r, rest_of p = c :: r ∧ rest_of (adv 1 p) = r.
Proof.
  rewrite peek_rest. destruct (rest_of p) as [|x r] eqn:E; intros [= ->].
  exists r. by rewrite rest_adv, E.
Qed.

(** A stretch of reading: the text collected and the input left hold no more
    letters x than before, and the calls are on what was read. *)
Record reads (p p' : Parser) (t t' : nat) (acts : list Act) : Prop := {
  rd_depth : pa_depth p' = pa_depth p;
  rd_rest : ∃ k, rest_of p' = drop k (rest_of p);
  rd_count : t' + left_x p' ≤ t + left_x p;
  rd_acts : Forall (below (left_x p) (pa_depth p)) acts
}.

Lemma reads_left p p' t t' acts : reads p p' t t' acts → left_x p' ≤ left_x p.
Proof.
  intros [_ [k E] _ _]. unfold left_x. rewrite E. pose proof (count_l_take_drop k (rest_of p)). lia.
Qed.

Lemma reads_remaining p p' t t' acts : reads p p' t t' acts → remaining p' ≤ remaining p.
Proof. intros [_ [k E] _ _]. unfold remaining. rewrite E, length_drop. lia. Qed.

Lemma reads_refl p t : reads p p t t [].
Proof. by split; [|exists 0| |constructor]. Qed.

Lemma reads_trans p p1 p2 t t1 t2 a1 a2 :
  reads p p1 t t1 a1 → reads p1 p2 t1 t2 a2 → reads p p2 t t2 (a1 ++ a2).
Proof.
  intros H1 H2. pose proof (reads_left _ _ _ _ _ H1). destruct H1 as [D1 [k1 E1] C1 A1].
  destruct H2 as [D2 [k2 E2] C2 A2]. split; [congruence| |lia|].
  - exists (k1 + k2). by rewrite E2, E1, drop_drop.
  - apply Forall_app_2; [done|]. rewrite D1 in A2. by eapply belows_le; [|exact A2].
Qed.

(** Reading [n] bytes adds at most their letters to the text. *)
Lemma reads_adv n p t t' :
  t' ≤ t + count_l (take n (rest_of p)) → reads p (adv n p) t t' [].
Proof.
  intros H. split; [done|exists n; apply rest_adv| |constructor].
  unfold left_x. rewrite rest_adv. pose proof (count_l_take_drop n (rest_of p)). lia.
Qed.

Lemma reads_skip n p t : reads p (adv n p) t t [].
Proof. apply reads_adv. lia. Qed.

Lemma reads_act p p' t t' a acts :
  reads p p' t t' acts → below (left_x p) (pa_depth p) a → reads p p' t t' (a :: acts).
Proof. intros [D E C A] H. split; [done..|]. by constructor. Qed.

Lemma reads_text p p' t t1 t' acts : t1 ≤ t → reads p p' t1 t' acts → reads p p' t t' acts.
Proof. intros H [D E C A]. split; [done..|lia|done]. Qed.

Lemma remaining_adv c p : peek p = Some c → S (remaining (adv 1 p)) = remaining p.
Proof. intros (r & E & E')%peek_cons. unfold remaining. rewrite E, E'. done. Qed.

(** ** The parts of a word *)

Lemma backtick_count l s n : backtick l = Some (s, n) → count_x s ≤ count_l (take n l).
Proof.
  revert s n. induction l as [l IH] using (well_founded_ind (well_founded_ltof _ length)).
  intros s n. destruct l as [|c r]; cbn [backtick]; [done|].
  destruct (Ascii.eqb c BTICK); [intros [= <- <-]; cbn; lia|].
  destruct (Ascii.eqb c BSL).
  - destruct r as [|b r]; [done|]. destruct (backtick r) as [[s' k]|] eqn:E; [|done].
    intros [= <- <-]. apply IH in E; [|unfold ltof; cbn; lia].
    cbn [take]. rewrite !count_l_cons. cbn [count_x] in *. lia.
  - destruct (backtick r) as [[s' k]|] eqn:E; [|done].
    intros [= <- <-]. apply IH in E; [|unfold ltof; cbn; lia].
    cbn [take]. rewrite count_l_cons. cbn [count_x] in *. lia.
Qed.

Lemma single_quoted_count l s n : single_quoted l = Some (s, n) → count_x s ≤ count_l (take n l).
Proof.
  revert s n. induction l as [|c r IH]; intros s n; cbn [single_quoted]; [done|].
  destruct (Ascii.eqb c SQ); [intros [= <- <-]; cbn; lia|].
  destruct (single_quoted r) as [[s' k]|] eqn:E; [|done]. intros [= <- <-].
  specialize (IH _ _ eq_refl). cbn [take]. rewrite count_l_cons. cbn [count_x] in *. lia.
Qed.

Lemma take_line_count l s n : take_line l = (s, n) → count_x s ≤ count_l (take n l).
Proof.
  revert s n. induction l as [|c r IH]; intros s n; cbn [take_line]; [intros [= <- <-]; cbn; lia|].
  destruct (Ascii.eqb c NL); [intros [= <- <-]; cbn; lia|].
  destruct (take_line r) as [s' k] eqn:E. intros [= <- <-].
  specialize (IH _ _ eq_refl). cbn [take]. rewrite count_l_cons. cbn [count_x] in *. lia.
Qed.

Lemma take_line_pos c r : 1 ≤ snd (take_line (c :: r)).
Proof. cbn. destruct (Ascii.eqb c NL); [done|]. destruct (take_line r). cbn. lia. Qed.

Lemma read_balanced_spec o c p inner p' :
  read_balanced o c p = (inner, p') →
  (∀ t, reads p p' t t []) ∧ (∀ s, inner = Some s → count_x s ≤ left_x p).
Proof.
  unfold read_balanced. destruct (balanced _ _ _ _ _) as [n|]; intros [= <- <-].
  - split; [intros t; apply reads_skip|]. intros s [= <-].
    unfold left_x. fold (count_l (take (n - 1) (rest_of p))).
    pose proof (count_l_take_drop (n - 1) (rest_of p)). lia.
  - split; [intros t; apply reads_skip|done].
Qed.

(** The calls of a stretch that starts with one byte. *)
Lemma reads_after p p1 p' t t' acts :
  (∃ n, p1 = adv n p) → reads p1 p' t t' acts → reads p p' t t' acts.
Proof. intros [n ->] H. exact (reads_trans _ _ _ _ _ _ [] _ (reads_skip n p t) H). Qed.

Lemma adv_adv n m p : adv m (adv n p) = adv (n + m) p.
Proof. unfold adv. destruct p. cbn. f_equal. lia. Qed.

Lemma reads_string p p' t t' s :
  reads p p' t t' [] → count_x s ≤ left_x p →
  reads p p' t t' [Classify_string s (S (pa_depth p'))].
Proof. intros H Hs. apply reads_act; [done|]. cbn. by rewrite (rd_depth _ _ _ _ _ H). Qed.

Lemma reads_unknown p p' t t' why : reads p p' t t' [] → reads p p' t t' [unknown why].
Proof. intros H. by apply reads_act. Qed.

Lemma reads_push p p' t c : reads p p' t t [] → count_x (String c "") = 0 →
  reads p p' t (t + count_x (String c "")) [].
Proof. intros H ->. by rewrite Nat.add_0_r. Qed.

Lemma expansion_reads text p d text' p' acts :
  expansion text p = (d, text', p', acts) →
  reads (adv 1 p) p' (count_x text) (count_x text') acts.
Proof.
  unfold expansion. set (p1 := adv 1 p). destruct (peek_is BTICK p).
  { destruct (backtick (rest_of p1)) as [[inner n]|] eqn:E; intros [= <- <- <- <-].
    - apply (reads_string p1 (adv n p1)); [apply reads_skip|]. apply backtick_count in E.
      unfold left_x. pose proof (count_l_take_drop n (rest_of p1)). lia.
    - apply reads_unknown, reads_skip. }
  destruct (peek p1) as [ch|]; [|intros [= <- <- <- <-]; rewrite count_x_push;
    apply reads_push; [apply reads_refl|done]].
  destruct (Ascii.eqb ch "(").
  { destruct (peek_is "(" (adv 1 p1)).
    - destruct (read_balanced _ _ (adv 1 (adv 1 p1))) as [inner p2] eqn:E.
      apply read_balanced_spec in E as [E _].
      assert (∀ t, reads p1 p2 t t []) as E1.
      { intros t. eapply reads_after; [|apply E]. exists 2. by rewrite adv_adv. }
      destruct inner; intros [= <- <- <- <-]; rewrite count_x_push.
      + destruct (peek_is ")" p2); apply reads_push; try done.
        exact (reads_trans _ _ _ _ _ _ [] [] (E1 _) (reads_skip 1 p2 _)).
      + apply reads_unknown. by apply reads_push.
    - destruct (read_balanced _ _ (adv 1 p1)) as [inner p2] eqn:E.
      apply read_balanced_spec in E as [E Ec].
      assert (∀ t, reads p1 p2 t t []) as E1.
      { intros t. eapply reads_after; [|apply E]. by exists 1. }
      destruct inner as [s|]; intros [= <- <- <- <-]; [|by apply reads_unknown].
      apply reads_string; [done|]. etrans; [by apply Ec|].
      exact (reads_left _ _ _ _ _ (reads_skip 1 p1 0)). }
  destruct (Ascii.eqb ch "{").
  { destruct (read_balanced _ _ (adv 1 p1)) as [inner p2] eqn:E.
    apply read_balanced_spec in E as [E _].
    assert (∀ t, reads p1 p2 t t []) as E1.
    { intros t. eapply reads_after; [|apply E]. by exists 1. }
    destruct inner; intros [= <- <- <- <-]; [done|by apply reads_unknown]. }
  destruct (is_name_char ch || _)%bool; intros [= <- <- <- <-].
  - destruct (_ || _)%bool; [rewrite adv_adv|]; apply reads_skip.
  - rewrite count_x_push. apply reads_push; [apply reads_refl|done].
Qed.

Lemma is_in_spec l c : is_in l c = true ↔ c ∈ l.
Proof.
  unfold is_in. rewrite existsb_true. split; [|intros H; exists c; by rewrite Ascii.eqb_refl].
  by intros (x & Hx & ->%Ascii.eqb_eq).
Qed.

Lemma reads_byte c p t : peek p = Some c → reads p (adv 1 p) t (t + count_x (String c "")) [].
Proof.
  intros (r & E & _)%peek_cons. apply reads_adv. rewrite E. cbn [take].
  rewrite count_l_cons. cbn. lia.
Qed.

Lemma expansion_step text p c d text' p' acts :
  peek p = Some c → expansion text p = (d, text', p', acts) →
  reads p p' (count_x text) (count_x text') acts ∧ remaining p' < remaining p.
Proof.
  intros Hc H%expansion_reads. split.
  - eapply reads_after; [|exact H]. by exists 1.
  - apply reads_remaining in H. apply remaining_adv in Hc. lia.
Qed.

(** A stretch of reading whose calls come after those made before. *)
Definition goes_on (p : Parser) (t : nat) (acts : list Act) (p' : Parser) (t' : nat)
    (acts' : list Act) : Prop := ∃ b, acts' = acts ++ b ∧ reads p p' t t' b.

Lemma goes_on_trans p t acts p1 t1 a1 p' t' acts' :
  reads p p1 t t1 a1 → goes_on p1 t1 (acts ++ a1) p' t' acts' → goes_on p t acts p' t' acts'.
Proof.
  intros H (b & -> & Hb). exists (a1 ++ b). split; [by rewrite app_assoc|]. by eapply reads_trans.
Qed.

Lemma goes_on_silent p t acts p1 t1 p' t' acts' :
  reads p p1 t t1 [] → goes_on p1 t1 acts p' t' acts' → goes_on p t acts p' t' acts'.
Proof. intros H Hg. eapply goes_on_trans; [exact H|]. by rewrite app_nil_r. Qed.

Lemma goes_on_refl p t acts : goes_on p t acts p t acts.
Proof. exists []. split; [by rewrite app_nil_r|apply reads_refl]. Qed.

Lemma double_quoted_reads fuel text dynamic p acts closed text' dynamic' p' acts' :
  remaining p < fuel →
  double_quoted fuel text dynamic p acts = (closed, text', dynamic', p', acts') →
  goes_on p (count_x text) acts p' (count_x text') acts' ∧ (closed = false → peek p' = None).
Proof.
  revert text dynamic p acts. induction fuel as [|fuel IH]; intros text dynamic p acts Hf; [lia|].
  cbn [double_quoted]. destruct (peek p) as [c|] eqn:Hc.
  2: { intros [= <- <- <- <- <-]. split; [|done]. exists [unknown "unterminated double quote"].
       split; [done|]. apply reads_unknown, reads_refl. }
  pose proof (remaining_adv c p Hc) as Hr.
  destruct (Ascii.eqb c DQ).
  { intros [= <- <- <- <- <-]. split; [|done].
    eapply goes_on_silent; [apply (reads_skip 1)|apply goes_on_refl]. }
  destruct (Ascii.eqb c BSL) eqn:Hb.
  { apply Ascii.eqb_eq in Hb as ->. destruct (peek (adv 1 p)) as [n|] eqn:Hn.
    - intros H. pose proof (remaining_adv n _ Hn). apply IH in H as [H Hcl]; [|lia].
      split; [|done]. eapply goes_on_silent; [|exact H].
      eapply (reads_trans _ (adv 1 p) _ _ (count_x text) _ [] []); [apply reads_skip|].
      eapply reads_trans with (a2 := []) (a1 := []); [apply reads_byte; exact Hn|].
      split; [done|by exists 0| |constructor].
      repeat case_match; rewrite ?count_x_push; cbn [count_x]; cbn; lia.
    - intros H. apply IH in H as [H Hcl]; [|lia]. split; [|done].
      eapply goes_on_silent; [apply reads_skip|exact H]. }
  destruct (is_in _ c).
  { destruct (expansion text p) as [[[d t1] p1] a] eqn:E. intros H.
    destruct (expansion_step _ _ _ _ _ _ _ Hc E) as [E1 E2].
    apply IH in H as [H Hcl]; [|lia]. split; [|done]. by eapply goes_on_trans. }
  intros H. apply IH in H as [H Hcl]; [|lia]. split; [|done].
  eapply goes_on_silent; [|exact H]. rewrite count_x_push. by apply reads_byte.
Qed.

(** A word ends at the end of the input or at a character that ends words. *)
Definition at_word_end (p : Parser) : Prop :=
  match peek p with Some c => is_in WORD_END c = true | None => True end.

Lemma word_loop_reads fuel text dynamic p acts w p' acts' :
  remaining p < fuel →
  word_loop fuel text dynamic p acts = (w, p', acts') →
  goes_on p (count_x text) acts p' (count_x (w_text w)) acts' ∧ at_word_end p'.
Proof.
  revert text dynamic p acts. induction fuel as [|fuel IH]; intros text dynamic p acts Hf; [lia|].
  cbn [word_loop]. destruct (peek p) as [c|] eqn:Hc.
  2: { intros [= <- <- <-]. unfold at_word_end. rewrite Hc. split; [apply goes_on_refl|done]. }
  pose proof (remaining_adv c p Hc) as Hr.
  destruct (is_in WORD_END c) eqn:Hend.
  { intros [= <- <- <-]. unfold at_word_end. rewrite Hc. split; [apply goes_on_refl|done]. }
  destruct (Ascii.eqb c BSL).
  { destruct (peek (adv 1 p)) as [n|] eqn:Hn.
    - intros H. pose proof (remaining_adv n _ Hn). apply IH in H as [H Hcl]; [|lia].
      split; [|done]. eapply goes_on_silent; [|exact H].
      eapply (reads_trans _ (adv 1 p) _ _ (count_x text) _ [] []); [apply reads_skip|].
      case_match; [rewrite count_x_push; by apply reads_byte|apply reads_skip].
    - intros H. apply IH in H as [H Hcl]; [|lia]. split; [|done].
      eapply goes_on_silent; [apply reads_skip|exact H]. }
  destruct (Ascii.eqb c SQ).
  { destruct (single_quoted (rest_of (adv 1 p))) as [[s n]|] eqn:E.
    - intros H. apply IH in H as [H Hcl];
        [|pose proof (reads_remaining _ _ _ _ _ (reads_skip n (adv 1 p) 0)); lia].
      split; [|done]. eapply goes_on_silent; [|exact H]. eapply reads_after; [by exists 1|].
      apply reads_adv. rewrite count_x_app. apply single_quoted_count in E. lia.
    - intros [= <- <- <-]. split.
      + exists [unknown "unterminated single quote"]. split; [done|]. apply reads_unknown.
        eapply reads_after; [by exists 1|]. apply reads_adv. cbn [w_text].
        rewrite count_x_app, take_ge by done. unfold count_l. lia.
      + unfold at_word_end. by rewrite peek_rest, rest_adv, drop_ge by done. }
  destruct (Ascii.eqb c DQ).
  { destruct (double_quoted _ _ _ _ _) as [[[[closed t1] d1] p1] a1] eqn:E.
    apply double_quoted_reads in E as [(b & -> & E) Hcl]; [|unfold remaining; lia].
    assert (reads p p1 (count_x text) (count_x t1) b) as Hp1
      by (eapply reads_after; [by exists 1|done]).
    destruct closed.
    - intros H. apply IH in H as [H Hend']; [|apply reads_remaining in E; lia].
      split; [|done]. by eapply goes_on_trans.
    - intros [= <- <- <-]. unfold at_word_end. rewrite Hcl by done. split; [|done]. by exists b. }
  destruct (is_in ["$"%char; BTICK] c).
  { destruct (expansion text p) as [[[d t1] p1] a] eqn:E. intros H.
    destruct (expansion_step _ _ _ _ _ _ _ Hc E) as [E1 E2].
    apply IH in H as [H Hcl]; [|lia]. split; [|done]. by eapply goes_on_trans. }
  destruct (is_in ["*"%char; "?"%char] c); intros H; (apply IH in H as [H Hcl]; [|lia]); split; try done;
    (eapply goes_on_silent; [|exact H]); rewrite count_x_push; by apply reads_byte.
Qed.

Lemma read_word_reads p w p' acts :
  read_word p = (w, p', acts) → reads p p' 0 (count_x (w_text w)) acts.
Proof.
  unfold read_word. destruct (_ && _)%bool.
  - destruct (read_balanced _ _ (adv 2 p)) as [inner p1] eqn:E.
    apply read_balanced_spec in E as [E Ec].
    assert (reads p p1 0 0 []) as E1 by (eapply reads_after; [by exists 2|apply E]).
    intros [= <- <- <-]. change (count_x _) with 0. destruct inner as [s|].
    + apply reads_string; [done|]. etrans; [by apply Ec|].
      exact (reads_left _ _ _ _ _ (reads_skip 2 p 0)).
    + by apply reads_unknown.
  - intros H. apply word_loop_reads in H as [(b & -> & H) _]; [|unfold remaining; lia]. done.
Qed.

Lemma read_word_progress p w p' acts :
  read_word p = (w, p', acts) → ¬ at_word_end p ∨ peek_in ["<"; ">"]%char p && peek_is "(" (adv 1 p) = true →
  remaining p' < remaining p.
Proof.
  intros H Hp. pose proof (read_word_reads _ _ _ _ H) as Hr. revert H. unfold read_word.
  destruct (peek_in _ p && peek_is "(" (adv 1 p))%bool eqn:E.
  - apply andb_true_iff in E as [E _]. unfold peek_in in E.
    destruct (peek p) as [c|] eqn:Hc; [|done].
    destruct (read_balanced _ _ (adv 2 p)) as [inner p1] eqn:Eb.
    apply read_balanced_spec in Eb as [Eb _]. intros [= <- <- <-].
    specialize (Eb 0). apply reads_remaining in Eb. pose proof (remaining_adv c p Hc).
    pose proof (reads_remaining _ _ _ _ _ (reads_skip 1 (adv 1 p) 0)) as Ha.
    rewrite adv_adv in Ha. change (1 + 1) with 2 in Ha. lia.
  - intros H. apply word_loop_reads in H as [_ Hend]; [|unfold remaining; lia].
    destruct Hp as [Hp|Hp]; [|done]. pose proof (reads_remaining _ _ _ _ _ Hr).
    destruct (decide (remaining p' = remaining p)) as [e|]; [|lia]. destruct Hp.
    destruct (rd_rest _ _ _ _ _ Hr) as [k Ek].
    unfold remaining, at_word_end in *. rewrite peek_rest in *. rewrite Ek in Hend.
    destruct k as [|k]; [done|]. rewrite Ek, length_drop in e.
    destruct (rest_of p); [done|]. cbn in e. lia.
Qed.

(** ** The loop over a script *)

Lemma skip_blanks_reads p t : reads p (skip_blanks p) t t [].
Proof. apply reads_skip. Qed.

Lemma reads_drop p p' t t' acts : reads p p' t t' acts → reads p p' t 0 acts.
Proof. intros [D E C A]. split; [done..|lia|done]. Qed.

(** The word after an operator: it is read after some bytes. *)
Lemma read_word_after n p w p' acts :
  read_word (skip_blanks (adv n p)) = (w, p', acts) → reads p p' 0 (count_x (w_text w)) acts.
Proof.
  intros H%read_word_reads. eapply reads_after; [|exact H]. unfold skip_blanks.
  eexists. apply adv_adv.
Qed.

Lemma adv_0 p : adv 0 p = p.
Proof. unfold adv. destruct p. cbn. f_equal. lia. Qed.

Lemma redirect_target_reads n risks p risks' p' acts :
  redirect_target risks (adv n p) = (risks', p', acts) → reads p p' 0 0 acts.
Proof.
  unfold redirect_target. destruct (read_word _) as [[w p1] a] eqn:E.
  apply read_word_after in E as E%reads_drop. destruct (_ || _)%bool; by intros [= <- <- <-].
Qed.

Lemma maybe_adv (b : bool) n p : (if b then adv n p else p) = adv (if b then n else 0) p.
Proof. destruct b; [done|]. by rewrite adv_0. Qed.

Definition opt_x (o : option string) : nat := from_option count_x 0 o.

Lemma redirect_reads risks cur p risks' cur' p' acts :
  redirect risks cur p = (risks', cur', p', acts) →
  reads (adv 1 p) p' 0 0 acts ∧ cmd_words cur' = cmd_words cur ∧
  cmd_heredoc cur' = cmd_heredoc cur ∧
  opt_x (cmd_here_string cur') ≤ Nat.max (opt_x (cmd_here_string cur)) (left_x (adv 1 p)).
Proof.
  unfold redirect. set (p1 := adv 1 p). destruct (Ascii.eqb _ ">").
  { destruct (_ && _)%bool.
    - destruct (read_word _) as [[w p2] a] eqn:E. apply read_word_after in E.
      intros [= <- <- <- <-]. split_and!; [by eapply reads_drop|done|done|lia].
    - rewrite maybe_adv. destruct (redirect_target _ _) as [[r p2] a] eqn:E.
      apply redirect_target_reads in E. intros [= <- <- <- <-]. split_and!; [done..|lia]. }
  destruct (peek_is "<" p1).
  - destruct (peek_is "<" (adv 1 p1)).
    + destruct (read_word _) as [[w p2] a] eqn:E. rewrite adv_adv in E.
      apply read_word_after in E. intros [= <- <- <- <-].
      split_and!; [by eapply reads_drop|done|done|].
      pose proof (rd_count _ _ _ _ _ E). change (opt_x _) with (count_x (w_text w)) at 1. lia.
    + rewrite maybe_adv. destruct (read_word _) as [[w p2] a] eqn:E. rewrite adv_adv in E.
      apply read_word_after in E as [D E C A]. intros [= <- <- <- <-].
      split_and!; [|done|done|lia]. split; [done|done| |done]. change (0 + left_x p2 ≤ 0 + left_x p1). lia.
  - rewrite maybe_adv. destruct (read_word _) as [[w p2] a] eqn:E. apply read_word_after in E.
    intros [= <- <- <- <-]. split_and!; [by eapply reads_drop|done|done|lia].
Qed.

Lemma heredoc_body_reads fuel delim strip body p body' p' :
  heredoc_body fuel delim strip body p = (body', p') →
  reads p p' (count_x body) (count_x body') [].
Proof.
  revert body p. induction fuel as [|fuel IH]; intros body p; cbn [heredoc_body].
  { intros [= <- <-]. apply reads_refl. }
  destruct (peek p); [|intros [= <- <-]; apply reads_refl].
  destruct (take_line (rest_of p)) as [line n] eqn:E. destruct (_ =s delim).
  { intros [= <- <-]. apply reads_skip. }
  intros H%IH. refine (reads_trans _ _ _ _ _ _ [] [] _ H). apply reads_adv.
  rewrite count_x_push, count_x_app. apply take_line_count in E. cbn. lia.
Qed.

Definition count_words (l : list Word) : nat := count_xs (w_text <$> l).

Lemma count_words_app l k : count_words (l ++ k) = count_words l + count_words k.
Proof. unfold count_words. by rewrite fmap_app, count_xs_app. Qed.

Record cmd_ok (n : nat) (c : Cmd) : Prop := {
  co_words : count_words (cmd_words c) ≤ n;
  co_here : opt_x (cmd_here_string c) ≤ n;
  co_doc : opt_x (cmd_heredoc c) ≤ n
}.

(** What the loop keeps on a text with [n] letters x. *)
Record script_ok (n depth : nat) (s : Script) : Prop := {
  so_depth : pa_depth (sc_p s) = depth;
  so_left : count_words (cmd_words (sc_cur s)) + left_x (sc_p s) ≤ n;
  so_cur : cmd_ok n (sc_cur s);
  so_cmds : Forall (cmd_ok n) (sc_cmds s);
  so_acts : Forall (below n depth) (sc_acts s)
}.

Lemma cmd_ok_empty n : cmd_ok n Cmd_empty.
Proof. split; cbn; lia. Qed.

Lemma consume_heredocs_ok n cur p cur' p' :
  consume_heredocs cur p = (cur', p') → cmd_ok n cur → left_x p ≤ n →
  reads p p' 0 0 [] ∧ cmd_ok n cur' ∧ cmd_words cur' = cmd_words cur.
Proof.
  unfold consume_heredocs. set (p0 := { p with pa_pending_heredocs := [] }). intros H Hc Hn.
  assert (reads p p0 0 0 []) as Hr by (split; [done|by exists 0|done|constructor]).
  change (left_x p) with (left_x p0) in Hn.
  cut (reads p0 p' 0 0 [] ∧ cmd_ok n cur' ∧ cmd_words cur' = cmd_words cur).
  { intros (H1 & H2). split; [|done]. exact (reads_trans _ _ _ _ _ _ [] [] Hr H1). }
  clearbody p0. clear Hr. revert cur p0 H Hc Hn.
  induction (pa_pending_heredocs p) as [|[delim strip] l IH]; intros cur p0; cbn [foldl].
  { intros [= <- <-] Hc _. split_and!; [apply reads_refl|done..]. }
  unfold consume_heredoc at 2. destruct (heredoc_body _ _ _ _ _) as [body p1] eqn:E.
  apply heredoc_body_reads in E. intros H Hc Hn. pose proof (rd_count _ _ _ _ _ E) as Hb.
  change (count_x "") with 0 in *. destruct (IH _ _ H) as (H1 & H2 & H3).
  - destruct Hc as [H1 H2 H3]. split; [done..|]. change (count_x body ≤ n). lia.
  - lia.
  - split_and!; [|done|done]. refine (reads_trans _ p1 _ _ 0 _ [] [] _ H1). by eapply reads_drop.
Qed.

Lemma script_read n depth s p' cur' risks' acts k :
  script_ok n depth s → reads (sc_p s) p' 0 k acts →
  count_words (cmd_words cur') ≤ count_words (cmd_words (sc_cur s)) + k →
  opt_x (cmd_here_string cur') ≤ n → opt_x (cmd_heredoc cur') ≤ n →
  script_ok n depth {| sc_p := p'; sc_cur := cur'; sc_cmds := sc_cmds s; sc_risks := risks';
                       sc_acts := sc_acts s ++ acts |}.
Proof.
  intros [D L C M A] Hr Hw Hh Hd. pose proof (rd_count _ _ _ _ _ Hr).
  split; cbn [sc_p sc_cur sc_cmds sc_acts].
  - by rewrite (rd_depth _ _ _ _ _ Hr).
  - lia.
  - split; [lia|done..].
  - done.
  - apply Forall_app_2; [done|]. rewrite <- D.
    eapply belows_le; [|exact (rd_acts _ _ _ _ _ Hr)]. lia.
Qed.

(** A stretch that leaves the command as it is. *)
Lemma script_skip n depth s p' risks' acts :
  script_ok n depth s → reads (sc_p s) p' 0 0 acts →
  script_ok n depth { s with sc_p := p'; sc_risks := risks'; sc_acts ::= λ a, a ++ acts }.
Proof.
  intros Hs Hr. destruct (so_cur _ _ _ Hs).
  apply (script_read _ _ _ _ (sc_cur s) risks' _ _ Hs Hr); [lia|done..].
Qed.

Lemma script_end n depth s : script_ok n depth s → script_ok n depth (Script_end_cmd s).
Proof.
  intros [D L C M A]. unfold Script_end_cmd, end_cmd.
  assert (count_words [] + left_x (sc_p s) ≤ n) by (change (count_words []) with 0; lia).
  destruct (cmd_words (sc_cur s)); split; try done; try apply cmd_ok_empty.
  apply Forall_app_2; [done|]. by constructor.
Qed.

Lemma Script_end_p s : sc_p (Script_end_cmd s) = sc_p s.
Proof. unfold Script_end_cmd, end_cmd. by destruct (cmd_words (sc_cur s)). Qed.

Lemma script_word n depth s w p' acts :
  script_ok n depth s → reads (sc_p s) p' 0 (count_x (w_text w)) acts →
  script_ok n depth
    { s with sc_p := p'; sc_cur ::= push_word w; sc_acts ::= λ a, a ++ acts }.
Proof.
  intros Hs Hr. destruct (so_cur _ _ _ Hs).
  apply (script_read _ _ _ _ (push_word w (sc_cur s)) (sc_risks s) _ _ Hs Hr); [|done..].
  change (cmd_words (push_word w (sc_cur s))) with (cmd_words (sc_cur s) ++ [w]).
  rewrite count_words_app. unfold count_words. cbn. lia.
Qed.

Lemma blanks_stop l c r : drop (blanks l) l = c :: r → is_in [" "%char; TAB; CR] c = false.
Proof.
  induction l as [l IH] using (well_founded_ind (well_founded_ltof _ length)).
  destruct l as [|x l]; cbn [blanks]; [done|].
  destruct (is_in _ x) eqn:E.
  { cbn [drop]. apply IH. unfold ltof. cbn. lia. }
  destruct (Ascii.eqb x BSL); [|by intros [= <- _]].
  destruct l as [|y l]; [by intros [= <- _]|].
  destruct (Ascii.eqb y NL); [|by intros [= <- _]].
  cbn [drop]. apply IH. unfold ltof. cbn. lia.
Qed.

Lemma skip_blanks_stop p c : peek (skip_blanks p) = Some c → is_in [" "%char; TAB; CR] c = false.
Proof.
  intros (r & E & _)%peek_cons. unfold skip_blanks in E. rewrite rest_adv in E.
  by eapply blanks_stop.
Qed.

Lemma word_ends c :
  is_in WORD_END c =
  (is_in [" "%char; TAB; CR] c || Ascii.eqb c NL || is_in [";"; "&"; "|"; "("; ")"]%char c
   || is_in ["<"; ">"]%char c)%bool.
Proof.
  unfold is_in, WORD_END. cbn [existsb].
  repeat match goal with |- context [Ascii.eqb c ?k] => destruct (Ascii.eqb c k) end; done.
Qed.

Lemma progress_reads c p n p' t t' acts :
  peek p = Some c → reads (adv (S n) p) p' t t' acts → remaining p' < remaining p.
Proof.
  intros Hc H%reads_remaining. apply remaining_adv in Hc.
  pose proof (reads_remaining _ _ _ _ _ (reads_skip n (adv 1 p) 0)) as Ha.
  rewrite adv_adv in Ha. change (1 + n) with (S n) in Ha. lia.
Qed.

Lemma reads_then p p1 n p' t t' acts :
  reads p p1 0 0 [] → reads (adv n p1) p' 0 t' acts → t = 0 → reads p p' t t' acts.
Proof.
  intros H1 H2 ->. refine (reads_trans _ _ _ _ _ _ [] _ H1 _).
  eapply reads_after; [|exact H2]. by exists n.
Qed.

Lemma to_close_pos c r : 1 ≤ to_close_paren (c :: r).
Proof. cbn. destruct (Ascii.eqb c ")"); lia. Qed.

Section Step.
Context (n depth : nat) (s : Script) (p : Parser) (ch : ascii).
Hypothesis Hs : script_ok n depth s.
Hypothesis Hp : reads (sc_p s) p 0 0 [].
Hypothesis Hch : peek p = Some ch.

(** One round of the loop. *)
Definition round (s' : Script) : Prop :=
  script_ok n depth s' ∧ remaining (sc_p s') < remaining p.

Lemma skip_round k cur risks :
  count_words (cmd_words cur) ≤ count_words (cmd_words (sc_cur s)) →
  opt_x (cmd_here_string cur) ≤ n → opt_x (cmd_heredoc cur) ≤ n → 1 ≤ k →
  round { s with sc_p := adv k p; sc_cur := cur; sc_risks := risks }.
Proof using Hs Hp Hch.
  intros Hw Hh Hd Hk. split.
  - pose proof (script_read _ _ s (adv k p) cur risks [] 0 Hs) as H. rewrite app_nil_r in H.
    apply H; [|lia|done..]. eapply reads_then; [done|apply (reads_refl (adv k p))|done].
  - destruct k as [|k]; [lia|]. eapply (progress_reads ch p k); [done|apply (reads_refl _ 0)].
Qed.

Lemma separator_round : round (Script_separator ch p s).
Proof using Hs Hp Hch.
  destruct (so_cur _ _ _ Hs) as [Hw Hh Hd]. unfold Script_separator.
  destruct (_ && _)%bool.
  { apply (skip_round _ { sc_cur s with cmd_words := [] } (sc_risks s)); [|done|done|].
    - change (count_words _) with 0 at 1. lia.
    - destruct (peek_cons _ _ Hch) as (r & -> & _). apply to_close_pos. }
  destruct (_ && _)%bool.
  { rewrite adv_adv, maybe_adv, adv_adv. destruct (redirect_target _ _) as [[risks p1] a] eqn:E.
    replace (1 + 1 + _) with (S (S (if peek_is ">" (adv (1 + 1) p) then 1 else 0))) in E
      by (destruct (peek_is _ _); done).
    rewrite <- (adv_0 (adv _ p)) in E. apply redirect_target_reads in E. split.
    - apply script_skip; [done|]. by eapply reads_then.
    - by eapply progress_reads. }
  rewrite maybe_adv, adv_adv.
  destruct (skip_round (1 + if (peek_in ["&"; "|"; ";"]%char (adv 1 p) && negb (Ascii.eqb ch "(")
    && negb (Ascii.eqb ch ")"))%bool then 1 else 0) (sc_cur s) (sc_risks s)) as [H1 H2];
    [lia..| |].
  { destruct (_ && _)%bool; lia. }
  split; [by apply script_end|]. by rewrite Script_end_p.
Qed.

Lemma word_round w p' acts :
  read_word p = (w, p', acts) →
  ¬ at_word_end p ∨ peek_in ["<"; ">"]%char p && peek_is "(" (adv 1 p) = true →
  round { s with sc_p := p'; sc_cur ::= push_word w; sc_acts ::= λ a, a ++ acts } ∧
  round { s with sc_p := p'; sc_acts ::= λ a, a ++ acts }.
Proof using Hs Hp.
  intros E Hw. pose proof (read_word_progress _ _ _ _ E Hw) as Hlt. apply read_word_reads in E.
  assert (reads (sc_p s) p' 0 (count_x (w_text w)) acts) as H
    by (exact (reads_trans _ _ _ _ _ _ [] _ Hp E)).
  split; (split; [|done]); [by apply script_word|].
  apply (script_skip _ _ s p' (sc_risks s) acts Hs). by eapply reads_drop.
Qed.

Lemma step_round : is_in [" "%char; TAB; CR] ch = false → round (Script_step ch p s).
Proof using Hs Hp Hch.
  intros Hb. pose proof (so_cur _ _ _ Hs) as Hc. pose proof Hc as [Hw Hh Hd]. unfold Script_step.
  destruct (Ascii.eqb ch NL) eqn:Enl.
  { destruct (consume_heredocs (sc_cur s) (adv 1 p)) as [cur p1] eqn:E.
    apply (consume_heredocs_ok n) in E as (E1 & [Hw' Hh' Hd'] & E3); [|done|].
    2: { pose proof (reads_left _ _ _ _ _ Hp). pose proof (so_left _ _ _ Hs).
         pose proof (reads_left _ _ _ _ _ (reads_skip 1 p 0)). lia. }
    split.
    - apply script_end.
      pose proof (script_read _ _ s p1 cur (sc_risks s) [] 0 Hs) as H. rewrite app_nil_r in H.
      apply H; [by eapply reads_then|rewrite E3; lia|done..].
    - rewrite Script_end_p. exact (progress_reads _ _ _ _ _ _ _ Hch E1). }
  destruct (is_in [";"; "&"; "|"; "("; ")"]%char ch) eqn:Esep; [apply separator_round|].
  destruct (is_in ["<"; ">"]%char ch) eqn:Elt.
  { destruct (peek_is "(" (adv 1 p)) eqn:Ep.
    - unfold Script_word. destruct (read_word p) as [[w p1] acts] eqn:E.
      apply (word_round _ _ _ E). right. unfold peek_in. by rewrite Hch, Elt, Ep.
    - destruct (redirect _ _ _) as [[[risks cur] p1] acts] eqn:E.
      apply redirect_reads in E as (E1 & E2 & E3 & E4). split; [|by eapply progress_reads].
      apply (script_read _ _ s p1 cur risks acts 0 Hs); [by eapply reads_then|rewrite E2; lia| |].
      + pose proof (reads_left _ _ _ _ _ Hp). pose proof (so_left _ _ _ Hs).
        pose proof (reads_left _ _ _ _ _ (reads_skip 1 p 0)). lia.
      + by rewrite E3. }
  destruct (Ascii.eqb ch "#" && _)%bool eqn:Ecom.
  { apply (skip_round _ (sc_cur s) (sc_risks s)); [done..|].
    destruct (peek_cons _ _ Hch) as (r & -> & _).
    apply andb_true_iff in Ecom as [->%Ascii.eqb_eq _]. cbn. lia. }
  destruct (read_word p) as [[w p1] acts] eqn:E. apply word_round in E as [H1 H2].
  { clear Ecom. destruct (_ && _)%bool; [exact H2|exact H1]. }
  left. unfold at_word_end. rewrite Hch, word_ends, Hb, Enl, Esep, Elt. done.
Qed.
End Step.

Lemma read_loop_ok n depth fuel s :
  remaining (sc_p s) < fuel → script_ok n depth s →
  script_ok n depth (read_loop fuel s) ∧ peek (sc_p (read_loop fuel s)) = None.
Proof.
  revert s. induction fuel as [|fuel IH]; intros s Hf Hs; [lia|]. cbn [read_loop].
  destruct (peek (skip_blanks (sc_p s))) as [ch|] eqn:E.
  - destruct (step_round n depth s (skip_blanks (sc_p s)) ch) as [H1 H2]; [done| |done| |].
    + apply skip_blanks_reads.
    + by eapply skip_blanks_stop.
    + apply IH; [|done]. pose proof (reads_remaining _ _ _ _ _ (skip_blanks_reads (sc_p s) 0)). lia.
  - split; [|done]. pose proof (script_skip _ _ s (skip_blanks (sc_p s)) (sc_risks s) [] Hs) as H.
    destruct s. cbn in *. rewrite app_nil_r in H. apply H, skip_blanks_reads.
Qed.

Lemma text_of_list s : text_of (String.list_ascii_of_string s) = s.
Proof. induction s as [|c s IH]; [done|]. cbn. f_equal. exact IH. Qed.

Lemma list_ascii_length s : length (String.list_ascii_of_string s) = String.length s.
Proof. induction s as [|c s IH]; [done|]. cbn. f_equal. exact IH. Qed.

(** The reader reads the whole text, and what it reads is in the text. *)
Lemma read_script_ends src depth :
  script_ok (count_x src) depth (read_script src depth) ∧
  peek (sc_p (read_script src depth)) = None.
Proof.
  unfold read_script.
  destruct (read_loop_ok (count_x src) depth (S (String.length src)) (Script_new src depth))
    as [H1 H2].
  - unfold remaining, rest_of, Script_new. cbn [sc_p pa_i pa_c]. rewrite drop_0.
    rewrite list_ascii_length. lia.
  - split; try done; [|apply cmd_ok_empty].
    change (count_words []) with 0. unfold left_x, rest_of, count_l, Script_new.
    cbn [sc_p pa_i pa_c]. rewrite drop_0, text_of_list. apply Nat.le_refl.
  - split; [by apply script_end|]. by rewrite Script_end_p.
Qed.

(** ** The calls a call makes *)

Lemma scan_secret_below n depth c : Forall (below n depth) (scan_secret_path c).
Proof. unfold scan_secret_path. calls. Qed.

Lemma scan_secrets_below n depth l : Forall (below n depth) (scan_secret_paths l).
Proof. apply flat_map_below. intros x _. calls; apply scan_secret_below. Qed.

Lemma check_write_below n depth prog l : Forall (below n depth) (check_write_paths prog l).
Proof. apply flat_map_below. intros x _. calls. Qed.

Lemma redirect_acts_below n depth r : Forall (below n depth) (redirect_acts r).
Proof. destruct r as [t d]. unfold redirect_acts. calls; apply scan_secret_below. Qed.

Lemma leading_below n depth ws acts ws' :
  leading ws = (acts, ws') →
  Forall (below n depth) acts ∧ count_words ws' ≤ count_words ws.
Proof.
  revert acts ws'. induction ws as [|w ws IH]; intros acts ws'; cbn [leading].
  { by intros [= <- <-]. }
  assert (count_words ws ≤ count_words (w :: ws)) as Hle by exact (Nat.le_add_l _ _).
  destruct (_ && _)%bool; [intros [H1 H2]%IH; split; [done|lia]|].
  destruct (is_assignment _); [|by intros [= <- <-]].
  destruct (leading ws) as [a l] eqn:E. destruct (IH _ _ eq_refl) as [H1 H2].
  intros [= <- <-]. split; [|lia]. calls; done.
Qed.

Lemma classify_simple_below n depth cmd :
  cmd_ok n cmd → Forall (below n depth) (classify_simple cmd depth).
Proof.
  intros [Hw Hh Hd]. unfold classify_simple. destruct (leading _) as [acts ws] eqn:E.
  apply (leading_below n depth) in E as [E1 E2]. apply Forall_app_2; [done|].
  destruct ws as [|w ws]; [constructor|]. calls. left. split; [done|]. split; [|by case_match].
  change (count_words (w :: ws) ≤ n). lia.
Qed.

Lemma classify_string_below src depth :
  Forall (below (count_x src) depth) (classify_string src depth).
Proof.
  unfold classify_string. destruct (_ <? _); [calls|].
  destruct (read_script_ends src depth) as [[D L C M A] _]. calls.
  - done.
  - apply flat_map_below. intros r _. apply redirect_acts_below.
  - apply flat_map_below. intros c Hc. apply classify_simple_below.
    rewrite Forall_forall in M. by apply M.
Qed.

Lemma find_loop_below n depth skip args :
  count_xs args ≤ n → Forall (below n depth) (find_loop depth skip args).
Proof.
  revert skip. induction args as [|a args IH]; intros skip Hn; cbn [find_loop]; [constructor|].
  rewrite count_xs_cons in Hn. destruct skip as [|skip]; [|apply IH; lia].
  calls; try (apply IH; lia). left. split_and!; [done| |cbn; lia].
  enough (count_xs (exec_words args) ≤ count_xs args) by lia. clear.
  induction args as [|a l IH]; cbn [exec_words]; [done|].
  destruct (contains_str _ a); rewrite ?count_xs_cons; [apply Nat.le_0_l|lia].
Qed.

Lemma env_assignments_below n depth args acts cmd :
  env_assignments args = (acts, cmd) →
  Forall (below n depth) acts ∧ count_xs cmd ≤ count_xs args.
Proof.
  revert acts cmd. induction args as [|a args IH]; intros acts cmd; cbn [env_assignments].
  { by intros [= <- <-]. }
  destruct (_ && _)%bool; [|by intros [= <- <-]].
  destruct (env_assignments args) as [a' l] eqn:E. destruct (IH _ _ eq_refl) as [H1 H2].
  intros [= <- <-]. rewrite count_xs_cons. split; [|lia]. calls; done.
Qed.

Lemma git_options_below n depth args acts cmd :
  git_options args = (acts, cmd) →
  Forall (below n depth) acts ∧ count_xs cmd ≤ count_xs args.
Proof.
  revert acts cmd. induction args as [args IH] using (well_founded_ind (well_founded_ltof _ length)).
  intros acts cmd. destruct args as [|a args]; cbn [git_options]; [by intros [= <- <-]|].
  destruct (contains_str _ a).
  { destruct args as [|b args]; [intros [= <- <-]; split; [constructor|cbn; lia]|].
    intros [H1 H2]%IH; [|unfold ltof; cbn; lia]. rewrite !count_xs_cons. split; [done|lia]. }
  destruct (a =s "-c").
  { destruct args as [|b args]; [intros [= <- <-]; split; [constructor|cbn; lia]|].
    destruct (git_options args) as [a' l] eqn:E. apply IH in E as [H1 H2]; [|unfold ltof; cbn; lia].
    intros [= <- <-]. rewrite !count_xs_cons. split; [|lia]. calls; done. }
  destruct (starts_with "-" a); [|by intros [= <- <-]].
  intros [H1 H2]%IH; [|unfold ltof; cbn; lia]. rewrite count_xs_cons. split; [done|lia].
Qed.

Lemma inline_code_below n depth code : Forall (below n depth) (scan_inline_code code).
Proof. unfold scan_inline_code. calls. Qed.

Lemma classify_rm_below n depth args dyn : Forall (below n depth) (classify_rm args dyn).
Proof.
  unfold classify_rm. destruct (rm_args _ _) as [r o]. calls.
  apply flat_map_below. intros x _. calls.
Qed.

Lemma python_module_below n depth m l : Forall (below n depth) (python_module m l).
Proof. unfold python_module. calls. Qed.

Lemma interpreter_loop_below n depth prog f v l acts :
  interpreter_loop prog f v l = Some acts → Forall (below n depth) acts.
Proof.
  induction l as [l IH] using (well_founded_ind (well_founded_ltof _ length)).
  destruct l as [|a l]; cbn [interpreter_loop]; [done|].
  destruct (contains_str f a).
  { destruct l; intros [= <-]; [calls|apply inline_code_below]. }
  repeat (destruct (_ && _)%bool; [intros [= <-]; by calls || apply python_module_below|]).
  destruct (starts_with "-" a); [|intros [= <-]; calls].
  destruct (contains_str v a); [destruct l; [done|]|]; apply IH; unfold ltof; cbn; lia.
Qed.

Lemma interpreter_below n depth prog args : Forall (below n depth) (classify_interpreter prog args).
Proof.
  unfold classify_interpreter. destruct (interpreter_flags prog) as [f v].
  destruct (any_arg _ args); [calls|].
  destruct (interpreter_loop _ _ _ _) eqn:E; [by eapply interpreter_loop_below|calls].
Qed.

Lemma git_sub_below n depth sub rest dyn :
  count_xs rest ≤ n → Forall (below n depth) (classify_git_sub sub rest dyn depth).
Proof.
  intros Hn. unfold classify_git_sub, classify_git_remote, classify_git_branch, classify_git_config.
  calls. left. split_and!; [done| |cbn; lia]. etrans; [apply count_xs_drop|done].
Qed.

Lemma delivery_below n depth prog head : Forall (below n depth) (classify_delivery prog head).
Proof. unfold classify_delivery. calls. Qed.

(** The word [exec] has a letter x. *)
Lemma exec_drops args i :
  position (λ a, a =s "exec") (before_dashdash args) = Some i →
  count_xs (drop (S i) args) < count_xs args.
Proof.
  intros (x & l1 & l2 & Hx & <- & He%String.eqb_eq & _)%position_some. subst x.
  assert (∃ l3, args = l1 ++ "exec" :: l3) as [l3 ->].
  { unfold before_dashdash in Hx. destruct (position _ args) as [k|]; [|by exists l2].
    exists (l2 ++ drop k args). rewrite <- (take_drop k args) at 1. by rewrite Hx, <- app_assoc. }
  replace (drop _ _) with l3; [rewrite count_xs_app, count_xs_cons; change (count_x "exec") with 1; lia|].
  by rewrite drop_app_ge, Nat.sub_succ_l, Nat.sub_diag by lia.
Qed.

(** What a command may do: only one that installs the declared dependencies of the
    project raises its class as such. *)
Definition made (n depth : nat) (installs : bool) (b : Act) : Prop :=
  below n depth b ∨ (∃ why, b = raise_dependency_install why) ∧ installs = true.

Lemma below_made n depth i l : Forall (below n depth) l → Forall (made n depth i) l.
Proof. intros H. eapply Forall_impl; [exact H|]. by left. Qed.

Lemma build_made n depth prog args :
  count_xs args ≤ n →
  Forall (made n depth (is_dependency_install prog (before_dashdash args))) (classify_build prog args).
Proof.
  intros Hn. unfold classify_build. cbv zeta.
  destruct (network_verbs prog) as [verbs|]; [|apply below_made, delivery_below].
  destruct (if contains_str _ prog then _ else _) as [i|] eqn:E.
  { apply below_made, Forall_singleton. right. split_and!; [done| |done].
    destruct (contains_str _ prog); [|done]. eapply Nat.lt_le_trans; [|exact Hn]. by apply exec_drops. }
  destruct (network_hit _ _ _); [|apply below_made, delivery_below].
  destruct (is_dependency_install _ _); apply Forall_singleton; [right; eauto|by left].
Qed.

Section Command.
Context (n depth : nat) (rest : list string) (dyn_args : bool) (stdin : option string).
Hypothesis Hrest : count_xs rest ≤ n.
Hypothesis Hstdin : opt_x stdin ≤ n.

Lemma inner_cmd k d : below n depth (Classify_cmd (drop k rest) d stdin (S depth)).
Proof using Hrest Hstdin.
  left. split_and!; [done| |done]. etrans; [apply count_xs_drop|done].
Qed.

Lemma arg_string i s : rest !! i = Some s → below n depth (Classify_string s (S depth)).
Proof using Hrest Hstdin. intros H%count_xs_lookup. split; [done|lia]. Qed.

Lemma joined_string k : below n depth (Classify_string (Prelude.join " " (drop k rest)) (S depth)).
Proof using Hrest Hstdin.
  split; [done|]. rewrite count_x_join. etrans; [apply count_xs_drop|done].
Qed.

Lemma wrapper_below prog acts :
  classify_wrapper prog rest dyn_args stdin depth = Some acts → Forall (below n depth) acts.
Proof using Hrest Hstdin.
  unfold classify_wrapper. destruct (prog =s "env").
  { set (k := skip_options _ rest). destruct (env_assignments (drop k rest)) as [a cmd] eqn:E.
    apply (env_assignments_below n depth) in E as [E1 E2]. intros [= <-].
    apply Forall_app_2; [done|]. apply Forall_singleton. left. split_and!; [done| |done].
    pose proof (count_xs_drop k rest). lia. }
  destruct (contains_str _ prog).
  { set (k := skip_options _ rest). intros [= <-]. constructor; [exact I|].
    pose proof (inner_cmd k dyn_args). pose proof (joined_string k).
    destruct (drop k rest); [calls|]. destruct (any_arg _ _); by apply Forall_singleton. }
  destruct (prog =s "su").
  { intros [= <-]. constructor; [exact I|]. destruct (position _ rest) as [i|]; [|calls].
    destruct (rest !! S i) eqn:E; [|constructor]. apply Forall_singleton. by eapply arg_string. }
  destruct (contains_str PLAIN_WRAPPERS prog && _)%bool.
  { destruct (_ && _)%bool; [intros [= <-]; constructor|]. destruct (_ || _)%bool; [|done].
    intros [= <-]. apply Forall_singleton. apply inner_cmd. }
  destruct ((prog =s "timeout") && _)%bool.
  { intros [= <-]. apply Forall_singleton. apply inner_cmd. }
  destruct (prog =s "xargs").
  { set (k := skip_options _ rest). pose proof (count_xs_drop k rest).
    destruct (drop k rest); intros [= <-]; [constructor|]. apply Forall_singleton. left.
    split_and!; [done|lia|cbn; lia]. }
  destruct (contains_str _ prog); [intros [= <-]; by apply find_loop_below|].
  destruct (prog =s "eval").
  { intros [= <-]. apply Forall_singleton. exact (joined_string 0). }
  destruct (prog =s "trap").
  { destruct (List.find _ rest) eqn:E; intros [= <-]; [|constructor]. apply Forall_singleton.
    apply find_some in E as [E%list_elem_of_In _]. apply count_xs_elem in E. cbn. lia. }
  destruct (contains_str _ prog); [|done]. intros [= <-]. constructor.
Qed.

Lemma shell_below prog : Forall (below n depth) (classify_shell prog rest stdin depth).
Proof using Hrest Hstdin.
  unfold classify_shell. destruct (shell_options rest) as [i inline]. calls.
  - by eapply arg_string.
  - exact (inner_cmd 0 false).
  - done.
Qed.

Lemma files_below prog : Forall (below n depth) (classify_files prog rest).
Proof using. unfold classify_files. calls; apply check_write_below. Qed.

Lemma program_made first prog :
  Forall (made n depth (is_dependency_install prog (before_dashdash rest)))
    (classify_program first prog rest dyn_args stdin depth).
Proof using Hrest Hstdin.
  unfold classify_program, classify_git.
  destruct (contains_str SHELLS prog); [apply below_made, shell_below|].
  destruct (prog =s "git").
  { apply below_made.
    destruct (git_options rest) as [a cmd] eqn:E. apply (git_options_below n depth) in E as [E1 E2].
    calls; [done|]. apply git_sub_below. rewrite count_xs_cons in E2. lia. }
  destruct (contains_str _ prog); [apply below_made, classify_rm_below|].
  destruct (prog =s "dd"); [apply below_made; calls|].
  destruct (contains_str DESTRUCTIVE prog || _)%bool; [apply below_made; calls|].
  destruct (contains_str SECRET_PROGRAMS prog); [apply below_made; calls|].
  destruct (contains_str NETWORK prog); [apply below_made; calls|].
  destruct (contains_str SYSTEM prog); [apply below_made; calls|].
  apply Forall_app_2; [apply below_made, files_below|].
  destruct (contains_str INTERPRETERS prog); [apply below_made, interpreter_below|].
  destruct (_ || _ || _)%bool; [by apply build_made|apply below_made; calls].
Qed.
End Command.

(** Whether a command installs the dependencies the project declares. *)
Definition installs (argv : list string) : bool :=
  match argv with
  | [] => false
  | first :: rest => is_dependency_install (program first) (before_dashdash rest)
  end.

Lemma classify_cmd_made argv dyn stdin depth :
  Forall (made (Nat.max (count_xs argv) (opt_x stdin)) depth (installs argv))
    (classify_cmd argv dyn stdin depth).
Proof.
  unfold classify_cmd. destruct (_ <? _); [apply below_made; calls|].
  destruct argv as [|first rest]; [constructor|].
  assert (count_xs rest ≤ Nat.max (count_xs (first :: rest)) (opt_x stdin)) as H1
    by (rewrite count_xs_cons; lia).
  assert (opt_x stdin ≤ Nat.max (count_xs (first :: rest)) (opt_x stdin)) as H2 by lia.
  apply Forall_app_2; [apply below_made, scan_secrets_below|].
  destruct (classify_wrapper _ _ _ _ _) eqn:E; [|by apply program_made].
  apply below_made. by eapply wrapper_below.
Qed.

Lemma no_calls_beyond a :
  match a with
  | Classify_cmd _ _ _ d | Classify_string _ d => MAX_DEPTH < d → Forall (λ b, is_call b = false) (step a)
  | _ => True
  end.
Proof.
  destruct a as [| | | | | | |argv dyn stdin d|src d]; try exact I;
    intros H%Nat.ltb_lt; cbn [step]; unfold classify_cmd, classify_string; rewrite H;
    by repeat constructor.
Qed.

Lemma below_bound n depth b :
  depth ≤ MAX_DEPTH → below n depth b → is_call b = true → call_bound b < 8 * n + (7 - depth).
Proof.
  unfold MAX_DEPTH. destruct b as [| | | | | | |argv dyn stdin d|src d]; try done; cbn [below call_bound].
  - intros H [(-> & H1 & H2)|(-> & H1 & ->)] _; [lia|]. cbn. lia.
  - intros H [-> H1] _. lia.
Qed.

(** Every call is strictly smaller than the call that makes it. *)
Lemma step_smaller a b : b ∈ step a → is_call b = true → call_bound b < call_bound a.
Proof.
  intros Hb Hc. pose proof (no_calls_beyond a) as Hn.
  assert (∀ n d, (below n d b ∨ is_call b = false) →
    (MAX_DEPTH < d → Forall (λ b, is_call b = false) (step a)) → call_bound b < 8 * n + (7 - d))
    as Hall.
  { intros n d [H1|H1] H2; [|congruence]. destruct (decide (MAX_DEPTH < d)) as [Hd|Hd].
    - rewrite Forall_forall in H2. rewrite H2 in Hc by done. done.
    - apply below_bound; [lia|done|done]. }
  destruct a as [| | | | | | |argv dyn stdin d|src d];
    try (by inversion Hb).
  - apply (Hall _ d); [|done].
    destruct (proj1 (Forall_forall _ _) (classify_cmd_made argv dyn stdin d) b Hb)
      as [H|[[why ->] _]]; [by left|by right].
  - apply (Hall _ d); [|done]. left.
    by apply (proj1 (Forall_forall _ _) (classify_string_below src d)).
Qed.

Lemma effects_prim fuel a : is_call a = false → effects fuel a = [a].
Proof. intros H. destruct fuel; cbn; by rewrite H. Qed.

Lemma flat_map_ext_in {A B} (f g : A → list B) l :
  (∀ x, x ∈ l → f x = g x) → flat_map f l = flat_map g l.
Proof.
  induction l as [|x l IH]; intros H; cbn; [done|].
  rewrite (H x) by (by left). f_equal. apply IH. intros y Hy. apply H. by right.
Qed.

Lemma effects_enough f1 f2 a :
  call_bound a < f1 → call_bound a < f2 → effects f1 a = effects f2 a.
Proof.
  revert f2 a. induction f1 as [|f1 IH]; intros [|f2] a H1 H2; try lia.
  cbn [effects]. destruct (is_call a); [|done]. apply flat_map_ext_in. intros b Hb.
  destruct (is_call b) eqn:Hc; [|by rewrite !effects_prim].
  pose proof (step_smaller a b Hb Hc). apply IH; lia.
Qed.

(** The equations of the recursion: all the effects of a call are those of the
    calls it makes, in their order. *)
Lemma all_effects_call a : is_call a = true → all_effects a = flat_map all_effects (step a).
Proof.
  intros H. unfold all_effects at 1. cbn [effects]. rewrite H. apply flat_map_ext_in.
  intros b Hb. destruct (is_call b) eqn:Hc; [|by rewrite effects_prim; unfold all_effects; rewrite ?effects_prim].
  pose proof (step_smaller a b Hb Hc). apply effects_enough; lia.
Qed.

Lemma all_effects_prim a : is_call a = false → all_effects a = [a].
Proof. apply effects_prim. Qed.

Lemma calls_well_founded : well_founded (λ b a, is_call b = true ∧ b ∈ step a).
Proof.
  intros a. induction a as [a IH] using (well_founded_ind (well_founded_ltof _ call_bound)).
  constructor. intros b [Hc Hb]. apply IH. by apply step_smaller.
Qed.

(** C14: the classifier ends on every command and every script. The loop over a
    script stops only at the end of the text; the recursion through wrappers,
    shells, substitutions and package runners, which is not bounded by the depth
    alone because a command after [pnpm exec] starts again at the first level, is
    well founded: no sequence of calls, each made by the one before, is infinite.
    [call_bound] nested calls are enough: more of them change nothing, and the
    effects of a call are those of the calls its function makes, in their order. *)
Theorem shell_classification_total :
  well_founded (λ b a, is_call b = true ∧ b ∈ step a) ∧
  (∀ src depth, peek (sc_p (read_script src depth)) = None) ∧
  (∀ a more, effects (S (call_bound a) + more) a = all_effects a) ∧
  (∀ argv dyn_args stdin depth,
     all_effects (Classify_cmd argv dyn_args stdin depth) =
     flat_map all_effects (classify_cmd argv dyn_args stdin depth)) ∧
  (∀ src depth,
     all_effects (Classify_string src depth) = flat_map all_effects (classify_string src depth)).
Proof.
  split_and!.
  - apply calls_well_founded.
  - intros src depth. apply read_script_ends.
  - intros a more. apply effects_enough; lia.
  - intros argv dyn_args stdin depth. by rewrite all_effects_call.
  - intros src depth. by rewrite all_effects_call.
Qed.
