(* ===== verification/ShellNest.v ===== *)
(** * Shell effects: a command counts however it is wrapped

    Scripts made of quoted words are read back exactly ([shell_script_exact]), and
    what a command does is reported through any nesting of the wrappers and shells of
    [runs], with their options, up to the depth limit; beyond it the whole is
    unclassified. What is not seen is in the examples at the end. *)

From S2P Require Import Prelude RustStr BTree ToolCall AutoDef Filter ShellAcc ShellRead ShellClass.
From S2P Require Import ShellTotal.
#[local] Open Scope nat_scope.

(** ** Quoting

    A word as a shell writes it: in single quotes, a quote inside as the four
    characters that close the quotes, escape one and open them again. *)
Fixpoint escaped (l : list ascii) : list ascii :=
  match l with
  | [] => []
  | c :: r => if Ascii.eqb c SQ then [SQ; BSL; SQ; SQ] ++ escaped r else c :: escaped r
  end.

Definition quoted (w : string) : list ascii :=
  SQ :: escaped (String.list_ascii_of_string w) ++ [SQ].

Lemma single_quoted_app s t :
  SQ ∉ s → single_quoted (s ++ SQ :: t) = Some (text_of s, S (length s)).
Proof.
  induction s as [|c s IH]; intros Hn; [done|]. rewrite not_elem_of_cons in Hn.
  destruct Hn as [Hc Hs]. cbn. destruct (Ascii.eqb_spec c SQ) as [->|]; [done|].
  by rewrite (IH Hs).
Qed.

Lemma escaped_plain s : SQ ∉ s → escaped s = s.
Proof.
  induction s as [|c s IH]; intros Hn; [done|]. rewrite not_elem_of_cons in Hn. cbn.
  destruct (Ascii.eqb_spec c SQ) as [->|]; [naive_solver|]. by rewrite IH by naive_solver.
Qed.

Lemma escaped_app s t : escaped (s ++ t) = escaped s ++ escaped t.
Proof.
  induction s as [|c s IH]; [done|]. cbn. destruct (Ascii.eqb c SQ); cbn; by rewrite IH.
Qed.

Lemma split_quote (l : list ascii) :
  SQ ∉ l ∨ ∃ s t, l = s ++ SQ :: t ∧ SQ ∉ s.
Proof.
  destruct (decide (SQ ∈ l)) as [H|]; [|by left]. right.
  apply list_elem_of_split_l in H as (s & t & -> & H). eauto.
Qed.

Definition stops (l : list ascii) : Prop :=
  match l with [] => True | c :: _ => is_in WORD_END c = true end.

Lemma at_rest p c r : rest_of p = c :: r → peek p = Some c.
Proof. intros E. by rewrite peek_rest, E. Qed.

Lemma word_stops fuel text dynamic p acts :
  remaining p < fuel → stops (rest_of p) →
  word_loop fuel text dynamic p acts = ({| w_text := text; w_dynamic := dynamic |}, p, acts).
Proof.
  intros Hf Hs. destruct fuel as [|fuel]; [lia|]. cbn [word_loop]. rewrite peek_rest.
  destruct (rest_of p) as [|c r]; [done|]. cbn in Hs |- *. by rewrite Hs.
Qed.

Lemma rest_after p l t n : rest_of p = l ++ t → n = length l → rest_of (adv n p) = t.
Proof. intros E ->. rewrite rest_adv, E. by rewrite drop_app_length. Qed.

(** One stretch in single quotes. *)
Lemma word_single fuel text dynamic p acts s t :
  remaining p < fuel → rest_of p = SQ :: s ++ SQ :: t → SQ ∉ s →
  ∃ fuel', remaining (adv (2 + length s) p) < fuel' ∧
    word_loop fuel text dynamic p acts =
    word_loop fuel' (text +:+ text_of s) dynamic (adv (2 + length s) p) acts.
Proof.
  intros Hf E Hs. destruct fuel as [|fuel]; [lia|]. exists fuel. cbn [word_loop].
  rewrite (at_rest _ _ _ E).
  change (is_in WORD_END SQ) with false. change (Ascii.eqb SQ BSL) with false.
  change (Ascii.eqb SQ SQ) with true. cbv iota zeta. rewrite rest_adv, E.
  cbn [drop]. rewrite drop_0, single_quoted_app by done. rewrite adv_adv. split; [|done].
  unfold remaining in *. rewrite rest_adv, E in *. cbn [length] in *. rewrite length_drop.
  cbn [length]. lia.
Qed.

Lemma word_escaped_quote fuel text dynamic p acts t :
  remaining p < fuel → rest_of p = BSL :: SQ :: t →
  ∃ fuel', remaining (adv 2 p) < fuel' ∧
    word_loop fuel text dynamic p acts = word_loop fuel' (push SQ text) dynamic (adv 2 p) acts.
Proof.
  intros Hf E. destruct fuel as [|fuel]; [lia|]. exists fuel. cbn [word_loop].
  rewrite (at_rest _ _ _ E).
  change (is_in WORD_END BSL) with false. change (Ascii.eqb BSL BSL) with true. cbv iota zeta.
  rewrite (at_rest (adv 1 p) SQ t) by (by rewrite rest_adv, E).
  change (negb (Ascii.eqb SQ NL)) with true. cbv iota.
  rewrite adv_adv. split; [|done].
  unfold remaining in *. rewrite rest_adv, E in *. rewrite length_drop. cbn [length] in *. lia.
Qed.

Lemma word_quoted_list l fuel text dynamic p acts t :
  remaining p < fuel → rest_of p = SQ :: escaped l ++ SQ :: t → stops t →
  word_loop fuel text dynamic p acts =
  ({| w_text := text +:+ text_of l; w_dynamic := dynamic |}, adv (2 + length (escaped l)) p, acts).
Proof.
  revert fuel text p. induction l as [l IH] using (well_founded_ind (well_founded_ltof _ length)).
  intros fuel text p Hf E Ht. destruct (split_quote l) as [Hs|(s & l' & -> & Hs)].
  - rewrite escaped_plain in * by done.
    destruct (word_single fuel text dynamic p acts l t) as (f & Hf' & ->); [done..|].
    rewrite word_stops; [done..|]. rewrite (rest_after p (SQ :: l ++ [SQ]) t); [done| |].
    + rewrite E. cbn. by rewrite <- app_assoc.
    + cbn. rewrite length_app. cbn. lia.
  - rewrite escaped_app, escaped_plain in * by done. cbn [escaped] in *.
    change (Ascii.eqb SQ SQ) with true in *. cbv iota in *. rewrite <- app_assoc in E.
    destruct (word_single fuel text dynamic p acts s (BSL :: SQ :: SQ :: escaped l' ++ SQ :: t))
      as (f1 & Hf1 & ->); [done..|].
    destruct (word_escaped_quote f1 (text +:+ text_of s) dynamic (adv (2 + length s) p) acts
      (SQ :: escaped l' ++ SQ :: t)) as (f2 & Hf2 & ->); [done| |].
    { apply (rest_after p (SQ :: s ++ [SQ])); [rewrite E; cbn; by rewrite <- app_assoc|].
      cbn. rewrite length_app. cbn. lia. }
    rewrite adv_adv in *. rewrite (IH l'); [|unfold ltof; rewrite length_app; cbn; lia|done| |done].
    + replace (push SQ (text +:+ text_of s) +:+ text_of l') with (text +:+ text_of (s ++ SQ :: l')).
      2: { unfold push, text_of. rewrite list_ascii_app, !str_app_assoc. done. }
      rewrite adv_adv, !length_app. cbn [length].
      by replace (2 + length s + 2 + (2 + length (escaped l')))
        with (2 + (length s + S (S (S (S (length (escaped l')))))))  by lia.
    + apply (rest_after p (SQ :: s ++ [SQ; BSL; SQ])); [rewrite E; cbn; by rewrite <- app_assoc|].
      cbn. rewrite length_app. cbn. lia.
Qed.

Lemma quoted_length w : length (quoted w) = 2 + length (escaped (String.list_ascii_of_string w)).
Proof. unfold quoted. cbn. rewrite length_app. cbn. lia. Qed.

Definition plain (w : string) : Word := {| w_text := w; w_dynamic := false |}.

Lemma read_word_quoted p w t :
  rest_of p = quoted w ++ t → stops t → read_word p = (plain w, adv (length (quoted w)) p, []).
Proof.
  intros E Ht. unfold quoted in E. cbn in E. rewrite <- app_assoc in E.
  unfold read_word. unfold peek_in. rewrite (at_rest _ _ _ E).
  change (is_in ["<"; ">"]%char SQ) with false. cbn [andb].
  rewrite (word_quoted_list (String.list_ascii_of_string w) _ _ _ _ _ t);
    [|unfold remaining; lia|done..].
  by rewrite text_of_list, quoted_length.
Qed.

(** ** Scripts of plain commands *)

Inductive Sep := Sep_semicolon | Sep_and | Sep_or | Sep_pipe | Sep_background | Sep_newline.

Definition sep_text (s : Sep) : list ascii :=
  match s with
  | Sep_semicolon => [";"%char]
  | Sep_and => ["&"; "&"]%char
  | Sep_or => ["|"; "|"]%char
  | Sep_pipe => ["|"%char]
  | Sep_background => ["&"%char]
  | Sep_newline => [NL]
  end.

Fixpoint words_text (argv : list string) : list ascii :=
  match argv with
  | [] => []
  | w :: argv => " "%char :: quoted w ++ words_text argv
  end.

(** Commands of quoted words, each followed by its separator. *)
Fixpoint script_chars (cmds : list (list string * Sep)) : list ascii :=
  match cmds with
  | [] => []
  | (argv, sep) :: cmds => words_text argv ++ sep_text sep ++ script_chars cmds
  end.

Definition script_text (cmds : list (list string * Sep)) : string := text_of (script_chars cmds).

Definition plain_cmd (argv : list string) : Cmd :=
  {| cmd_words := plain <$> argv; cmd_here_string := None; cmd_heredoc := None |}.

(** The state of the loop between two words. *)
Definition between (p : Parser) (argv : list string) (cmds : list Cmd) : Script :=
  {| sc_p := p; sc_cur := plain_cmd argv; sc_cmds := cmds; sc_risks := []; sc_acts := [] |}.

(** The loop gets from one state to the other. *)
Definition leads (s s' : Script) : Prop :=
  ∀ fuel, remaining (sc_p s) < fuel →
    ∃ fuel', remaining (sc_p s') < fuel' ∧ read_loop fuel s = read_loop fuel' s'.

Lemma leads_refl s : leads s s.
Proof. intros fuel H. by exists fuel. Qed.

Lemma leads_trans s1 s2 s3 : leads s1 s2 → leads s2 s3 → leads s1 s3.
Proof.
  intros H1 H2 fuel Hf. destruct (H1 _ Hf) as (f1 & Hf1 & ->). by apply H2.
Qed.

Lemma leads_step s ch s' :
  peek (skip_blanks (sc_p s)) = Some ch → Script_step ch (skip_blanks (sc_p s)) s = s' →
  remaining (sc_p s') < remaining (sc_p s) → leads s s'.
Proof.
  intros Hc <- Hr [|fuel] Hf; [lia|]. exists fuel. split; [lia|]. cbn [read_loop]. by rewrite Hc.
Qed.

(** A cursor with its rest, and no here-document waiting. *)
Definition cursor (p : Parser) (depth : nat) (l : list ascii) : Prop :=
  rest_of p = l ∧ pa_depth p = depth ∧ pa_pending_heredocs p = [].

Lemma cursor_adv p depth l t : cursor p depth (l ++ t) → cursor (adv (length l) p) depth t.
Proof. intros (E & D & H). split_and!; [by eapply rest_after|done..]. Qed.

Lemma stops_not_redirect argv sep t p :
  rest_of p = words_text argv ++ sep_text sep ++ t →
  stops (rest_of p) ∧ peek_in ["<"; ">"]%char p = false.
Proof.
  unfold peek_in. rewrite peek_rest. intros ->. by destruct argv, sep.
Qed.

Lemma leads_word p depth w argv sep t done cmds :
  cursor p depth (words_text (w :: argv) ++ sep_text sep ++ t) →
  ∃ p', cursor p' depth (words_text argv ++ sep_text sep ++ t) ∧
    leads (between p done cmds) (between p' (done ++ [w]) cmds).
Proof.
  intros Hc. cbn [words_text] in Hc. rewrite <- app_comm_cons, <- app_assoc in Hc.
  pose proof Hc as (E & _). assert (skip_blanks p = adv 1 p) as Hb.
  { unfold skip_blanks. rewrite E. unfold quoted. done. }
  apply (cursor_adv p depth [" "%char]) in Hc. cbn [length] in Hc. pose proof Hc as (E1 & _).
  pose proof (cursor_adv _ _ _ _ Hc) as Hc'. exists (adv (length (quoted w)) (adv 1 p)).
  split; [done|]. destruct (stops_not_redirect argv sep t _ (proj1 Hc')) as [Hs Hr].
  rewrite (proj1 Hc') in Hs. unfold quoted in E1. cbn [app] in E1.
  eapply (leads_step _ SQ); cbn [sc_p between]; rewrite ?Hb.
  - by eapply at_rest.
  - unfold Script_step. change (Ascii.eqb SQ NL) with false.
    change (is_in [";"; "&"; "|"; "("; ")"]%char SQ) with false.
    change (is_in ["<"; ">"]%char SQ) with false. change (Ascii.eqb SQ "#") with false.
    cbn [andb]. cbv iota. rewrite (read_word_quoted _ _ _ (proj1 Hc) Hs).
    rewrite Hr, andb_false_r. unfold between, plain_cmd, push_word. cbn. by rewrite fmap_app.
  - rewrite adv_adv. unfold remaining. rewrite rest_adv, E, length_drop. cbn [length]. lia.
Qed.

Lemma leads_words p depth argv sep t done cmds :
  cursor p depth (words_text argv ++ sep_text sep ++ t) →
  ∃ p', cursor p' depth (sep_text sep ++ t) ∧
    leads (between p done cmds) (between p' (done ++ argv) cmds).
Proof.
  revert p done. induction argv as [|w argv IH]; intros p done Hc.
  - exists p. rewrite app_nil_r. split; [done|apply leads_refl].
  - destruct (leads_word _ _ _ _ _ _ done cmds Hc) as (p1 & Hc1 & H1).
    destruct (IH _ (done ++ [w]) Hc1) as (p2 & Hc2 & H2). exists p2. split; [done|].
    rewrite <- app_assoc in H2. by eapply leads_trans.
Qed.

(** What may follow a separator. *)
Definition gap (l : list ascii) : Prop := match l with [] => True | c :: _ => c = " "%char end.

Lemma end_between p argv cmds :
  argv ≠ [] → Script_end_cmd (between p argv cmds) = between p [] (cmds ++ [plain_cmd argv]).
Proof. by destruct argv. Qed.

(** A separator of one or two characters. *)
Lemma step_sep ch p s :
  is_in [";"; "&"; "|"]%char ch = true → peek_is ">" (adv 1 p) = false →
  Script_step ch p s =
  Script_end_cmd { s with sc_p := adv (if peek_in ["&"; "|"; ";"]%char (adv 1 p) then 2 else 1) p }.
Proof.
  intros Hch Hgt. unfold Script_step, Script_separator. rewrite Hgt, andb_false_r.
  apply is_in_spec in Hch. rewrite !elem_of_cons in Hch.
  destruct (peek_in _ (adv 1 p)); rewrite ?adv_adv;
    by destruct Hch as [->|[->|[->|[]%elem_of_nil]]].
Qed.

Lemma leads_sep p depth argv sep t cmds :
  cursor p depth (sep_text sep ++ t) → gap t → argv ≠ [] →
  ∃ p', cursor p' depth t ∧
    leads (between p argv cmds) (between p' [] (cmds ++ [plain_cmd argv])).
Proof.
  intros Hc Hg Ha. pose proof (cursor_adv _ _ _ _ Hc) as Hc'. eexists. split; [exact Hc'|].
  rewrite <- end_between by done. pose proof Hc as (E & _ & Hh). pose proof Hc' as (E' & _).
  assert (skip_blanks p = p) as Hb.
  { unfold skip_blanks. rewrite E. by destruct sep; cbn -[adv]; rewrite adv_0. }
  assert (remaining (adv (length (sep_text sep)) p) < remaining p) as Hr.
  { unfold remaining. rewrite E', E, length_app. destruct sep; cbn; lia. }
  destruct sep; cbn [sep_text app length] in *;
    (eapply leads_step; cbn [sc_p between]; rewrite ?Hb;
     [by eapply at_rest| |rewrite Script_end_p; exact Hr]).
  6: { destruct p as [c i d h]. cbn in Hh. by subst h. }
  all: rewrite step_sep; [|done|];
    unfold peek_is, peek_in; rewrite peek_rest, rest_adv, E; cbn [drop];
    rewrite ?drop_0; destruct t as [|x t]; cbn in Hg; subst; done.
Qed.

Lemma script_gap cmds : Forall (λ c, c.1 ≠ []) cmds → gap (script_chars cmds).
Proof. intros H. destruct H as [|[[|w argv] sep] cmds Hc H]; [done|done|]. exact eq_refl. Qed.

Lemma leads_script p depth cmds seen :
  cursor p depth (script_chars cmds) → Forall (λ c, c.1 ≠ []) cmds →
  ∃ p', cursor p' depth [] ∧
    leads (between p [] seen) (between p' [] (seen ++ (plain_cmd <$> cmds.*1))).
Proof.
  revert p seen. induction cmds as [|[argv sep] cmds IH]; intros p seen Hc Hne.
  - exists p. rewrite app_nil_r. split; [done|apply leads_refl].
  - apply Forall_cons in Hne as [Ha Hne]. cbn [script_chars] in Hc.
    destruct (leads_words _ _ _ _ _ [] seen Hc) as (p1 & Hc1 & H1).
    destruct (leads_sep _ _ argv _ _ seen Hc1) as (p2 & Hc2 & H2); [by apply script_gap|done|].
    destruct (IH _ (seen ++ [plain_cmd argv]) Hc2 Hne) as (p3 & Hc3 & H3).
    exists p3. split; [done|]. rewrite <- app_assoc in H3.
    eapply leads_trans; [exact H1|]. by eapply leads_trans.
Qed.

Lemma list_ascii_text l : String.list_ascii_of_string (text_of l) = l.
Proof. unfold text_of. induction l as [|c l IH]; [done|]. cbn. f_equal. exact IH. Qed.

Lemma read_script_text cmds depth :
  Forall (λ c, c.1 ≠ []) cmds →
  ∃ p, read_script (script_text cmds) depth = between p [] (plain_cmd <$> cmds.*1).
Proof.
  intros Hne. set (p0 := sc_p (Script_new (script_text cmds) depth)).
  destruct (leads_script p0 depth cmds []) as (p & (E & _) & Hl); [|done|].
  { split_and!; [|done|done]. unfold rest_of. cbn. rewrite drop_0. apply list_ascii_text. }
  unfold read_script. destruct (Hl (S (String.length (script_text cmds)))) as ([|fuel] & Hf & Hrun).
  - unfold remaining, rest_of, p0. cbn [sc_p between Script_new pa_i pa_c].
    rewrite drop_0, list_ascii_length. lia.
  - lia.
  - change (Script_new (script_text cmds) depth) with (between p0 [] []). rewrite Hrun.
    exists (skip_blanks p). cbn [read_loop sc_p between]. unfold skip_blanks.
    rewrite peek_rest, rest_adv, E. done.
Qed.

Lemma flat_map_map {A B C} (f : B → list C) (g : A → B) l : flat_map f (g <$> l) = flat_map (f ∘ g) l.
Proof. induction l as [|x l IH]; cbn; [done|]. f_equal. exact IH. Qed.

Lemma classify_script_text cmds depth :
  depth ≤ MAX_DEPTH → Forall (λ c, c.1 ≠ []) cmds →
  classify_string (script_text cmds) depth =
  flat_map (λ argv, classify_simple (plain_cmd argv) depth) cmds.*1.
Proof.
  intros Hd Hne. unfold classify_string. rewrite (proj2 (Nat.ltb_ge _ _) Hd).
  destruct (read_script_text cmds depth Hne) as [p ->]. cbn [between sc_acts sc_risks sc_cmds].
  cbn [flat_map app]. apply flat_map_map.
Qed.

Definition KEYWORDS : list string :=
  RESERVED ++ ["for"; "select"; "function"; "case"; "in"; "esac"].

(** A command word that the shell does not treat as a keyword or an assignment. *)
Definition plain_head (argv : list string) : bool :=
  match argv with
  | [] => false
  | w :: _ =>
      negb (contains_str KEYWORDS w) && negb (is_assignment w)
  end.

Lemma plain_dynamic (argv : list string) : existsb w_dynamic (plain <$> argv) = false.
Proof. induction argv as [|w argv IH]; [done|]. exact IH. Qed.

Lemma plain_texts (argv : list string) : w_text <$> (plain <$> argv) = argv.
Proof. induction argv as [|w argv IH]; [done|]. cbn. by f_equal. Qed.

Lemma classify_simple_plain argv depth :
  plain_head argv = true →
  classify_simple (plain_cmd argv) depth = [Classify_cmd argv false None (S depth)].
Proof.
  destruct argv as [|w argv]; [done|]. unfold plain_head. rewrite andb_true_iff, !negb_true_iff.
  intros [Hk Ha]. rewrite contains_str_false in Hk.
  assert (∀ l, forallb (contains_str KEYWORDS) l = true → contains_str l w = false) as Hno.
  { intros l Hl. apply contains_str_false. intros Hw. apply Hk, contains_str_true.
    rewrite forallb_true in Hl. auto. }
  assert ((w =s "case") = false) as Hcase.
  { specialize (Hno ["case"] eq_refl). by apply orb_false_iff in Hno as [Hno _]. }
  unfold classify_simple. cbn [plain_cmd cmd_words fmap list_fmap leading plain w_text w_dynamic].
  rewrite (Hno RESERVED eq_refl), Ha. cbn [negb andb]. cbv iota beta.
  change (w_text (plain w)) with w. change (w_dynamic (plain w)) with false. cbn [negb andb].
  rewrite (Hno ["for"; "select"; "function"] eq_refl), (Hno ["in"; "esac"] eq_refl), Hcase.
  rewrite plain_dynamic. change (w_text <$> plain w :: (plain <$> argv)) with
    (w_text <$> (plain <$> w :: argv)). by rewrite plain_texts.
Qed.

(** C13: the reader is a left inverse of the shell's quoting, within the depth limit. A
    script of commands of single-quoted words, whatever the words hold, with any
    separators between the commands, in which no command begins with a keyword or an
    assignment ([plain_head]), is classified exactly as those commands one after the
    other with their words as they are: no quote, operator, substitution or newline
    inside a word is acted on, and no such command is lost. A keyword counts as one
    even in quotes, and what follows it may be lost ([quoted_keyword]). *)
Theorem shell_script_exact cmds depth :
  depth ≤ MAX_DEPTH → Forall (λ c, plain_head c.1 = true) cmds →
  all_effects (Classify_string (script_text cmds) depth) =
  flat_map (λ argv, all_effects (Classify_cmd argv false None (S depth))) cmds.*1.
Proof.
  intros Hd Hp. rewrite all_effects_call by done. cbn [step]. rewrite classify_script_text; [|done|].
  - induction Hp as [|c cmds Hc Hp IH]; [done|]. cbn [fmap list_fmap flat_map].
    rewrite classify_simple_plain, flat_map_app by done. cbn [flat_map]. rewrite app_nil_r.
    f_equal. exact IH.
  - eapply Forall_impl; [exact Hp|]. by intros [[|w argv] sep].
Qed.

Lemma shell_script_exact_witness :
  all_effects (Classify_string
    (script_text [(["echo"; "it's; rm -rf /"], Sep_and); (["git"; "push"; "$(x)"], Sep_newline)]) 0) =
  all_effects (Classify_cmd ["echo"; "it's; rm -rf /"] false None 1) ++
  all_effects (Classify_cmd ["git"; "push"; "$(x)"] false None 1).
Proof.
  rewrite (shell_script_exact
    [(["echo"; "it's; rm -rf /"], Sep_and); (["git"; "push"; "$(x)"], Sep_newline)] 0);
    [by vm_compute|unfold MAX_DEPTH; lia|by repeat constructor].
Defined.

(** A shell takes a quoted keyword as the name of a program; the classifier does not. *)
Example quoted_keyword :
  all_effects (Classify_string
    (script_text [(["function"; "rm"; "-rf"; "x"], Sep_semicolon)]) 0) = [].
Proof. by vm_compute. Qed.

(** ** Nesting *)

(** Words that look like options. *)
Definition dashed (a : string) : Prop := starts_with "-" a = true ∧ a ≠ "-" ∧ a ≠ "--".

(** The options of a wrapper, of which [valued] take the next word as their value:
    they may end in [--]. *)
Inductive options (valued : list string) : list string → Prop :=
  | options_nil : options valued []
  | options_end : options valued ["--"]
  | options_flag f os : dashed f → f ∉ valued → options valued os → options valued (f :: os)
  | options_value o v os :
      dashed o → o ∈ valued → options valued os → options valued (o :: v :: os).

Definition SUDO_VALUED : list string :=
  ["-u"; "-g"; "-h"; "-p"; "-C"; "-D"; "-r"; "-t"; "-U"; "-R"; "-T"; "--user"; "--group";
   "--host"; "--prompt"; "--chdir"].

Definition XARGS_VALUED : list string :=
  ["-I"; "-J"; "-L"; "-l"; "-n"; "-P"; "-s"; "-d"; "-E"; "-a"; "-R"; "-S"].

Definition EXEC_PRIMARIES : list string := ["-exec"; "-execdir"; "-ok"; "-okdir"].
Definition EXEC_ENDS : list string := [";"; "+"; String BSL ";"].

(** [find] with these arguments runs the command. *)
Inductive finds : list string → list string → Prop :=
  | finds_here x cmd e args :
      x ∈ EXEC_PRIMARIES → Forall (λ w, w ∉ EXEC_ENDS) cmd → e ∈ EXEC_ENDS →
      finds (x :: cmd ++ e :: args) cmd
  | finds_after x cmd e args inner :
      x ∈ EXEC_PRIMARIES → Forall (λ w, w ∉ EXEC_ENDS) cmd → e ∈ EXEC_ENDS →
      finds args inner → finds (x :: cmd ++ e :: args) inner
  | finds_skip a args inner : a ∉ EXEC_PRIMARIES → finds args inner → finds (a :: args) inner.

(** [outer] is one wrapper around the command [inner]. *)
Inductive wraps : list string → list string → Prop :=
  | wraps_plain p os a r :
      program p ∈ PLAIN_WRAPPERS → options (wrapper_value_opts (program p)) os →
      starts_with "-" a = false →
      (program p = "command" → any_arg ["-v"; "-V"] (os ++ a :: r) = false) →
      (program p = "arch" → os ≠ []) → wraps (p :: os ++ a :: r) (a :: r)
  | wraps_env p os vars a r :
      program p = "env" → options ["-u"; "-C"; "--unset"; "--chdir"; "-S"; "--split-string"] os →
      any_arg ["-S"; "--split-string"] os = false →
      Forall (λ v, contains_char "=" v && negb (starts_with "-" v) = true) vars →
      starts_with "-" a = false → contains_char "=" a = false →
      wraps (p :: os ++ vars ++ a :: r) (a :: r)
  | wraps_sudo p os a r :
      program p ∈ ["sudo"; "doas"] → options SUDO_VALUED os → any_arg ["-s"; "-i"] os = false →
      starts_with "-" a = false → wraps (p :: os ++ a :: r) (a :: r)
  | wraps_timeout p os t argv :
      program p = "timeout" → options ["-k"; "--kill-after"; "-s"; "--signal"] os →
      starts_with "-" t = false → wraps (p :: os ++ t :: argv) argv
  | wraps_xargs p os a r :
      program p = "xargs" → options XARGS_VALUED os → starts_with "-" a = false →
      wraps (p :: os ++ a :: r) (a :: r)
  | wraps_find p args cmd :
      program p ∈ ["find"; "gfind"] → finds args cmd → wraps (p :: args) cmd
  | wraps_busybox p a r :
      program p = "busybox" → a ∉ SHELLS → starts_with "-" a = false → starts_with "+" a = false →
      wraps (p :: a :: r) (a :: r).

Definition SHELL_VALUED : list string := ["-o"; "+o"; "-O"; "+O"; "--rcfile"; "--init-file"].

(** A group of short options with a c in it. *)
Definition inline_flag (a : string) : bool :=
  starts_with "-" a && negb (starts_with "--" a)
  && match a with String _ r => contains_char "c" r | "" => false end.

(** Options of a shell other than [-c]. *)
Inductive shell_flags : list string → Prop :=
  | shell_flags_nil : shell_flags []
  | shell_flags_flag f fs :
      starts_with "-" f || starts_with "+" f = true → f ≠ "--" → f ∉ SHELL_VALUED →
      inline_flag f = false → shell_flags fs → shell_flags (f :: fs)
  | shell_flags_value o v fs : o ∈ SHELL_VALUED → shell_flags fs → shell_flags (o :: v :: fs).

(** [outer] gives the script [s] to a shell. *)
Inductive hands : list string → string → Prop :=
  | hands_shell p fs c s more :
      program p ∈ ["sh"; "bash"; "zsh"; "dash"; "ksh"; "ash"; "mksh"] → shell_flags fs →
      inline_flag c = true → hands (p :: fs ++ c :: s :: more) s
  | hands_su p pre c s more :
      program p = "su" → Forall (λ a, a ∉ ["-c"; "--command"]) pre → c ∈ ["-c"; "--command"] →
      hands (p :: pre ++ c :: s :: more) s
  | hands_eval p words : program p = "eval" → hands (p :: words) (Prelude.join " " words)
  | hands_trap p s more :
      program p = "trap" → starts_with "-" s = false → hands (p :: s :: more) s.

(** [outer] runs [inner] so many levels deeper: through wrappers, or as one of the
    commands of a script given to a shell. *)
Inductive runs : nat → list string → list string → Prop :=
  | runs_here argv : runs 0 argv argv
  | runs_wrapped k outer mid inner : wraps outer mid → runs k mid inner → runs (S k) outer inner
  | runs_script k outer cmds mid inner :
      hands outer (script_text cmds) → Forall (λ c, plain_head c.1 = true) cmds →
      mid ∈ cmds.*1 → runs k mid inner → runs (S (S k)) outer inner.

Lemma eqb_neq (a b : string) : a ≠ b → (a =s b) = false.
Proof. apply String.eqb_neq. Qed.

Lemma skip_none opts a r : starts_with "-" a = false → skip_options opts (a :: r) = 0.
Proof.
  intros H. cbn [skip_options]. rewrite H. destruct (String.eqb_spec a "--") as [->|]; done.
Qed.

Lemma skip_spec opts os a r :
  options opts os → starts_with "-" a = false → skip_options opts (os ++ a :: r) = length os.
Proof.
  intros Ho Ha.
  induction Ho as [| |f os (Hd & H1 & H2) Hf _ IH|o v os (Hd & H1 & H2) Hv _ IH];
    [by apply skip_none|done|..]; cbn [app skip_options length].
  - rewrite (eqb_neq _ _ H2), Hd, (eqb_neq _ _ H1), (proj2 (contains_str_false _ _) Hf). cbn.
    by rewrite IH.
  - rewrite (eqb_neq _ _ H2), Hd, (eqb_neq _ _ H1), (proj2 (contains_str_true _ _) Hv). cbn.
    by rewrite IH.
Qed.

Lemma env_vars vars a r :
  Forall (λ v, contains_char "=" v && negb (starts_with "-" v) = true) vars →
  contains_char "=" a = false → (env_assignments (vars ++ a :: r)).2 = a :: r.
Proof.
  intros Hv Ha. induction Hv as [|v vars Hv _ IH]; cbn [app env_assignments]; [by rewrite Ha|].
  rewrite Hv. by destruct (env_assignments (vars ++ a :: r)).
Qed.

Lemma skip_vars opts os vars a r :
  options opts os → Forall (λ v, contains_char "=" v && negb (starts_with "-" v) = true) vars →
  starts_with "-" a = false → skip_options opts (os ++ vars ++ a :: r) = length os.
Proof.
  intros Ho [|v vars' Hv _] Ha; [by apply skip_spec|]. apply skip_spec; [done|].
  by apply andb_true_iff in Hv as [_ Hv%negb_true_iff].
Qed.

Lemma exec_words_spec cmd e args :
  Forall (λ w, w ∉ EXEC_ENDS) cmd → e ∈ EXEC_ENDS → exec_words (cmd ++ e :: args) = cmd.
Proof.
  intros Hc He. induction Hc as [|w cmd Hw _ IH]; cbn [app exec_words]; fold EXEC_ENDS.
  - by rewrite (proj2 (contains_str_true EXEC_ENDS e) He).
  - by rewrite (proj2 (contains_str_false EXEC_ENDS w) Hw), IH.
Qed.

Lemma find_skip depth cmd e args :
  find_loop depth (S (length cmd)) (cmd ++ e :: args) = find_loop depth 0 args.
Proof. induction cmd as [|w cmd IH]; [done|]. exact IH. Qed.

(** The primaries that run a command are not the one that deletes. *)
Lemma exec_step depth x cmd e args :
  x ∈ EXEC_PRIMARIES → Forall (λ w, w ∉ EXEC_ENDS) cmd → e ∈ EXEC_ENDS →
  find_loop depth 0 (x :: cmd ++ e :: args) =
  Classify_cmd cmd true None (S depth) :: find_loop depth 0 args.
Proof.
  intros Hx Hc He. cbn [find_loop]. fold EXEC_PRIMARIES. rewrite (proj2 (contains_str_true EXEC_PRIMARIES x) Hx).
  rewrite exec_words_spec, find_skip by done.
  destruct (String.eqb_spec x "-delete") as [->|]; [|done].
  by apply (proj2 (contains_str_true _ _)) in Hx.
Qed.

Lemma finds_spec depth args cmd :
  finds args cmd → Classify_cmd cmd true None (S depth) ∈ find_loop depth 0 args.
Proof.
  induction 1 as [x cmd e args Hx Hc He|x cmd e args inner Hx Hc He _ IH|a args inner Ha _ IH].
  - rewrite exec_step by done. left.
  - rewrite exec_step by done. by right.
  - cbn [find_loop]. fold EXEC_PRIMARIES. rewrite (proj2 (contains_str_false EXEC_PRIMARIES a) Ha).
    destruct (a =s "-delete"); [by right|done].
Qed.

Ltac name_cases H :=
  repeat (apply elem_of_cons in H as [H|H]; [rewrite H|]); [..|by apply elem_of_nil in H].

Lemma cons_not_nil {A B} (l : list A) x r (u v : B) :
  match l ++ x :: r with [] => u | _ => v end = v.
Proof. by destruct l. Qed.

(** A plain wrapper and its options. *)
Lemma plain_wrapper_call prog os a r dyn stdin depth :
  prog ∈ PLAIN_WRAPPERS → options (wrapper_value_opts prog) os → starts_with "-" a = false →
  (prog = "command" → any_arg ["-v"; "-V"] (os ++ a :: r) = false) → (prog = "arch" → os ≠ []) →
  classify_wrapper prog (os ++ a :: r) dyn stdin depth =
  Some [Classify_cmd (a :: r) dyn stdin (S depth)].
Proof.
  intros Hp Ho Ha Hc Hx. pose proof (skip_spec _ _ _ r Ho Ha) as Hs.
  assert (prog = "arch" → starts_with "-" (hd "" (os ++ a :: r)) = true) as Hh.
  { intros E. specialize (Hx E). destruct Ho as [| |f os [] _ _|o v os [] _ _]; done. }
  unfold classify_wrapper. name_cases Hp; rewrite Hp in *; cbn -[skip_options any_arg starts_with app];
    rewrite ?cons_not_nil; cbn -[skip_options any_arg starts_with app]; rewrite ?Hc, ?Hh by done;
    cbn -[skip_options app]; cbn -[skip_options app] in Hs; by rewrite Hs, drop_app_length.
Qed.

Lemma not_option a r :
  starts_with "-" a = false → starts_with "+" a = false → shell_options (a :: r) = (0, false).
Proof.
  intros Hm Hp. cbn [shell_options]. rewrite Hm, Hp.
  destruct (String.eqb_spec a "--") as [->|]; done.
Qed.

Lemma wrapper_step outer mid dyn stdin depth :
  wraps outer mid → depth ≤ MAX_DEPTH →
  ∃ dyn' stdin', Classify_cmd mid dyn' stdin' (S depth) ∈ classify_cmd outer dyn stdin depth.
Proof.
  intros Hw Hd%Nat.ltb_ge.
  destruct Hw as [p os a r Hp Ho Ha Hc Hx|p os vars a r Hp Ho _ Hv Ha Hq|p os a r Hp Ho Hn Ha
    |p os t argv Hp Ho Ht|p os a r Hp Ho Ha|p args cmd Hp Hf|p a r Hp Hs Ha Hb];
    unfold classify_cmd; rewrite Hd; setoid_rewrite elem_of_app.
  - exists dyn, stdin. right. rewrite plain_wrapper_call by done. by left.
  - exists dyn, stdin. right. rewrite Hp. cbn -[skip_options env_assignments app].
    rewrite (skip_vars _ _ _ _ _ Ho Hv Ha), drop_app_length.
    pose proof (env_vars vars a r Hv Hq) as He.
    destruct (env_assignments _) as [acts cmd]. cbn in He. subst cmd.
    rewrite elem_of_app. right. by left.
  - exists dyn, stdin. right. name_cases Hp; cbn -[skip_options app any_arg];
      fold SUDO_VALUED; rewrite (skip_spec _ _ _ _ Ho Ha), drop_app_length, take_app_length, Hn;
      right; by left.
  - exists dyn, stdin. right. rewrite Hp. cbn -[skip_options app]. rewrite cons_not_nil.
    rewrite (skip_spec _ _ _ _ Ho Ht). cbn -[skip_options app drop].
    replace (drop (S (length os)) (os ++ t :: argv)) with argv; [by left|].
    by rewrite <- Nat.add_1_r, <- drop_drop, drop_app_length.
  - exists true, None. right. rewrite Hp. cbn -[skip_options app]. fold XARGS_VALUED.
    rewrite (skip_spec _ _ _ _ Ho Ha), drop_app_length. by left.
  - exists true, None. right. name_cases Hp; cbn -[find_loop]; by apply finds_spec.
  - exists false, stdin. right. rewrite Hp.
    change (classify_wrapper "busybox" (a :: r) dyn stdin depth) with (@None (list Act)).
    change (classify_program p "busybox" (a :: r) dyn stdin depth) with
      (classify_shell "busybox" (a :: r) stdin depth).
    unfold classify_shell. rewrite not_option by done. cbn -[contains_str SHELLS].
    rewrite (proj2 (contains_str_false _ _) Hs). by left.
Qed.

Lemma inline_option c r :
  inline_flag c = true → shell_options (c :: r) = (1, true).
Proof.
  intros Hi. pose proof Hi as Hi'. unfold inline_flag in Hi'. cbn [shell_options].
  fold SHELL_VALUED (inline_flag c). rewrite Hi.
  apply andb_true_iff in Hi' as [[Hs Hn]%andb_true_iff Hc]. apply negb_true_iff in Hn.
  rewrite Hs. cbn [negb andb].
  destruct (String.eqb_spec c "--") as [->|]; [done|].
  destruct (contains_str SHELL_VALUED c) eqn:E; [|done].
  apply contains_str_true in E. unfold SHELL_VALUED in E.
  repeat (apply elem_of_cons in E as [->|E]; [done|]). by apply elem_of_nil in E.
Qed.

Lemma shell_flags_spec fs c r :
  shell_flags fs → inline_flag c = true → shell_options (fs ++ c :: r) = (S (length fs), true).
Proof.
  intros Hf Hc. induction Hf as [|f fs Hd Hn Hv Hi _ IH|o v fs Ho _ IH];
    [by apply inline_option|..]; cbn [app shell_options length]; rewrite IH.
  - fold SHELL_VALUED (inline_flag f).
    rewrite (eqb_neq _ _ Hn), (proj2 (contains_str_false _ _) Hv), Hi.
    by destruct (starts_with "-" f), (starts_with "+" f).
  - unfold SHELL_VALUED in Ho.
    repeat (apply elem_of_cons in Ho as [->|Ho]; [done|]). by apply elem_of_nil in Ho.
Qed.

Lemma position_spec {A} (f : A → bool) pre c r :
  Forall (λ a, f a = false) pre → f c = true → position f (pre ++ c :: r) = Some (length pre).
Proof.
  intros Hp Hc. induction Hp as [|a pre Ha _ IH]; cbn; [by rewrite Hc|]. by rewrite Ha, IH.
Qed.

(** What a command hands to a shell is classified as a script. *)
Lemma hands_step outer s dyn stdin depth :
  hands outer s → depth ≤ MAX_DEPTH →
  Classify_string s (S depth) ∈ classify_cmd outer dyn stdin depth.
Proof.
  intros Hh Hd%Nat.ltb_ge. destruct Hh as [p fs c s more Hp Hf Hc|p pre c s more Hp Hpre Hc
    |p words Hp|p s more Hp Hs]; unfold classify_cmd; rewrite Hd, elem_of_app; right.
  - assert (Classify_string s (S depth) ∈
      classify_shell (program p) (fs ++ c :: s :: more) stdin depth) as E.
    { unfold classify_shell. rewrite shell_flags_spec by done.
      rewrite lookup_app_r by lia. replace (S (length fs) - length fs) with 1 by lia. by left. }
    name_cases Hp; rewrite Hp in E; exact E.
  - rewrite Hp. cbn -[position app]. rewrite position_spec.
    + rewrite lookup_app_r by lia. replace (S (length pre) - length pre) with 1 by lia.
      right. by left.
    + eapply Forall_impl; [exact Hpre|]. intros a Ha. by apply contains_str_false.
    + by apply contains_str_true.
  - rewrite Hp. by left.
  - rewrite Hp. cbn -[starts_with]. rewrite Hs. by left.
Qed.

Lemma script_step cmds mid depth :
  depth ≤ MAX_DEPTH → Forall (λ c, plain_head c.1 = true) cmds → mid ∈ cmds.*1 →
  Classify_cmd mid false None (S depth) ∈ classify_string (script_text cmds) depth.
Proof.
  intros Hd Hp Hm. rewrite classify_script_text; [|done|].
  - apply list_elem_of_In, in_flat_map. exists mid. rewrite <- !list_elem_of_In. split; [done|].
    rewrite classify_simple_plain; [by left|]. apply list_elem_of_fmap in Hm as (c & -> & Hc).
    rewrite Forall_forall in Hp. auto.
  - eapply Forall_impl; [exact Hp|]. by intros [[|w argv] sep].
Qed.

Lemma step_effects a b e :
  is_call a = true → b ∈ step a → e ∈ all_effects b → e ∈ all_effects a.
Proof.
  intros Ha Hb He. rewrite all_effects_call by done. apply list_elem_of_In, in_flat_map.
  exists b. by rewrite <- !list_elem_of_In.
Qed.

Lemma too_deep argv dyn stdin d :
  MAX_DEPTH < d →
  unknown "commands nested too deeply to resolve" ∈ all_effects (Classify_cmd argv dyn stdin d).
Proof.
  intros H%Nat.ltb_lt. rewrite all_effects_call by done. cbn [step]. unfold classify_cmd.
  rewrite H. by left.
Qed.

Lemma too_deep_string s d :
  MAX_DEPTH < d →
  unknown "shell strings nested too deeply to resolve" ∈ all_effects (Classify_string s d).
Proof.
  intros H%Nat.ltb_lt. rewrite all_effects_call by done. cbn [step]. unfold classify_string.
  rewrite H. by left.
Qed.

(** What a nested command does is among the effects of the whole, or the whole
    has an effect that could not be resolved. *)
Lemma runs_effects k outer inner dyn stdin d :
  runs k outer inner →
  (d + k ≤ MAX_DEPTH → ∃ dyn' stdin', ∀ e,
     e ∈ all_effects (Classify_cmd inner dyn' stdin' (d + k)) →
     e ∈ all_effects (Classify_cmd outer dyn stdin d)) ∧
  (MAX_DEPTH < d + k → ∃ why, unknown why ∈ all_effects (Classify_cmd outer dyn stdin d)).
Proof.
  intros Hr. revert dyn stdin d.
  induction Hr as [argv|k outer mid inner Hw _ IH|k outer cmds mid inner Hh Hc Hm _ IH];
    intros dyn stdin d.
  - rewrite Nat.add_0_r. split; [by exists dyn, stdin|]. intros H. eexists. by apply too_deep.
  - destruct (decide (d ≤ MAX_DEPTH)) as [Hd|Hd].
    2: { split; [lia|]. intros _. eexists. apply too_deep. lia. }
    destruct (wrapper_step outer mid dyn stdin d Hw Hd) as (dyn1 & stdin1 & H1).
    destruct (IH dyn1 stdin1 (S d)) as [Ha Hb]. rewrite Nat.add_succ_r. cbn [Nat.add] in *. split.
    + intros (dyn2 & stdin2 & H2)%Ha. exists dyn2, stdin2. intros e He.
      eapply step_effects; [done|exact H1|by apply H2].
    + intros (why & H2)%Hb. exists why. by eapply step_effects; [|exact H1|].
  - destruct (decide (d ≤ MAX_DEPTH)) as [Hd|Hd].
    2: { split; [lia|]. intros _. eexists. apply too_deep. lia. }
    pose proof (hands_step outer (script_text cmds) dyn stdin d Hh Hd) as H1.
    destruct (decide (S d ≤ MAX_DEPTH)) as [Hd'|Hd'].
    2: { split; [lia|]. intros _. eexists.
         eapply step_effects; [done|exact H1|]. apply too_deep_string. lia. }
    pose proof (script_step cmds mid (S d) Hd' Hc Hm) as H2.
    destruct (IH false None (S (S d))) as [Ha Hb]. rewrite !Nat.add_succ_r. cbn [Nat.add] in *. split.
    + intros (dyn2 & stdin2 & H3)%Ha. exists dyn2, stdin2. intros e He.
      eapply step_effects; [done|exact H1|]. eapply step_effects; [done|exact H2|by apply H3].
    + intros (why & H3)%Hb. exists why. eapply step_effects; [done|exact H1|].
      by eapply step_effects; [|exact H2|].
Qed.

(** ** The accumulator *)

Lemma effect_max_le_l a b : effect_le a (effect_max a b).
Proof. by destruct a, b. Qed.

Lemma effect_max_le_r a b : effect_le b (effect_max a b).
Proof. by destruct a, b. Qed.

Lemma effect_le_trans a b c : effect_le a b → effect_le b c → effect_le a c.
Proof. unfold effect_le. lia. Qed.

(** No call lowers the class or makes the whole classified again. *)
Lemma do_grows acc a :
  effect_le (acc_class acc) (acc_class (Acc_do acc a)) ∧
  (acc_unknown acc = true → acc_unknown (Acc_do acc a) = true).
Proof.
  destruct a as [c why|why|c why|why| | | | |]; try (split; [apply Z.le_refl|done]);
    cbn [Acc_do]; unfold Acc_raise, Acc_raise_dependency_install, Acc_raise_inline, Acc_unknown, note.
  - destruct (negb _), (_ && _)%bool; (split; [apply effect_max_le_l|done]).
  - destruct (_ && _)%bool; (split; [apply effect_max_le_l|done]).
  - destruct (_ && _)%bool; (split; [apply Z.le_refl|done]).
  - destruct (_ && _)%bool; (split; [apply Z.le_refl|done]).
Qed.

Lemma run_grows acts acc :
  effect_le (acc_class acc) (acc_class (Acc_run acts acc)) ∧
  (acc_unknown acc = true → acc_unknown (Acc_run acts acc) = true).
Proof.
  revert acc. induction acts as [|a acts IH]; intros acc; [done|]. cbn.
  destruct (do_grows acc a) as [H1 H2], (IH (Acc_do acc a)) as [H3 H4].
  split; [by eapply effect_le_trans|auto].
Qed.

Lemma run_raise c why acts acc :
  raise c why ∈ acts → effect_le c (acc_class (Acc_run acts acc)).
Proof.
  intros (l1 & l2 & ->)%list_elem_of_split. unfold Acc_run. rewrite foldl_app. cbn [foldl].
  eapply effect_le_trans; [|apply run_grows]. cbn [Acc_do]. unfold Acc_raise.
  destruct (negb _); apply effect_max_le_r.
Qed.

Lemma run_unknown why acts acc : unknown why ∈ acts → acc_unknown (Acc_run acts acc) = true.
Proof.
  intros (l1 & l2 & ->)%list_elem_of_split. unfold Acc_run. rewrite foldl_app. cbn [foldl].
  by apply run_grows.
Qed.

Lemma class_in_unclassified e :
  se_unclassified e = true → effect_le EffectClass_ProtectedWrite (class_in e "local_trusted").
Proof. intros H. unfold class_in. cbn [String.eqb]. rewrite H. apply effect_max_le_r. Qed.

(** ** Commands that raise the class on their own *)

(** At any depth within the limit and whatever is known of its operands. *)
Definition raises (c : EffectClass) (argv : list string) : Prop :=
  ∀ dyn stdin d, d ≤ MAX_DEPTH → ∃ why, raise c why ∈ classify_cmd argv dyn stdin d.

(** The nested command's own call is among the effects of the whole. *)
Lemma nested_raise k outer inner c stdin :
  runs k outer inner → raises c inner → k ≤ MAX_DEPTH →
  ∃ why, raise c why ∈ all_effects (Classify_cmd outer false stdin 0).
Proof.
  intros Hr Hc Hk. destruct (runs_effects k outer inner false stdin 0 Hr) as [Ha _].
  destruct (Ha Hk) as (dyn' & stdin' & H). destruct (Hc dyn' stdin' k Hk) as [why Hw].
  exists why. apply H. eapply step_effects; [done|exact Hw|].
  rewrite all_effects_prim by done. by left.
Qed.

(** C11: the wrappers and shells the classifier knows do not hide a command. Let
    [outer] run [inner] through any nesting ([runs]) of: nice, ionice, nohup, setsid,
    caffeinate, stdbuf, unbuffer, time, chronic, builtin, exec, arch (with an option),
    [command] without [-v] or [-V] among its words, env with assignments and without
    [-S], sudo and doas without [-s] or [-i], timeout and xargs, each with options of
    which those the classifier lists take a value; [find -exec] and its variants; a
    busybox applet that is no shell; and, given to a shell with [-c], to [su -c], eval or trap, a script of
    single-quoted words in which no command begins with a keyword or an assignment,
    [inner] being one of its commands. Then the class of [outer] is at least what
    [inner] raises on its own when the nesting is within the depth limit, and when it
    is beyond, the whole is unclassified and at least a protected write under
    [local_trusted]. Other ways to run a command are not covered, and some of them are
    not seen: [unseen_commands]. *)
Theorem nested_command_counts k outer inner c stdin :
  runs k outer inner → raises c inner →
  (k ≤ MAX_DEPTH → effect_le c (se_class (classify_argv outer stdin))) ∧
  (MAX_DEPTH < k →
     se_unclassified (classify_argv outer stdin) = true ∧
     effect_le EffectClass_ProtectedWrite
       (class_in (classify_argv outer stdin) "local_trusted")).
Proof.
  intros Hr Hc. destruct (runs_effects k outer inner false stdin 0 Hr) as [_ Hb].
  cbn [Nat.add] in *. split.
  - intros Hk. destruct (nested_raise k outer inner c stdin Hr Hc Hk) as [why Hw].
    by apply (run_raise c why).
  - intros [why Hw]%Hb. assert (se_unclassified (classify_argv outer stdin) = true) as Hu
      by exact (run_unknown why _ _ Hw).
    split; [done|]. by apply class_in_unclassified.
Qed.

Lemma rm_recursive_raises p args :
  program p = "rm" → (rm_args false args).1 = true → raises EffectClass_Destructive (p :: args).
Proof.
  intros Hp Hr dyn stdin d Hd%Nat.ltb_ge. exists "recursive removal".
  unfold classify_cmd. rewrite Hd, elem_of_app, Hp. right.
  change (classify_wrapper "rm" args dyn stdin d) with (@None (list Act)).
  change (classify_program p "rm" args dyn stdin d) with (classify_rm args dyn).
  unfold classify_rm. destruct (rm_args false args) as [r o]. cbn in Hr. subst r. by left.
Qed.

(** The arguments of [git push] after which it forces or deletes. *)
Lemma git_push_forced_raises p rest :
  program p = "git" → push_forced rest false = true →
  raises EffectClass_Destructive (p :: "push" :: rest).
Proof.
  intros Hp Hf dyn stdin d Hd%Nat.ltb_ge.
  exists "`git push` that forces, deletes or may force remote refs".
  unfold classify_cmd. rewrite Hd, elem_of_app, Hp. right.
  change (classify_wrapper "git" ("push" :: rest) dyn stdin d) with (@None (list Act)).
  change (classify_program p "git" ("push" :: rest) dyn stdin d) with
    (if push_forced rest dyn
     then [raise EffectClass_Destructive "`git push` that forces, deletes or may force remote refs"]
     else [raise EffectClass_ExternalSideEffect "`git push` publishes to a remote"]).
  replace (push_forced rest dyn) with true; [by left|].
  unfold push_forced in *. rewrite orb_false_r in Hf. by rewrite Hf.
Qed.

Definition hidden_rm : list string :=
  ["/usr/bin/sudo"; "-u"; "root"; "env"; "A=1"; "bash"; "-e"; "-lc";
   script_text [(["cd"; "it's a dir"], Sep_and); (["timeout"; "5"; "rm"; "-fr"; "x"], Sep_newline)]].

Lemma hidden_rm_runs : runs 5 hidden_rm ["rm"; "-fr"; "x"].
Proof.
  eapply runs_wrapped.
  { apply (wraps_sudo "/usr/bin/sudo" ["-u"; "root"] "env"); [by left| |done..].
    apply options_value; [done|by left|constructor]. }
  eapply runs_wrapped.
  { apply (wraps_env "env" [] ["A=1"] "bash"); [done|constructor|done|by repeat constructor|done..]. }
  eapply (runs_script 1 _ [(["cd"; "it's a dir"], Sep_and);
    (["timeout"; "5"; "rm"; "-fr"; "x"], Sep_newline)] ["timeout"; "5"; "rm"; "-fr"; "x"]).
  - apply (hands_shell "bash" ["-e"] "-lc"); [right; by left| |done].
    apply shell_flags_flag; [done|done|by apply contains_str_false|done|constructor].
  - by repeat constructor.
  - right. by left.
  - eapply runs_wrapped; [by apply (wraps_timeout "timeout" [] "5"); [|constructor|]|].
    apply runs_here.
Qed.

Lemma nested_command_counts_witness :
  (5 ≤ MAX_DEPTH →
     effect_le EffectClass_Destructive (se_class (classify_argv hidden_rm None))) ∧
  (MAX_DEPTH < 5 →
     se_unclassified (classify_argv hidden_rm None) = true ∧
     effect_le EffectClass_ProtectedWrite
       (class_in (classify_argv hidden_rm None) "local_trusted")).
Proof.
  apply (nested_command_counts 5 hidden_rm ["rm"; "-fr"; "x"] EffectClass_Destructive None).
  - apply hidden_rm_runs.
  - by apply rm_recursive_raises.
Defined.

(** ** The exemption of dependency installs *)

(** [b] is [a] or a call made on the way from [a]. *)
Inductive reaches : Act → Act → Prop :=
  | reaches_here a : reaches a a
  | reaches_call a b c : b ∈ step a → reaches b c → reaches a c.

Lemma install_origin a why :
  raise_dependency_install why ∈ all_effects a → is_call a = true →
  ∃ argv dyn stdin d, reaches a (Classify_cmd argv dyn stdin d) ∧ installs argv = true.
Proof.
  remember (call_bound a) as n eqn:En. revert a En.
  induction n as [n IH] using lt_wf_ind. intros a -> Hin Ha.
  rewrite all_effects_call in Hin by done.
  apply list_elem_of_In, in_flat_map in Hin as (b & Hb & Hin).
  rewrite <- !list_elem_of_In in *. destruct (is_call b) eqn:Hc.
  - destruct (IH (call_bound b) (step_smaller a b Hb Hc) b eq_refl Hin Hc)
      as (argv & dyn & stdin & d & Hr & Hi).
    exists argv, dyn, stdin, d. split; [by eapply reaches_call|done].
  - rewrite all_effects_prim, list_elem_of_singleton in Hin by done. subst b.
    destruct a as [| | | | | | |argv dyn stdin d|src d]; try done; cbn [step] in Hb.
    + exists argv, dyn, stdin, d. split; [constructor|].
      by destruct (proj1 (Forall_forall _ _) (classify_cmd_made argv dyn stdin d) _ Hb) as [[]|[_ H]].
    + by destruct (proj1 (Forall_forall _ _) (classify_string_below src d) _ Hb).
Qed.

Lemma effect_max_lt a b c : effect_gt c (effect_max a b) = true → effect_gt c a = true ∧ effect_gt c b = true.
Proof. by destruct a, b, c. Qed.

(** What holds of the calls that leave the accumulator a plain install. *)
Definition harmless (a : Act) : Prop :=
  match a with
  | raise c _ | raise_inline c _ => effect_gt EffectClass_ExternalSideEffect c = true
  | set_taints_install => False
  | _ => True
  end.

(** A run that ends untainted did nothing else that reaches out. *)
Lemma run_untainted acts acc :
  acc_taints_install (Acc_run acts acc) = false →
  effect_gt EffectClass_ExternalSideEffect (acc_inline (Acc_run acts acc)) = true →
  Forall harmless acts ∧ acc_taints_install acc = false ∧
  effect_gt EffectClass_ExternalSideEffect (acc_inline acc) = true.
Proof.
  revert acc. induction acts as [|a acts IH]; intros acc Ht Hi; [done|].
  destruct (IH (Acc_do acc a) Ht Hi) as (H & Ht' & Hi'). clear Ht Hi IH.
  destruct a as [c why|why|c why|why| | | | |]; cbn [Acc_do] in *;
    unfold Acc_raise, Acc_raise_dependency_install, Acc_raise_inline, Acc_unknown, note in *.
  - destruct (effect_gt EffectClass_ExternalSideEffect c) eqn:E; cbn [negb] in *;
      destruct (_ && _)%bool; cbn in *; simplify_eq; split_and!; try done; by constructor.
  - destruct (_ && _)%bool; cbn in *; split_and!; try done; by constructor.
  - destruct (_ && _)%bool; cbn -[effect_gt effect_max] in *;
      apply effect_max_lt in Hi' as [Hi1 Hi2]; split_and!; try done; by constructor.
  - destruct (_ && _)%bool; cbn in *; split_and!; try done; by constructor.
  - done.
  - cbn in *. split_and!; try done; by constructor.
  - cbn in *. split_and!; try done; by constructor.
  - split_and!; try done; by constructor.
  - split_and!; try done; by constructor.
Qed.

Lemma run_no_install acts acc :
  Forall (λ a, ∀ why, a ≠ raise_dependency_install why) acts →
  acc_dep_installs (Acc_run acts acc) = acc_dep_installs acc.
Proof.
  intros H. revert acc. induction H as [|a acts Ha H IH]; intros acc; [done|].
  cbn [Acc_run foldl]. change (foldl Acc_do (Acc_do acc a) acts) with (Acc_run acts (Acc_do acc a)).
  rewrite IH. destruct a as [c why|why|c why|why| | | | |]; try done; cbn [Acc_do];
    unfold Acc_raise, Acc_raise_inline, Acc_unknown, note.
  - by destruct (negb _), (_ && _)%bool.
  - by destruct (Ha why).
  - by destruct (_ && _)%bool.
  - by destruct (_ && _)%bool.
Qed.


Definition is_install (a : Act) : bool :=
  match a with raise_dependency_install _ => true | _ => false end.

Lemma some_install acts acc :
  acc_dep_installs acc = 0%Z → acc_dep_installs (Acc_run acts acc) ≠ 0%Z →
  ∃ why, raise_dependency_install why ∈ acts.
Proof.
  intros H0 H. destruct (existsb is_install acts) eqn:E.
  - apply existsb_true in E as (a & Ha & Hi). destruct a; try done. eauto.
  - destruct H. rewrite run_no_install; [done|]. apply existsb_false in E.
    eapply Forall_impl; [exact E|]. intros a Ha why ->. done.
Qed.

Lemma env_not_install env : Forall (λ a, is_install a = false) (env_effects env).
Proof.
  unfold env_effects. apply Forall_app_2; [destruct env; by repeat constructor|].
  induction (env.*1) as [|k ks IH]; cbn; [constructor|].
  apply Forall_app_2; [|done]. destruct (dangerous_env k); by repeat constructor.
Qed.

(** C12: one install does not cover another reach into the network that the classifier
    finds. If a call is reported as an install of the project's dependencies, then its
    environment is not overridden, some command the classifier reaches is exactly such
    an install, and among all the effects it finds in the call (in the wrappers,
    scripts and substitutions it follows) there is no external effect or worse other
    than such installs, no assignment that taints the install and no inline code that reaches out. It
    speaks of the effects found: a command that the classifier does not see keeps the
    exemption ([install_beside_unseen]). *)
Theorem install_exemption_sound args :
  se_dependency_install (classify_args args) = true →
  default [] (env_of args) = [] ∧
  let call := Classify_cmd (strings_of args "argv") false (str_of args "stdin") 0 in
  (∃ argv dyn stdin d, reaches call (Classify_cmd argv dyn stdin d) ∧ installs argv = true) ∧
  Forall harmless (all_effects call).
Proof.
  cbv zeta. set (call := Classify_cmd _ _ _ _). unfold classify_args. fold call. cbv zeta.
  set (env := default [] (env_of args)).
  assert (match env_of args with Some e => Acc_run (env_effects e) Acc_new | None => Acc_new end =
    Acc_run (env_effects env) Acc_new) as -> by (unfold env; by destruct (env_of args)).
  unfold Acc_finish. cbn [se_dependency_install].
  rewrite !andb_true_iff, negb_true_iff, Z.ltb_lt. intros [[[Hd Ht] _] Hi].
  destruct (run_untainted _ _ Ht Hi) as (Hh & Ht' & Hi').
  destruct (run_untainted _ _ Ht' Hi') as (He & _). split_and!.
  - destruct env as [|kv env]; [done|]. by inversion He.
  - destruct (some_install (env_effects env ++ all_effects call) Acc_new) as [why Hw]; [done| |].
    { unfold Acc_run in *. rewrite foldl_app. lia. }
    apply elem_of_app in Hw as [Hw|Hw]; [|by apply (install_origin call why)].
    by specialize (proj1 (Forall_forall _ _) (env_not_install env) _ Hw).
  - done.
Qed.

Definition npm_ci : jvalue := Jobject [("argv", Jarray [Jstring "sh"; Jstring "-c"; Jstring "npm ci && npm test"])].

Lemma install_exemption_sound_witness :
  default [] (env_of npm_ci) = [] ∧
  let call := Classify_cmd (strings_of npm_ci "argv") false (str_of npm_ci "stdin") 0 in
  (∃ argv dyn stdin d, reaches call (Classify_cmd argv dyn stdin d) ∧ installs argv = true) ∧
  Forall harmless (all_effects call).
Proof. apply (install_exemption_sound npm_ci). by vm_compute. Defined.

(** Commands that the classifier does not see: the lookup flag of [command]
    anywhere among the arguments, the string that [env -S] runs, the body of a
    function defined with the keyword, a script given to the shell of busybox, a help
    flag after inline code, a file edited in place and a target directory given as an
    option. *)
Example unseen_commands :
  (λ argv, let e := classify_argv argv None in
           (class_in e "local_trusted", se_unclassified e, se_outside_workspace e)) <$>
  [["command"; "rm"; "-r"; "-v"; "src"];
   ["env"; "-S"; "rm -rf src"];
   ["sh"; "-c"; "function ls { rm -rf src; }; ls"];
   ["busybox"; "sh"; "-c"; "rm -rf src"];
   ["python3"; "-c"; "import shutil; shutil.rmtree('src')"; "-h"];
   ["sed"; "-i"; "s/a/b/"; "/etc/hosts"];
   ["cp"; "-t"; "/etc"; "hosts"]] =
  replicate 7 (EffectClass_ReversibleWrite, false, false).
Proof. by vm_compute. Qed.

(** Beside an install such a command runs under its exemption. *)
Example install_beside_unseen :
  (λ script, se_dependency_install (classify_argv ["sh"; "-c"; script] None)) <$>
  ["npm ci && command curl -v https://example.test/";
   "npm ci && env -S 'curl https://example.test/'";
   "npm ci && busybox sh -c 'curl https://example.test/'"] = [true; true; true].
Proof. by vm_compute. Qed.
