(* ===== verification/Gate.v ===== *)
(** * The acceptance gate

    [crates/verification/src/gate.rs]: does the evidence at the candidate's
    revision satisfy the assurance its risk requires? The sections of [evaluate]
    each add evidence, references and reasons to reject; [Weighed] is what one
    adds. *)

From S2P Require Import Prelude RustStr BTree Assurance.
#[local] Open Scope Z_scope.

Definition GATE_SCHEMA_VERSION : Z := 1.
Definition GATE_VERSION : string := "gate-1".
Definition NO_MANDATORY_CHECKS : string := "NO_MANDATORY_CHECKS".

Inductive Verdict := Verdict_Accept | Verdict_Reject | Verdict_Inconclusive.

Definition Verdict_label (self : Verdict) : string :=
  match self with
  | Verdict_Accept => "ACCEPT"
  | Verdict_Reject => "REJECT"
  | Verdict_Inconclusive => "INCONCLUSIVE"
  end.

Inductive EvidenceStatus :=
  | EvidenceStatus_Pass
  | EvidenceStatus_Fail
  | EvidenceStatus_Missing
  | EvidenceStatus_Stale
  | EvidenceStatus_Incomplete.

#[export] Instance EvidenceStatus_eq : EqDecision EvidenceStatus.
Proof. solve_decision. Defined.

Record EvidenceItem := {
  ei_kind : string;
  ei_status : EvidenceStatus;
  ei_required : bool;
  ei_refs : list string;
  ei_detail : string
}.

Record RequiredAssurance := {
  ra_level : AssuranceLevel;
  ra_independent_review : bool;
  ra_human : bool;
  ra_required_checks : list string;
  ra_realized_risk_ref : string;
  ra_risk_version : string;
  ra_policy_version : string;
  ra_forbidden_effects_requested : list string
}.

Record CheckEvidence := {
  ce_check_id : string;
  ce_kind : string;
  ce_status : string
}.

Record VerificationEvidence := {
  ve_verification_run_id : string;
  ve_stage : string;
  ve_candidate_revision : Z;
  ve_status : string;
  ve_checks : list CheckEvidence;
  ve_report_refs : list string;
  ve_attribution : list (string * string)
}.

Record InvariantEvidence := {
  ie_deny : bool;
  ie_open_flags : list string;
  ie_refs : list string
}.

Record ReviewEvidence := {
  re_decision : string;
  re_candidate_revision : Z;
  re_provenance : string;
  re_reference : string
}.

Record GateInput := {
  gi_plan_id : string;
  gi_leg_id : string;
  gi_candidate_revision : Z;
  gi_required : RequiredAssurance;
  gi_verification : option VerificationEvidence;
  gi_invariants : InvariantEvidence;
  gi_reviews : list ReviewEvidence
}.

Record AcceptanceGateResult := {
  ag_schema_version : Z;
  ag_gate_version : string;
  ag_plan_id : string;
  ag_leg_id : string;
  ag_candidate_revision : Z;
  ag_realized_risk_ref : string;
  ag_required_assurance : string;
  ag_independent_review_required : bool;
  ag_human_required : bool;
  ag_evidence : list EvidenceItem;
  ag_verdict : Verdict;
  ag_missing_evidence : list string;
  ag_reject_reasons : list string;
  ag_evidence_refs : list string;
  ag_policy_version : string;
  ag_risk_version : string
}.

Definition kind_of_check (kind : string) : string :=
  let kind := to_ascii_lowercase kind in
  if kind =s "build" then "build"
  else if kind =s "typecheck" then "typecheck"
  else if kind =s "lint" then "lint"
  else if kind =s "diagnostic" then "lint"
  else if kind =s "security" then "security"
  else if (kind =s "api") || (kind =s "api_compatibility") then "api_compatibility"
  else "tests".

(** ** What a section adds *)

Record Weighed := {
  we_evidence : list EvidenceItem;
  we_refs : list string;
  we_reject : list string
}.

Definition nothing : Weighed := {| we_evidence := []; we_refs := []; we_reject := [] |}.

Definition weigh (a b : Weighed) : Weighed :=
  {| we_evidence := we_evidence a ++ we_evidence b;
     we_refs := we_refs a ++ we_refs b;
     we_reject := we_reject a ++ we_reject b |}.

Definition item (kind : string) (status : EvidenceStatus) (refs : list string) (detail : string)
    : EvidenceItem :=
  {| ei_kind := kind; ei_status := status; ei_required := true; ei_refs := refs;
     ei_detail := detail |}.

Definition weighed (e : EvidenceItem) : Weighed :=
  {| we_evidence := [e]; we_refs := []; we_reject := [] |}.

Definition rejected (why : string) (e : EvidenceItem) : Weighed :=
  {| we_evidence := [e]; we_refs := []; we_reject := [why] |}.

(** ** 1. The completion run *)

Definition excused (v : VerificationEvidence) (id : string) : bool :=
  existsb (λ ca, (ca.1 =s id) &&
    contains_str ["KNOWN_FAILING"; "FLAKY"; "DECLARED_CHANGE"; "COLLATERAL_FIX"] ca.2)
    (ve_attribution v).

Definition failed_checks (v : VerificationEvidence) (k : string) : list CheckEvidence :=
  List.filter (λ c, negb (excused v (ce_check_id c)))
    (List.filter (λ c, contains_str ["FAIL"; "ERROR"; "TIMEOUT"] (ce_status c))
       (List.filter (λ c, kind_of_check (ce_kind c) =s k) (ve_checks v))).

Definition no_checks (v : VerificationEvidence) : bool :=
  match ve_checks v with [] => true | _ => false end.

Definition kind_status (v : VerificationEvidence) (k : string) : EvidenceStatus :=
  if contains_str ["CANCELLED"; "TIMED_OUT"; "INFRA_FAILURE"] (ve_status v) then
    EvidenceStatus_Incomplete
  else if match failed_checks v k with [] => false | _ => true end ||
          ((k =s "tests") && (ve_status v =s "FAILED") && no_checks v) then
    EvidenceStatus_Fail
  else if (k =s "tests") && no_checks v then EvidenceStatus_Missing
  else if contains_str ["UNKNOWN"; "TIMEOUT"; "ERROR"] (ve_status v) ||
          existsb (λ c, (kind_of_check (ce_kind c) =s k) && (ce_status c =s "UNKNOWN"))
            (ve_checks v) then
    EvidenceStatus_Incomplete
  else EvidenceStatus_Pass.

Definition weigh_kind (v : VerificationEvidence) (k : string) : Weighed :=
  let status := kind_status v k in
  {| we_evidence :=
       [item k status [ve_verification_run_id v]
          (if bool_decide (status = EvidenceStatus_Missing) then
             NO_MANDATORY_CHECKS +:+ ": the COMPLETION run had no check; nothing was verified"
           else ve_status v +:+ " (" +:+ pretty (length (ve_checks v)) +:+ " check(s))")];
     we_refs := [];
     we_reject :=
       if bool_decide (status = EvidenceStatus_Fail) then
         [k +:+ " failed: " +:+ Prelude.join ", "
            ((λ c, ce_check_id c +:+ " " +:+ ce_status c) <$> failed_checks v k)]
       else [] |}.

Definition kinds_of (v : VerificationEvidence) : list string :=
  match dedup (sort_by String.ltb ((λ c, kind_of_check (ce_kind c)) <$> ve_checks v)) with
  | [] => ["tests"]
  | kinds => kinds
  end.

Definition weigh_required (v : VerificationEvidence) (id : string) : Weighed :=
  let kind := "check:" +:+ id in
  match List.find (λ c, ce_check_id c =s id) (ve_checks v) with
  | Some c =>
      if ce_status c =s "PASS" then
        weighed (item kind EvidenceStatus_Pass [ve_verification_run_id v] "required by policy")
      else
        rejected ("required check " +:+ id +:+ " is " +:+ ce_status c)
          (item kind EvidenceStatus_Fail [ve_verification_run_id v]
             ("required by policy; " +:+ ce_status c))
  | None =>
      weighed (item kind EvidenceStatus_Missing []
        "required by policy; not in the completion run")
  end.

Definition weigh_all (ws : list Weighed) : Weighed := foldl weigh nothing ws.

Definition weigh_verification (input : GateInput) : Weighed :=
  match gi_verification input with
  | None => weighed (item "tests" EvidenceStatus_Missing [] "no COMPLETION verification run")
  | Some v =>
      if negb (ve_stage v =s "COMPLETION") then
        weighed (item "tests" EvidenceStatus_Missing [ve_verification_run_id v]
          ("latest run is a " +:+ ve_stage v +:+ " stage, not COMPLETION"))
      else if negb (ve_candidate_revision v =? gi_candidate_revision input) then
        {| we_evidence :=
             [item "tests" EvidenceStatus_Stale [ve_verification_run_id v]
                ("COMPLETION run at revision " +:+ pretty (ve_candidate_revision v) +:+
                 ", candidate is " +:+ pretty (gi_candidate_revision input))];
           we_refs := [ve_verification_run_id v]; we_reject := [] |}
      else
        weigh {| we_evidence := []; we_refs := ve_verification_run_id v :: ve_report_refs v;
                 we_reject := [] |}
          (weigh (weigh_all (weigh_kind v <$> kinds_of v))
             (weigh_all (weigh_required v <$> ra_required_checks (gi_required input))))
  end.

(** ** 1b and 2. Risk, invariants and effects *)

Definition weigh_risk (input : GateInput) : Weighed :=
  if str_is_empty (ra_realized_risk_ref (gi_required input)) then
    weighed (item "realized_risk" EvidenceStatus_Missing []
      "no RealizedRisk derived for this candidate")
  else nothing.

Definition weigh_invariants (input : GateInput) : Weighed :=
  let i := gi_invariants input in
  weigh {| we_evidence := []; we_refs := ie_refs i; we_reject := [] |}
    (if ie_deny i then
       rejected "a DENY-class diff invariant stands"
         (item "invariants" EvidenceStatus_Fail (ie_refs i) "DENY-class violation")
     else match ie_open_flags i with
          | [] => weighed (item "invariants" EvidenceStatus_Pass (ie_refs i) "clean")
          | flags =>
              weighed (item "invariants" EvidenceStatus_Missing (ie_refs i)
                ("unjustified flags: " +:+ Prelude.join ", " flags))
          end).

Definition weigh_effects (input : GateInput) : Weighed :=
  match ra_forbidden_effects_requested (gi_required input) with
  | [] => nothing
  | effects =>
      rejected ("forbidden effect requested: " +:+ Prelude.join ", " effects)
        (item "effects" EvidenceStatus_Fail [ra_realized_risk_ref (gi_required input)]
           "policy forbids the effect")
  end.

(** ** 3. Review and human decision *)

Definition at_revision (input : GateInput) : list ReviewEvidence :=
  List.filter (λ r, re_candidate_revision r =? gi_candidate_revision input) (gi_reviews input).

Definition returned (input : GateInput) : bool :=
  existsb (λ r, re_decision r =s "RETURN") (at_revision input).

Definition human_accepts (r : ReviewEvidence) : bool :=
  (re_decision r =s "ACCEPT") && (re_provenance r =s "user_review").

Definition reviewer_accepts (r : ReviewEvidence) : bool :=
  (re_decision r =s "ACCEPT") &&
  ((re_provenance r =s "independent_reviewer") || (re_provenance r =s "user_review")).

Definition RETURNED : string := "the review returned the candidate".

Definition weigh_review (input : GateInput) : Weighed :=
  if ra_independent_review (gi_required input) then
    match List.find reviewer_accepts (at_revision input) with
    | Some r =>
        weighed (item "independent_review" EvidenceStatus_Pass [re_reference r]
          (re_provenance r +:+ " at revision " +:+ pretty (re_candidate_revision r)))
    | None =>
        if returned input then
          rejected RETURNED
            (item "independent_review" EvidenceStatus_Fail
               (re_reference <$> at_revision input) "RETURN")
        else
          weighed (item "independent_review" EvidenceStatus_Missing []
            "no independent review at this revision")
    end
  else nothing.

(** [reject]: the reasons so far. *)
Definition weigh_human (input : GateInput) (reject : list string) : Weighed :=
  if ra_human (gi_required input) then
    match List.find human_accepts (at_revision input) with
    | Some r =>
        weighed (item "human_decision" EvidenceStatus_Pass [re_reference r]
          ("user review at revision " +:+ pretty (re_candidate_revision r)))
    | None =>
        if returned input then
          {| we_evidence :=
               [item "human_decision" EvidenceStatus_Fail (re_reference <$> at_revision input)
                  "RETURN"];
             we_refs := [];
             we_reject := if existsb (str_contains "returned") reject then [] else [RETURNED] |}
        else
          weighed (item "human_decision" EvidenceStatus_Missing []
            "no human decision at this revision")
    end
  else nothing.

(** ** The verdict *)

Definition weigh_input (input : GateInput) : Weighed :=
  let w := weigh_all
    [weigh_verification input; weigh_risk input; weigh_invariants input; weigh_effects input;
     weigh_review input] in
  weigh w (weigh_human input (we_reject w)).

Definition is_missing (e : EvidenceItem) : bool :=
  ei_required e &&
  match ei_status e with
  | EvidenceStatus_Missing | EvidenceStatus_Stale | EvidenceStatus_Incomplete => true
  | _ => false
  end.

Definition missing_kinds (evidence : list EvidenceItem) : list string :=
  ei_kind <$> List.filter is_missing evidence.

Definition verdict_of (reject missing : list string) : Verdict :=
  match reject, missing with
  | _ :: _, _ => Verdict_Reject
  | [], _ :: _ => Verdict_Inconclusive
  | [], [] => Verdict_Accept
  end.

Definition evaluate (input : GateInput) : AcceptanceGateResult :=
  let w := weigh_input input in
  let required := gi_required input in
  let missing := missing_kinds (we_evidence w) in
  {| ag_schema_version := GATE_SCHEMA_VERSION;
     ag_gate_version := GATE_VERSION;
     ag_plan_id := gi_plan_id input;
     ag_leg_id := gi_leg_id input;
     ag_candidate_revision := gi_candidate_revision input;
     ag_realized_risk_ref := ra_realized_risk_ref required;
     ag_required_assurance := AssuranceLevel_label (ra_level required);
     ag_independent_review_required := ra_independent_review required;
     ag_human_required := ra_human required;
     ag_evidence := we_evidence w;
     ag_verdict := verdict_of (we_reject w) missing;
     ag_missing_evidence := missing;
     ag_reject_reasons := we_reject w;
     ag_evidence_refs :=
       dedup (sort_by String.ltb (List.filter (λ r, negb (str_is_empty r))
         (we_refs w ++ concat (ei_refs <$> we_evidence w) ++ [ra_realized_risk_ref required])));
     ag_policy_version := ra_policy_version required;
     ag_risk_version := ra_risk_version required |}.

(** ** What the verdict says *)

(** The run the gate looks at: a completion run of this very revision. *)
Definition current_run (input : GateInput) (v : VerificationEvidence) : Prop :=
  gi_verification input = Some v ∧ ve_stage v = "COMPLETION" ∧
  ve_candidate_revision v = gi_candidate_revision input.

Definition broken (v : VerificationEvidence) (c : CheckEvidence) : Prop :=
  ce_status c ∈ ["FAIL"; "ERROR"; "TIMEOUT"] ∧ excused v (ce_check_id c) = false.

(** A review or a person accepted this revision. *)
Definition review_given (input : GateInput) : Prop :=
  ∃ r, r ∈ gi_reviews input ∧ re_candidate_revision r = gi_candidate_revision input ∧
    reviewer_accepts r = true.
Definition human_given (input : GateInput) : Prop :=
  ∃ r, r ∈ gi_reviews input ∧ re_candidate_revision r = gi_candidate_revision input ∧
    human_accepts r = true.

(** What a completion run has to say for the static evidence to pass. *)
Definition run_passes (input : GateInput) (v : VerificationEvidence) : Prop :=
  ve_status v ∉ ["CANCELLED"; "TIMED_OUT"; "INFRA_FAILURE"; "UNKNOWN"; "TIMEOUT"; "ERROR"] ∧
  ve_checks v ≠ [] ∧
  (∀ c, c ∈ ve_checks v → ce_status c ≠ "UNKNOWN" ∧ ¬ broken v c) ∧
  (∀ id, id ∈ ra_required_checks (gi_required input) →
     ∃ c, (List.find (λ c, ce_check_id c =s id) (ve_checks v) = Some c) ∧
          ce_status c = "PASS").

(** Every mandatory piece of evidence is there, current and good. *)
Record acceptable (input : GateInput) : Prop := {
  acc_run : ∃ v, current_run input v ∧ run_passes input v;
  acc_risk : ra_realized_risk_ref (gi_required input) ≠ "";
  acc_invariants : ie_deny (gi_invariants input) = false ∧ ie_open_flags (gi_invariants input) = [];
  acc_effects : ra_forbidden_effects_requested (gi_required input) = [];
  acc_review : ra_independent_review (gi_required input) = true → review_given input;
  acc_human : ra_human (gi_required input) = true → human_given input
}.

(** What the gate rejects for. *)
Inductive rejectable (input : GateInput) : Prop :=
  | failed_check v c :
      current_run input v → ve_status v ∉ ["CANCELLED"; "TIMED_OUT"; "INFRA_FAILURE"] →
      c ∈ ve_checks v → broken v c → rejectable input
  | failed_empty v :
      current_run input v → ve_status v = "FAILED" → ve_checks v = [] → rejectable input
  | failed_required v id c :
      current_run input v → id ∈ ra_required_checks (gi_required input) →
      List.find (λ c, ce_check_id c =s id) (ve_checks v) = Some c → ce_status c ≠ "PASS" →
      rejectable input
  | failed_invariant : ie_deny (gi_invariants input) = true → rejectable input
  | failed_effect : ra_forbidden_effects_requested (gi_required input) ≠ [] → rejectable input
  | failed_review :
      ra_independent_review (gi_required input) = true → ¬ review_given input →
      returned input = true → rejectable input
  | failed_human :
      ra_human (gi_required input) = true → ¬ human_given input →
      returned input = true → rejectable input.

(** A section without a reason to reject and without anything missing. *)
Definition good (e : EvidenceItem) : Prop := is_missing e = false.
Definition clean (w : Weighed) : Prop := we_reject w = [] ∧ Forall good (we_evidence w).

Lemma clean_weigh a b : clean (weigh a b) ↔ clean a ∧ clean b.
Proof.
  unfold clean, weigh. cbn. rewrite Forall_app.
  split; [intros [[? ?]%app_nil ?]|intros [[-> ?] [-> ?]]]; tauto.
Qed.

Lemma weigh_all_foldr ws : ∀ w,
  clean (foldl weigh w ws) ↔ clean w ∧ Forall clean ws.
Proof.
  induction ws as [|x ws IH]; intros w; cbn; [|rewrite IH, clean_weigh, Forall_cons; tauto].
  split; [by split; [|constructor]|tauto].
Qed.

Lemma clean_nothing : clean nothing.
Proof. by split; [|constructor]. Qed.

Lemma clean_weigh_all ws : clean (weigh_all ws) ↔ Forall clean ws.
Proof.
  unfold weigh_all. rewrite weigh_all_foldr. split; [tauto|]. intros ?.
  split; [apply clean_nothing|done].
Qed.

Lemma clean_weighed e : clean (weighed e) ↔ good e.
Proof. unfold clean, weighed. cbn. rewrite Forall_singleton. naive_solver. Qed.

Lemma clean_rejected why e : ¬ clean (rejected why e).
Proof. by intros [? _]. Qed.

Lemma clean_refs refs : clean {| we_evidence := []; we_refs := refs; we_reject := [] |}.
Proof. by split; [|constructor]. Qed.

Lemma good_pass k refs detail : good (item k EvidenceStatus_Pass refs detail).
Proof. done. Qed.

Lemma accept_clean input : ag_verdict (evaluate input) = Verdict_Accept ↔ clean (weigh_input input).
Proof.
  unfold evaluate, verdict_of, missing_kinds, clean. cbn [ag_verdict].
  assert (List.filter is_missing (we_evidence (weigh_input input)) = [] ↔
    Forall good (we_evidence (weigh_input input))) as Hm.
  { induction (we_evidence _) as [|e l IH]; cbn; [by split; [constructor|]|].
    unfold good in *. rewrite Forall_cons. destruct (is_missing e); [naive_solver|].
    rewrite IH. naive_solver. }
  rewrite <- Hm. destruct (we_reject (weigh_input input)),
    (List.filter is_missing (we_evidence (weigh_input input))); cbn; naive_solver.
Qed.

Lemma reject_iff input :
  ag_verdict (evaluate input) = Verdict_Reject ↔ we_reject (weigh_input input) ≠ [].
Proof.
  unfold evaluate, verdict_of. cbn [ag_verdict].
  destruct (we_reject (weigh_input input)); [|naive_solver].
  destruct (missing_kinds (we_evidence (weigh_input input))); naive_solver.
Qed.

(** *** The completion run *)

Lemma elem_failed_checks v k c :
  c ∈ failed_checks v k ↔ c ∈ ve_checks v ∧ kind_of_check (ce_kind c) = k ∧ broken v c.
Proof.
  unfold failed_checks, broken. rewrite !elem_of_list_filter_bool, negb_true_iff,
    contains_str_true, String.eqb_eq. tauto.
Qed.

Lemma elem_kinds v k :
  k ∈ kinds_of v ↔ (∃ c, c ∈ ve_checks v ∧ kind_of_check (ce_kind c) = k) ∨
                   (ve_checks v = [] ∧ k = "tests").
Proof.
  unfold kinds_of.
  assert (∀ x, x ∈ dedup (sort_by String.ltb ((λ c, kind_of_check (ce_kind c)) <$> ve_checks v)) ↔
    ∃ c, c ∈ ve_checks v ∧ kind_of_check (ce_kind c) = x) as Hk.
  { intros x. rewrite elem_of_dedup, elem_of_sort_by, list_elem_of_fmap. naive_solver. }
  destruct (dedup _) as [|y l] eqn:E.
  - assert (ve_checks v = []) as Hnil.
    { destruct (ve_checks v) as [|c cs] eqn:Ec; [done|].
      exfalso. apply (not_elem_of_nil (kind_of_check (ce_kind c))), Hk.
      exists c. split; [by left|done]. }
    rewrite Hnil, list_elem_of_singleton. split; [auto|].
    intros [(c & Hc & _)|[_ ?]]; [by apply not_elem_of_nil in Hc|done].
  - rewrite Hk. split; [auto|]. intros [?|[Hnil _]]; [done|].
    destruct (proj1 (Hk y)) as (c & Hc & _); [by left|]. rewrite Hnil in Hc.
    by apply not_elem_of_nil in Hc.
Qed.

Lemma clean_kind v k :
  clean (weigh_kind v k) ↔ kind_status v k = EvidenceStatus_Pass.
Proof.
  unfold weigh_kind, clean, good, is_missing. cbn. rewrite Forall_singleton. cbn.
  destruct (kind_status v k); cbn; naive_solver.
Qed.

Lemma reject_kind v k : we_reject (weigh_kind v k) ≠ [] ↔ kind_status v k = EvidenceStatus_Fail.
Proof. unfold weigh_kind. cbn. case_bool_decide; naive_solver. Qed.

Lemma failed_checks_nil v k :
  failed_checks v k = [] ↔
  ∀ c, c ∈ ve_checks v → kind_of_check (ce_kind c) = k → ¬ broken v c.
Proof.
  split.
  - intros E c Hc Hk Hb. apply (not_elem_of_nil c). rewrite <- E. by apply elem_failed_checks.
  - intros Hall. apply elem_of_nil_inv. intros c (? & ? & ?)%elem_failed_checks. by eapply Hall.
Qed.

Lemma failed_checks_cons v k c l :
  failed_checks v k = c :: l →
  c ∈ ve_checks v ∧ kind_of_check (ce_kind c) = k ∧ broken v c.
Proof. intros E. apply elem_failed_checks. rewrite E. left. Qed.

Lemma unknown_none v k :
  existsb (λ c, (kind_of_check (ce_kind c) =s k) && (ce_status c =s "UNKNOWN"))
    (ve_checks v) = false ↔
  ∀ c, c ∈ ve_checks v → kind_of_check (ce_kind c) = k → ce_status c ≠ "UNKNOWN".
Proof.
  rewrite existsb_false, Forall_forall. apply forall_proper. intros c.
  rewrite andb_false_iff, !String.eqb_neq.
  destruct (decide (kind_of_check (ce_kind c) = k)); naive_solver.
Qed.

Lemma no_checks_spec v : reflect (ve_checks v = []) (no_checks v).
Proof. unfold no_checks. destruct (ve_checks v); constructor; congruence. Qed.

Lemma kind_pass v k :
  kind_status v k = EvidenceStatus_Pass ↔
  ve_status v ∉ ["CANCELLED"; "TIMED_OUT"; "INFRA_FAILURE"; "UNKNOWN"; "TIMEOUT"; "ERROR"] ∧
  (k = "tests" → ve_checks v ≠ []) ∧
  (∀ c, c ∈ ve_checks v → kind_of_check (ce_kind c) = k →
     ce_status c ≠ "UNKNOWN" ∧ ¬ broken v c).
Proof.
  unfold kind_status.
  destruct (contains_str ["CANCELLED"; "TIMED_OUT"; "INFRA_FAILURE"] (ve_status v)) eqn:E1.
  { apply contains_str_true in E1. split; [done|]. intros (Hs & _). set_solver. }
  apply contains_str_false in E1.
  destruct (failed_checks v k) as [|c0 l] eqn:Ef; cbn [orb].
  2: { apply failed_checks_cons in Ef. naive_solver. }
  pose proof (proj1 (failed_checks_nil v k) Ef).
  destruct (no_checks_spec v) as [Hn|Hn]; rewrite ?andb_true_r, ?andb_false_r.
  1: destruct (String.eqb_spec k "tests") as [->|Hk]; cbn [andb].
  { case_match; naive_solver. }
  all: destruct (contains_str ["UNKNOWN"; "TIMEOUT"; "ERROR"] (ve_status v)) eqn:E2; cbn [orb];
    [apply contains_str_true in E2; split; [done|]; intros (Hs & _); set_solver|];
    apply contains_str_false in E2;
    destruct (existsb _ _) eqn:E3;
    [split; [done|]; intros (_ & _ & Hall); apply not_false_iff_true in E3; destruct E3;
     apply unknown_none; intros c ? ?; by apply Hall|];
    pose proof (proj1 (unknown_none v k) E3); split; [|done]; intros _; split_and!;
    [set_solver|naive_solver|naive_solver].
Qed.

Lemma kind_fail v k :
  kind_status v k = EvidenceStatus_Fail ↔
  ve_status v ∉ ["CANCELLED"; "TIMED_OUT"; "INFRA_FAILURE"] ∧
  ((∃ c, c ∈ ve_checks v ∧ kind_of_check (ce_kind c) = k ∧ broken v c) ∨
   (k = "tests" ∧ ve_status v = "FAILED" ∧ ve_checks v = [])).
Proof.
  unfold kind_status.
  destruct (contains_str ["CANCELLED"; "TIMED_OUT"; "INFRA_FAILURE"] (ve_status v)) eqn:E1.
  { apply contains_str_true in E1. split; [done|]. intros (Hs & _). done. }
  apply contains_str_false in E1.
  destruct (failed_checks v k) as [|c0 l] eqn:Ef; cbn [orb].
  2: { apply failed_checks_cons in Ef. naive_solver. }
  pose proof (proj1 (failed_checks_nil v k) Ef).
  destruct (no_checks_spec v) as [Hn|Hn], (String.eqb_spec k "tests") as [Hk|Hk],
    (String.eqb_spec (ve_status v) "FAILED") as [Hs|Hs]; cbn [andb];
    repeat (case_match; try naive_solver); naive_solver.
Qed.

Lemma clean_required v id :
  clean (weigh_required v id) ↔
  ∃ c, (List.find (λ c, ce_check_id c =s id) (ve_checks v) = Some c) ∧ ce_status c = "PASS".
Proof.
  unfold weigh_required. destruct (List.find _ _) as [c|].
  - destruct (String.eqb_spec (ce_status c) "PASS") as [Hs|Hs].
    + rewrite clean_weighed. split; [eauto|done].
    + split; [by intros []%clean_rejected|]. intros (? & [= <-] & ?). done.
  - rewrite clean_weighed. split; [discriminate|]. intros (? & ? & _). done.
Qed.

Lemma reject_required v id :
  we_reject (weigh_required v id) ≠ [] ↔
  ∃ c, (List.find (λ c, ce_check_id c =s id) (ve_checks v) = Some c) ∧ ce_status c ≠ "PASS".
Proof.
  unfold weigh_required. destruct (List.find _ _) as [c|]; [|cbn; naive_solver].
  destruct (String.eqb_spec (ce_status c) "PASS"); cbn; naive_solver.
Qed.

Lemma reject_weigh a b : we_reject (weigh a b) ≠ [] ↔ we_reject a ≠ [] ∨ we_reject b ≠ [].
Proof. unfold weigh. cbn. destruct (we_reject a); cbn; naive_solver. Qed.

Lemma reject_foldl ws : ∀ w,
  we_reject (foldl weigh w ws) ≠ [] ↔ we_reject w ≠ [] ∨ Exists (λ x, we_reject x ≠ []) ws.
Proof.
  induction ws as [|x ws IH]; intros w; cbn.
  - rewrite Exists_nil. tauto.
  - rewrite IH, reject_weigh, Exists_cons. tauto.
Qed.

Lemma reject_weigh_all ws : we_reject (weigh_all ws) ≠ [] ↔ Exists (λ x, we_reject x ≠ []) ws.
Proof. unfold weigh_all. rewrite reject_foldl. cbn. tauto. Qed.

(** Which of the three guards of the run stops the gate from reading it. *)
Lemma verification_cases input :
  (∃ v, current_run input v) ∨
  ((∀ v, ¬ current_run input v) ∧ we_reject (weigh_verification input) = [] ∧
   ¬ clean (weigh_verification input)).
Proof.
  unfold weigh_verification, current_run.
  destruct (gi_verification input) as [v|].
  2: { right. split_and!; [naive_solver|done|]. rewrite clean_weighed. done. }
  destruct (String.eqb_spec (ve_stage v) "COMPLETION") as [Hs|Hs]; cbn [negb].
  2: { right. split_and!; [naive_solver|done|]. rewrite clean_weighed. done. }
  destruct (Z.eqb_spec (ve_candidate_revision v) (gi_candidate_revision input)) as [Hr|Hr];
    cbn [negb]; [left; eauto|].
  right. split_and!; [naive_solver|done|].
  intros [_ Hg]. cbn in Hg. inversion Hg as [|? ? Hm]. discriminate Hm.
Qed.

Lemma weigh_current input v :
  current_run input v →
  weigh_verification input =
  weigh {| we_evidence := []; we_refs := ve_verification_run_id v :: ve_report_refs v;
           we_reject := [] |}
    (weigh (weigh_all (weigh_kind v <$> kinds_of v))
       (weigh_all (weigh_required v <$> ra_required_checks (gi_required input)))).
Proof.
  intros (Hv & Hs & Hr). unfold weigh_verification.
  by rewrite Hv, Hs, Hr, Z.eqb_refl.
Qed.

Lemma current_unique input v w : current_run input v → current_run input w → v = w.
Proof. intros (? & _) (? & _). congruence. Qed.

Lemma clean_kinds v :
  (∀ k, k ∈ kinds_of v → kind_status v k = EvidenceStatus_Pass) ↔
  ve_status v ∉ ["CANCELLED"; "TIMED_OUT"; "INFRA_FAILURE"; "UNKNOWN"; "TIMEOUT"; "ERROR"] ∧
  ve_checks v ≠ [] ∧ (∀ c, c ∈ ve_checks v → ce_status c ≠ "UNKNOWN" ∧ ¬ broken v c).
Proof.
  split.
  - intros Hall.
    assert (ve_checks v ≠ []) as Hne.
    { intros E. assert ("tests" ∈ kinds_of v) as Hk by (apply elem_kinds; auto).
      apply Hall, kind_pass in Hk as (_ & Hk & _). by apply Hk. }
    assert (∀ c, c ∈ ve_checks v → kind_status v (kind_of_check (ce_kind c)) = EvidenceStatus_Pass)
      as Hc by (intros c Hc; apply Hall, elem_kinds; eauto).
    split_and!; [|done|intros c Hin; apply Hc in Hin as Hp; apply kind_pass in Hp; naive_solver].
    destruct (ve_checks v) as [|c cs]; [done|].
    specialize (Hc c (list_elem_of_here _ _)). by apply kind_pass in Hc as (? & _).
  - intros (Hs & Hne & Hall) k _. apply kind_pass. naive_solver.
Qed.

Lemma clean_verification input :
  clean (weigh_verification input) ↔ ∃ v, current_run input v ∧ run_passes input v.
Proof.
  destruct (verification_cases input) as [[v Hv]|(Hno & _ & Hnc)]; [|naive_solver].
  rewrite (weigh_current _ _ Hv), !clean_weigh, !clean_weigh_all, !Forall_fmap, !Forall_forall.
  unfold compose. setoid_rewrite clean_kind. setoid_rewrite clean_required. rewrite clean_kinds.
  pose proof (clean_refs (ve_verification_run_id v :: ve_report_refs v)).
  unfold run_passes. split; [intros; exists v; tauto|].
  intros (w & Hw & Hp). rewrite <- (current_unique _ _ _ Hv Hw) in Hp. tauto.
Qed.

Lemma reject_verification input :
  we_reject (weigh_verification input) ≠ [] ↔
  ∃ v, current_run input v ∧
    ((ve_status v ∉ ["CANCELLED"; "TIMED_OUT"; "INFRA_FAILURE"] ∧
      ∃ c, c ∈ ve_checks v ∧ broken v c) ∨
     (ve_status v = "FAILED" ∧ ve_checks v = []) ∨
     (∃ id c, id ∈ ra_required_checks (gi_required input) ∧
        (List.find (λ c, ce_check_id c =s id) (ve_checks v) = Some c) ∧ ce_status c ≠ "PASS")).
Proof.
  destruct (verification_cases input) as [[v Hv]|(Hno & -> & _)]; [|naive_solver].
  assert (∀ P : VerificationEvidence → Prop, (∃ w, current_run input w ∧ P w) ↔ P v) as ->.
  { intros P. split; [|eauto]. intros (w & Hw & ?). by rewrite (current_unique _ _ _ Hv Hw). }
  rewrite (weigh_current _ _ Hv), !reject_weigh, !reject_weigh_all, !Exists_fmap, !Exists_exists.
  unfold compose. setoid_rewrite reject_kind. setoid_rewrite reject_required.
  setoid_rewrite kind_fail. setoid_rewrite elem_kinds. cbn [we_reject].
  split; [naive_solver set_solver|].
  intros [(Hs & c & Hc & Hb)|[(Hs & Hn)|(id & c & ?)]].
  - right; left. exists (kind_of_check (ce_kind c)). naive_solver.
  - right; left. exists "tests". rewrite Hs. split; [by right|]. split; [set_solver|]. by right.
  - right; right. naive_solver.
Qed.

(** *** Reviews and the human decision *)

Lemma at_revision_find input f :
  (∃ r, List.find f (at_revision input) = Some r) ↔
  ∃ r, r ∈ gi_reviews input ∧ re_candidate_revision r = gi_candidate_revision input ∧ f r = true.
Proof.
  assert (∀ r, r ∈ at_revision input ↔
    r ∈ gi_reviews input ∧ re_candidate_revision r = gi_candidate_revision input) as Hin.
  { intros r. unfold at_revision. rewrite elem_of_list_filter_bool, Z.eqb_eq. tauto. }
  split.
  - intros [r [Hr Hf]%List.find_some]. apply list_elem_of_In, Hin in Hr. naive_solver.
  - intros (r & Hr & Hc & Hf). destruct (List.find f (at_revision input)) as [x|] eqn:E; [eauto|].
    assert (r ∈ at_revision input) as Ha by (by apply Hin).
    apply list_elem_of_In in Ha. pose proof (List.find_none _ _ E r Ha). congruence.
Qed.

(** Both obligations are weighed alike: an acceptance of the right provenance
    passes, a returned candidate without one fails, and nothing at all is
    missing. *)
Lemma clean_review input :
  clean (weigh_review input) ↔
  (ra_independent_review (gi_required input) = true → review_given input).
Proof.
  unfold weigh_review, review_given. rewrite <- at_revision_find.
  destruct (ra_independent_review _); [|pose proof clean_nothing; naive_solver].
  destruct (List.find _ _); [rewrite clean_weighed; split; [eauto|done]|].
  destruct (returned input); [pose proof clean_rejected|rewrite clean_weighed; unfold good; cbn];
    naive_solver.
Qed.

Lemma reject_review input :
  we_reject (weigh_review input) ≠ [] ↔
  ra_independent_review (gi_required input) = true ∧ ¬ review_given input ∧ returned input = true.
Proof.
  unfold weigh_review, review_given. rewrite <- at_revision_find.
  destruct (ra_independent_review _); [|cbn; naive_solver].
  destruct (List.find _ _); [cbn; naive_solver|].
  destruct (returned input); cbn; naive_solver.
Qed.

(** The human section does not repeat a reason another one gave: what matters is
    what stands after both. *)
Lemma clean_with_human input w :
  clean (weigh w (weigh_human input (we_reject w))) ↔
  clean w ∧ (ra_human (gi_required input) = true → human_given input).
Proof.
  rewrite clean_weigh. unfold weigh_human, human_given. rewrite <- at_revision_find.
  destruct (ra_human _); [|pose proof clean_nothing; naive_solver].
  destruct (List.find _ _); [rewrite clean_weighed; unfold good; naive_solver|].
  destruct (returned input); [|rewrite clean_weighed; unfold good; cbn; naive_solver].
  unfold clean. cbn. split; [intros [[-> ?] [Hr _]]; discriminate Hr|naive_solver].
Qed.

Lemma reject_with_human input w :
  we_reject (weigh w (weigh_human input (we_reject w))) ≠ [] ↔
  we_reject w ≠ [] ∨
  (ra_human (gi_required input) = true ∧ ¬ human_given input ∧ returned input = true).
Proof.
  rewrite reject_weigh. unfold weigh_human, human_given. rewrite <- at_revision_find.
  destruct (ra_human _); [|cbn; naive_solver].
  destruct (List.find _ _); [cbn; naive_solver|].
  destruct (returned input); [|cbn; naive_solver].
  destruct (we_reject w); cbn; naive_solver.
Qed.

(** *** Risk, invariants and effects *)

Lemma clean_risk input :
  clean (weigh_risk input) ↔ ra_realized_risk_ref (gi_required input) ≠ "".
Proof.
  unfold weigh_risk. destruct (ra_realized_risk_ref _); cbn.
  - rewrite clean_weighed. unfold good. cbn. naive_solver.
  - pose proof clean_nothing. naive_solver.
Qed.

Lemma clean_invariants input :
  clean (weigh_invariants input) ↔
  ie_deny (gi_invariants input) = false ∧ ie_open_flags (gi_invariants input) = [].
Proof.
  unfold weigh_invariants. rewrite clean_weigh.
  pose proof (clean_refs (ie_refs (gi_invariants input))).
  destruct (ie_deny _); [pose proof clean_rejected; naive_solver|].
  destruct (ie_open_flags _); rewrite clean_weighed; unfold good; cbn; naive_solver.
Qed.

Lemma clean_effects input :
  clean (weigh_effects input) ↔ ra_forbidden_effects_requested (gi_required input) = [].
Proof.
  unfold weigh_effects.
  destruct (ra_forbidden_effects_requested _);
    [pose proof clean_nothing|pose proof clean_rejected]; naive_solver.
Qed.

Lemma reject_static input :
  we_reject (weigh_risk input) = [] ∧
  (we_reject (weigh_invariants input) ≠ [] ↔ ie_deny (gi_invariants input) = true) ∧
  (we_reject (weigh_effects input) ≠ [] ↔ ra_forbidden_effects_requested (gi_required input) ≠ []).
Proof.
  unfold weigh_risk, weigh_invariants, weigh_effects.
  split_and!; repeat case_match; cbn; naive_solver.
Qed.

Lemma accept_iff input : ag_verdict (evaluate input) = Verdict_Accept ↔ acceptable input.
Proof.
  rewrite accept_clean. unfold weigh_input. cbv zeta. rewrite clean_with_human, clean_weigh_all.
  rewrite !Forall_cons, clean_verification, clean_risk, clean_invariants, clean_effects,
    clean_review.
  split; [intros ((? & ? & ? & ? & ? & _) & ?); by constructor|].
  intros []. split; [|done]. repeat (split; [done|]). done.
Qed.

Lemma reject_failed input : ag_verdict (evaluate input) = Verdict_Reject ↔ rejectable input.
Proof.
  rewrite reject_iff. unfold weigh_input. cbv zeta. rewrite reject_with_human, reject_weigh_all.
  rewrite !Exists_cons, Exists_nil, reject_verification, reject_review.
  destruct (reject_static input) as (-> & -> & ->). split.
  - intros [[(v & Hv & [(? & c & ? & ?)|[(? & ?)|(id & c & ? & ? & ?)]])|[?|[?|[?|[?|?]]]]]|?];
      destruct_and?; try done;
      eauto using failed_check, failed_empty, failed_required, failed_invariant, failed_effect,
        failed_review, failed_human.
  - intros []; [left; left; naive_solver ..| | | |]; naive_solver.
Qed.

(** C20: the verdict of the gate, exactly. It accepts when there is a COMPLETION run of this
    very revision whose status is none of the inconclusive ones, with checks, none of them
    unknown and none that failed without a baseline excuse, every check the policy requires
    passing, a risk record, no standing invariant or open flag, no forbidden effect, and,
    where the risk requires a review or a person, an acceptance at this revision. It
    rejects when a check of such a run failed without excuse (the run not cancelled, timed
    out or broken), the run is FAILED and has no check, a required check is there and
    does not pass, an invariant denies, a forbidden effect was asked for, or a review or a
    person is required, none accepted and one returned this revision. Otherwise it is
    inconclusive. So a RETURN beside an acceptance, or where nothing is required, does not
    reject ([return_outvoted]), nor does a FAILED run whose checks are all skipped
    ([failed_run_skipped]). *)
Theorem gate_verdict_exact input :
  (ag_verdict (evaluate input) = Verdict_Accept ↔ acceptable input) ∧
  (ag_verdict (evaluate input) = Verdict_Reject ↔ rejectable input) ∧
  (ag_verdict (evaluate input) = Verdict_Inconclusive ↔ ¬ acceptable input ∧ ¬ rejectable input).
Proof.
  rewrite <- accept_iff, <- reject_failed.
  destruct (ag_verdict (evaluate input)); naive_solver.
Qed.

(** Tests do not discharge a review: whatever the run says, a candidate that needs
    one and has none at its revision is not accepted. *)
Lemma obligations_stand input :
  (ra_independent_review (gi_required input) = true ∧ ¬ review_given input) ∨
  (ra_human (gi_required input) = true ∧ ¬ human_given input) →
  ag_verdict (evaluate input) ≠ Verdict_Accept.
Proof. rewrite accept_iff. intros H []. naive_solver. Qed.

(** ** Examples *)

Definition skip_run (status : string) (checks : list CheckEvidence) : VerificationEvidence :=
  {| ve_verification_run_id := "run"; ve_stage := "COMPLETION"; ve_candidate_revision := 3;
     ve_status := status; ve_checks := checks; ve_report_refs := []; ve_attribution := [] |}.

Definition sample_input (v : VerificationEvidence) (reviews : list ReviewEvidence) : GateInput :=
  {| gi_plan_id := "p"; gi_leg_id := "l"; gi_candidate_revision := 3;
     gi_required :=
       {| ra_level := AssuranceLevel_Governed; ra_independent_review := true; ra_human := false;
          ra_required_checks := []; ra_realized_risk_ref := "risk"; ra_risk_version := "r1";
          ra_policy_version := "p1"; ra_forbidden_effects_requested := [] |};
     gi_verification := Some v;
     gi_invariants := {| ie_deny := false; ie_open_flags := []; ie_refs := [] |};
     gi_reviews := reviews |}.

Definition review (decision provenance reference : string) : ReviewEvidence :=
  {| re_decision := decision; re_candidate_revision := 3; re_provenance := provenance;
     re_reference := reference |}.

Definition unit_check (status : string) : CheckEvidence :=
  {| ce_check_id := "unit"; ce_kind := "test"; ce_status := status |}.

(** A user's RETURN of this revision does not reject it once an independent
    reviewer accepted it. *)
Example return_outvoted :
  ag_verdict (evaluate (sample_input (skip_run "PASSED" [unit_check "PASS"])
    [review "RETURN" "user_review" "r1"; review "ACCEPT" "independent_reviewer" "r2"]))
  = Verdict_Accept.
Proof. vm_compute. reflexivity. Qed.

(** A FAILED run whose only check was skipped is accepted. *)
Example failed_run_skipped :
  ag_verdict (evaluate (sample_input (skip_run "FAILED" [unit_check "SKIP"])
    [review "ACCEPT" "user_review" "r1"])) = Verdict_Accept.
Proof. vm_compute. reflexivity. Qed.

(** Reasons and evidence of a failing check. *)
Example failing_check_reasons :
  let r := evaluate (sample_input (skip_run "FAILED" [unit_check "FAIL"])
             [review "ACCEPT" "user_review" "r1"]) in
  ag_verdict r = Verdict_Reject ∧ ag_reject_reasons r = ["tests failed: unit FAIL"] ∧
  ag_missing_evidence r = [].
Proof. vm_compute. repeat split. Qed.
