(* ===== verification/WsText.v ===== *)
(** * Texts of the workspace

    The pure part of [crates/workspace/src/service.rs]: line endings, the match
    ladder that locates an edit, and byte-range patches. *)

From S2P Require Import Prelude RustStr RustPath.
#[local] Open Scope nat_scope.

(** ** Errors of the file service

    [crates/workspace/src/lib.rs]. *)
Inductive IoError := Io_NotFound | Io_Other (detail : string).

#[export] Instance IoError_eq : EqDecision IoError.
Proof. solve_decision. Defined.

Inductive WsError :=
  | Error_Io (path : string) (source : IoError)
  | Error_OutsideRoot (path detail : string)
  | Error_Protected (path pattern : string)
  | Error_Precondition (path detail : string)
  | Error_Invalid (path detail : string)
  | Error_EditOutOfBounds (path detail : string)
  | Error_AmbiguousTarget (path : string) (occurrences : nat) (tier : string)
  | Error_NoMatch (path : string) (suggestion : option string)
  | Error_StepFailed (step : nat) (cause : WsError) (rolled_back : bool)
      (restored unrestored : list string).

(** ** Line endings *)

Definition CRLF : string := String CR (String NL "").
Definition LF : string := String NL "".

Inductive LineEnding := LineEnding_Crlf | LineEnding_Lf | LineEnding_Undecided.

#[export] Instance LineEnding_eq : EqDecision LineEnding.
Proof. solve_decision. Defined.

Definition LineEnding_of (text : string) : LineEnding :=
  let crlf := length (match_indices CRLF text) in
  let lf := length (match_indices LF text) - crlf in
  match crlf, lf with
  | 0, 0 => LineEnding_Undecided
  | _, 0 => LineEnding_Crlf
  | 0, _ => LineEnding_Lf
  | _, _ => LineEnding_Undecided
  end.

Definition LineEnding_apply (self : LineEnding) (text : string) : string :=
  match self with
  | LineEnding_Crlf => replace_str LF CRLF (replace_str CRLF LF text)
  | LineEnding_Lf => replace_str CRLF LF text
  | LineEnding_Undecided => text
  end.

(** ** The match ladder *)

Inductive MatchTier := MatchTier_Exact | MatchTier_WhitespaceRemap.

Record TextEdit := { te_old : string; te_new : string }.

Definition is_eol (a : ascii) : bool := Ascii.eqb a NL || Ascii.eqb a CR.

(** A line of the content: its byte range and its trimmed text. *)
Fixpoint line_offsets (pos : nat) (pieces : list string) : list (nat * nat * string) :=
  match pieces with
  | [] => []
  | line :: pieces =>
      (pos, pos + String.length line, trim (trim_end_by is_eol line)) ::
      line_offsets (pos + String.length line) pieces
  end.

Definition offsets_of (content : string) : list (nat * nat * string) :=
  line_offsets 0 (split_inclusive content).

Definition needle_lines (needle : string) : list string := trim <$> lines needle.

(** The windows of lines that read as the needle does, line by line. *)
Definition window_matches (needle : list string) (offsets : list (nat * nat * string)) : bool :=
  list_prefix needle (snd <$> offsets).

(** The end of the range: the last line's, without its line ending unless the needle
    has one. *)
Definition window_end (content needle : string) (last : nat * nat * string) : nat :=
  let '(s, e, _) := last in
  if ends_with LF needle then e
  else s + String.length (trim_end_by is_eol (str_take (e - s) (str_drop s content))).

(** The window that starts with the first line left. *)
Definition first_hit (content needle : string) (nl : list string)
    (offsets : list (nat * nat * string)) : list (nat * nat) :=
  match offsets with
  | [] => []
  | first :: _ =>
      if window_matches nl offsets then
        match offsets !! (length nl - 1) with
        | Some last => [(first.1.1, window_end content needle last)]
        | None => []
        end
      else []
  end.

(** [offsets]: the lines from the window's first line on. *)
Fixpoint window_hits (content needle : string) (nl : list string)
    (offsets : list (nat * nat * string)) : list (nat * nat) :=
  match offsets with
  | [] => []
  | _ :: rest => first_hit content needle nl offsets ++ window_hits content needle nl rest
  end.

Definition hits (content needle : string) : list (nat * nat) :=
  match needle_lines needle with
  | [] => []
  | nl => window_hits content needle nl (offsets_of content)
  end.

(** How many characters two lines share at the front. *)
Fixpoint shared_chars (a b : list string) : nat :=
  match a, b with
  | x :: a, y :: b => if x =s y then S (shared_chars a b) else 0
  | _, _ => 0
  end.

(** [max_by_key]: the last of the elements with the largest key. *)
Definition max_by_key {A} (key : A → nat) (l : list A) : option A :=
  foldl (λ best x,
    match best with
    | Some b => if key x <? key b then Some b else Some x
    | None => Some x
    end) None l.

Definition suggestion (content needle : string) : option string :=
  let first := default "" (List.find (λ l, negb (str_is_empty l)) (needle_lines needle)) in
  let shared l := shared_chars (chars l) (chars first) in
  l ← max_by_key shared
        (List.filter (λ l, negb (str_is_empty l)) (snd <$> offsets_of content));
  if 4 <=? shared l then Some l else None.

Definition locate (content needle path : string) : result WsError (nat * nat * MatchTier) :=
  if str_is_empty needle then Err (Error_Invalid path "empty edit target")
  else
    match match_indices needle content with
    | [i] => Ok (i, i + String.length needle, MatchTier_Exact)
    | (_ :: _ :: _) as exact => Err (Error_AmbiguousTarget path (length exact) "exact")
    | [] =>
        match hits content needle with
        | [(s, e)] => Ok (s, e, MatchTier_WhitespaceRemap)
        | (_ :: _ :: _) as hs => Err (Error_AmbiguousTarget path (length hs) "whitespace_remap")
        | [] => Err (Error_NoMatch path (suggestion content needle))
        end
    end.

(** The edits of [edit_by_match], each located in what the one before left. *)
Fixpoint edit_text (path : string) (style : LineEnding) (i : nat) (edits : list TextEdit)
    (content : string) : result WsError (string * list MatchTier) :=
  match edits with
  | [] => Ok (content, [])
  | e :: edits =>
      match locate content (te_old e) path with
      | Err cause => Err (Error_StepFailed i cause true [] [])
      | Ok (start, end_, tier) =>
          '(out, tiers) ← edit_text path style (S i) edits
            (replace_range content start end_ (LineEnding_apply style (te_new e)));
          Ok (out, tier :: tiers)
      end
  end.

(** ** Byte-range patches *)

Record Edit := { ed_start : nat; ed_end : nat; ed_replacement : string }.

(** The loop of [apply_patch] from the byte [cursor] on; [i] numbers the edits. *)
Fixpoint patch_loop (path original : string) (i cursor : nat) (edits : list Edit)
    : result WsError string :=
  match edits with
  | [] => Ok (str_drop cursor original)
  | e :: edits =>
      if (ed_end e <? ed_start e) || (String.length original <? ed_end e) ||
         (ed_start e <? cursor)
      then Err (Error_EditOutOfBounds path
             ("edit " +:+ pretty i +:+ " [" +:+ pretty (ed_start e) +:+ ".." +:+
              pretty (ed_end e) +:+ ") against " +:+ pretty (String.length original) +:+
              " bytes (cursor " +:+ pretty cursor +:+ ")"))
      else
        rest ← patch_loop path original (S i) (ed_end e) edits;
        Ok (str_take (ed_start e - cursor) (str_drop cursor original) +:+
            ed_replacement e +:+ rest)
  end.

Definition patch_text (path original : string) (edits : list Edit) : result WsError string :=
  patch_loop path original 0 0 edits.

(** ** Patches

    [ordered]: the edits lie in the text, in order and apart. *)
Fixpoint ordered (len cursor : nat) (edits : list Edit) : Prop :=
  match edits with
  | [] => True
  | e :: edits =>
      cursor ≤ ed_start e ∧ ed_start e ≤ ed_end e ∧ ed_end e ≤ len ∧
      ordered len (ed_end e) edits
  end.

(** One edit as a change of the whole text, and the edits from the last to the
    first: no edit moves the bytes another one counts in. *)
Definition splice (e : Edit) (text : string) : string :=
  replace_range text (ed_start e) (ed_end e) (ed_replacement e).
Definition splice_all (original : string) (edits : list Edit) : string :=
  foldr splice original edits.

Lemma str_take_split n m s :
  n ≤ m → str_take m s = str_take n s +:+ str_take (m - n) (str_drop n s).
Proof.
  revert n m; induction s as [|a s IH]; intros [|n] [|m] Hm; try done.
  { cbn. by destruct (m - n). }
  { lia. }
  change (String a (str_take m s) =
    String a (str_take n s +:+ str_take (m - n) (str_drop n s))). rewrite <- IH; [done|lia].
Qed.

Lemma str_take_take n m s : n ≤ m → str_take n (str_take m s) = str_take n s.
Proof.
  revert n m; induction s as [|a s IH]; intros [|n] [|m] Hm; try done; [lia|].
  cbn. rewrite IH; [done|lia].
Qed.

Lemma splice_at e original rest :
  ed_start e ≤ ed_end e → ed_end e ≤ String.length original →
  splice e (str_take (ed_end e) original +:+ rest) =
  str_take (ed_start e) original +:+ ed_replacement e +:+ rest.
Proof.
  intros Hs He. unfold splice, replace_range.
  assert (String.length (str_take (ed_end e) original) = ed_end e) as Hl
    by (rewrite str_take_length; lia).
  pose proof (str_drop_app_length (str_take (ed_end e) original) rest) as Hd.
  rewrite Hl in Hd. by rewrite str_take_app, str_take_take, Hd by lia.
Qed.

Lemma patch_loop_sound path original edits : ∀ i cursor out,
  patch_loop path original i cursor edits = Ok out →
  ordered (String.length original) cursor edits ∧
  splice_all original edits = str_take cursor original +:+ out.
Proof.
  induction edits as [|e edits IH]; intros i cursor out; cbn [patch_loop ordered].
  { intros [= <-]. split; [done|]. by rewrite str_take_drop. }
  destruct (_ || _) eqn:E; [done|]. rewrite !orb_false_iff, !Nat.ltb_ge in E.
  destruct E as [[? ?] ?]. intros (rest & Hr & [= <-])%bind_ok.
  apply IH in Hr as [Ho Hs]. split; [done|].
  unfold splice_all in *. cbn [foldr]. rewrite Hs, splice_at by lia.
  rewrite (str_take_split cursor (ed_start e)) by done. by rewrite !str_app_assoc.
Qed.

Lemma patch_loop_total path original edits : ∀ i cursor,
  ordered (String.length original) cursor edits →
  ∃ out, patch_loop path original i cursor edits = Ok out.
Proof.
  induction edits as [|e edits IH]; intros i cursor; cbn [patch_loop ordered]; [eauto|].
  intros (? & ? & ? & Ho). destruct (IH (S i) (ed_end e) Ho) as [rest ->].
  destruct (_ || _) eqn:E; [|cbn; eauto].
  rewrite !orb_true_iff, !Nat.ltb_lt in E. lia.
Qed.

(** A byte-range patch is applied when, and only when, its edits lie inside the
    file in order and apart; the result is then the file with every range replaced,
    whatever the lengths of the replacements, as if the edits were made one by one
    from the last to the first. *)
Theorem patch_exact path original edits out :
  patch_text path original edits = Ok out ↔
  ordered (String.length original) 0 edits ∧ out = splice_all original edits.
Proof.
  unfold patch_text. split.
  - intros [Ho Hs]%patch_loop_sound. split; [done|]. rewrite Hs. by destruct original.
  - intros [Ho ->]. destruct (patch_loop_total path _ _ 0 _ Ho) as [x Hx]. rewrite Hx.
    apply patch_loop_sound in Hx as [_ ->]. by destruct original.
Qed.

(** ** The match ladder *)

Definition cat (pieces : list string) : string := foldr String.app "" pieces.

Arguments cat : simpl never.

Lemma cat_cons x l : cat (x :: l) = x +:+ cat l.
Proof. done. Qed.

Lemma cat_app a b : cat (a ++ b) = cat a +:+ cat b.
Proof.
  induction a as [|x a IH]; [done|]. cbn [app]. by rewrite !cat_cons, IH, str_app_assoc.
Qed.

Lemma cat_one x : cat [x] = x.
Proof. rewrite cat_cons. apply str_app_nil_r. Qed.

(** How a line of the file reads once white space is out of the way. *)
Definition reading (line : string) : string := trim (trim_end_by is_eol line).

(** What a match by lines covers: the lines, up to the last one's line ending unless
    the needle ends with one too. *)
Definition covered (needle : string) (w : list string) : string :=
  if ends_with LF needle then cat w
  else match last w with
       | Some l => cat (removelast w) +:+ trim_end_by is_eol l
       | None => ""
       end.

(** [needle] occurs in [content] at the byte [i]. *)
Definition occurs_at (needle content : string) (i : nat) : Prop :=
  starts_with needle (str_drop i content) = true.

Lemma offsets_reading pos pieces : snd <$> line_offsets pos pieces = reading <$> pieces.
Proof. revert pos; induction pieces as [|l ls IH]; intros pos; [done|]. cbn. by rewrite IH. Qed.

Lemma line_offsets_app pos a b :
  line_offsets pos (a ++ b) = line_offsets pos a ++ line_offsets (pos + String.length (cat a)) b.
Proof.
  revert pos; induction a as [|x a IH]; intros pos; cbn [app line_offsets].
  { cbn. by rewrite Nat.add_0_r. }
  by rewrite IH, cat_cons, str_length_app, Nat.add_assoc.
Qed.

Lemma line_offsets_length pos pieces : length (line_offsets pos pieces) = length pieces.
Proof. revert pos; induction pieces as [|l ls IH]; intros pos; [done|]. cbn. by rewrite IH. Qed.

Lemma trim_end_by_prefix p s : ∃ t, s = trim_end_by p s +:+ t.
Proof.
  unfold trim_end_by. assert (∀ s, ∃ t, s = t +:+ trim_start_by p s) as Hp.
  { clear. induction s as [|a s [t Ht]]; [by exists ""|]. cbn. destruct (p a); [|by exists ""].
    exists (String a t). rewrite str_app_cons. by rewrite <- Ht. }
  destruct (Hp (str_rev s)) as [t Ht]. exists (str_rev t).
  rewrite <- str_rev_app, <- Ht. by rewrite str_rev_involutive.
Qed.

Lemma covered_prefix needle w : ∃ t, cat w = covered needle w +:+ t.
Proof.
  unfold covered. destruct (ends_with LF needle); [exists ""; by rewrite str_app_nil_r|].
  destruct w as [|x w _] using rev_ind; [by exists ""|].
  rewrite last_snoc, removelast_last, cat_app. destruct (trim_end_by_prefix is_eol x) as [t Ht].
  exists t. by rewrite str_app_assoc, <- Ht, cat_one.
Qed.

(** The end of a window is where its covered text ends. *)
Lemma window_end_exact content needle before w after l :
  content = cat (before ++ w ++ after) → last w = Some l →
  let start := String.length (cat before) in
  let s := start + String.length (cat (removelast w)) in
  window_end content needle (s, s + String.length l, reading l) =
  start + String.length (covered needle w).
Proof.
  intros -> Hl start s. destruct w as [|x w _] using rev_ind; [done|].
  rewrite last_snoc in Hl. injection Hl as ->. unfold window_end, covered. subst s.
  rewrite last_snoc, removelast_last. destruct (ends_with LF needle).
  - rewrite cat_app, str_length_app, cat_one. lia.
  - rewrite str_length_app. replace (_ + String.length l - _) with (String.length l) by lia.
    rewrite !cat_app, !str_app_assoc.
    assert (str_drop (start + String.length (cat w))
      (cat before +:+ (cat w +:+ (cat [l] +:+ cat after))) = l +:+ cat after) as ->.
    { rewrite <- str_drop_drop. unfold start. by rewrite !str_drop_app_length, cat_one. }
    rewrite str_take_app_length. lia.
Qed.

Lemma list_prefix_fmap pieces (nl : list string) :
  list_prefix nl (reading <$> pieces) = true ↔
  ∃ w after, pieces = w ++ after ∧ reading <$> w = nl.
Proof.
  rewrite list_prefix_spec. split.
  - intros [r (w & after & -> & ? & ?)%fmap_app_inv]. exists w, after. split; [|done]. congruence.
  - intros (w & after & -> & <-). exists (reading <$> after). by rewrite fmap_app.
Qed.

Lemma str_drop_length n s : String.length (str_drop n s) = String.length s - n.
Proof. revert n; induction s as [|a s IH]; intros [|n]; try done. apply IH. Qed.

Lemma elem_first_hit content needle nl s e before rest :
  nl ≠ [] → content = cat (before ++ rest) →
  (s, e) ∈ first_hit content needle nl (line_offsets (String.length (cat before)) rest) ↔
  ∃ w a, rest = w ++ a ∧ reading <$> w = nl ∧
    s = String.length (cat before) ∧ e = s + String.length (covered needle w).
Proof.
  intros Hnl Hc. destruct rest as [|x rest].
  { cbn. rewrite elem_of_nil. split; [done|].
    intros (w & a & E & Hw & _). symmetry in E. apply app_nil in E as [-> _]. done. }
  unfold first_hit. cbn [line_offsets].
  change (_ :: line_offsets _ rest) with (line_offsets (String.length (cat before)) (x :: rest)).
  unfold window_matches. rewrite offsets_reading. cbn [fst].
  destruct (list_prefix nl (reading <$> x :: rest)) eqn:E.
  2: { rewrite elem_of_nil. split; [done|]. intros (w & a & Hr & Hw & _).
       apply not_true_iff_false in E. destruct E. apply list_prefix_fmap. eauto. }
  apply list_prefix_fmap in E as (w & a & Hr & Hw). rewrite Hr in *.
  destruct w as [|l w _] using rev_ind; [by subst|].
  rewrite <- app_assoc. cbn [app].
  rewrite line_offsets_app. cbn [line_offsets].
  assert (length nl - 1 = length (line_offsets (String.length (cat before)) w)) as ->.
  { rewrite line_offsets_length, <- Hw, length_fmap, length_app. cbn. lia. }
  rewrite list_lookup_middle by done.
  pose proof (window_end_exact content needle before (w ++ [l]) a l Hc (last_snoc _ _)) as He.
  cbv zeta in He. rewrite removelast_last in He. unfold reading in He at 1. rewrite He.
  rewrite list_elem_of_singleton. split.
  - intros [= -> ->]. exists (w ++ [l]), a. by rewrite <- app_assoc.
  - intros (w' & a' & Hr' & Hw' & -> & ->). do 3 f_equal.
    assert (w' = w ++ [l]) as ->; [|done].
    change (w ++ l :: a) with (w ++ [l] ++ a) in Hr'. rewrite app_assoc in Hr'.
    symmetry. apply (app_inj_1 _ _ _ _) in Hr' as [? _]; [done|].
    by rewrite <- (length_fmap reading (w ++ [l])), Hw, <- Hw', length_fmap.
Qed.

(** A hit is a window of lines that reads as the needle. *)
Lemma elem_window_hits content needle nl s e : nl ≠ [] → ∀ rest before,
  content = cat (before ++ rest) →
  (s, e) ∈ window_hits content needle nl (line_offsets (String.length (cat before)) rest) ↔
  ∃ b w a, rest = b ++ w ++ a ∧ reading <$> w = nl ∧
    s = String.length (cat (before ++ b)) ∧ e = s + String.length (covered needle w).
Proof.
  intros Hnl. induction rest as [|x rest IH]; intros before Hc.
  { cbn. rewrite elem_of_nil. split; [done|].
    intros (b & w & a & E & Hw & _). symmetry in E. apply app_nil in E as [_ [-> _]%app_nil]. done. }
  pose proof (elem_first_hit content needle nl s e before (x :: rest) Hnl Hc) as Hf.
  specialize (IH (before ++ [x])). rewrite (cat_app before [x]), cat_one, str_length_app in IH.
  change (window_hits content needle nl (line_offsets (String.length (cat before)) (x :: rest)))
    with (first_hit content needle nl (line_offsets (String.length (cat before)) (x :: rest)) ++
          window_hits content needle nl
            (line_offsets (String.length (cat before) + String.length x) rest)).
  rewrite elem_of_app, Hf, IH by (by rewrite <- app_assoc). split.
  - intros [(w & a & ? & ? & ?)|(b & w & a & -> & ? & -> & ->)].
    + exists [], w, a. by rewrite app_nil_r.
    + exists (x :: b), w, a. by rewrite <- app_assoc.
  - intros ([|y b] & w & a & E & ? & -> & ->).
    + left. exists w, a. by rewrite app_nil_r.
    + right. injection E as <- ->. exists b, w, a. by rewrite <- app_assoc.
Qed.

Lemma elem_hits content needle s e :
  (s, e) ∈ hits content needle ↔
  ∃ b w a, split_inclusive content = b ++ w ++ a ∧ w ≠ [] ∧
    reading <$> w = needle_lines needle ∧
    s = String.length (cat b) ∧ e = s + String.length (covered needle w).
Proof.
  unfold hits. destruct (needle_lines needle) as [|n nl] eqn:En.
  - rewrite elem_of_nil. split; [done|]. intros (b & w & a & _ & Hw & E & _).
    by apply fmap_nil_inv in E.
  - unfold offsets_of.
    rewrite (elem_window_hits content needle (n :: nl) s e ltac:(done) (split_inclusive content) []
      (eq_sym (split_inclusive_concat content))).
    cbn [app]. split; intros (b & w & a & ? & Hw); exists b, w, a; [|naive_solver].
    split_and!; naive_solver.
Qed.

(** C17: an edit is located, if at all, at one place. On the exact tier the range holds
    the very text looked for, and every other occurrence overlaps it; on the second
    tier the text occurs nowhere as it is, and the range covers the only run of whole
    lines that reads line by line as the text does once white space at the ends of
    lines is ignored. *)
Theorem locate_sound content needle path s e tier :
  locate content needle path = Ok (s, e, tier) →
  (∃ before mid after, content = before +:+ mid +:+ after ∧
     s = String.length before ∧ e = s + String.length mid ∧
     match tier with
     | MatchTier_Exact =>
         mid = needle ∧ needle ≠ "" ∧
         (∀ i, occurs_at needle content i → s ≤ i < e)
     | MatchTier_WhitespaceRemap =>
         (∀ i, ¬ occurs_at needle content i) ∧
         ∃ b w a, split_inclusive content = b ++ w ++ a ∧ before = cat b ∧
           mid = covered needle w ∧ reading <$> w = needle_lines needle ∧
           (∀ b' w' a', split_inclusive content = b' ++ w' ++ a' → w' ≠ [] →
              reading <$> w' = needle_lines needle → cat b' = before)
     end).
Proof.
  unfold locate. destruct (str_is_empty needle) eqn:Hn; [done|].
  assert (needle ≠ "") as Hne by (by intros ->).
  destruct (match_indices needle content) as [|i [|? ?]] eqn:Em; [|intros [= <- <- <-]|done].
  - destruct (hits content needle) as [|[s' e'] [|? ?]] eqn:Eh; [done|intros [= <- <- <-]|done].
    assert ((s', e') ∈ hits content needle) as Hin by (rewrite Eh; left).
    apply elem_hits in Hin as (b & w & a & Hs & Hw & Hr & -> & ->).
    destruct (covered_prefix needle w) as [t Ht].
    exists (cat b), (covered needle w), (t +:+ cat a). split_and!; [|done|done|..].
    + rewrite <- (split_inclusive_concat content), Hs. fold (cat (b ++ w ++ a)).
      by rewrite !cat_app, Ht, !str_app_assoc.
    + intros i Hi. destruct (match_from_complete needle content Hne 0 0 i ltac:(lia) Hi) as (k & Hk & _).
      unfold match_indices in Em. rewrite Em in Hk. by apply not_elem_of_nil in Hk.
    + exists b, w, a. split_and!; [done..|]. intros b' w' a' Hs' Hw' Hr'.
      assert ((String.length (cat b'), String.length (cat b') + String.length (covered needle w'))
        ∈ hits content needle) as Hin by (apply elem_hits; eauto 10).
      rewrite Eh, list_elem_of_singleton in Hin. injection Hin as Hl _.
      assert (cat b' +:+ cat (w' ++ a') = cat b +:+ cat (w ++ a)) as Hcat.
      { rewrite <- !cat_app. by rewrite <- Hs, <- Hs'. }
      apply (f_equal (str_take (String.length (cat b')))) in Hcat.
      rewrite str_take_app_length, Hl, str_take_app_length in Hcat. done.
  - assert (i ∈ match_indices needle content) as (j & -> & _ & Hj)%match_from_sound
      by (rewrite Em; left).
    apply starts_with_true in Hj as [after Ha].
    exists (str_take j content), needle, after.
    assert (j < String.length content) as Hlen.
    { assert (String.length (str_drop j content) ≠ 0); [rewrite Ha, str_length_app; by destruct needle|].
      rewrite str_drop_length in *. lia. }
    split_and!; [by rewrite <- Ha, str_take_drop|rewrite str_take_length; lia|lia|done|done|].
    intros k Hk. destruct (match_from_complete needle content Hne 0 0 k ltac:(lia) Hk) as (m & Hm & ?).
    unfold match_indices in Em. rewrite Em, list_elem_of_singleton in Hm. lia.
Qed.

(** ** Line endings

    [unix text]: the text with every run of carriage returns before a newline
    dropped; what two texts share that differ in line endings only. *)
Fixpoint unix (s : string) : string :=
  match s with
  | "" => ""
  | String a s =>
      match unix s with
      | String b r => if Ascii.eqb a CR && Ascii.eqb b NL then String b r else String a (String b r)
      | "" => String a ""
      end
  end.

Lemma unix_NL s : unix (String NL s) = String NL (unix s).
Proof. cbn. by destruct (unix s). Qed.

Lemma unix_CRLF s : unix (String CR (String NL s)) = String NL (unix s).
Proof. change (unix (String CR (String NL s))) with
  (match unix (String NL s) with
   | String b r => if Ascii.eqb CR CR && Ascii.eqb b NL then String b r else String CR (String b r)
   | "" => String CR "" end). by rewrite unix_NL. Qed.

Lemma unix_cong a s t : unix s = unix t → unix (String a s) = unix (String a t).
Proof. intros E. cbn. by rewrite E. Qed.

(** A text without a CRLF at its front keeps its first character. *)
Lemma strip_crlf_cons a s :
  starts_with CRLF (String a s) = false →
  replace_str CRLF LF (String a s) = String a (replace_str CRLF LF s).
Proof. intros E. unfold replace_str. cbn [replace_from]. by rewrite E. Qed.

Lemma strip_crlf_crlf s :
  replace_str CRLF LF (String CR (String NL s)) = String NL (replace_str CRLF LF s).
Proof. done. Qed.

Lemma crlf_front a s :
  starts_with CRLF (String a s) = true → a = CR ∧ ∃ t, s = String NL t.
Proof. intros [r E]%starts_with_true. injection E as -> ->. eauto. Qed.

Lemma unix_strip s : unix (replace_str CRLF LF s) = unix s.
Proof.
  induction s as [s IH] using (induction_ltof1 _ String.length). unfold ltof in IH.
  destruct s as [|a s]; [done|]. destruct (starts_with CRLF (String a s)) eqn:E.
  - apply crlf_front in E as (-> & t & ->).
    rewrite strip_crlf_crlf, unix_NL, unix_CRLF, IH; [done|cbn; lia].
  - rewrite strip_crlf_cons by done. apply unix_cong, IH. cbn; lia.
Qed.

Lemma widen_cons a s :
  a ≠ NL → replace_str LF CRLF (String a s) = String a (replace_str LF CRLF s).
Proof.
  intros Hne. unfold replace_str. cbn [replace_from].
  change (starts_with LF (String a s)) with (Ascii.eqb NL a && true).
  destruct (Ascii.eqb_spec NL a); [congruence|done].
Qed.

Lemma unix_widen s : unix (replace_str LF CRLF s) = unix s.
Proof.
  induction s as [|a s IH]; [done|]. destruct (decide (a = NL)) as [->|Hne].
  - change (unix (String CR (String NL (replace_str LF CRLF s))) = unix (String NL s)).
    by rewrite unix_CRLF, unix_NL, IH.
  - rewrite widen_cons by congruence.
    by apply unix_cong.
Qed.

(** Whatever the style, the text stays the same up to line endings. *)
Lemma unix_apply style s : unix (LineEnding_apply style s) = unix s.
Proof. destruct style; cbn; by rewrite ?unix_widen, ?unix_strip. Qed.

(** *** What a style does to a text *)

Definition newlines (s : string) : nat := length (match_indices LF s).
Definition crlfs (s : string) : nat := length (match_indices CRLF s).

Lemma match_from_shift pat s : ∀ pos pos' skip,
  length (match_from pos skip pat s) = length (match_from pos' skip pat s).
Proof.
  induction s as [|a s IH]; intros pos pos' skip; [done|]. cbn [match_from].
  destruct skip; [destruct (starts_with _ _)|]; cbn [length]; auto.
Qed.

Lemma newlines_cons a s : newlines (String a s) = (if Ascii.eqb NL a then 1 else 0) + newlines s.
Proof.
  unfold newlines, match_indices. cbn [match_from].
  change (starts_with LF (String a s)) with (Ascii.eqb NL a && true).
  destruct (Ascii.eqb NL a); cbn [andb length String.length LF]; by rewrite (match_from_shift _ _ 1 0).
Qed.

Lemma crlfs_crlf s : crlfs (String CR (String NL s)) = S (crlfs s).
Proof.
  unfold crlfs, match_indices.
  change (match_from 0 0 CRLF (String CR (String NL s))) with (0 :: match_from 2 0 CRLF s).
  cbn. by rewrite (match_from_shift _ _ 2 0).
Qed.

Lemma crlfs_cons a s : starts_with CRLF (String a s) = false → crlfs (String a s) = crlfs s.
Proof.
  intros E. unfold crlfs, match_indices. cbn [match_from]. rewrite E. apply match_from_shift.
Qed.

Lemma style_of s :
  LineEnding_of s =
  if newlines s - crlfs s =? 0 then
    if crlfs s =? 0 then LineEnding_Undecided else LineEnding_Crlf
  else if crlfs s =? 0 then LineEnding_Lf else LineEnding_Undecided.
Proof.
  unfold LineEnding_of. fold (newlines s) (crlfs s).
  destruct (crlfs s) eqn:E1, (newlines s - _) eqn:E2; cbn; rewrite ?E2; done.
Qed.

(** After widening every newline is a CRLF. *)
Lemma widen_counts s :
  crlfs (replace_str LF CRLF s) = newlines s ∧ newlines (replace_str LF CRLF s) = newlines s.
Proof.
  induction s as [|a s [IH1 IH2]]; [done|]. rewrite newlines_cons.
  destruct (Ascii.eqb_spec NL a) as [<-|Hne].
  - change (replace_str LF CRLF (String NL s)) with (String CR (String NL (replace_str LF CRLF s))).
    rewrite crlfs_crlf, !newlines_cons, IH1, IH2. done.
  - rewrite widen_cons by congruence.
    rewrite newlines_cons, IH2. destruct (Ascii.eqb_spec NL a); [congruence|]. split; [|done].
    destruct (starts_with CRLF (String a (replace_str LF CRLF s))) eqn:E; [|by rewrite crlfs_cons].
    exfalso. apply crlf_front in E as [-> [t Ht]]. destruct s as [|b s]; [done|].
    destruct (decide (b = NL)) as [->|Hb]; [done|]. rewrite widen_cons in Ht by done. congruence.
Qed.

Lemma strip_newlines s : newlines (replace_str CRLF LF s) = newlines s.
Proof.
  induction s as [s IH] using (induction_ltof1 _ String.length). unfold ltof in IH.
  destruct s as [|a s]; [done|]. destruct (starts_with CRLF (String a s)) eqn:E.
  - apply crlf_front in E as (-> & t & ->).
    rewrite strip_crlf_crlf, !newlines_cons, IH; [done|cbn; lia].
  - rewrite strip_crlf_cons by done. rewrite !newlines_cons, IH; [done|cbn; lia].
Qed.

(** A text in which no carriage return is doubled before a newline has no CRLF left
    after the strip. *)
Lemma strip_crlfs s :
  str_contains (String CR CRLF) s = false → crlfs (replace_str CRLF LF s) = 0.
Proof.
  induction s as [s IH] using (induction_ltof1 _ String.length). unfold ltof in IH.
  destruct s as [|a s]; [done|]. cbn [str_contains]. rewrite orb_false_iff. intros [Hs Hc].
  destruct (starts_with CRLF (String a s)) eqn:E.
  - apply crlf_front in E as (-> & t & ->).
    cbn [str_contains] in Hc. rewrite orb_false_iff in Hc.
    rewrite strip_crlf_crlf, crlfs_cons, IH; [done|cbn; lia|tauto|done].
  - rewrite strip_crlf_cons by done.
    destruct (starts_with CRLF (String a (replace_str CRLF LF s))) eqn:E'.
    2: { rewrite crlfs_cons by done. apply IH; [cbn; lia|done]. }
    exfalso. apply crlf_front in E' as (-> & t & Ht).
    destruct s as [|b s]; [done|]. destruct (starts_with CRLF (String b s)) eqn:E2.
    + apply crlf_front in E2 as (-> & t' & ->). by cbn in Hs.
    + rewrite strip_crlf_cons in Ht by done. injection Ht as -> _. by cbn in E.
Qed.

(** A text with a newline takes the style it is given, unless that is the bare newline
    and the text doubles a carriage return before one. *)
Lemma style_taken style s :
  style ≠ LineEnding_Undecided → newlines s ≠ 0 →
  (style = LineEnding_Lf → str_contains (String CR CRLF) s = false) →
  LineEnding_of (LineEnding_apply style s) = style.
Proof.
  intros Hs Hn Hl. rewrite style_of. destruct style; cbn [LineEnding_apply]; [| |done].
  - destruct (widen_counts (replace_str CRLF LF s)) as [-> ->].
    rewrite strip_newlines, Nat.sub_diag. cbn. by destruct (newlines s).
  - rewrite strip_newlines, strip_crlfs by auto. rewrite Nat.sub_0_r.
    by destruct (newlines s).
Qed.

(** ** Examples *)

Definition NLs (l : list string) : string := Prelude.join LF l.

(** Two lines are found under another indentation. *)
Definition indented : string := NLs ["fn f() {"; "    let a = 1;"; "    a"; "}"].

Lemma locate_sound_witness :
  locate indented (NLs ["let a = 1;"; "  a"]) "f.rs" = Ok (9, 29, MatchTier_WhitespaceRemap) ∧
  ∃ before mid after, indented = before +:+ mid +:+ after ∧ 9 = String.length before.
Proof.
  assert (locate indented (NLs ["let a = 1;"; "  a"]) "f.rs" = Ok (9, 29, MatchTier_WhitespaceRemap))
    as H by (vm_compute; reflexivity).
  split; [exact H|].
  destruct (locate_sound _ _ _ _ _ _ H) as (b & m & a & Hc & Hs & _). eauto.
Defined.

(** Occurrences that overlap count once: the target is taken for unique. *)
Example overlapping_target : locate "aaa" "aa" "f" = Ok (0, 2, MatchTier_Exact).
Proof. reflexivity. Qed.

(** A target that starts with a newline matches inside a CRLF, and the replacement
    brings its own: the file is left with a doubled carriage return. *)
Example crlf_doubled :
  let old := "a" +:+ CRLF +:+ "b" in
  edit_text "f" (LineEnding_of old) 0 [{| te_old := LF +:+ "b"; te_new := LF +:+ "c" |}] old =
  Ok ("a" +:+ String CR CRLF +:+ "c", [MatchTier_Exact]).
Proof. vm_compute. reflexivity. Qed.

(** The bare-newline style leaves a CRLF behind when a carriage return is doubled. *)
Example lf_leaves_crlf : LineEnding_apply LineEnding_Lf (String CR CRLF) = CRLF.
Proof. vm_compute. reflexivity. Qed.

Example patch_two_ranges :
  patch_text "f" "hello world" [{| ed_start := 0; ed_end := 5; ed_replacement := "bye" |};
    {| ed_start := 5; ed_end := 5; ed_replacement := "," |}] = Ok "bye, world".
Proof. vm_compute. reflexivity. Qed.
