(* ===== verification/WsPath.v ===== *)
(** * The path policy of a workspace

    [crates/workspace/src/paths.rs] over what the code uses of [std::fs]. A path is
    the list of its components; a buffer that was pushed to is the list of what was
    pushed. The operations of the file system are a class, and what the theorems
    need of them a second one: [contents] and [link_at] are the regular files and
    the symbolic links of the tree, by their place in it, and [direct] paths are
    those that meet no link. *)

From S2P Require Import Prelude RustStr RustPath WsText.
#[local] Open Scope nat_scope.

Abbreviation Path := (list Component).

Inductive FileType := Ft_File | Ft_Dir | Ft_Symlink | Ft_Other.

#[export] Instance FileType_eq : EqDecision FileType.
Proof. solve_decision. Defined.

Record Metadata := { mt_type : FileType; mt_len : Z }.

Class FileSystem (W : Type) := {
  symlink_metadata : W → Path → result IoError Metadata;
  metadata : W → Path → result IoError Metadata;
  canonicalize : W → Path → result IoError Path;
  fs_read : W → Path → result IoError string;
  read_dir : W → Path → result IoError (list (result IoError string));
  create_dir_all : W → Path → W * result IoError unit;
  file_create : W → Path → W * result IoError unit;
  file_write_all : W → Path → string → W * result IoError unit;
  file_sync_all : W → Path → W * result IoError unit;
  fs_rename : W → Path → Path → W * result IoError unit;
  remove_file : W → Path → W * result IoError unit
}.

(** The globset crate: whether a pattern is well formed, whether the set builds, and
    whether a pattern matches a path. [GlobSet::matches] returns the indices of the
    patterns that match, in order. *)
Class Globset := {
  glob_new : string → result string unit;
  globset_build : list string → result string unit;
  glob_is_match : string → string → bool
}.

Definition DEFAULT_PROTECTED : list string :=
  [".git/**"; "**/.git/**"; ".ssh/**"; "**/.ssh/**"; "**/id_rsa*"; "**/id_ed25519*"; "**/*.pem";
   "**/.netrc"; "**/.npmrc"; "**/.pypirc"; "**/.aws/credentials"; "**/.env"; "**/.env.*";
   "**/.github/workflows/*.yml"].

(** [pp_patterns] is both the built set and the list of its patterns. *)
Record PathPolicy := { pp_root : Path; pp_patterns : list string }.

Record ResolvedPath := { rp_relative : string; rp_absolute : Path }.

Definition display (p : Path) : string := path_of p.

(** [p.strip_prefix(base)] by components. *)
Fixpoint path_strip_prefix (p base : Path) : option Path :=
  match base, p with
  | [], _ => Some p
  | b :: base, c :: p => if bool_decide (b = c) then path_strip_prefix p base else None
  | _ :: _, [] => None
  end.

Definition without_verbatim_prefix (path : Path) : Path :=
  let s := display path in
  match strip_prefix "\\?\UNC\" s with
  | Some rest => components ("\\" +:+ rest)
  | None => match strip_prefix "\\?\" s with
            | Some rest => components rest
            | None => path
            end
  end.

Section Policy.
  Context {W : Type} `{FileSystem W} `{Globset}.

Fixpoint add_patterns (patterns : list string) : result WsError (list string) :=
  match patterns with
  | [] => Ok []
  | p :: rest =>
      _ ← map_err (λ e, Error_Invalid p ("bad protected pattern: " +:+ e)) (glob_new p);
      ps ← add_patterns rest; Ok (p :: ps)
  end.

Definition PathPolicy_new (w : W) (root : Path) (extra : list string)
    : result WsError PathPolicy :=
  root ← map_err (Error_Io (display root)) (canonicalize w root);
  patterns ← add_patterns (DEFAULT_PROTECTED ++ extra);
  _ ← map_err (Error_Invalid "") (globset_build patterns);
  Ok {| pp_root := root; pp_patterns := patterns |}.

Definition protected_match (self : PathPolicy) (rel : string) : option string :=
  List.find (λ p, glob_is_match p rel) (pp_patterns self).

(** The loop of [normalize] over the components. *)
Fixpoint normalize_loop (given : string) (comps : list Component) (depth : Z) (rel : Path)
    : result WsError Path :=
  match comps with
  | [] => Ok rel
  | c :: comps =>
      match c with
      | Component_Normal s => normalize_loop given comps (depth + 1) (rel ++ [c])
      | Component_CurDir => normalize_loop given comps depth rel
      | Component_ParentDir =>
          if (depth - 1 <? 0)%Z then
            Err (Error_OutsideRoot given "`..` climbs above the root")
          else normalize_loop given comps (depth - 1) (removelast rel)
      | Component_RootDir => Err (Error_OutsideRoot given "unexpected root component")
      end
  end.

Definition normalize (self : PathPolicy) (given : string) : result WsError Path :=
  if contains_char "\" given then
    Err (Error_OutsideRoot given
      "backslash is not a path separator on this platform; use `/`")
  else
    let p := components given in
    comps ←
      (if path_is_absolute given then
         match path_strip_prefix p (pp_root self) with
         | Some r => Ok r
         | None =>
             ok_or (path_strip_prefix p (without_verbatim_prefix (pp_root self)))
               (Error_OutsideRoot given "absolute path not under the root")
         end
       else Ok p);
    normalize_loop given comps 0 [].

(** The loop of [resolve]: the links met so far are followed in [cur]. *)
Fixpoint resolve_loop (w : W) (root : Path) (given : string) (cur : Path)
    (comps : list Component) : result WsError Path :=
  match comps with
  | [] => Ok cur
  | c :: rest =>
      let candidate := cur ++ [c] in
      match symlink_metadata w candidate with
      | Ok meta =>
          if bool_decide (mt_type meta = Ft_Symlink) then
            target ← map_err (Error_Io (display candidate)) (canonicalize w candidate);
            if list_prefix root target then resolve_loop w root given target rest
            else Err (Error_OutsideRoot given
                   ("symlink `" +:+ display candidate +:+ "` points to `" +:+
                    display target +:+ "`"))
          else resolve_loop w root given candidate rest
      | Err Io_NotFound => Ok (cur ++ comps)
      | Err e => Err (Error_Io (display candidate) e)
      end
  end.

Definition resolve (w : W) (self : PathPolicy) (given : string) (rel : Path)
    : result WsError Path :=
  cur ← resolve_loop w (pp_root self) given (pp_root self) rel;
  if list_prefix (pp_root self) cur then Ok cur
  else Err (Error_OutsideRoot given ("resolved to `" +:+ display cur +:+ "`")).

(** [to_string_lossy().replace('\\', "/")] of a path. *)
Definition forward (p : Path) : string := replace_char "\" "/" (path_of p).

Fixpoint first_protected (self : PathPolicy) (candidates : list string) : option string :=
  match candidates with
  | [] => None
  | candidate :: rest =>
      if str_is_empty candidate then first_protected self rest
      else match protected_match self candidate with
           | Some pattern => Some pattern
           | None => first_protected self rest
           end
  end.

(** The resolved path relative to the root. *)
Definition resolved_rel (self : PathPolicy) (absolute : Path) : string :=
  match path_strip_prefix absolute (pp_root self) with Some p => forward p | None => "" end.

Definition check (w : W) (self : PathPolicy) (given : string) : result WsError ResolvedPath :=
  rel ← normalize self given;
  absolute ← resolve w self given rel;
  match first_protected self [forward rel; resolved_rel self absolute] with
  | Some pattern => Err (Error_Protected given pattern)
  | None => Ok {| rp_relative := forward rel; rp_absolute := absolute |}
  end.

End Policy.

(** ** The tree behind the operations *)

Definition plain_path (p : Path) : Prop :=
  ∃ names, p = Component_RootDir :: (Component_Normal <$> names).

Class FsLaws (W : Type) `{FileSystem W} := {
  contents : W → Path → option string;
  link_at : W → Path → option Path;
  direct w p := ∀ q, q `prefix_of` p → link_at w q = None;
  same_links w w' := ∀ p, link_at w p = link_at w' p;
  lstat_link w p c m :
    direct w p → symlink_metadata w (p ++ [c]) = Ok m →
    (mt_type m = Ft_Symlink ↔ is_Some (link_at w (p ++ [c])));
  lstat_absent w p c q :
    direct w p → symlink_metadata w (p ++ [c]) = Err Io_NotFound →
    link_at w (p ++ c :: q) = None;
  canonical_direct w p q : canonicalize w p = Ok q → direct w q ∧ plain_path q;
  canonical_stable w w' p q q' :
    same_links w w' → canonicalize w p = Ok q → canonicalize w' p = Ok q' → q = q';
  stat_file w p m :
    direct w p → metadata w p = Ok m → mt_type m = Ft_File → is_Some (contents w p);
  stat_absent w p : direct w p → metadata w p = Err Io_NotFound → contents w p = None;
  read_contents w p b b' :
    direct w p → contents w p = Some b → fs_read w p = Ok b' → b' = b;
  read_absent w p : direct w p → fs_read w p = Err Io_NotFound → contents w p = None;
  read_stat w p b : fs_read w p = Ok b → metadata w p ≠ Err Io_NotFound;
  mkdir_frame w p :
    let w' := (create_dir_all w p).1 in
    same_links w w' ∧ ∀ q, contents w' q = contents w q;
  create_frame w p :
    direct w p →
    let '(w', r) := file_create w p in
    same_links w w' ∧ (∀ q, q ≠ p → contents w' q = contents w q) ∧
    (r = Ok tt → contents w' p = Some "");
  write_frame w p b :
    direct w p →
    let '(w', r) := file_write_all w p b in
    same_links w w' ∧ (∀ q, q ≠ p → contents w' q = contents w q) ∧
    (∀ x, r = Ok tt → contents w p = Some x → contents w' p = Some (x +:+ b));
  sync_frame w p :
    let w' := (file_sync_all w p).1 in
    same_links w w' ∧ ∀ q, contents w' q = contents w q;
  rename_frame w p q b :
    direct w p → direct w q → p ≠ q → contents w p = Some b →
    let '(w', r) := fs_rename w p q in
    same_links w w' ∧
    (∀ x, x ≠ p → x ≠ q → contents w' x = contents w x) ∧
    match r with
    | Ok _ => contents w' q = Some b ∧ contents w' p = None
    | Err _ => contents w' q = contents w q ∧ contents w' p = contents w p
    end;
  remove_frame w p :
    direct w p →
    let '(w', r) := remove_file w p in
    same_links w w' ∧
    (∀ q, q ≠ p → contents w' q = contents w q) ∧
    match r with
    | Ok _ => contents w' p = None
    | Err _ => contents w' p = contents w p
    end
}.

(** ** What a checked path is *)

Section Confinement.
  Context {W : Type} `{FsLaws W} `{Globset}.

Definition plain (c : Component) : Prop := ∃ s, c = Component_Normal s.

Lemma path_strip_prefix_some p base r : path_strip_prefix p base = Some r ↔ p = base ++ r.
Proof.
  revert p; induction base as [|b base IH]; intros [|c p]; cbn; [split; congruence..|].
  case_bool_decide; [rewrite IH|]; split; congruence.
Qed.

Lemma normalize_loop_plain given comps : ∀ depth rel out,
  Forall plain rel → normalize_loop given comps depth rel = Ok out → Forall plain out.
Proof.
  induction comps as [|c comps IH]; intros depth rel out Hr; cbn; [naive_solver|].
  destruct c; [done| | |].
  - by apply IH.
  - destruct (_ <? 0)%Z; [done|]. apply IH.
    rewrite removelast_firstn_len. by apply Forall_take.
  - apply IH, Forall_app_2; [done|]. constructor; [by eexists|done].
Qed.

Lemma normalize_plain self given rel : normalize self given = Ok rel → Forall plain rel.
Proof.
  unfold normalize. destruct (contains_char _ _); [done|].
  intros (comps & _ & Hn)%bind_ok. by eapply normalize_loop_plain in Hn.
Qed.

Lemma direct_prefix w p q : p `prefix_of` q → direct w q → direct w p.
Proof. intros Hp Hq x Hx. apply Hq. by etrans. Qed.

Lemma prefix_app_cases (q p t : Path) :
  q `prefix_of` p ++ t → q `prefix_of` p ∨ ∃ r, q = p ++ r ∧ r `prefix_of` t.
Proof.
  intros [k Hk]. apply List.app_eq_app in Hk as [l [[-> ->]|[-> ->]]].
  - left. by exists l.
  - right. exists l. split; [done|]. by exists k.
Qed.

Lemma direct_app w p t :
  direct w p → (∀ r, r ≠ [] → r `prefix_of` t → link_at w (p ++ r) = None) → direct w (p ++ t).
Proof.
  intros Hp Ht q [Hq|(r & -> & Hr)]%prefix_app_cases; [by apply Hp|].
  destruct r as [|c r]; [rewrite app_nil_r; by apply Hp|]. by apply Ht.
Qed.

Lemma direct_snoc w p c : direct w p → link_at w (p ++ [c]) = None → direct w (p ++ [c]).
Proof.
  intros Hp Hl. apply direct_app; [done|]. intros r Hne [k Hk].
  destruct r as [|x [|? ?]]; [done| |destruct k; discriminate]. by injection Hk as <- _.
Qed.

(** Following the components one by one ends below the root and off every link. *)
Lemma resolve_loop_direct w root given comps : ∀ cur out,
  direct w cur → (∃ names, cur = root ++ names ∧ Forall plain names) →
  plain_path root → Forall plain comps →
  resolve_loop w root given cur comps = Ok out →
  direct w out ∧ ∃ names, out = root ++ names ∧ Forall plain names.
Proof.
  induction comps as [|c comps IH]; intros cur out Hd Hin Hr Hc; cbn; [by intros [= <-]|].
  apply Forall_cons in Hc as [Hc Hcs]. destruct Hin as (names & -> & Hn).
  destruct (symlink_metadata w _) as [m|[]] eqn:E; [| |done].
  - case_bool_decide as Hm.
    + intros (t & Ht & Hrest)%bind_ok. destruct (canonicalize w _) as [t'|] eqn:Ec; [|done].
      injection Ht as ->. apply canonical_direct in Ec as [Htd Htp].
      destruct (list_prefix root t) eqn:Ep; [|done].
      apply list_prefix_spec in Ep as [r ->]. eapply IH; [..|done]; [done| |done|done].
      exists r. split; [done|]. destruct Hr as [rn ->], Htp as [tn Htp].
      injection Htp as Htp. apply (f_equal (λ l, Forall plain l)) in Htp.
      assert (Forall plain (Component_Normal <$> tn)) as Hall
        by (apply Forall_fmap, Forall_true; intros ?; by eexists).
      rewrite <- Htp in Hall. by apply Forall_app in Hall as [_ ?].
    + apply IH; [|exists (names ++ [c])|done|done].
      * apply direct_snoc; [done|]. apply eq_None_not_Some. intros Hs. apply Hm.
        by apply (lstat_link w (root ++ names) c m).
      * rewrite app_assoc. split; [done|]. apply Forall_app_2; [done|by constructor].
  - intros [= <-]. split.
    + apply direct_app; [done|]. intros r Hne [k Hk].
      destruct r as [|x r]; [done|]. injection Hk as <- _. by apply lstat_absent.
    + exists (names ++ c :: comps). rewrite app_assoc. split; [done|].
      apply Forall_app_2; [done|]. by constructor.
Qed.

Lemma first_protected_none self candidates :
  first_protected self candidates = None →
  ∀ c pattern, c ∈ candidates → c ≠ "" → pattern ∈ pp_patterns self → glob_is_match pattern c = false.
Proof.
  induction candidates as [|x candidates IH]; cbn; intros E c pattern Hc Hne Hp;
    [by apply not_elem_of_nil in Hc|].
  apply elem_of_cons in Hc as [->|Hc].
  - destruct (str_is_empty x) eqn:Ex; [by destruct x|].
    destruct (protected_match self x) as [?|] eqn:Em; [done|].
    unfold protected_match in Em. rewrite find_none_forall, Forall_forall in Em. by apply Em.
  - apply IH; [|done..]. destruct (str_is_empty x); [done|]. by destruct (protected_match self x).
Qed.

Lemma check_resolved w self given r :
  check w self given = Ok r →
  ∃ rel, normalize self given = Ok rel ∧ resolve_loop w (pp_root self) given (pp_root self) rel
    = Ok (rp_absolute r) ∧ rp_relative r = forward rel ∧
    first_protected self [rp_relative r; resolved_rel self (rp_absolute r)] = None.
Proof.
  unfold check. intros (rel & Hn & (abs & Hr & Hf)%bind_ok)%bind_ok.
  unfold resolve in Hr. apply bind_ok in Hr as (cur & Hl & Hp).
  destruct (list_prefix _ cur); [|done]. injection Hp as ->.
  destruct (first_protected _ _) eqn:Ef; [done|]. injection Hf as <-. eauto 10.
Qed.

(** C16: a path the policy lets through names a place below the root, spelled with plain
    names only and with no symbolic link on the way, so that opening it stays in
    the root; and no protected pattern matches it, neither as it was given nor
    where it leads. *)
Theorem checked_path_confined w self given r :
  plain_path (pp_root self) → direct w (pp_root self) →
  check w self given = Ok r →
  ∃ names, rp_absolute r = pp_root self ++ names ∧ Forall plain names ∧
    direct w (rp_absolute r) ∧
    ∀ pattern, pattern ∈ pp_patterns self →
      (rp_relative r ≠ "" → glob_is_match pattern (rp_relative r) = false) ∧
      (forward names ≠ "" → glob_is_match pattern (forward names) = false).
Proof.
  intros Hp Hd (rel & Hn & Hl & Hrel & Hf)%check_resolved.
  apply normalize_plain in Hn as Hpl.
  apply resolve_loop_direct in Hl as (Hout & names & Habs & Hnames);
    [|done|exists []; by rewrite app_nil_r|done|done].
  exists names. split_and!; [done..|]. intros pattern Hpat.
  assert (resolved_rel self (rp_absolute r) = forward names) as Hres.
  { unfold resolved_rel. by rewrite (proj2 (path_strip_prefix_some _ _ _) Habs). }
  rewrite Hres in Hf. pose proof (first_protected_none _ _ Hf) as Hnone.
  split; intros Hne; apply Hnone; [left|done|done|right; left|done|done].
Qed.

(** *** As long as no link changes, a path keeps leading to one place *)

Lemma resolve_linkless w root given comps : ∀ cur out,
  direct w cur → (∀ r, link_at w (cur ++ r) = None) →
  resolve_loop w root given cur comps = Ok out → out = cur ++ comps.
Proof.
  induction comps as [|c comps IH]; intros cur out Hd Hl; cbn.
  { intros [= <-]. by rewrite app_nil_r. }
  destruct (symlink_metadata w _) as [m|[]] eqn:E; [|by intros [= <-]|done].
  case_bool_decide as Hm.
  - apply (lstat_link w cur c m Hd E) in Hm as [? Hm]. by rewrite Hl in Hm.
  - change (cur ++ c :: comps) with (cur ++ [c] ++ comps). rewrite app_assoc. apply IH.
    + apply direct_app; [done|]. auto.
    + intros r. rewrite <- app_assoc. apply Hl.
Qed.

Lemma same_links_sym w w' : same_links w w' → same_links w' w.
Proof. intros Hs p. symmetry. apply Hs. Qed.

Lemma same_links_direct w w' p : same_links w w' → direct w p → direct w' p.
Proof. intros Hs Hd q Hq. rewrite <- (Hs q). by apply Hd. Qed.

(** One step where one side meets nothing. *)
Lemma resolve_absent w w' root given cur c comps out :
  same_links w w' → direct w cur → symlink_metadata w' (cur ++ [c]) = Err Io_NotFound →
  resolve_loop w root given cur (c :: comps) = Ok out → out = cur ++ c :: comps.
Proof.
  intros Hs Hd E'.
  assert (∀ r, link_at w ((cur ++ [c]) ++ r) = None) as Hl.
  { intros r. rewrite <- app_assoc, (Hs _). apply lstat_absent; [|done].
    by eapply same_links_direct. }
  cbn. destruct (symlink_metadata w _) as [m|[]] eqn:E; [|by intros [= <-]|done].
  specialize (Hl []) as Hc. rewrite app_nil_r in Hc.
  case_bool_decide as Hm.
  - apply (lstat_link w cur c m Hd E) in Hm as [? Hm]. by rewrite Hc in Hm.
  - intros Hr%resolve_linkless; [by rewrite Hr, <- app_assoc| |done].
    by apply direct_snoc.
Qed.

Lemma resolve_loop_stable w w' root given comps : ∀ cur out out',
  same_links w w' → direct w cur →
  resolve_loop w root given cur comps = Ok out →
  resolve_loop w' root given cur comps = Ok out' → out = out'.
Proof.
  induction comps as [|c comps IH]; intros cur out out' Hs Hd; [cbn; congruence|].
  assert (direct w' cur) as Hd' by (by eapply same_links_direct).
  destruct (symlink_metadata w' (cur ++ [c])) as [m'|[]] eqn:E'.
  2: { intros Hr%(resolve_absent w w'); [|done..]. cbn. rewrite E'. congruence. }
  2: { cbn. by rewrite E'. }
  destruct (symlink_metadata w (cur ++ [c])) as [m|[]] eqn:E.
  2: { intros Hr Hr'. apply (resolve_absent w' w) in Hr'; [|by apply same_links_sym|done..].
       cbn in Hr. rewrite E in Hr. congruence. }
  2: { cbn. by rewrite E. }
  cbn. rewrite E, E'.
  pose proof (lstat_link w cur c m Hd E) as Hm. pose proof (lstat_link w' cur c m' Hd' E') as Hm'.
  rewrite <- (Hs _), <- Hm in Hm'.
  case_bool_decide as B; case_bool_decide as B'; try tauto.
  - intros (t & Ht & Hr)%bind_ok (t' & Ht' & Hr')%bind_ok.
    destruct (canonicalize w _) as [x|] eqn:Ec; [|done]. injection Ht as ->.
    destruct (canonicalize w' _) as [x'|] eqn:Ec'; [|done]. injection Ht' as ->.
    assert (t = t') as <- by (by eapply (canonical_stable w w')).
    destruct (list_prefix root t); [|done]. apply canonical_direct in Ec as [? _].
    by apply (IH t).
  - apply IH; [done|]. apply direct_snoc; [done|]. apply eq_None_not_Some. by rewrite <- Hm.
Qed.

Lemma check_stable w w' self given r r' :
  same_links w w' → direct w (pp_root self) →
  check w self given = Ok r → check w' self given = Ok r' → r = r'.
Proof.
  intros Hs Hd (rel & Hn & Hl & Hrel & _)%check_resolved (rel' & Hn' & Hl' & Hrel' & _)%check_resolved.
  assert (rel = rel') as <- by congruence.
  pose proof (resolve_loop_stable _ _ _ _ _ _ _ _ Hs Hd Hl Hl').
  destruct r, r'. cbn in *. congruence.
Qed.
End Confinement.
