(* ===== verification/WsTree.v ===== *)
(** * A file system

    A tree of directories, files and symbolic links that satisfies the laws of
    [WsPath.FsLaws]: paths are followed link by link as on Unix, links are absolute.
    The witnesses of the workspace theorems run on it. *)

From stdpp Require Import gmap.
From S2P Require Import Prelude RustStr RustPath WsText WsPath.
#[local] Open Scope nat_scope.

Inductive Node := Node_File (bytes : string) | Node_Dir | Node_Link (target : list string).

Abbreviation Tree := (gmap (list string) Node).

Fixpoint normals (p : Path) : option (list string) :=
  match p with
  | [] => Some []
  | Component_Normal s :: p => l ← normals p; Some (s :: l)
  | _ => None
  end.

(** An absolute path by its names. *)
Definition names (p : Path) : option (list string) :=
  match p with Component_RootDir :: p => normals p | _ => None end.

Definition to_path (l : list string) : Path := Component_RootDir :: (Component_Normal <$> l).

Definition node_at (t : Tree) (l : list string) : option Node :=
  match l with [] => Some Node_Dir | _ => t !! l end.

(** The place a list of names leads to from the directory [cur]. *)
Fixpoint walk_to (fuel : nat) (t : Tree) (cur todo : list string) : result IoError (list string) :=
  match todo with
  | [] => Ok cur
  | c :: rest =>
      match fuel with
      | O => Err (Io_Other "too many levels of symbolic links")
      | S fuel =>
          match node_at t (cur ++ [c]) with
          | None => Err Io_NotFound
          | Some (Node_Link target) => walk_to fuel t [] (target ++ rest)
          | Some Node_Dir => walk_to fuel t (cur ++ [c]) rest
          | Some (Node_File _) =>
              match rest with
              | [] => Ok (cur ++ [c])
              | _ => Err (Io_Other "not a directory")
              end
          end
      end
  end.

Definition FUEL : nat := 1000.
#[global] Opaque FUEL.

Definition follow_path (t : Tree) (p : Path) : result IoError (list string) :=
  l ← ok_or (names p) (Io_Other "not an absolute path"); walk_to FUEL t [] l.

(** The directory a path's last name is in, and that name: the place the name
    stands for when the last step is not followed. *)
Definition place (t : Tree) (p : Path) : result IoError (list string) :=
  l ← ok_or (names p) (Io_Other "not an absolute path");
  match last l with
  | None => Ok []
  | Some c =>
      parent ← walk_to FUEL t [] (removelast l);
      match node_at t parent with
      | Some Node_Dir => Ok (parent ++ [c])
      | _ => Err (Io_Other "not a directory")
      end
  end.

Definition meta_of (n : Node) : Metadata :=
  match n with
  | Node_File b => {| mt_type := Ft_File; mt_len := str_len b |}
  | Node_Dir => {| mt_type := Ft_Dir; mt_len := 0 |}
  | Node_Link _ => {| mt_type := Ft_Symlink; mt_len := 0 |}
  end.

Definition tree_lstat (t : Tree) (p : Path) : result IoError Metadata :=
  l ← place t p; n ← ok_or (node_at t l) Io_NotFound; Ok (meta_of n).

Definition tree_stat (t : Tree) (p : Path) : result IoError Metadata :=
  l ← follow_path t p; n ← ok_or (node_at t l) Io_NotFound; Ok (meta_of n).

Definition tree_read (t : Tree) (p : Path) : result IoError string :=
  l ← follow_path t p;
  match node_at t l with
  | Some (Node_File b) => Ok b
  | Some _ => Err (Io_Other "is a directory")
  | None => Err Io_NotFound
  end.

Definition child_of (l k : list string) : option string :=
  match last k with
  | Some c => if bool_decide (removelast k = l) then Some c else None
  | None => None
  end.

Definition tree_read_dir (t : Tree) (p : Path) : result IoError (list (result IoError string)) :=
  l ← follow_path t p;
  Ok (Ok <$> omap (child_of l) (map_to_list t).*1).

(** Every missing directory on the way is made. *)
Fixpoint mkdirs (fuel : nat) (t : Tree) (cur todo : list string) : Tree * result IoError unit :=
  match todo with
  | [] => (t, Ok tt)
  | c :: rest =>
      match fuel with
      | O => (t, Err (Io_Other "too many levels of symbolic links"))
      | S fuel =>
          match node_at t (cur ++ [c]) with
          | None => mkdirs fuel (<[cur ++ [c] := Node_Dir]> t) (cur ++ [c]) rest
          | Some (Node_Link target) => mkdirs fuel t [] (target ++ rest)
          | Some Node_Dir => mkdirs fuel t (cur ++ [c]) rest
          | Some (Node_File _) => (t, Err (Io_Other "not a directory"))
          end
      end
  end.

Definition tree_mkdir (t : Tree) (p : Path) : Tree * result IoError unit :=
  match names p with
  | Some l => mkdirs FUEL t [] l
  | None => (t, Err (Io_Other "not an absolute path"))
  end.

(** A change of the tree at a place, or an error and the tree as it was. *)
Definition at_place (t : Tree) (r : result IoError (list string))
    (f : list string → option Node → Tree * result IoError unit) : Tree * result IoError unit :=
  match r with
  | Ok l => f l (node_at t l)
  | Err e => (t, Err e)
  end.

(** A link in the last place is followed; the file it names is made if it is not
    there. *)
Definition open_place (t : Tree) (p : Path) : result IoError (list string) :=
  l ← place t p;
  match node_at t l with
  | Some (Node_Link target) =>
      match walk_to FUEL t [] target with
      | Err Io_NotFound => place t (to_path target)
      | r => r
      end
  | _ => Ok l
  end.

Definition tree_create (t : Tree) (p : Path) : Tree * result IoError unit :=
  at_place t (open_place t p) (λ l n,
    match n with
    | Some Node_Dir => (t, Err (Io_Other "is a directory"))
    | _ => (<[l := Node_File ""]> t, Ok tt)
    end).

Definition tree_write (t : Tree) (p : Path) (b : string) : Tree * result IoError unit :=
  at_place t (follow_path t p) (λ l n,
    match n with
    | Some (Node_File x) => (<[l := Node_File (x +:+ b)]> t, Ok tt)
    | _ => (t, Err (Io_Other "bad file descriptor"))
    end).

Definition tree_rename (t : Tree) (p q : Path) : Tree * result IoError unit :=
  at_place t (place t p) (λ l n, at_place t (place t q) (λ k m,
    match n, m with
    | Some n, (None | Some (Node_File _) | Some (Node_Link _)) =>
        match n with
        | Node_Dir => (t, Err (Io_Other "directories stay"))
        | _ => (<[k := n]> (delete l t), Ok tt)
        end
    | Some _, _ => (t, Err (Io_Other "is a directory"))
    | None, _ => (t, Err Io_NotFound)
    end)).

Definition tree_remove (t : Tree) (p : Path) : Tree * result IoError unit :=
  at_place t (place t p) (λ l n,
    match n with
    | Some Node_Dir => (t, Err (Io_Other "is a directory"))
    | Some _ => (delete l t, Ok tt)
    | None => (t, Err Io_NotFound)
    end).

(** ** Trees in which everything is in a directory *)

#[export] Instance Node_eq : EqDecision Node.
Proof. solve_decision. Defined.

Definition tree_ok (t : Tree) : bool :=
  forallb (λ l, match l with
                | [] => false
                | _ => bool_decide (node_at t (removelast l) = Some Node_Dir)
                end) (map_to_list t).*1.

Record Fs := { fs_tree : Tree; fs_ok : tree_ok fs_tree = true }.

(** The tree an operation leaves; one with anything outside a directory is not
    taken over. *)
Definition seal (old : Fs) (r : Tree * result IoError unit) : Fs * result IoError unit :=
  match bool_dec (tree_ok r.1) true with
  | left ok => ({| fs_tree := r.1; fs_ok := ok |}, r.2)
  | right _ => (old, Err (Io_Other "not a directory"))
  end.

#[export] Instance tree_fs : FileSystem Fs := {
  symlink_metadata w := tree_lstat (fs_tree w);
  metadata w := tree_stat (fs_tree w);
  canonicalize w p := l ← follow_path (fs_tree w) p; Ok (to_path l);
  fs_read w := tree_read (fs_tree w);
  read_dir w := tree_read_dir (fs_tree w);
  create_dir_all w p := seal w (tree_mkdir (fs_tree w) p);
  file_create w p := seal w (tree_create (fs_tree w) p);
  file_write_all w p b := seal w (tree_write (fs_tree w) p b);
  file_sync_all w _ := (w, Ok tt);
  fs_rename w p q := seal w (tree_rename (fs_tree w) p q);
  remove_file w p := seal w (tree_remove (fs_tree w) p)
}.

(** ** The laws *)

Definition file_of (n : option Node) : option string :=
  match n with Some (Node_File b) => Some b | _ => None end.
Definition link_of (n : option Node) : option (list string) :=
  match n with Some (Node_Link l) => Some l | _ => None end.

Definition lookup_path (t : Tree) (p : Path) : option Node := l ← names p; node_at t l.
Definition tree_contents (w : Fs) (p : Path) : option string := file_of (lookup_path (fs_tree w) p).
Definition tree_link (w : Fs) (p : Path) : option Path :=
  to_path <$> link_of (lookup_path (fs_tree w) p).

Lemma normals_spec p l : normals p = Some l ↔ p = Component_Normal <$> l.
Proof.
  revert l; induction p as [|c p IH]; intros l; cbn.
  - split; [by intros [= <-]|]. by destruct l.
  - split.
    + destruct c; try done. destruct (normals p) as [k|] eqn:E; [|done].
      intros [= <-]. cbn. f_equal. by apply IH.
    + destruct l as [|s l]; [done|]. intros [= -> ->]. rewrite (proj2 (IH l)); done.
Qed.

Lemma names_spec p l : names p = Some l ↔ p = to_path l.
Proof.
  unfold names, to_path. destruct p as [|[] p]; try (split; [done|congruence]).
  rewrite normals_spec. split; congruence.
Qed.

Lemma names_to_path l : names (to_path l) = Some l.
Proof. by apply names_spec. Qed.

Lemma tree_parent t l c n :
  tree_ok t = true → node_at t (l ++ [c]) = Some n → node_at t l = Some Node_Dir.
Proof.
  unfold tree_ok. rewrite forallb_true. intros Hok Hn.
  assert (l ++ [c] ≠ []) as Hne by (by destruct l).
  assert (t !! (l ++ [c]) = Some n) as Hl by (by destruct (l ++ [c])).
  specialize (Hok (l ++ [c])).
  assert (l ++ [c] ∈ (map_to_list t).*1) as Hin.
  { apply list_elem_of_fmap. exists (l ++ [c], n). by rewrite elem_of_map_to_list. }
  specialize (Hok Hin). rewrite removelast_last in Hok. destruct (l ++ [c]); [done|].
  by apply bool_decide_eq_true in Hok.
Qed.

(** No link on the way from [cur] along [todo]. *)
Definition linkless (t : Tree) (l : list string) : Prop :=
  ∀ k, k `prefix_of` l → link_of (node_at t k) = None.

Lemma walk_linkless t fuel : ∀ cur todo q,
  linkless t (cur ++ todo) → walk_to fuel t cur todo = Ok q → q = cur ++ todo.
Proof.
  induction fuel as [|fuel IH]; intros cur [|c rest] q Hl; cbn; try (rewrite app_nil_r; congruence).
  { done. }
  assert (link_of (node_at t (cur ++ [c])) = None) as Hc.
  { apply Hl. exists rest. by rewrite <- app_assoc. }
  destruct (node_at t (cur ++ [c])) as [[b| |tgt]|] eqn:E; try done.
  - destruct rest; [|done]. congruence.
  - intros Hq. apply IH in Hq; rewrite <- app_assoc in *; done.
Qed.

(** What is there is not reported absent. *)
Lemma walk_present t fuel : tree_ok t = true → ∀ cur todo n,
  linkless t (cur ++ todo) → node_at t (cur ++ todo) = Some n →
  walk_to fuel t cur todo ≠ Err Io_NotFound.
Proof.
  intros Hok. induction fuel as [|fuel IH]; intros cur [|c rest] n Hl Hn; cbn; try done.
  destruct (node_at t (cur ++ [c])) as [[b| |tgt]|] eqn:E; [by destruct rest| | |].
  - apply (IH (cur ++ [c]) rest n); rewrite <- app_assoc; done.
  - exfalso. assert (link_of (node_at t (cur ++ [c])) = None) as Hc; [|by rewrite E in Hc].
    apply Hl. exists rest. by rewrite <- app_assoc.
  - exfalso. revert n Hn. induction rest as [|x rest IHr] using rev_ind; intros n Hn.
    { by rewrite E in Hn. }
    apply (IHr ltac:(intros k Hk; apply Hl; etrans; [exact Hk|]; rewrite app_comm_cons, app_assoc; by apply prefix_app_r) Node_Dir).
    apply (tree_parent t _ x n Hok). by rewrite <- app_assoc.
Qed.

Definition tree_direct (w : Fs) (p : Path) : Prop := ∀ q, q `prefix_of` p → tree_link w q = None.

Lemma to_path_prefix k l : k `prefix_of` l → to_path k `prefix_of` to_path l.
Proof. intros [r ->]. exists (Component_Normal <$> r). unfold to_path. by rewrite fmap_app. Qed.

Lemma direct_linkless w l : tree_direct w (to_path l) ↔ linkless (fs_tree w) l.
Proof.
  unfold tree_direct, tree_link, lookup_path, linkless. split.
  - intros Hd k Hk. specialize (Hd _ (to_path_prefix _ _ Hk)).
    rewrite names_to_path in Hd. cbn in Hd. by destruct (link_of _).
  - intros Hl q [r Hr]. destruct (names q) as [k|] eqn:E; [|done]. cbn.
    apply names_spec in E as ->. unfold to_path in Hr. injection Hr as Hr.
    rewrite Hl; [done|]. apply fmap_app_inv in Hr as (k1 & k2 & Hk & Hr & ->).
    apply list_fmap_eq_inj in Hk as ->; [by exists k2|]. by intros ? ? [= ->].
Qed.

Lemma follow_direct w p q :
  tree_direct w p → follow_path (fs_tree w) p = Ok q → p = to_path q.
Proof.
  unfold follow_path. destruct (names p) as [l|] eqn:E; [|done]. cbn.
  apply names_spec in E as ->. intros Hd%direct_linkless Hw.
  apply walk_linkless in Hw; [|done]. by subst.
Qed.

Lemma follow_present w p n :
  tree_direct w p → lookup_path (fs_tree w) p = Some n →
  follow_path (fs_tree w) p ≠ Err Io_NotFound.
Proof.
  unfold follow_path, lookup_path. destruct (names p) as [l|] eqn:E; [|done]. cbn.
  apply names_spec in E as ->. intros Hd%direct_linkless Hn.
  by apply (walk_present _ _ (fs_ok w) [] l n).
Qed.

Lemma to_path_snoc l c : to_path (l ++ [c]) = to_path l ++ [Component_Normal c].
Proof. unfold to_path. by rewrite fmap_app. Qed.

(** The last step of a path whose directory is direct. *)
Lemma place_direct w p c l :
  tree_direct w p → place (fs_tree w) (p ++ [c]) = Ok l →
  p ++ [c] = to_path l ∧ (l = [] ∨ node_at (fs_tree w) (removelast l) = Some Node_Dir).
Proof.
  unfold place. destruct (names (p ++ [c])) as [k|] eqn:E; [|done]. cbn.
  apply names_spec in E. destruct k as [|x k _] using rev_ind.
  { cbn. intros _ [= <-]. auto. }
  rewrite last_snoc, removelast_last. rewrite to_path_snoc in E.
  apply app_inj_tail in E as [-> ->]. intros Hd%direct_linkless (q & Hq & Hr)%bind_ok.
  apply walk_linkless in Hq; [|done]. subst q. cbn in Hr.
  destruct (node_at (fs_tree w) k) as [[]|] eqn:En; try done. injection Hr as <-.
  rewrite removelast_last. split; [by rewrite to_path_snoc|auto].
Qed.

Lemma place_self w p l : tree_direct w p → place (fs_tree w) p = Ok l → p = to_path l.
Proof.
  destruct p as [|c p _] using rev_ind; [done|]. intros Hd Hp.
  apply place_direct in Hp as [? _]; [done|]. intros q Hq. apply Hd. etrans; [done|].
  by apply prefix_app_r.
Qed.

Lemma open_direct w p l : tree_direct w p → open_place (fs_tree w) p = Ok l → p = to_path l.
Proof.
  unfold open_place. intros Hd (k & Hk & Hl)%bind_ok. apply place_self in Hk as Hp; [|done].
  rewrite Hp in Hd. apply direct_linkless in Hd. specialize (Hd k (reflexivity k)).
  destruct (node_at _ k) as [[]|]; try done; by injection Hl as <-.
Qed.

(** The outcome of [seal]: the operation's, or none. *)
Lemma seal_cases w r :
  (fs_tree (seal w r).1 = r.1 ∧ (seal w r).2 = r.2) ∨
  ((seal w r).1 = w ∧ ∃ e, (seal w r).2 = Err (Io_Other e)).
Proof. unfold seal. destruct (bool_dec _ _); [by left|]. right. cbn. eauto. Qed.

(** A change of one file leaves the links and the other files alone. *)
Definition near (t t' : Tree) (l : list string) : Prop :=
  (∀ k, k ≠ l → node_at t' k = node_at t k) ∧
  link_of (node_at t l) = None ∧ link_of (node_at t' l) = None.

Lemma near_links w w' l :
  near (fs_tree w) (fs_tree w') l → ∀ p, tree_link w p = tree_link w' p.
Proof.
  intros (Hk & Hl & Hl') p. unfold tree_link, lookup_path. destruct (names p) as [k|]; [|done]. cbn.
  destruct (decide (k = l)) as [->|Hne]; [by rewrite Hl, Hl'|]. by rewrite Hk.
Qed.

Lemma near_contents w w' l q :
  near (fs_tree w) (fs_tree w') l → q ≠ to_path l → tree_contents w' q = tree_contents w q.
Proof.
  intros (Hk & _) Hq. unfold tree_contents, lookup_path.
  destruct (names q) as [k|] eqn:E; [|done]. apply names_spec in E as ->. cbn.
  rewrite Hk; [done|]. by intros ->.
Qed.

Lemma contents_at w l : tree_contents w (to_path l) = file_of (node_at (fs_tree w) l).
Proof. unfold tree_contents, lookup_path. by rewrite names_to_path. Qed.

Lemma near_insert t l n :
  l ≠ [] → link_of (node_at t l) = None → link_of (Some n) = None → near t (<[l := n]> t) l.
Proof.
  intros Hne Hl Hn. split_and!; [|done|].
  - intros k Hk. destruct k; [done|]. cbn. by rewrite lookup_insert_ne.
  - destruct l; [done|]. cbn. by rewrite lookup_insert_eq.
Qed.

Lemma near_delete t l : l ≠ [] → link_of (node_at t l) = None → near t (delete l t) l.
Proof.
  intros Hne Hl. split_and!; [|done|].
  - intros k Hk. destruct k; [done|]. cbn. by rewrite lookup_delete_ne.
  - destruct l; [done|]. cbn. by rewrite lookup_delete_eq.
Qed.

(** *** Looking *)

Lemma tree_lstat_link w p c m :
  tree_direct w p → tree_lstat (fs_tree w) (p ++ [c]) = Ok m →
  (mt_type m = Ft_Symlink ↔ is_Some (tree_link w (p ++ [c]))).
Proof.
  intros Hd (l & Hl & (n & Hn & [= <-])%bind_ok)%bind_ok.
  apply place_direct in Hl as [-> _]; [|done].
  unfold tree_link, lookup_path. rewrite names_to_path. cbn.
  destruct (node_at _ l) as [n'|]; [|done]. injection Hn as ->.
  destruct n; cbn; (split; [by try eauto|]); try done; by intros [].
Qed.

Lemma lookup_above w l k n :
  node_at (fs_tree w) (l ++ k) = Some n → is_Some (node_at (fs_tree w) l).
Proof.
  revert n; induction k as [|x k IH] using rev_ind; intros n Hn; [rewrite app_nil_r in Hn; eauto|].
  rewrite app_assoc in Hn. apply (tree_parent _ _ _ _ (fs_ok w)) in Hn. eauto.
Qed.

Lemma tree_lstat_absent w p c q :
  tree_direct w p → tree_lstat (fs_tree w) (p ++ [c]) = Err Io_NotFound →
  tree_link w (p ++ c :: q) = None.
Proof.
  intros Hd Hs. unfold tree_link, lookup_path. destruct (names (p ++ c :: q)) as [l|] eqn:E; [|done].
  cbn. destruct (node_at (fs_tree w) l) as [n|] eqn:En; [|done]. exfalso.
  apply names_spec in E. destruct p as [|r p].
  { injection E as -> ->. by cbn in Hs. }
  injection E as -> E. symmetry in E. apply fmap_app_inv in E as (k1 & k2 & -> & E & ->).
  destruct k2 as [|x k2]; [done|]. injection E as -> ->.
  change (Component_RootDir :: (Component_Normal <$> k1)) with (to_path k1) in *.
  change (to_path k1 ++ [Component_Normal x]) with (to_path k1 ++ [Component_Normal x]) in Hs.
  revert Hs. unfold tree_lstat, place. rewrite <- to_path_snoc, names_to_path. cbn.
  rewrite last_snoc, removelast_last. apply direct_linkless in Hd.
  assert (node_at (fs_tree w) ((k1 ++ [x]) ++ k2) = Some n) as Hx by (by rewrite <- app_assoc).
  apply lookup_above in Hx as [m Hm]. pose proof (tree_parent _ _ _ _ (fs_ok w) Hm) as Hk1.
  pose proof (walk_present _ FUEL (fs_ok w) [] k1 Node_Dir Hd Hk1) as Hw.
  destruct (walk_to FUEL _ [] k1) as [y|e] eqn:Ew; [|by cbn; congruence].
  apply walk_linkless in Ew; [|done]. subst y. cbn. rewrite Hk1. cbn. by rewrite Hm.
Qed.

Lemma walk_ends_linkless t fuel : ∀ cur todo q,
  linkless t cur → walk_to fuel t cur todo = Ok q → linkless t q.
Proof.
  induction fuel as [|fuel IH]; intros cur [|c rest] q Hl; cbn;
    [by intros [= <-]|done|by intros [= <-]|].
  assert (link_of (node_at t (cur ++ [c])) = None → linkless t (cur ++ [c])) as Hc.
  { intros Hn k [r Hr]. destruct r as [|x r _] using rev_ind.
    - rewrite app_nil_r in Hr. by subst.
    - rewrite app_assoc in Hr. apply app_inj_tail in Hr as [-> _]. apply Hl. by exists r. }
  destruct (node_at t (cur ++ [c])) as [[b| |tgt]|] eqn:E; try done.
  - destruct rest; [|done]. intros [= <-]. by apply Hc.
  - by apply IH, Hc.
  - apply IH. intros k Hk. by apply prefix_nil_inv in Hk as ->.
Qed.

Lemma tree_canonical w p q :
  (l ← follow_path (fs_tree w) p; Ok (to_path l)) = Ok q → tree_direct w q ∧ plain_path q.
Proof.
  intros (l & Hl & [= <-])%bind_ok. split; [|by eexists]. apply direct_linkless.
  unfold follow_path in Hl. apply bind_ok in Hl as (k & _ & Hw).
  eapply walk_ends_linkless; [|done]. intros x Hx. by apply prefix_nil_inv in Hx as ->.
Qed.

Lemma walk_stable t t' fuel :
  (∀ l, link_of (node_at t l) = link_of (node_at t' l)) → ∀ cur todo q q',
  walk_to fuel t cur todo = Ok q → walk_to fuel t' cur todo = Ok q' → q = q'.
Proof.
  intros Hs. induction fuel as [|fuel IH]; intros cur [|c rest] q q'; cbn; try congruence.
  specialize (Hs (cur ++ [c])).
  destruct (node_at t (cur ++ [c])) as [[b| |tgt]|], (node_at t' (cur ++ [c])) as [[b'| |tgt']|];
    cbn in Hs; simplify_eq; try done; try apply IH; destruct rest; try done;
    try congruence; destruct fuel; cbn; congruence.
Qed.

Lemma tree_stable w w' p q q' :
  (∀ x, tree_link w x = tree_link w' x) →
  (l ← follow_path (fs_tree w) p; Ok (to_path l)) = Ok q →
  (l ← follow_path (fs_tree w') p; Ok (to_path l)) = Ok q' → q = q'.
Proof.
  intros Hs (l & Hl & [= <-])%bind_ok (l' & Hl' & [= <-])%bind_ok. f_equal.
  unfold follow_path in *. destruct (names p) as [k|]; [|done]. cbn in Hl, Hl'.
  eapply walk_stable; [|exact Hl|exact Hl'].
  intros x. specialize (Hs (to_path x)). unfold tree_link, lookup_path in Hs.
  rewrite names_to_path in Hs. cbn in Hs.
  assert (∀ a b : option (list string), to_path <$> a = to_path <$> b → a = b) as Hinj.
  { intros [a|] [b|]; cbn; try done. intros [= E]. f_equal.
    apply list_fmap_eq_inj in E; [done|]. by intros ? ? [= ->]. }
  by apply Hinj.
Qed.

Lemma tree_stat_file w p m :
  tree_direct w p → tree_stat (fs_tree w) p = Ok m → mt_type m = Ft_File →
  is_Some (tree_contents w p).
Proof.
  intros Hd (l & Hl & (n & Hn & [= <-])%bind_ok)%bind_ok. apply follow_direct in Hl as ->; [|done].
  rewrite contents_at. destruct (node_at _ l); [|done]. injection Hn as ->. destruct n; cbn; eauto; done.
Qed.

Lemma tree_stat_absent w p :
  tree_direct w p → tree_stat (fs_tree w) p = Err Io_NotFound → tree_contents w p = None.
Proof.
  intros Hd Hs. unfold tree_contents. destruct (lookup_path (fs_tree w) p) as [n|] eqn:E; [|done].
  exfalso. pose proof (follow_present w p n Hd E) as Hf. revert Hs. unfold tree_stat.
  destruct (follow_path _ p) as [l|e] eqn:Ef; [|cbn; congruence].
  apply follow_direct in Ef as ->; [|done]. unfold lookup_path in E. rewrite names_to_path in E.
  cbn in E |- *. by rewrite E.
Qed.

Lemma tree_read_spec w p :
  tree_direct w p →
  match tree_read (fs_tree w) p with
  | Ok b => tree_contents w p = Some b
  | Err Io_NotFound => tree_contents w p = None
  | Err _ => True
  end.
Proof.
  intros Hd. unfold tree_read. destruct (follow_path (fs_tree w) p) as [l|e] eqn:E; cbn.
  - apply follow_direct in E as ->; [|done]. rewrite contents_at.
    by destruct (node_at _ l) as [[]|].
  - destruct e; [|done]. unfold tree_contents.
    destruct (lookup_path (fs_tree w) p) as [n|] eqn:El; [|done].
    by apply (follow_present w p n) in E.
Qed.

(** *** Changing *)

(** What [seal] keeps of a property of the tree the operation leaves. *)
Lemma seal_elim (P : Tree → result IoError unit → Prop) w r :
  P r.1 r.2 → (∀ e, P (fs_tree w) (Err (Io_Other e))) → P (fs_tree (seal w r).1) (seal w r).2.
Proof.
  intros Hr He. destruct (seal_cases w r) as [[-> ->]|[-> [e ->]]]; [done|]. apply He.
Qed.

(** A tree that has every node of [t] and besides only directories. *)
Definition more_dirs (t t' : Tree) : Prop :=
  ∀ l, node_at t' l = node_at t l ∨ (node_at t l = None ∧ node_at t' l = Some Node_Dir).

Lemma more_dirs_trans t1 t2 t3 : more_dirs t1 t2 → more_dirs t2 t3 → more_dirs t1 t3.
Proof.
  intros H1 H2 l. destruct (H2 l) as [->|[H2a H2b]]; [apply H1|].
  rewrite H2b. destruct (H1 l) as [H1a|[H1a H1b]]; [|congruence]. right. split; [congruence|done].
Qed.

Lemma mkdirs_more fuel : ∀ t cur todo, more_dirs t (mkdirs fuel t cur todo).1.
Proof.
  induction fuel as [|fuel IH]; intros t cur [|c rest]; cbn; try by left.
  destruct (node_at t (cur ++ [c])) as [[]|] eqn:E; try by left; try apply IH.
  - apply IH.
  - apply IH.
  - eapply more_dirs_trans; [|apply IH]. intros l. destruct (decide (l = cur ++ [c])) as [->|Hne].
    + right. split; [done|]. destruct (cur ++ [c]) eqn:Ec; [by destruct cur|]. cbn.
      by rewrite lookup_insert_eq.
    + left. destruct l; [done|]. cbn. by rewrite lookup_insert_ne.
Qed.

Lemma tree_mkdir_frame w p :
  let w' := (seal w (tree_mkdir (fs_tree w) p)).1 in
  (∀ q, tree_link w q = tree_link w' q) ∧ ∀ q, tree_contents w' q = tree_contents w q.
Proof.
  intros w'. assert (more_dirs (fs_tree w) (fs_tree w')) as Hm.
  { apply (seal_elim (λ t _, more_dirs (fs_tree w) t)); [|by left].
    unfold tree_mkdir. destruct (names p); [apply mkdirs_more|by left]. }
  unfold tree_link, tree_contents, lookup_path.
  split; intros q; (destruct (names q) as [l|]; [|done]); cbn;
    destruct (Hm l) as [->|[-> ->]]; done.
Qed.

Lemma near_frame w w' l :
  near (fs_tree w) (fs_tree w') l →
  (∀ q, tree_link w q = tree_link w' q) ∧
  (∀ q, q ≠ to_path l → tree_contents w' q = tree_contents w q).
Proof. intros Hn. split; [by eapply near_links|]. intros q. by apply near_contents. Qed.

Lemma same_frame w w' :
  fs_tree w' = fs_tree w →
  (∀ q, tree_link w q = tree_link w' q) ∧ (∀ q, tree_contents w' q = tree_contents w q).
Proof. intros E. unfold tree_link, tree_contents. by rewrite E. Qed.

(** An operation on one direct path: refused and without effect, or a change of that
    path only. *)
Definition one_file (w : Fs) (p : Path) (t' : Tree) (r : result IoError unit) : Prop :=
  (t' = fs_tree w ∧ ∃ e, r = Err e) ∨
  ∃ l, p = to_path l ∧ near (fs_tree w) t' l ∧ r = Ok tt.

Lemma one_file_frame w p w' r :
  one_file w p (fs_tree w') r →
  (∀ q, tree_link w q = tree_link w' q) ∧ (∀ q, q ≠ p → tree_contents w' q = tree_contents w q).
Proof.
  intros [[E _]|(l & -> & Hn & _)]; [|by apply near_frame].
  destruct (same_frame w w' E) as [? ?]. auto.
Qed.

Lemma linkless_at w l : tree_direct w (to_path l) → link_of (node_at (fs_tree w) l) = None.
Proof. intros Hd%direct_linkless. by apply Hd. Qed.

Lemma not_root t l n : node_at t l = n → n ≠ Some Node_Dir → l ≠ [].
Proof. by intros <- Hn ->. Qed.

Lemma tree_create_one w p :
  tree_direct w p →
  let '(t', r) := tree_create (fs_tree w) p in
  one_file w p t' r ∧ (r = Ok tt → ∀ l, p = to_path l → node_at t' l = Some (Node_File "")).
Proof.
  intros Hd. unfold tree_create, at_place.
  destruct (open_place (fs_tree w) p) as [l|e] eqn:E; [|split; [left; eauto|done]].
  apply open_direct in E as ->; [|done]. apply linkless_at in Hd.
  destruct (node_at (fs_tree w) l) as [[]|] eqn:En; [|split; [left; eauto|done]|done|];
    (split; [right; exists l; split_and!; [done| |done]; apply near_insert; [|by rewrite En|done];
             by eapply not_root|]);
    (intros _ k Hk; apply (f_equal names) in Hk; rewrite !names_to_path in Hk; injection Hk as <-;
     destruct l; [by cbn in En|]; cbn; by rewrite lookup_insert_eq).
Qed.

Lemma tree_create_frame w p :
  tree_direct w p →
  let '(w', r) := seal w (tree_create (fs_tree w) p) in
  (∀ q, tree_link w q = tree_link w' q) ∧
  (∀ q, q ≠ p → tree_contents w' q = tree_contents w q) ∧
  (r = Ok tt → tree_contents w' p = Some "").
Proof.
  intros Hd. pose proof (tree_create_one w p Hd) as Ho.
  destruct (seal_cases w (tree_create (fs_tree w) p)) as [[E1 E2]|[E1 [e E2]]];
    destruct (seal w _) as [w' r] eqn:Es; cbn in E1, E2.
  - destruct (tree_create (fs_tree w) p) as [t' r']. cbn in *. subst t' r'.
    destruct Ho as [Ho Hc]. destruct (one_file_frame w p w' r Ho). split_and!; [done..|].
    intros ->. destruct Ho as [[_ [e He]]|(l & -> & _)]; [done|].
    by rewrite contents_at, (Hc eq_refl l eq_refl).
  - subst. by destruct (same_frame w w eq_refl).
Qed.

Lemma tree_write_frame w p b :
  tree_direct w p →
  let '(w', r) := seal w (tree_write (fs_tree w) p b) in
  (∀ q, tree_link w q = tree_link w' q) ∧
  (∀ q, q ≠ p → tree_contents w' q = tree_contents w q) ∧
  (∀ x, r = Ok tt → tree_contents w p = Some x → tree_contents w' p = Some (x +:+ b)).
Proof.
  intros Hd.
  assert (let '(t', r) := tree_write (fs_tree w) p b in one_file w p t' r ∧
    (r = Ok tt → ∀ l x, p = to_path l → node_at (fs_tree w) l = Some (Node_File x) →
       node_at t' l = Some (Node_File (x +:+ b)))) as Ho.
  { unfold tree_write, at_place.
    destruct (follow_path (fs_tree w) p) as [l|e] eqn:E; [|split; [left; eauto|done]].
    apply follow_direct in E as ->; [|done]. apply linkless_at in Hd.
    destruct (node_at (fs_tree w) l) as [[x| |]|] eqn:En; try by (split; [left; eauto|done]).
    split.
    - right. exists l. split_and!; [done| |done]. apply near_insert; [|by rewrite En|done].
      by eapply not_root.
    - intros _ k y Hk Hy. apply (f_equal names) in Hk. rewrite !names_to_path in Hk.
      injection Hk as <-. rewrite Hy in En. injection En as ->.
      destruct l; [done|]. cbn. by rewrite lookup_insert_eq. }
  destruct (seal_cases w (tree_write (fs_tree w) p b)) as [[E1 E2]|[E1 [e E2]]];
    destruct (seal w _) as [w' r] eqn:Es; cbn in E1, E2.
  - destruct (tree_write (fs_tree w) p b) as [t' r']. cbn in *. subst t' r'.
    destruct Ho as [Ho Hc]. destruct (one_file_frame w p w' r Ho). split_and!; [done..|].
    intros x -> Hx. destruct Ho as [[_ [e He]]|(l & -> & _)]; [done|].
    rewrite contents_at in Hx |- *. destruct (node_at (fs_tree w) l) as [[]|] eqn:En; try done.
    injection Hx as ->. by rewrite (Hc eq_refl l x eq_refl En).
  - subst. by destruct (same_frame w w eq_refl).
Qed.

Lemma tree_remove_frame w p :
  tree_direct w p →
  let '(w', r) := seal w (tree_remove (fs_tree w) p) in
  (∀ q, tree_link w q = tree_link w' q) ∧
  (∀ q, q ≠ p → tree_contents w' q = tree_contents w q) ∧
  match r with
  | Ok _ => tree_contents w' p = None
  | Err _ => tree_contents w' p = tree_contents w p
  end.
Proof.
  intros Hd.
  assert (let '(t', r) := tree_remove (fs_tree w) p in one_file w p t' r ∧
    (r = Ok tt → ∀ l, p = to_path l → node_at t' l = None)) as Ho.
  { unfold tree_remove, at_place.
    destruct (place (fs_tree w) p) as [l|e] eqn:E; [|split; [left; eauto|done]].
    apply place_self in E as ->; [|done]. apply linkless_at in Hd.
    destruct (node_at (fs_tree w) l) as [[x| |]|] eqn:En; try by (split; [left; eauto|done]).
    assert (l ≠ []) as Hne by (by eapply not_root). split.
    - right. exists l. split_and!; [done| |done]. apply near_delete; [done|by rewrite En].
    - intros _ k Hk. apply (f_equal names) in Hk. rewrite !names_to_path in Hk.
      injection Hk as <-. destruct l; [done|]. cbn. by rewrite lookup_delete_eq. }
  destruct (seal_cases w (tree_remove (fs_tree w) p)) as [[E1 E2]|[E1 [e E2]]];
    destruct (seal w _) as [w' r] eqn:Es; cbn in E1, E2.
  - destruct (tree_remove (fs_tree w) p) as [t' r']. cbn in *. subst t' r'.
    destruct Ho as [Ho Hc]. destruct (one_file_frame w p w' r Ho). split_and!; [done..|].
    destruct Ho as [[E [e ->]]|(l & -> & _ & ->)].
    + by apply (same_frame w w').
    + by rewrite contents_at, (Hc eq_refl l eq_refl).
  - subst. by destruct (same_frame w w eq_refl).
Qed.

Lemma near_two t t' l k :
  (∀ x, x ≠ l → x ≠ k → node_at t' x = node_at t x) →
  link_of (node_at t l) = None → link_of (node_at t' l) = None →
  link_of (node_at t k) = None → link_of (node_at t' k) = None →
  ∀ x, link_of (node_at t x) = link_of (node_at t' x).
Proof.
  intros Hx ? ? ? ? x. destruct (decide (x = l)) as [->|]; [congruence|].
  destruct (decide (x = k)) as [->|]; [congruence|]. by rewrite Hx.
Qed.

Lemma tree_rename_frame w p q b :
  tree_direct w p → tree_direct w q → p ≠ q → tree_contents w p = Some b →
  let '(w', r) := seal w (tree_rename (fs_tree w) p q) in
  (∀ x, tree_link w x = tree_link w' x) ∧
  (∀ x, x ≠ p → x ≠ q → tree_contents w' x = tree_contents w x) ∧
  match r with
  | Ok _ => tree_contents w' q = Some b ∧ tree_contents w' p = None
  | Err _ => tree_contents w' q = tree_contents w q ∧ tree_contents w' p = tree_contents w p
  end.
Proof.
  intros Hp Hq Hne Hc.
  assert (let '(t', r) := tree_rename (fs_tree w) p q in
    (t' = fs_tree w ∧ ∃ e, r = Err e) ∨
    (r = Ok tt ∧ ∃ l k, p = to_path l ∧ q = to_path k ∧ l ≠ [] ∧ k ≠ [] ∧ l ≠ k ∧
       t' = <[k := Node_File b]> (delete l (fs_tree w)))) as Ho.
  { unfold tree_rename, at_place.
    destruct (place (fs_tree w) p) as [l|e] eqn:E; [|left; eauto].
    destruct (place (fs_tree w) q) as [k|e] eqn:E'; [|left; eauto].
    apply place_self in E as ->; [|done]. apply place_self in E' as ->; [|done].
    rewrite contents_at in Hc. destruct (node_at (fs_tree w) l) as [[x| |]|] eqn:En; try done.
    injection Hc as ->. apply linkless_at in Hq.
    assert (l ≠ k) by (by intros ->). assert (l ≠ []) by (by eapply not_root).
    destruct (node_at (fs_tree w) k) as [[y| |]|] eqn:Ek; try done; try by (left; eauto).
    all: right; split; [done|]; exists l, k; split_and!; try done; by eapply not_root. }
  destruct (seal_cases w (tree_rename (fs_tree w) p q)) as [[E1 E2]|[E1 [e E2]]];
    destruct (seal w _) as [w' r] eqn:Es; cbn in E1, E2.
  2: { subst. by destruct (same_frame w w eq_refl). }
  destruct (tree_rename (fs_tree w) p q) as [t' r']. cbn in *. subst t' r'.
  destruct Ho as [[E [e ->]]|(-> & l & k & -> & -> & Hl & Hk & Hlk & Et)].
  { destruct (same_frame w w' E) as [? ?]. auto. }
  assert (node_at (fs_tree w') k = Some (Node_File b)) as Nk
    by (destruct k; [done|]; rewrite Et; cbn; by rewrite lookup_insert_eq).
  assert (node_at (fs_tree w') l = None) as Nl
    by (destruct l; [done|]; rewrite Et; cbn; by rewrite lookup_insert_ne, lookup_delete_eq).
  assert (∀ x, x ≠ l → x ≠ k → node_at (fs_tree w') x = node_at (fs_tree w) x) as Nx
    by (intros [|] ? ?; [done|]; rewrite Et; cbn; by rewrite lookup_insert_ne, lookup_delete_ne).
  apply linkless_at in Hp, Hq. split_and!.
  - intros x. unfold tree_link, lookup_path. destruct (names x) as [z|]; [|done]. cbn. f_equal.
    apply (near_two _ _ l k); [done|done|by rewrite Nl|done|by rewrite Nk].
  - intros x Hx1 Hx2. unfold tree_contents, lookup_path.
    destruct (names x) as [z|] eqn:Ez; [|done]. apply names_spec in Ez as ->. cbn.
    rewrite Nx; [done|by intros ->|by intros ->].
  - by rewrite contents_at, Nk.
  - by rewrite contents_at, Nl.
Qed.

#[export] Instance tree_laws : FsLaws Fs.
Proof.
  refine {| contents := tree_contents; link_at := tree_link;
            lstat_link := tree_lstat_link; lstat_absent := tree_lstat_absent;
            canonical_direct := tree_canonical; canonical_stable := tree_stable;
            stat_file := tree_stat_file; stat_absent := tree_stat_absent;
            mkdir_frame := tree_mkdir_frame; create_frame := tree_create_frame;
            write_frame := tree_write_frame; rename_frame := tree_rename_frame;
            remove_frame := tree_remove_frame |}.
  - intros w p b b' Hd Hc Hr. pose proof (tree_read_spec w p Hd) as Hs. cbn in Hr.
    rewrite Hr in Hs. congruence.
  - intros w p Hd Hr. pose proof (tree_read_spec w p Hd) as Hs. cbn in Hr. by rewrite Hr in Hs.
  - intros w p b Hr Hm. cbn in Hr, Hm. unfold tree_read in Hr. unfold tree_stat in Hm.
    destruct (follow_path _ p) as [l|]; [|done]. cbn in Hr, Hm. by destruct (node_at _ l).
  - done.
Defined.
