(* ===== verification/Workspace.v ===== *)
(** * The workspace file service

    [crates/workspace/src/revision.rs] and [service.rs]: revisions, typed file
    operations under preconditions, and transactions of several files. A method on
    [&mut self] runs on the file system and the service together and leaves both
    behind when it fails. *)

From S2P Require Import Prelude RustStr BTree RustPath External WsText WsPath.
#[local] Open Scope Z_scope.

(** What the code asks of the process: the answer of [git rev-parse --verify HEAD]
    (none when git cannot be run; whether it succeeded, and its output), its own
    identifier, and the JSON text of a revision. *)
Record WorkspaceRevision := {
  wr_number : Z;
  wr_git_head : option string;
  wr_worktree_id : string;
  wr_fingerprint : string;
  wr_changed : bmap string
}.

Class Host (W : Type) := {
  rev_parse_head : W → Path → option (bool * string);
  process_id : Z;
  to_vec_pretty : WorkspaceRevision → result string string;
  from_slice : string → result string WorkspaceRevision
}.

(** ** Pieces of paths *)

Definition path_parent (p : Path) : option Path :=
  match last p with
  | None | Some Component_RootDir => None
  | Some _ => Some (removelast p)
  end.

Definition file_name (p : Path) : option string :=
  match last p with Some (Component_Normal s) => Some s | _ => None end.

Definition with_file_name (p : Path) (name : string) : Path :=
  (if is_some (file_name p) then removelast p else p) ++ [component_of name].

(** [with_extension]: what follows the last dot of the file name is replaced. *)
Definition with_extension (p : Path) (ext : string) : Path :=
  match file_name p with
  | None => p
  | Some name =>
      let stem := match rsplit_once "." name with
                  | Some (stem, _) => if str_is_empty stem then name else stem
                  | None => name
                  end in
      with_file_name p (stem +:+ "." +:+ ext)
  end.

(** ** Data of the service *)

Inductive EntryKind := EntryKind_File | EntryKind_Dir | EntryKind_Symlink | EntryKind_Other.

Record FileStat := {
  fst_path : string;
  fst_kind : EntryKind;
  fst_size : Z;
  fst_content_hash : option string;
  fst_workspace_revision : Z
}.

Record FileRead := {
  fr_path : string;
  fr_bytes : string;
  fr_content_hash : string;
  fr_workspace_revision : Z
}.

Record WritePrecondition := {
  expected_content_hash : option string;
  expected_workspace_revision : option Z;
  expect_absent : bool
}.

Definition WritePrecondition_default : WritePrecondition :=
  {| expected_content_hash := None; expected_workspace_revision := None; expect_absent := false |}.

Inductive ChangeOpKind :=
  | ChangeOpKind_Create (bytes : string)
  | ChangeOpKind_Replace (bytes : string)
  | ChangeOpKind_ReplaceExact (bytes : string)
  | ChangeOpKind_Edit (edits : list TextEdit)
  | ChangeOpKind_Delete.

Record ChangeOp := { co_path : string; co_kind : ChangeOpKind; co_pre : WritePrecondition }.

Record WorkspaceChange := {
  wc_path : string;
  wc_op : string;
  wc_before_hash : option string;
  wc_after_hash : option string;
  wc_workspace_revision : WorkspaceRevision
}.

Record RevisionStore := { rs_path : Path }.

Record WorkspaceService := {
  sv_policy : PathPolicy;
  sv_store : RevisionStore;
  sv_revision : WorkspaceRevision
}.

Section Service.
  Context {W : Type} `{FileSystem W} `{Globset} `{Sha256} `{Host W}.

Definition content_hash (bytes : string) : string := sha256_hex bytes.

(** An operation of the file system; its error is reported on [path]. *)
Definition io_on {A} (path : Path) (f : W → W * result IoError A) : SE W WsError A :=
  λ w, let '(w', r) := f w in (w', map_err (Error_Io (display path)) r).

(** The rename that makes the new bytes visible; a temporary file left over is
    removed. *)
Definition rename_over (tmp final_path : Path) : SE W WsError unit := λ w,
  match fs_rename w tmp final_path with
  | (w, Err e) =>
      let '(w, _) := remove_file w tmp in (w, Err (Error_Io (display final_path) e))
  | (w, Ok _) => (w, Ok tt)
  end.

(** The directory is synced afterwards, which changes nothing that can be read. *)
Definition write_atomic (tmp final_path : Path) (bytes : string) : SE W WsError unit :=
  _ ← match path_parent final_path with
      | Some parent => io_on final_path (λ w, create_dir_all w parent)
      | None => mret tt
      end;
  _ ← io_on final_path (λ w, file_create w tmp);
  _ ← io_on final_path (λ w, file_write_all w tmp bytes);
  _ ← io_on final_path (λ w, file_sync_all w tmp);
  rename_over tmp final_path.

(** ** Revisions *)

Definition NUL : string := String "000" "".

Definition compute_fingerprint (changed : bmap string) : string :=
  sha256_hex (foldl (λ h pc, h +:+ pc.1 +:+ NUL +:+ pc.2 +:+ NUL) "" changed).

Definition worktree_id_for (root : Path) : string := sha256_hex (display root).

Definition git_head (w : W) (root : Path) : option string :=
  '(success, stdout) ← rev_parse_head w root;
  if negb success then None
  else if negb (is_utf8 stdout) then None
  else let s := trim stdout in if str_len s =? 40 then Some s else None.

Definition RevisionStore_open (dir : Path) (worktree_id : string) : SE W WsError RevisionStore :=
  _ ← io_on dir (λ w, create_dir_all w dir);
  mret {| rs_path := dir ++ [component_of (worktree_id +:+ ".revision.json")] |}.

Definition RevisionStore_save (self : RevisionStore) (rev : WorkspaceRevision) : SE W WsError unit :=
  let tmp := with_extension (rs_path self) ("tmp-" +:+ pretty process_id) in
  bytes ← se_lift (map_err (Error_Invalid (display (rs_path self))) (to_vec_pretty rev));
  write_atomic tmp (rs_path self) bytes.

Definition RevisionStore_load_or_init (self : RevisionStore) (root : Path)
    : SE W WsError WorkspaceRevision := λ w,
  match fs_read w (rs_path self) with
  | Ok bytes =>
      (w, map_err (λ e, Error_Invalid (display (rs_path self)) ("corrupt revision record: " +:+ e))
            (from_slice bytes))
  | Err Io_NotFound =>
      let rev := {| wr_number := 1; wr_git_head := git_head w root;
                    wr_worktree_id := worktree_id_for root;
                    wr_fingerprint := compute_fingerprint []; wr_changed := [] |} in
      (_ ← RevisionStore_save self rev; mret rev) w
  | Err e => (w, Err (Error_Io (display (rs_path self)) e))
  end.

(** The record after a change to [relative]. *)
Definition next_revision (w : W) (rev : WorkspaceRevision) (root : Path) (relative : string)
    (content_hash : option string) : WorkspaceRevision :=
  let head := git_head w root in
  let changed := if bool_decide (head = wr_git_head rev) then wr_changed rev else [] in
  let changed := binsert relative (default "deleted" content_hash) changed in
  {| wr_number := wrap64 (wr_number rev + 1); wr_git_head := head;
     wr_worktree_id := wr_worktree_id rev;
     wr_fingerprint := compute_fingerprint changed; wr_changed := changed |}.

Definition RevisionStore_advance (self : RevisionStore) (rev : WorkspaceRevision) (root : Path)
    (relative : string) (content_hash : option string) : SE W WsError WorkspaceRevision := λ w,
  let next := next_revision w rev root relative content_hash in
  (_ ← RevisionStore_save self next; mret next) w.

(** ** The service *)

Definition WorkspaceService_open (root state_dir : Path) (extra : list string)
    : SE W WsError WorkspaceService := λ w,
  (policy ← se_lift (PathPolicy_new w root extra);
   store ← RevisionStore_open state_dir (worktree_id_for (pp_root policy));
   revision ← RevisionStore_load_or_init store (pp_root policy);
   mret {| sv_policy := policy; sv_store := store; sv_revision := revision |}) w.

(** [&mut self]: the file system and the service. *)
Abbreviation Ws A := (SE (W * WorkspaceService) WsError A).

Definition on_disk {A} (m : SE W WsError A) : Ws A :=
  λ '(w, s), let '(w', r) := m w in ((w', s), r).
Definition looks {A} (f : W → WorkspaceService → result WsError A) : Ws A :=
  λ '(w, s), ((w, s), f w s).

Definition io_err (path : Path) (e : IoError) : WsError := Error_Io (display path) e.

Definition svc_resolve (w : W) (self : WorkspaceService) (path : string)
    : result WsError ResolvedPath := check w (sv_policy self) path.

Definition svc_read (w : W) (self : WorkspaceService) (path : string) : result WsError FileRead :=
  r ← check w (sv_policy self) path;
  meta ← map_err (io_err (rp_absolute r)) (metadata w (rp_absolute r));
  if negb (bool_decide (mt_type meta = Ft_File)) then
    Err (Error_Invalid path "not a regular file")
  else
    bytes ← map_err (io_err (rp_absolute r)) (fs_read w (rp_absolute r));
    Ok {| fr_path := rp_relative r; fr_bytes := bytes; fr_content_hash := content_hash bytes;
          fr_workspace_revision := wr_number (sv_revision self) |}.

Definition entry_kind (t : FileType) : EntryKind :=
  match t with
  | Ft_Dir => EntryKind_Dir
  | Ft_File => EntryKind_File
  | Ft_Symlink => EntryKind_Symlink
  | Ft_Other => EntryKind_Other
  end.

Definition svc_stat (w : W) (self : WorkspaceService) (path : string) : result WsError FileStat :=
  r ← check w (sv_policy self) path;
  meta ← map_err (io_err (rp_absolute r)) (symlink_metadata w (rp_absolute r));
  hash ← match entry_kind (mt_type meta) with
         | EntryKind_File =>
             bytes ← map_err (io_err (rp_absolute r)) (fs_read w (rp_absolute r));
             Ok (Some (content_hash bytes))
         | _ => Ok None
         end;
  Ok {| fst_path := rp_relative r; fst_kind := entry_kind (mt_type meta); fst_size := mt_len meta;
        fst_content_hash := hash; fst_workspace_revision := wr_number (sv_revision self) |}.

(** The entries of a directory in the order the system reports them. *)
Fixpoint list_entries (w : W) (self : WorkspaceService) (r : ResolvedPath)
    (entries : list (result IoError string)) : result WsError (list FileStat) :=
  match entries with
  | [] => Ok []
  | entry :: entries =>
      name ← map_err (io_err (rp_absolute r)) entry;
      let rel := if str_is_empty (rp_relative r) then name
                 else rp_relative r +:+ "/" +:+ name in
      s ← match svc_stat w self rel with
          | Ok s => Ok s
          | Err (Error_Protected _ _) =>
              Ok {| fst_path := rel; fst_kind := EntryKind_Other; fst_size := 0;
                    fst_content_hash := None;
                    fst_workspace_revision := wr_number (sv_revision self) |}
          | Err e => Err e
          end;
      rest ← list_entries w self r entries; Ok (s :: rest)
  end.

Definition svc_list (w : W) (self : WorkspaceService) (path : string)
    : result WsError (list FileStat) :=
  r ← check w (sv_policy self) path;
  entries ← map_err (io_err (rp_absolute r)) (read_dir w (rp_absolute r));
  out ← list_entries w self r entries;
  Ok (sort_by (λ a b, String.ltb (fst_path a) (fst_path b)) out).

(** *** Preconditions *)

(** The hash of the regular file at a resolved path, if there is one. *)
Definition current_hash (w : W) (r : ResolvedPath) (given : string)
    : result WsError (option string) :=
  match metadata w (rp_absolute r) with
  | Ok m =>
      if bool_decide (mt_type m = Ft_File) then
        bytes ← map_err (io_err (rp_absolute r)) (fs_read w (rp_absolute r));
        Ok (Some (content_hash bytes))
      else Err (Error_Invalid given "target exists and is not a regular file")
  | Err Io_NotFound => Ok None
  | Err e => Err (io_err (rp_absolute r) e)
  end.

Definition check_precondition (w : W) (self : WorkspaceService) (r : ResolvedPath)
    (given : string) (pre : WritePrecondition) : result WsError (option string) :=
  _ ← match expected_workspace_revision pre with
      | Some expected =>
          if negb (expected =? wr_number (sv_revision self)) then
            Err (Error_Precondition given
              ("expected workspace revision " +:+ pretty expected +:+ ", current " +:+
               pretty (wr_number (sv_revision self))))
          else Ok tt
      | None => Ok tt
      end;
  current ← current_hash w r given;
  if expect_absent pre && is_some current then
    Err (Error_Precondition given "expected the path to be absent")
  else
    match expected_content_hash pre with
    | None => Ok current
    | Some expected =>
        match current with
        | Some c =>
            if c =s expected then Ok current
            else Err (Error_Precondition given
                   ("expected content hash " +:+ expected +:+ ", current " +:+ c))
        | None => Err (Error_Precondition given "expected an existing file")
        end
    end.

(** Both checks every write starts with. *)
Definition admit_write (path : string) (pre : WritePrecondition)
    : Ws (ResolvedPath * option string) :=
  looks (λ w self,
    r ← check w (sv_policy self) path;
    before ← check_precondition w self r path pre;
    Ok (r, before)).

Definition tmp_for (absolute : Path) : Path :=
  with_file_name absolute
    (".modbit-tmp-" +:+ pretty process_id +:+ "-" +:+ default "" (file_name absolute)).

Definition commit (r : ResolvedPath) (op : string) (before after : option string)
    : Ws WorkspaceChange := λ '(w, self),
  match RevisionStore_advance (sv_store self) (sv_revision self) (pp_root (sv_policy self))
          (rp_relative r) after w with
  | (w, Ok next) =>
      ((w, {| sv_policy := sv_policy self; sv_store := sv_store self; sv_revision := next |}),
       Ok {| wc_path := rp_relative r; wc_op := op; wc_before_hash := before;
             wc_after_hash := after; wc_workspace_revision := next |})
  | (w, Err e) => ((w, self), Err e)
  end.

(** *** The typed operations *)

Definition svc_write (r : ResolvedPath) (bytes : string) : Ws unit :=
  on_disk (write_atomic (tmp_for (rp_absolute r)) (rp_absolute r) bytes).

Definition svc_create (path bytes : string) (pre : WritePrecondition) : Ws WorkspaceChange :=
  '(r, _) ← admit_write path
    {| expected_content_hash := expected_content_hash pre;
       expected_workspace_revision := expected_workspace_revision pre; expect_absent := true |};
  _ ← svc_write r bytes;
  commit r "create" None (Some (content_hash bytes)).

(** The bytes that are written: the new text in the old one's line-ending style. *)
Definition preserved_bytes (old : result IoError string) (bytes : string) : string :=
  match old with
  | Ok old =>
      if is_utf8 old && is_utf8 bytes then LineEnding_apply (LineEnding_of old) bytes else bytes
  | Err _ => bytes
  end.

Definition atomic_replace (path bytes : string) (pre : WritePrecondition) : Ws WorkspaceChange :=
  '(r, before) ← admit_write path pre;
  bytes ← looks (λ w _, Ok (preserved_bytes (fs_read w (rp_absolute r)) bytes));
  _ ← svc_write r bytes;
  commit r "atomic_replace" before (Some (content_hash bytes)).

Definition atomic_replace_exact (path bytes : string) (pre : WritePrecondition)
    : Ws WorkspaceChange :=
  '(r, before) ← admit_write path pre;
  _ ← svc_write r bytes;
  commit r "atomic_replace" before (Some (content_hash bytes)).

(** [let Some(before_hash) = before else ...]. *)
Definition existing (path what : string) (before : option string) : Ws string :=
  se_lift (ok_or before (Error_Precondition path (what +:+ " needs an existing file"))).

Definition read_original (r : ResolvedPath) : Ws string :=
  looks (λ w _, map_err (io_err (rp_absolute r)) (fs_read w (rp_absolute r))).

Definition apply_patch (path : string) (edits : list Edit) (pre : WritePrecondition)
    : Ws WorkspaceChange :=
  '(r, before) ← admit_write path pre;
  before_hash ← existing path "apply_patch" before;
  original ← read_original r;
  out ← se_lift (patch_text path original edits);
  _ ← svc_write r out;
  commit r "apply_patch" (Some before_hash) (Some (content_hash out)).

Definition svc_delete (path : string) (pre : WritePrecondition) : Ws WorkspaceChange :=
  '(r, before) ← admit_write path pre;
  _ ← existing path "delete" before;
  _ ← on_disk (io_on (rp_absolute r) (λ w, remove_file w (rp_absolute r)));
  commit r "delete" before None.

Definition svc_mkdir (path : string) : Ws WorkspaceChange :=
  r ← looks (λ w self, check w (sv_policy self) path);
  _ ← on_disk (io_on (rp_absolute r) (λ w, create_dir_all w (rp_absolute r)));
  commit r "mkdir" None None.

Definition svc_move (from to : string) (pre : WritePrecondition) : Ws WorkspaceChange :=
  src ← looks (λ w self, check w (sv_policy self) from);
  dst ← looks (λ w self, check w (sv_policy self) to);
  before ← looks (λ w self, check_precondition w self src from pre);
  _ ← existing from "move" before;
  _ ← looks (λ w _, if is_ok (metadata w (rp_absolute dst))
                    then Err (Error_Precondition to "destination exists") else Ok tt);
  _ ← match path_parent (rp_absolute dst) with
      | Some parent => on_disk (io_on parent (λ w, create_dir_all w parent))
      | None => mret tt
      end;
  _ ← on_disk (io_on (rp_absolute src) (λ w, fs_rename w (rp_absolute src) (rp_absolute dst)));
  _ ← commit src "move_from" before None;
  commit dst "move_to" None before.

Definition edit_by_match (path : string) (edits : list TextEdit) (pre : WritePrecondition)
    : Ws (WorkspaceChange * list MatchTier) :=
  '(r, before) ← admit_write path pre;
  before_hash ← existing path "edit" before;
  original ← read_original r;
  content ← se_lift (if is_utf8 original then Ok original
                     else Err (Error_Invalid path "edit needs UTF-8 text"));
  '(content, tiers) ← se_lift (edit_text path (LineEnding_of content) 0 edits content);
  _ ← svc_write r content;
  change ← commit r "edit" (Some before_hash) (Some (content_hash content));
  mret (change, tiers).

(** *** Transactions *)

Definition apply_op (op : ChangeOp) : Ws WorkspaceChange :=
  match co_kind op with
  | ChangeOpKind_Create b => svc_create (co_path op) b (co_pre op)
  | ChangeOpKind_Replace b => atomic_replace (co_path op) b (co_pre op)
  | ChangeOpKind_ReplaceExact b => atomic_replace_exact (co_path op) b (co_pre op)
  | ChangeOpKind_Edit edits =>
      '(c, _) ← edit_by_match (co_path op) edits (co_pre op); mret c
  | ChangeOpKind_Delete => svc_delete (co_path op) (co_pre op)
  end.

(** The bytes at a path before a step; a path the policy refuses has none, and the
    step will fail on it. *)
Definition snapshot (w : W) (self : WorkspaceService) (path : string)
    : result WsError (option string) :=
  match check w (sv_policy self) path with
  | Ok r =>
      match fs_read w (rp_absolute r) with
      | Ok b => Ok (Some b)
      | Err Io_NotFound => Ok None
      | Err e => Err (io_err (rp_absolute r) e)
      end
  | Err _ => Ok None
  end.

Definition restore (path : string) (bytes : option string) : Ws WorkspaceChange :=
  match bytes with
  | Some b => atomic_replace path b WritePrecondition_default
  | None => svc_delete path WritePrecondition_default
  end.

(** [done], the last step first. *)
Fixpoint restore_all (done : list (string * option string)) (restored unrestored : list string)
    (s : W * WorkspaceService) : (W * WorkspaceService) * (list string * list string) :=
  match done with
  | [] => (s, (restored, unrestored))
  | (path, bytes) :: done =>
      let '(s, r) := restore path bytes s in
      if is_ok r then restore_all done (restored ++ [path]) unrestored s
      else restore_all done restored (unrestored ++ [path]) s
  end.

(** The loop of [apply_transaction] at the step [i]; [done] and [changes] hold the last
    step first. *)
Fixpoint transaction_loop (i : nat) (ops : list ChangeOp) (done : list (string * option string))
    (changes : list WorkspaceChange) (s : W * WorkspaceService)
    : (W * WorkspaceService) * result WsError (list WorkspaceChange) :=
  match ops with
  | [] => (s, Ok (reverse changes))
  | op :: ops =>
      match snapshot s.1 s.2 (co_path op) with
      | Err cause =>
          (s, Err (Error_StepFailed i cause (match done with [] => true | _ => false end) []
                     (reverse done.*1)))
      | Ok before =>
          match apply_op op s with
          | (s, Ok c) => transaction_loop (S i) ops ((co_path op, before) :: done) (c :: changes) s
          | (s, Err cause) =>
              let '(s, (restored, unrestored)) := restore_all done [] [] s in
              (s, Err (Error_StepFailed i cause
                         (match unrestored with [] => true | _ => false end)
                         restored unrestored))
          end
      end
  end.

Definition apply_transaction (ops : list ChangeOp) : Ws (list WorkspaceChange) :=
  transaction_loop 0 ops [] [].

End Service.
