(* ===== verification/WsAtomic.v ===== *)
(** * What the file service does to the files

    Against any file system that satisfies [WsPath.FsLaws]: every operation changes
    one file or none, its record tells the truth, and a transaction that fails
    leaves the files as they were up to line endings, or names those it could not
    restore. *)

From S2P Require Import Prelude RustStr BTree RustPath External WsText WsPath Workspace.
#[local] Open Scope Z_scope.

(** What holds after a method ran, of the state it leaves and of its result. *)
Definition wp {S E A} (m : SE S E A) (s : S) (Q : S → result E A → Prop) : Prop :=
  Q (m s).1 (m s).2.

Lemma wp_bind {S E A B} (m : SE S E A) (f : A → SE S E B) s Q :
  wp m s (λ s' r, match r with Ok a => wp (f a) s' Q | Err e => Q s' (Err e) end) →
  wp (m ≫= f) s Q.
Proof. unfold wp, mbind, se_bind. by destruct (m s) as [s' [a|e]]. Qed.

Lemma wp_mono {S E A} (m : SE S E A) s (P Q : S → result E A → Prop) :
  wp m s P → (∀ s' r, P s' r → Q s' r) → wp m s Q.
Proof. unfold wp. auto. Qed.

Lemma wp_ret {S E A} (a : A) s (Q : S → result E A → Prop) : Q s (Ok a) → wp (mret a) s Q.
Proof. done. Qed.

Lemma wp_run {S E A} (m : SE S E A) s s' r Q : wp m s Q → m s = (s', r) → Q s' r.
Proof. unfold wp. by intros HQ E'; rewrite E' in HQ. Qed.

Section Atomic.
  Context {W : Type} `{FsLaws W} `{Globset} `{Sha256} `{Host W}.

Implicit Types (w : W) (p q : Path).

(** ** Frames *)

(** Only files in [P] differ. *)
Definition frame (P : Path → Prop) w w' : Prop :=
  same_links w w' ∧ ∀ q, ¬ P q → contents w' q = contents w q.

Lemma frame_refl P w : frame P w w.
Proof. by split. Qed.

Lemma frame_trans P w1 w2 w3 : frame P w1 w2 → frame P w2 w3 → frame P w1 w3.
Proof.
  intros [L1 C1] [L2 C2]. split; [intros p; by rewrite (L1 p)|]. intros q Hq. by rewrite C2, C1.
Qed.

Lemma frame_mono (P Q : Path → Prop) w w' : (∀ p, P p → Q p) → frame P w w' → frame Q w w'.
Proof. intros HPQ [L C]. split; [done|]. intros q Hq. apply C. auto. Qed.

Lemma frame_direct P w w' p : frame P w w' → direct w p → direct w' p.
Proof. intros [L _]. by apply same_links_direct. Qed.

Lemma wp_io_on {A} path (f : W → W * result IoError A) w Q :
  Q (f w).1 (map_err (Error_Io (display path)) (f w).2) → wp (io_on path f) w Q.
Proof. unfold wp, io_on. by destruct (f w). Qed.

(** The outcome of a write of [bytes] to [final] through [tmp]. *)
Definition written (tmp final : Path) (bytes : string) w (w' : W) (r : result WsError unit) : Prop :=
  frame (λ q, q = tmp ∨ q = final) w w' ∧
  match r with
  | Ok _ => contents w' final = Some bytes
  | Err e => contents w' final = contents w final ∧ ∃ x, e = Error_Io (display final) x
  end.

Lemma written_trans tmp final bytes w w1 w2 r :
  frame (λ q, q = tmp) w w1 → tmp ≠ final → written tmp final bytes w1 w2 r →
  written tmp final bytes w w2 r.
Proof.
  intros F1 Hne [F2 Hr]. split.
  - eapply frame_trans; [|done]. eapply frame_mono; [|done]. auto.
  - destruct r as [|e]; [done|]. destruct Hr as [Hr ?]. split; [|done].
    rewrite Hr. apply F1. congruence.
Qed.

Lemma written_err tmp final bytes w w' e :
  frame (λ q, q = tmp) w w' → tmp ≠ final →
  written tmp final bytes w w' (Err (Error_Io (display final) e)).
Proof.
  intros F Hne. split; [eapply frame_mono; [|done]; auto|]. split; [|eauto].
  apply F. congruence.
Qed.

(** The rename at the end of [write_atomic]. *)
Lemma rename_over_written w tmp final bytes :
  direct w tmp → direct w final → tmp ≠ final → contents w tmp = Some bytes →
  wp (rename_over tmp final) w (written tmp final bytes w).
Proof.
  intros Ht Hf Hne Hc. unfold wp, rename_over, written.
  pose proof (rename_frame w tmp final bytes Ht Hf Hne Hc) as Hr.
  destruct (fs_rename w tmp final) as [w1 [[]|e]]; destruct Hr as (L1 & C1 & Hr).
  - cbn. split; [|tauto]. split; [done|]. intros q Hq. apply C1; tauto.
  - assert (direct w1 tmp) as Ht1 by (by eapply same_links_direct).
    pose proof (remove_frame w1 tmp Ht1) as Hm.
    destruct (remove_file w1 tmp) as [w2 r2]; destruct Hm as (L2 & C2 & _). cbn. split.
    + apply (frame_trans _ _ w1); (split; [done|]); intros q Hq; [apply C1|apply C2]; tauto.
    + split; [|eauto]. destruct Hr as [Hr _]. rewrite C2, Hr; [done|congruence].
Qed.

Lemma mkdir_quiet w p : frame (λ _, False) w (create_dir_all w p).1.
Proof. destruct (mkdir_frame w p) as [L C]. split; [done|]. intros q _. apply C. Qed.

Lemma write_atomic_written w tmp final bytes :
  direct w tmp → direct w final → tmp ≠ final →
  wp (write_atomic tmp final bytes) w (written tmp final bytes w).
Proof.
  intros Ht Hf Hne. unfold write_atomic. apply wp_bind.
  apply (wp_mono _ _ (λ w1 r, frame (λ q, q = tmp) w w1 ∧
    ∀ e, r = Err e → ∃ x, e = Error_Io (display final) x)).
  { destruct (path_parent final) as [parent|]; [|apply wp_ret; split; [apply frame_refl|done]].
    apply wp_io_on. split; [eapply frame_mono; [|apply mkdir_quiet]; done|].
    intros e. destruct (create_dir_all w parent) as [? [|x]]; [done|]. intros [= <-]. eauto. }
  intros w1 [[]|e] [F1 He]; [|destruct (He e eq_refl) as [x ->]; by apply written_err].
  assert (direct w1 tmp) as Ht1 by (by eapply frame_direct). apply wp_bind, wp_io_on.
  pose proof (create_frame w1 tmp Ht1) as Hc.
  destruct (file_create w1 tmp) as [w2 [[]|e]]; destruct Hc as (L2 & C2 & Hc); cbn.
  all: assert (frame (λ q, q = tmp) w w2) as F2 by (by apply (frame_trans _ _ w1)).
  2: { by apply written_err. }
  assert (direct w2 tmp) as Ht2 by (by eapply frame_direct). apply wp_bind, wp_io_on.
  pose proof (write_frame w2 tmp bytes Ht2) as Hw.
  destruct (file_write_all w2 tmp bytes) as [w3 [[]|e]]; destruct Hw as (L3 & C3 & Hw); cbn.
  all: assert (frame (λ q, q = tmp) w w3) as F3 by (by apply (frame_trans _ _ w2)).
  2: { by apply written_err. }
  apply wp_bind, wp_io_on. destruct (sync_frame w3 tmp) as [L4 C4].
  destruct (file_sync_all w3 tmp) as [w4 [[]|e]]; cbn in *.
  all: assert (frame (λ q, q = tmp) w w4) as F4
    by (apply (frame_trans _ _ w3); [done|]; split; [done|]; auto).
  2: { by apply written_err. }
  assert (contents w4 tmp = Some bytes) as Hb by (by rewrite C4, (Hw "" eq_refl (Hc eq_refl))).
  eapply wp_mono; [apply (rename_over_written w4 tmp final bytes); [..|done]|].
  1, 2: by eapply frame_direct. { done. }
  intros w5 r. by apply written_trans.
Qed.

(** ** The service and its own files *)

Definition record_tmp (st : RevisionStore) : Path :=
  with_extension (rs_path st) ("tmp-" +:+ pretty process_id).

(** The revision record and the temporary files of the service are its own; every
    other file is visible. *)
Definition own (st : RevisionStore) (p : Path) : Prop :=
  p = rs_path st ∨ p = record_tmp st ∨ ∃ q, p = tmp_for q.

(** An error about the revision record. *)
Definition on_record (st : RevisionStore) (e : WsError) : Prop :=
  (∃ x, e = Error_Io (display (rs_path st)) x) ∨ (∃ d, e = Error_Invalid (display (rs_path st)) d).

(** No link stands at the root, at the record or where a temporary file goes. *)
Record settled (w : W) (sv : WorkspaceService) : Prop := {
  set_root : plain_path (pp_root (sv_policy sv)) ∧ direct w (pp_root (sv_policy sv));
  set_record : direct w (rs_path (sv_store sv)) ∧ direct w (record_tmp (sv_store sv)) ∧
               record_tmp (sv_store sv) ≠ rs_path (sv_store sv);
  set_tmp : ∀ p, direct w p → link_at w (tmp_for p) = None
}.

Definition same_service (a b : WorkspaceService) : Prop :=
  sv_policy b = sv_policy a ∧ sv_store b = sv_store a.

Lemma same_service_trans a b c : same_service a b → same_service b c → same_service a c.
Proof. intros [Hp Hs] [Hp' Hs']. split; congruence. Qed.

Lemma settled_kept w w' sv sv' :
  same_links w w' → same_service sv sv' → settled w sv → settled w' sv'.
Proof.
  intros L [Hp Hs] [[? ?] (? & ? & ?) Ht]. split; rewrite ?Hp, ?Hs.
  - split; [done|]. by eapply same_links_direct.
  - split_and!; [by eapply same_links_direct..|done].
  - intros p Hd. rewrite <- (L _). apply Ht. eapply same_links_direct; [|done].
    by apply same_links_sym.
Qed.

Lemma tmp_name_plain n : component_of (".modbit-tmp-" +:+ n) = Component_Normal (".modbit-tmp-" +:+ n).
Proof. done. Qed.

Lemma last_removelast {A} (l : list A) x : last l = Some x → l = removelast l ++ [x].
Proof.
  intros E. destruct l as [|y l _] using rev_ind; [done|].
  rewrite last_snoc in E. injection E as ->. by rewrite removelast_last.
Qed.

Lemma tmp_for_split p :
  ∃ parent n, tmp_for p = parent ++ [Component_Normal n] ∧ parent `prefix_of` p ∧ tmp_for p ≠ p.
Proof.
  unfold tmp_for, with_file_name. rewrite tmp_name_plain.
  destruct (file_name p) as [s|] eqn:E; cbn [is_some default].
  - unfold file_name in E. destruct (last p) as [[]|] eqn:El; try done. injection E as ->.
    apply last_removelast in El. exists (removelast p). eexists. split; [done|]. split.
    + rewrite El at 2. by exists [Component_Normal s].
    + rewrite El at 2. intros [_ Hn]%app_inj_tail. injection Hn as Hn.
      apply (f_equal String.length) in Hn. rewrite !str_length_app in Hn. cbn in Hn. lia.
  - exists p. eexists. split_and!; [done|done|].
    intros Hp. apply (f_equal length) in Hp. rewrite length_app in Hp. cbn in Hp. lia.
Qed.

Lemma tmp_for_direct w sv p : settled w sv → direct w p → direct w (tmp_for p).
Proof.
  intros [_ _ Ht] Hd. specialize (Ht p Hd).
  destruct (tmp_for_split p) as (parent & n & E & Hp & _). rewrite E in *.
  apply direct_snoc; [|done]. by eapply direct_prefix.
Qed.

Lemma save_wp st rev w :
  direct w (rs_path st) → direct w (record_tmp st) → record_tmp st ≠ rs_path st →
  wp (RevisionStore_save st rev) w (λ w' r,
    frame (own st) w w' ∧ ∀ e, r = Err e → on_record st e).
Proof.
  intros Hd Ht Hne. unfold RevisionStore_save. apply wp_bind. fold (record_tmp st).
  unfold wp at 1, se_lift. cbn. destruct (to_vec_pretty rev) as [bytes|d]; cbn.
  2: { split; [apply frame_refl|]. intros e [= <-]. right. eauto. }
  eapply wp_mono; [by apply write_atomic_written|]. intros w' r [F Hr]. split.
  - eapply frame_mono; [|done]. unfold own. naive_solver.
  - intros e ->. left. naive_solver.
Qed.

(** The change a commit reports, and the revision it leaves. *)
Definition commit_done (r : ResolvedPath) (op : string) (before after : option string)
    w (sv sv' : WorkspaceService) (c : WorkspaceChange) : Prop :=
  sv_revision sv' = next_revision w (sv_revision sv) (pp_root (sv_policy sv)) (rp_relative r) after ∧
  c = {| wc_path := rp_relative r; wc_op := op; wc_before_hash := before;
         wc_after_hash := after; wc_workspace_revision := sv_revision sv' |}.

Lemma commit_wp r op before after w sv :
  settled w sv →
  wp (commit r op before after) (w, sv) (λ s' res,
    frame (own (sv_store sv)) w s'.1 ∧ same_service sv s'.2 ∧
    match res with
    | Ok c => commit_done r op before after w sv s'.2 c
    | Err e => on_record (sv_store sv) e
    end).
Proof.
  intros Hset. destruct (set_record _ _ Hset) as (Hd & Ht & Hne).
  unfold wp, commit, RevisionStore_advance.
  set (next := next_revision w _ _ _ _).
  pose proof (save_wp (sv_store sv) next w Hd Ht Hne) as Hs. unfold wp in Hs.
  unfold mbind, se_bind. destruct (RevisionStore_save _ next w) as [w' [[]|e]]; cbn in *.
  - destruct Hs as [F _]. split_and!; [done|done|done]. 
  - destruct Hs as [F He]. split_and!; [done|done|auto].
Qed.

(** ** One operation *)

(** What the checks before a write establish about the file at the resolved path. *)
Record admitted (path : string) w (sv : WorkspaceService) (r : ResolvedPath)
    (before : option string) : Prop := {
  adm_check : check w (sv_policy sv) path = Ok r;
  adm_direct : direct w (rp_absolute r);
  adm_before : before = content_hash <$> contents w (rp_absolute r);
  adm_read x : contents w (rp_absolute r) = Some x → fs_read w (rp_absolute r) = Ok x;
  adm_absent b : contents w (rp_absolute r) = None → fs_read w (rp_absolute r) ≠ Ok b
}.

Lemma check_direct w sv path r :
  settled w sv → check w (sv_policy sv) path = Ok r → direct w (rp_absolute r).
Proof.
  intros [[Hp Hd] _ _] (rel & Hn%normalize_plain & Hl & _)%check_resolved.
  eapply resolve_loop_direct in Hl as [? _]; [done|done|exists []; by rewrite app_nil_r|done|done].
Qed.

Lemma current_hash_spec w r given cur :
  direct w (rp_absolute r) → current_hash w r given = Ok cur →
  cur = content_hash <$> contents w (rp_absolute r) ∧
  (∀ x, contents w (rp_absolute r) = Some x → fs_read w (rp_absolute r) = Ok x) ∧
  (∀ b, contents w (rp_absolute r) = None → fs_read w (rp_absolute r) ≠ Ok b).
Proof.
  intros Hd. unfold current_hash. destruct (metadata w (rp_absolute r)) as [m|[]] eqn:Em; [| |done].
  - case_bool_decide as Hf; [|done]. intros (b & Hb & [= <-])%bind_ok.
    destruct (fs_read w (rp_absolute r)) as [b'|] eqn:Er; [|done]. injection Hb as ->.
    destruct (stat_file w _ m Hd Em Hf) as [x Hx]. pose proof (read_contents w _ _ _ Hd Hx Er) as ->.
    rewrite Hx. cbn. naive_solver.
  - intros [= <-]. pose proof (stat_absent w _ Hd Em) as Hx. rewrite Hx. split_and!; [done|done|].
    intros b _ Hr. by apply read_stat in Hr.
Qed.

Lemma precondition_current w sv r given pre before :
  check_precondition w sv r given pre = Ok before →
  current_hash w r given = Ok before ∧ (expect_absent pre = true → before = None).
Proof.
  unfold check_precondition. intros (_ & _ & (cur & Hc & Hk)%bind_ok)%bind_ok.
  destruct (expect_absent pre && is_some cur) eqn:E; [done|].
  assert (cur = before) as <-.
  { destruct (expected_content_hash pre); [|congruence].
    destruct cur as [c|]; [|done]. destruct (c =s s); congruence. }
  split; [done|]. intros Ha. rewrite Ha in E. by destruct cur.
Qed.

Lemma admit_write_wp path pre w sv (Q : W * WorkspaceService → result WsError _ → Prop) :
  settled w sv →
  (∀ r before, admitted path w sv r before →
     (expect_absent pre = true → contents w (rp_absolute r) = None) → Q (w, sv) (Ok (r, before))) →
  (∀ e, Q (w, sv) (Err e)) →
  wp (admit_write path pre) (w, sv) Q.
Proof.
  intros Hset HQ He. unfold wp, admit_write, looks. cbn.
  destruct (check w (sv_policy sv) path) as [r|e] eqn:Ec; cbn; [|apply He].
  destruct (check_precondition w sv r path pre) as [before|e] eqn:Ep; cbn; [|apply He].
  apply precondition_current in Ep as [Hc Ha].
  pose proof (check_direct _ _ _ _ Hset Ec) as Hd.
  destruct (current_hash_spec _ _ _ _ Hd Hc) as (Hb & Hr & Hn).
  apply HQ; [by split|]. intros Hx%Ha. rewrite Hb in Hx.
  by destruct (contents w (rp_absolute r)).
Qed.

(** The visible files after a change of the one at [a]. *)
Definition sets (st : RevisionStore) (a : Path) (new : option string) w w' : Prop :=
  same_links w w' ∧
  ∀ p, ¬ own st p → contents w' p = if decide (p = a) then new else contents w p.

(** What a finished operation on [path] did. *)
Record performed (path : string) (spec : option string → option string → Prop)
    w (sv : WorkspaceService) (w' : W) (sv' : WorkspaceService) (c : WorkspaceChange)
    (a : Path) (old new : option string) : Prop := {
  per_check : ∃ r, check w (sv_policy sv) path = Ok r ∧ rp_absolute r = a ∧ wc_path c = rp_relative r;
  per_old : old = contents w a;
  per_read b : fs_read w a = Ok b → old = Some b;
  per_spec : spec old new;
  per_sets : sets (sv_store sv) a new w w';
  per_before : wc_before_hash c = content_hash <$> old;
  per_after : wc_after_hash c = content_hash <$> new;
  per_revision : wc_workspace_revision c = sv_revision sv' ∧
    wr_number (sv_revision sv') = wrap64 (wr_number (sv_revision sv) + 1) ∧
    bget (wc_path c) (wr_changed (sv_revision sv')) =
      Some (default "deleted" (content_hash <$> new))
}.

(** An operation that fails changed no visible file, unless it had done its work
    and the revision could not be recorded. *)
Definition outcome (path : string) (spec : option string → option string → Prop)
    w (sv : WorkspaceService) (s' : W * WorkspaceService) (res : result WsError WorkspaceChange)
    : Prop :=
  same_links w s'.1 ∧ same_service sv s'.2 ∧
  match res with
  | Ok c => ∃ a old new, performed path spec w sv s'.1 s'.2 c a old new
  | Err e =>
      (∀ p, ¬ own (sv_store sv) p → contents s'.1 p = contents w p) ∨
      (on_record (sv_store sv) e ∧ ∃ r new,
         check w (sv_policy sv) path = Ok r ∧ sets (sv_store sv) (rp_absolute r) new w s'.1)
  end.

Lemma outcome_err path spec w sv e : outcome path spec w sv (w, sv) (Err e).
Proof. split_and!; [done|done|]. by left. Qed.

(** Recording a change of the file at the resolved path. *)
Lemma commit_outcome path spec r op before new w sv w1 :
  settled w sv → admitted path w sv r before → sets (sv_store sv) (rp_absolute r) new w w1 →
  spec (contents w (rp_absolute r)) new →
  wp (commit r op before (content_hash <$> new)) (w1, sv) (outcome path spec w sv).
Proof.
  intros Hset Ha [L1 C1] Hspec.
  eapply wp_mono; [apply commit_wp; by apply (settled_kept w w1 sv sv)|].
  intros [w2 sv2] res ([L2 C2] & Hsv & Hres). cbn [fst snd] in *.
  assert (sets (sv_store sv) (rp_absolute r) new w w2) as Hs.
  { split; [intros p; by rewrite (L1 p)|]. intros p Hp. by rewrite C2, C1. }
  split; [by destruct Hs|]. split; [done|]. destruct res as [c|e].
  - destruct Hres as [Hrev ->]. exists (rp_absolute r), (contents w (rp_absolute r)), new.
    destruct Ha as [? ? ? Hrd Hab]. split; cbn; [eauto|done| |done|done|done|done|].
    { intros b Hb. destruct (contents w (rp_absolute r)) as [x|] eqn:Ex.
      - rewrite (Hrd x eq_refl) in Hb. congruence.
      - by apply Hab in Hb. }
    rewrite Hrev. cbn. split_and!; [done|done|]. apply bget_insert.
  - right. split; [done|]. destruct Ha. eauto.
Qed.

Lemma write_outcome path spec r op before bytes w sv :
  settled w sv → admitted path w sv r before →
  spec (contents w (rp_absolute r)) (Some bytes) →
  wp (_ ← svc_write r bytes; commit r op before (Some (content_hash bytes))) (w, sv)
    (outcome path spec w sv).
Proof.
  intros Hset Ha Hspec. apply wp_bind. unfold svc_write, wp at 1, on_disk.
  assert (direct w (rp_absolute r)) as Hd by apply Ha.
  destruct (tmp_for_split (rp_absolute r)) as (_ & _ & _ & _ & Hne).
  pose proof (write_atomic_written w (tmp_for (rp_absolute r)) (rp_absolute r) bytes
    (tmp_for_direct _ _ _ Hset Hd) Hd Hne) as Hw.
  unfold wp in Hw. destruct (write_atomic _ _ _ w) as [w1 [[]|e]]; cbn in *;
    destruct Hw as [[L C] Hr].
  - apply (commit_outcome path spec r op before (Some bytes)); [done|done| |done].
    split; [done|]. intros p Hp. destruct (decide (p = rp_absolute r)) as [->|Hn]; [done|].
    apply C. intros [->|]; [|done]. apply Hp. right; right. eauto.
  - split; [done|]. split; [done|]. left. intros p Hp.
    destruct (decide (p = rp_absolute r)) as [->|Hn]; [by destruct Hr|].
    apply C. intros [->|]; [|done]. apply Hp. right; right. eauto.
Qed.

(** What each kind of operation does to the file: [old] to [new]. *)
Definition op_spec (path : string) (kind : ChangeOpKind) (old new : option string) : Prop :=
  match kind with
  | ChangeOpKind_Create b => old = None ∧ new = Some b
  | ChangeOpKind_Replace b =>
      new = Some (match old with Some x => preserved_bytes (Ok x) b | None => b end)
  | ChangeOpKind_ReplaceExact b => new = Some b
  | ChangeOpKind_Edit edits =>
      ∃ x out tiers, old = Some x ∧ is_utf8 x = true ∧
        edit_text path (LineEnding_of x) 0 edits x = Ok (out, tiers) ∧ new = Some out
  | ChangeOpKind_Delete => old ≠ None ∧ new = None
  end.

Lemma create_outcome path b pre w sv :
  settled w sv →
  wp (svc_create path b pre) (w, sv) (outcome path (op_spec path (ChangeOpKind_Create b)) w sv).
Proof.
  intros Hset. unfold svc_create. apply wp_bind, admit_write_wp; [done| |apply outcome_err].
  intros r before Ha Habs. cbn in Habs. specialize (Habs eq_refl).
  assert (before = None) as -> by (rewrite (adm_before _ _ _ _ _ Ha), Habs; done).
  by apply write_outcome.
Qed.

Lemma replace_exact_outcome path b pre w sv :
  settled w sv →
  wp (atomic_replace_exact path b pre) (w, sv)
    (outcome path (op_spec path (ChangeOpKind_ReplaceExact b)) w sv).
Proof.
  intros Hset. unfold atomic_replace_exact.
  apply wp_bind, admit_write_wp; [done| |apply outcome_err].
  intros r before Ha _. by apply write_outcome.
Qed.

Lemma wp_looks {A} (f : W → WorkspaceService → result WsError A) w sv Q :
  Q (w, sv) (f w sv) → wp (looks f) (w, sv) Q.
Proof. done. Qed.

Lemma replace_outcome path b pre w sv :
  settled w sv →
  wp (atomic_replace path b pre) (w, sv)
    (outcome path (op_spec path (ChangeOpKind_Replace b)) w sv).
Proof.
  intros Hset. unfold atomic_replace.
  apply wp_bind, admit_write_wp; [done| |apply outcome_err].
  intros r before Ha _. apply wp_bind, wp_looks. cbv beta iota.
  apply write_outcome; [done|done|]. cbn.
  destruct (contents w (rp_absolute r)) as [x|] eqn:Ex.
  - by rewrite (adm_read _ _ _ _ _ Ha _ Ex).
  - pose proof (adm_absent _ _ _ _ _ Ha) as Hn. unfold preserved_bytes.
    destruct (fs_read w (rp_absolute r)) as [y|]; [by destruct (Hn y)|done].
Qed.

Lemma delete_outcome path pre w sv :
  settled w sv →
  wp (svc_delete path pre) (w, sv) (outcome path (op_spec path ChangeOpKind_Delete) w sv).
Proof.
  intros Hset. unfold svc_delete. apply wp_bind, admit_write_wp; [done| |apply outcome_err].
  intros r before Ha _. apply wp_bind. unfold wp at 1, existing, se_lift. cbn [fst snd].
  destruct before as [h|] eqn:Eb; [|apply outcome_err]. cbn [ok_or].
  assert (direct w (rp_absolute r)) as Hd by apply Ha.
  apply wp_bind. unfold wp at 1, on_disk, io_on.
  pose proof (remove_frame w (rp_absolute r) Hd) as Hm.
  destruct (remove_file w (rp_absolute r)) as [w1 [u|e]]; destruct Hm as (L & C & Hr); cbn.
  - apply (commit_outcome path _ r "delete" (Some h) None); [done|done| |].
    + split; [done|]. intros p _. destruct (decide (p = rp_absolute r)) as [->|]; [done|auto].
    + split; [|done]. pose proof (adm_before _ _ _ _ _ Ha) as Hb. intros E. by rewrite E in Hb.
  - split; [done|]. split; [done|]. left. intros p _. cbn.
    destruct (decide (p = rp_absolute r)) as [->|]; auto.
Qed.

Lemma edit_outcome path edits pre w sv :
  settled w sv →
  wp ('(c, _) ← edit_by_match path edits pre; mret c) (w, sv)
    (outcome path (op_spec path (ChangeOpKind_Edit edits)) w sv).
Proof.
  intros Hset. unfold edit_by_match. apply wp_bind.
  apply wp_bind, admit_write_wp; [done| |apply outcome_err].
  intros r before Ha _. apply wp_bind. unfold wp at 1, existing, se_lift. cbn [fst snd].
  destruct before as [h|] eqn:Eb; [|apply outcome_err]. cbn [ok_or].
  apply wp_bind, wp_looks.
  pose proof (adm_before _ _ _ _ _ Ha) as Hb.
  destruct (contents w (rp_absolute r)) as [x|] eqn:Ex; [|done].
  rewrite (adm_read _ _ _ _ _ Ha _ Ex). cbn [map_err].
  apply wp_bind. unfold wp at 1. cbn [fst snd].
  destruct (is_utf8 x) eqn:Eu; [|apply outcome_err]. apply wp_bind. unfold wp at 1. cbn [fst snd].
  destruct (edit_text path (LineEnding_of x) 0 edits x) as [[out tiers]|e] eqn:Ee;
    [|apply outcome_err].
  pose proof (write_outcome path (op_spec path (ChangeOpKind_Edit edits)) r "edit" (Some h) out w sv
    Hset Ha) as Hw.
  rewrite Ex in Hw. specialize (Hw ltac:(cbn; eauto 10)).
  unfold wp in *. unfold mbind, se_bind in *.
  destruct (svc_write r out (w, sv)) as [s1 [[]|e]]; [|exact Hw].
  by destruct (commit r "edit" (Some h) (Some (content_hash out)) s1) as [s2 [c|e]].
Qed.

Lemma op_outcome op w sv :
  settled w sv → wp (apply_op op) (w, sv) (outcome (co_path op) (op_spec (co_path op) (co_kind op)) w sv).
Proof.
  intros Hset. unfold apply_op.
  destruct (co_kind op); auto using create_outcome, replace_outcome, replace_exact_outcome,
    delete_outcome, edit_outcome.
Qed.

Lemma patch_outcome path edits pre w sv :
  settled w sv →
  wp (apply_patch path edits pre) (w, sv)
    (outcome path (λ old new, ∃ x out, old = Some x ∧ patch_text path x edits = Ok out ∧ new = Some out)
      w sv).
Proof.
  intros Hset. unfold apply_patch. apply wp_bind, admit_write_wp; [done| |apply outcome_err].
  intros r before Ha _. apply wp_bind. unfold wp at 1, existing, se_lift. cbn [fst snd].
  destruct before as [h|] eqn:Eb; [|apply outcome_err]. cbn [ok_or].
  apply wp_bind, wp_looks. pose proof (adm_before _ _ _ _ _ Ha) as Hb.
  destruct (contents w (rp_absolute r)) as [x|] eqn:Ex; [|done].
  rewrite (adm_read _ _ _ _ _ Ha _ Ex). cbn [map_err].
  apply wp_bind. unfold wp at 1. cbn [fst snd].
  destruct (patch_text path x edits) as [out|e] eqn:Ep; [|apply outcome_err].
  apply write_outcome; [done|done|]. rewrite Ex. eauto.
Qed.

(** ** Transactions *)

(** Equal, or texts that differ in line endings only. *)
Definition same_text (a b : option string) : Prop :=
  a = b ∨ ∃ x y, a = Some x ∧ b = Some y ∧ is_utf8 y = true ∧ unix x = unix y.

(** The place a path leads to, whatever files were written meanwhile. *)
Definition leads (policy : PathPolicy) w (path : string) (a : Path) : Prop :=
  ∃ w1 r, same_links w w1 ∧ check w1 policy path = Ok r ∧ rp_absolute r = a.

Definition left_behind (policy : PathPolicy) w (unrestored : list string) (a : Path) : Prop :=
  ∃ path, path ∈ unrestored ∧ leads policy w path a.

(** The worlds a transaction went through: each step set one file, whose bytes before
    are on record. *)
Inductive trail (sv : WorkspaceService) (w0 : W) : list (string * option string) → W → Prop :=
  | trail_nil w : frame (own (sv_store sv)) w0 w → trail sv w0 [] w
  | trail_step path r new done w w' :
      trail sv w0 done w → check w (sv_policy sv) path = Ok r →
      sets (sv_store sv) (rp_absolute r) new w w' →
      trail sv w0 ((path, contents w (rp_absolute r)) :: done) w'.

Lemma trail_links sv w0 done w : trail sv w0 done w → same_links w0 w.
Proof.
  induction 1 as [w [L _]|path r new done w w' _ IH _ [L _]]; [done|].
  intros p. by rewrite (IH p).
Qed.

Lemma trail_left sv w0 done w p :
  trail sv w0 done w → ¬ own (sv_store sv) p →
  contents w p = contents w0 p ∨ left_behind (sv_policy sv) w0 (reverse done.*1) p.
Proof.
  induction 1 as [w [_ C]|path r new done w w' Ht IH Hc [L C]]; intros Hp; [auto|].
  rewrite (C p Hp), fmap_cons, reverse_cons. cbn [fst].
  destruct (decide (p = rp_absolute r)) as [->|].
  - right. exists path. split; [set_solver|]. exists w, r. eauto using trail_links.
  - destruct (IH Hp) as [->|(q & Hq & ?)]; [auto|]. right. exists q. split; [set_solver|done].
Qed.

Lemma preserved_same old b : same_text (Some (preserved_bytes old b)) (Some b).
Proof.
  unfold preserved_bytes. destruct old as [x|]; [|by left].
  destruct (is_utf8 x && is_utf8 b) eqn:E; [|by left]. apply andb_true_iff in E as [_ ?].
  right. exists (LineEnding_apply (LineEnding_of x) b), b. by rewrite unix_apply.
Qed.

(** Restoring one step: the file is back up to line endings, or it was not restored
    and nothing else changed. *)
Lemma restore_outcome path bytes v svv r :
  settled v svv → (∀ r', check v (sv_policy svv) path = Ok r' → r' = r) →
  wp (restore path bytes) (v, svv) (λ s' res,
    same_links v s'.1 ∧ same_service svv s'.2 ∧
    (∀ p, ¬ own (sv_store svv) p → p ≠ rp_absolute r → contents s'.1 p = contents v p) ∧
    (is_ok res = true → ¬ own (sv_store svv) (rp_absolute r) →
       same_text (contents s'.1 (rp_absolute r)) bytes)).
Proof.
  intros Hset Hr.
  assert (∃ spec, wp (restore path bytes) (v, svv) (outcome path spec v svv) ∧
    ∀ old new, spec old new → same_text new bytes) as (spec & Hw & Hs).
  { destruct bytes as [b|]; cbn [restore]; eexists; (split; [by apply replace_outcome || by apply delete_outcome|]).
    - intros [x|] new ->; [apply preserved_same|by left].
    - intros old new [_ ->]. by left. }
  eapply wp_mono; [exact Hw|]. intros [w' sv'] res (L & Hsv & Hres). cbn [fst snd] in *.
  split_and!; [done|done| |].
  - intros p Hp Hne. destruct res as [c|e].
    + destruct Hres as (a & old & new & [(r' & Hc & <- & _) _ _ _ [_ C] _ _ _]).
      apply Hr in Hc as ->. rewrite (C p Hp). by rewrite decide_False.
    + destruct Hres as [C|(_ & r' & new & Hc & [_ C])]; [auto|].
      apply Hr in Hc as ->. rewrite (C p Hp). by rewrite decide_False.
  - intros Hok Hp. destruct res as [c|]; [|done].
    destruct Hres as (a & old & new & [(r' & Hc & <- & _) _ _ Hspec [_ C] _ _ _]).
    apply Hr in Hc as ->. rewrite (C _ Hp), decide_True by done. by eapply Hs.
Qed.

(** Restoring all steps, from a world that may differ in the files of [X] as well. *)
Lemma restore_all_outcome (X : Path → Prop) sv w0 done w :
  trail sv w0 done w → ∀ v svv restored unrestored,
  settled v svv → same_service sv svv → same_links w v →
  (∀ p, ¬ own (sv_store sv) p → ¬ X p →
     same_text (contents v p) (contents w p) ∨ left_behind (sv_policy sv) w0 unrestored p) →
  let '((v', svv'), (_, unrestored')) := restore_all done restored unrestored (v, svv) in
  same_links w v' ∧ same_service sv svv' ∧
  ∀ p, ¬ own (sv_store sv) p → ¬ X p →
    same_text (contents v' p) (contents w0 p) ∨ left_behind (sv_policy sv) w0 unrestored' p.
Proof.
  induction 1 as [w [_ C]|path r new done w w' Ht IH Hc [L C]];
    intros v svv restored unrestored Hset Hsv Hl Hp; cbn [restore_all].
  { split_and!; [done|done|]. intros p Hown HX. rewrite <- (C p Hown). auto. }
  assert (∀ r', check v (sv_policy svv) path = Ok r' → r' = r) as Hr.
  { intros r' Hr'. destruct Hsv as [Hpol _]. rewrite Hpol in Hr'. symmetry.
    eapply (check_stable w v); [| |done|done].
    - intros p. by rewrite (L p).
    - destruct (set_root _ _ Hset) as [_ Hd]. rewrite Hpol in Hd.
      eapply same_links_direct; [|exact Hd]. intros p. by rewrite (L p). }
  pose proof (restore_outcome path (contents w (rp_absolute r)) v svv r Hset Hr) as Ho.
  unfold wp in Ho. destruct (restore path _ (v, svv)) as [[v1 sv1] res]. cbn [fst snd] in Ho.
  destruct Ho as (L1 & Hsv1 & Hother & Hself).
  assert (settled v1 sv1) as Hset1 by (by eapply settled_kept).
  assert (same_service sv sv1) as Hs1
    by (by eapply same_service_trans).
  assert (same_links w v1) as Hl1 by (intros p; by rewrite (L p), (Hl p)).
  assert (sv_store svv = sv_store sv) as Hst by apply Hsv. rewrite Hst in *.
  assert (∀ U p, ¬ own (sv_store sv) p → ¬ X p → p ≠ rp_absolute r →
    (∀ n : string, n ∈ unrestored → n ∈ U) →
    same_text (contents v1 p) (contents w p) ∨ left_behind (sv_policy sv) w0 U p) as Hne.
  { intros U p Hown HX Hp' HU. rewrite (Hother p Hown Hp'). specialize (Hp p Hown HX).
    rewrite (C p Hown), decide_False in Hp by done.
    destruct Hp as [?|(q & ? & ?)]; [auto|]. right. exists q. auto. }
  destruct (is_ok res) eqn:Ek;
    (match goal with |- context [restore_all done ?R ?U ?s] =>
       specialize (IH v1 sv1 R U Hset1 Hs1 Hl1); destruct (restore_all done R U s) as [[v2 sv2] [R' U']] end);
    (destruct IH as (L2 & Hs2 & Hend);
     [intros p Hown HX; destruct (decide (p = rp_absolute r)) as [->|Hp']; [|by apply Hne; [..|set_solver]]|]).
  - left. by apply Hself.
  - split_and!; [intros p; by rewrite <- (L p)|done|done].
  - right. exists path. split; [set_solver|]. exists w, r. eauto using trail_links.
  - split_and!; [intros p; by rewrite <- (L p)|done|done].
Qed.

Lemma snapshot_contents w sv path before r :
  settled w sv → check w (sv_policy sv) path = Ok r → snapshot w sv path = Ok before →
  (∀ b, fs_read w (rp_absolute r) = Ok b → contents w (rp_absolute r) = Some b) →
  before = contents w (rp_absolute r).
Proof.
  intros Hset Hc. unfold snapshot. rewrite Hc. intros Hs Hrd.
  pose proof (check_direct _ _ _ _ Hset Hc) as Hd.
  destruct (fs_read w (rp_absolute r)) as [b|[]] eqn:E; [| |done].
  - injection Hs as <-. symmetry. by apply Hrd.
  - injection Hs as <-. symmetry. by apply read_absent.
Qed.

(** The steps of a transaction that succeeds, one after the other. *)
Inductive steps : W → WorkspaceService → list ChangeOp → W → WorkspaceService →
    list WorkspaceChange → Prop :=
  | steps_nil w sv : steps w sv [] w sv []
  | steps_cons op ops w sv w1 sv1 c a old new w2 sv2 cs :
      performed (co_path op) (op_spec (co_path op) (co_kind op)) w sv w1 sv1 c a old new →
      steps w1 sv1 ops w2 sv2 cs →
      steps w sv (op :: ops) w2 sv2 (c :: cs).

(** The target of step [i], which failed on the revision record: it keeps its change. *)
Definition unrecorded (sv : WorkspaceService) (ops : list ChangeOp) w0 (i : nat) (cause : WsError)
    p : Prop :=
  on_record (sv_store sv) cause ∧
  ∃ op, ops !! i = Some op ∧ leads (sv_policy sv) w0 (co_path op) p.

(** What a failed transaction reports and leaves. *)
Definition undone (sv : WorkspaceService) (ops : list ChangeOp) (w0 w' : W) (e : WsError) : Prop :=
  ∃ i cause rolled_back restored unrestored,
    e = Error_StepFailed i cause rolled_back restored unrestored ∧
    (rolled_back = true ↔ unrestored = []) ∧
    (i < length ops)%nat ∧
    ∀ p, ¬ own (sv_store sv) p →
      same_text (contents w' p) (contents w0 p) ∨
      left_behind (sv_policy sv) w0 unrestored p ∨
      unrecorded sv ops w0 i cause p.

Lemma transaction_loop_outcome sv w0 ops0 ops : ∀ i done changes w svw w' sv' res,
  ops = drop i ops0 → trail sv w0 done w → settled w svw → same_service sv svw →
  transaction_loop i ops done changes (w, svw) = ((w', sv'), res) →
  match res with
  | Ok cs => ∃ cs', cs = reverse changes ++ cs' ∧ steps w svw ops w' sv' cs'
  | Err e => undone sv ops0 w0 w' e
  end.
Proof.
  induction ops as [|op ops IH]; intros i done changes w svw w' sv' res Hops Ht Hset Hsv; cbn.
  { intros [= <- <- <-]. exists []. rewrite app_nil_r. split; [done|constructor]. }
  assert (ops0 !! i = Some op) as Hi by (by rewrite <- (Nat.add_0_r i), <- lookup_drop, <- Hops).
  pose proof (lookup_lt_Some _ _ _ Hi) as Hlen.
  destruct (snapshot w svw (co_path op)) as [before|cause] eqn:Es.
  2: { intros [= <- <- <-]. unfold undone. do 5 eexists. split; [done|]. split_and!.
       - destruct done; [done|]. rewrite fmap_cons, reverse_cons. split; [done|].
         intros E%(f_equal length). rewrite length_app in E. cbn in E. lia.
       - lia.
       - intros p Hp. destruct (trail_left _ _ _ _ p Ht Hp) as [->|?]; [by left; left|by right; left]. }
  pose proof (op_outcome op w svw Hset) as Ho. unfold wp in Ho.
  destruct (apply_op op (w, svw)) as [[w1 sv1] [c|cause]]; cbn [fst snd] in Ho;
    destruct Ho as (L1 & Hsv1 & Ho).
  - destruct Ho as (a & old & new & Hp). intros Hl.
    assert (same_service sv sv1) as Hs1 by (by eapply same_service_trans).
    destruct (per_check _ _ _ _ _ _ _ _ _ _ Hp) as (r & Hc & <- & _).
    assert (before = contents w (rp_absolute r)) as ->.
    { eapply snapshot_contents; [done..|]. intros b Hb.
      rewrite <- (per_old _ _ _ _ _ _ _ _ _ _ Hp). by eapply per_read. }
    destruct Hsv as [Hpol Hst].
    apply IH in Hl; [|by rewrite (drop_S _ _ _ Hi) in Hops; injection Hops| |by apply (settled_kept w w1 svw sv1)|done].
    + destruct res as [cs|e]; [|done]. destruct Hl as (cs' & -> & Hst').
      exists (c :: cs'). split; [by rewrite reverse_cons, <- app_assoc|]. by econstructor.
    + eapply trail_step; [done|by rewrite <- Hpol|].
      rewrite <- Hst. eapply per_sets, Hp.
  - assert (same_service sv sv1) as Hs1 by (by eapply same_service_trans).
    destruct (restore_all done [] [] (w1, sv1)) as [[w2 sv2] [restored unrestored]] eqn:Er.
    intros [= <- <- <-]. unfold undone. do 5 eexists. split; [done|].
    split; [by destruct unrestored|]. split; [lia|]. intros p Hp.
    destruct Hsv as [Hpol Hst]. rewrite Hpol, Hst in Ho.
    assert (∀ X : Path → Prop,
      (∀ q, ¬ own (sv_store sv) q → ¬ X q → contents w1 q = contents w q) → ¬ X p →
      same_text (contents w2 p) (contents w0 p) ∨ left_behind (sv_policy sv) w0 unrestored p) as Hall.
    { intros X HX Hn. pose proof (restore_all_outcome X sv w0 done w Ht w1 sv1 [] []
        ltac:(by apply (settled_kept w w1 svw sv1)) Hs1 L1) as Hall.
      rewrite Er in Hall. apply Hall; [|done|done]. intros q Hq Hx. left; left. auto. }
    destruct Ho as [C|(Hr & r & new & Hc & [_ C])]; cbn [fst snd] in *.
    + destruct (Hall (λ _, False)) as [|]; auto.
    + destruct (decide (p = rp_absolute r)) as [->|Hn].
      * right; right. split; [done|]. exists op. split; [done|]. exists w, r. eauto using trail_links.
      * destruct (Hall (λ q, q = rp_absolute r)) as [|]; auto.
        intros q Hq Hx. by rewrite (C q Hq), decide_False.
Qed.

(** C15: when no link stands at the root, at the revision record or at any name the
    service uses for a temporary file ([settled]; with one there a write can land
    outside the root, [temporary_link_followed]), a transaction that succeeds performed
    its operations in order, each of them exactly what its kind says on the one file
    its path leads to, with a record that names the bytes before and after and the next
    revision. A transaction that fails reports which of its steps failed, and whether
    some file was not restored; every file other than the service's own record and
    temporary files is then as it was before, up to the line endings of texts
    ([rollback_changes_endings]), except those it names as not restored and, where the
    step failed while its revision was being recorded, the file of that step. *)
Theorem transaction_atomic ops w sv w' sv' res :
  settled w sv → apply_transaction ops (w, sv) = ((w', sv'), res) →
  match res with
  | Ok cs => steps w sv ops w' sv' cs
  | Err e => undone sv ops w w' e
  end.
Proof.
  intros Hset Hrun. unfold apply_transaction in Hrun.
  eapply (transaction_loop_outcome sv w ops) in Hrun; [|done|apply trail_nil, frame_refl|done|done].
  destruct res as [cs|e]; [|done]. destruct Hrun as (cs' & -> & Hs). by rewrite reverse_nil.
Qed.

End Atomic.
