(* ===== verification/WsExample.v ===== *)
(** * The file service on a tree

    The laws the workspace theorems assume hold on [WsTree.Fs]; here the theorems are
    applied and the service is run on small trees. *)

From stdpp Require Import gmap.
From S2P Require Import Prelude RustStr BTree RustPath External WsText WsPath WsTree Workspace WsAtomic.
#[local] Open Scope Z_scope.

Module WsExample.

#[export] Instance globs : Globset := {
  glob_new p := if str_is_empty p then Err "empty" else Ok tt;
  globset_build _ := Ok tt;
  glob_is_match p s := p =s s
}.

#[export] Instance sha : Sha256 := External.Example.sha256.

#[export] Instance host : Host Fs := {
  rev_parse_head _ _ := None;
  process_id := 7;
  to_vec_pretty _ := Ok "revision";
  from_slice _ := Err "none"
}.

(** A tree from its nodes, the empty one if something is outside a directory. *)
Definition tree_of (nodes : list (list string * Node)) : Fs :=
  match bool_dec (tree_ok (list_to_map nodes)) true with
  | left ok => {| fs_tree := list_to_map nodes; fs_ok := ok |}
  | right _ => {| fs_tree := ∅; fs_ok := eq_refl |}
  end.

Definition policy : PathPolicy := {| pp_root := to_path ["w"]; pp_patterns := DEFAULT_PROTECTED |}.

Definition service : WorkspaceService :=
  {| sv_policy := policy;
     sv_store := {| rs_path := to_path ["s"; "id.revision.json"] |};
     sv_revision := {| wr_number := 1; wr_git_head := None; wr_worktree_id := "id";
                       wr_fingerprint := ""; wr_changed := [] |} |}.

Definition dirs : list (list string * Node) := [(["w"], Node_Dir); (["s"], Node_Dir)].

(** The text at a place of the tree an operation leaves. *)
Definition text_at (s : Fs * WorkspaceService) (l : list string) : option string :=
  tree_contents s.1 (to_path l).

Definition set_file (path bytes : string) : ChangeOp :=
  {| co_path := path; co_kind := ChangeOpKind_Replace bytes; co_pre := WritePrecondition_default |}.
Definition new_file (path bytes : string) : ChangeOp :=
  {| co_path := path; co_kind := ChangeOpKind_Create bytes; co_pre := WritePrecondition_default |}.

(** *** A tree without links *)

Definition linked (n : Node) : bool := match n with Node_Link _ => true | _ => false end.

Definition no_links (w : Fs) : bool := negb (existsb linked (map_to_list (fs_tree w)).*2).

Lemma no_links_at w p : no_links w = true → tree_link w p = None.
Proof.
  unfold no_links. rewrite negb_true_iff, existsb_false, Forall_forall. intros Hn.
  unfold tree_link, lookup_path. destruct (names p) as [l|]; [|done]. cbn.
  destruct l as [|x l]; [done|]. cbn. destruct (fs_tree w !! (x :: l)) as [n|] eqn:E; [|done].
  assert (n ∈ (map_to_list (fs_tree w)).*2) as Hin.
  { apply list_elem_of_fmap. exists (x :: l, n). by rewrite elem_of_map_to_list. }
  specialize (Hn n Hin). by destruct n.
Qed.

Lemma no_links_settled w : no_links w = true → settled w service.
Proof.
  intros Hn. split.
  - split; [by exists ["w"]|]. intros q _. by apply no_links_at.
  - split_and!; [intros q _; by apply no_links_at..|]. by vm_compute.
  - intros p _. by apply no_links_at.
Qed.

(** *** Links that stay inside are followed *)

Definition linked_tree : Fs :=
  tree_of (dirs ++ [(["w"; "real"], Node_Dir); (["w"; "real"; "a.txt"], Node_File "hi");
    (["w"; "in"], Node_Link ["w"; "real"]); (["w"; "out"], Node_Link ["s"])]).

Lemma root_direct : direct linked_tree (to_path ["w"]).
Proof.
  change (tree_direct linked_tree (to_path ["w"])). apply direct_linkless.
  intros k Hk. destruct k as [|x [|y k]]; [done| |by apply prefix_length in Hk; cbn in Hk; lia].
  apply prefix_cons_inv_1 in Hk as ->. by vm_compute.
Qed.

Lemma checked_path_confined_witness :
  check linked_tree policy "in/b/../a.txt" =
    Ok {| rp_relative := "in/a.txt"; rp_absolute := to_path ["w"; "real"; "a.txt"] |} ∧
  ∃ names, to_path ["w"; "real"; "a.txt"] = to_path ["w"] ++ names ∧ Forall plain names.
Proof.
  assert (check linked_tree policy "in/b/../a.txt" =
    Ok {| rp_relative := "in/a.txt"; rp_absolute := to_path ["w"; "real"; "a.txt"] |}) as H
    by (vm_compute; reflexivity).
  split; [exact H|].
  destruct (checked_path_confined linked_tree policy "in/b/../a.txt" _ (ex_intro _ ["w"] eq_refl)
    root_direct H)
    as (names & E & Hp & _).
  exists names. split; [exact E|exact Hp].
Defined.

Example link_outside_refused :
  check linked_tree policy "out/x" =
  Err (Error_OutsideRoot "out/x" "symlink `/w/out` points to `/s`").
Proof. vm_compute. reflexivity. Qed.

Example climbing_refused :
  check linked_tree policy "in/../../s" =
  Err (Error_OutsideRoot "in/../../s" "`..` climbs above the root").
Proof. vm_compute. reflexivity. Qed.

(** An absolute path below the root and a name with a colon are both taken, though
    neither is a resource the lease's selectors are checked for
    ([CorePort.resource_targets]). *)
Example absolute_inside_accepted :
  check linked_tree policy "/w/real/a.txt" =
    Ok {| rp_relative := "real/a.txt"; rp_absolute := to_path ["w"; "real"; "a.txt"] |} ∧
  check linked_tree policy "a:b" =
    Ok {| rp_relative := "a:b"; rp_absolute := to_path ["w"; "a:b"] |}.
Proof. vm_compute. split; reflexivity. Qed.

(** *** Transactions *)

Definition plain_tree : Fs := tree_of (dirs ++ [(["w"; "a.txt"], Node_File ("one" +:+ LF))]).

Definition two_steps : list ChangeOp := [set_file "a.txt" ("two" +:+ LF); new_file "a.txt" "x"].

Lemma transaction_atomic_witness :
  let run := apply_transaction two_steps (plain_tree, service) in
  settled plain_tree service ∧
  undone service two_steps plain_tree run.1.1
    (Error_StepFailed 1 (Error_Precondition "a.txt" "expected the path to be absent") true
       ["a.txt"] []).
Proof.
  intros run. assert (settled plain_tree service) as Hset
    by (apply no_links_settled; vm_compute; reflexivity).
  split; [exact Hset|].
  assert (run.2 = Err (Error_StepFailed 1
    (Error_Precondition "a.txt" "expected the path to be absent") true ["a.txt"] [])) as Hr
    by (vm_compute; reflexivity).
  destruct run as [[w' sv'] res] eqn:E. cbn in Hr. subst res.
  exact (transaction_atomic two_steps plain_tree service w' sv' _ Hset E).
Defined.

(** A file with mixed line endings, replaced and rolled back: the transaction reports
    that it was restored, but the restore gives it the endings of its replacement. *)
Definition mixed : string := "one" +:+ CRLF +:+ "two" +:+ LF.

Example rollback_changes_endings :
  let run := apply_transaction two_steps
    (tree_of (dirs ++ [(["w"; "a.txt"], Node_File mixed)]), service) in
  run.2 = Err (Error_StepFailed 1 (Error_Precondition "a.txt" "expected the path to be absent")
                 true ["a.txt"] []) ∧
  text_at run.1 ["w"; "a.txt"] = Some ("one" +:+ LF +:+ "two" +:+ LF).
Proof. vm_compute. split; reflexivity. Qed.

(** A link where the temporary file goes is followed: the write lands outside the
    root, and the file becomes a link to it. *)
Example temporary_link_followed :
  let w := tree_of (dirs ++ [(["etc"], Node_Dir); (["etc"; "conf"], Node_File "old");
    (["w"; "a.txt"], Node_File "one"); (["w"; ".modbit-tmp-7-a.txt"], Node_Link ["etc"; "conf"])]) in
  let run := atomic_replace "a.txt" "two" WritePrecondition_default (w, service) in
  is_ok run.2 = true ∧ text_at run.1 ["etc"; "conf"] = Some "two" ∧
  tree_link run.1.1 (to_path ["w"; "a.txt"]) = Some (to_path ["etc"; "conf"]).
Proof. vm_compute. split_and!; reflexivity. Qed.

(** A link in a directory is not listed as one: one that leaves the root makes the whole
    listing fail. *)
Example listing_fails_on_link :
  svc_list linked_tree service "" =
  Err (Error_OutsideRoot "out" "symlink `/w/out` points to `/s`").
Proof. vm_compute. reflexivity. Qed.

Example link_reported_as_target :
  (fst_kind <$> svc_stat linked_tree service "in") = Ok EntryKind_Dir.
Proof. vm_compute. reflexivity. Qed.

Example edit_and_move :
  let s := (plain_tree, service) in
  let s := (edit_by_match "a.txt" [{| te_old := "one"; te_new := "1" |}]
              WritePrecondition_default s).1 in
  let s := (svc_move "a.txt" "d/b.txt" WritePrecondition_default s).1 in
  text_at s ["w"; "a.txt"] = None ∧ text_at s ["w"; "d"; "b.txt"] = Some ("1" +:+ LF) ∧
  wr_number (sv_revision s.2) = 4.
Proof. vm_compute. split_and!; reflexivity. Qed.

End WsExample.
