(* ===== verification/Resume.v ===== *)
(** * Resuming a run

    [crates/protocol-state/src/lib.rs]: what a restarted Core knows of a task, put
    together from the projected tool calls ([ToolCall]), approvals ([Approval]) and
    leases ([Lease]), the boundary a resumed run continues from, and the cursors of
    the terminals. The theorems tie the boundary to the logs of the calls. *)

From S2P Require Import Prelude RustStr StateMachine ToolCall Approval Lease BTree.
From stdpp Require Import sorting.
#[local] Open Scope Z_scope.

(** ** Data *)

Definition PROTOCOL_STATE_VERSION : string := "protocol-state-1".

Inductive CallPhase :=
  | CallPhase_Proposed
  | CallPhase_AwaitingApproval (approval_id : Z)
  | CallPhase_InFlight
  | CallPhase_UnknownOutcome (reason : string).

Record PendingCall := {
  pc_tool_call_id : Z;
  pc_task_id : Z;
  pc_run_id : option Z;
  pc_turn_id : option Z;
  pc_call_id : option string;
  pc_tool_name : string;
  pc_effect_class : EffectClass;
  pc_arguments_hash : string;
  pc_arguments_ref : option string;
  pc_phase : CallPhase;
  pc_generation : Z
}.

Record PendingApproval := {
  pa_approval_id : Z;
  pa_tool_call_id : Z;
  pa_tool_name : string;
  pa_effect_class : EffectClass;
  pa_intent_hash : string;
  pa_expires_at : option Z;
  pa_expired : bool
}.

Record PendingQuestion := { pq_question_id : string; pq_call_id : string }.

Record ActiveLease := {
  al_lease_id : Z;
  al_generation : Z;
  al_effect_ceiling : EffectClass;
  al_execution_profile : string
}.

Record TerminalCursor := {
  tm_handle_id : string;
  tm_request_id : string;
  tm_argv : list string;
  tm_replay_generation : Z;
  tm_last_acknowledged_cursor : Z;
  tm_running : bool;
  tm_output_ref : option string;
  tm_exit_code : option Z;
  tm_tool_call_id : string
}.

Record BrowserCursor := {
  bc_session_id : string;
  bc_control_lease_generation : Z;
  bc_state_cursor : Z
}.

Record SandboxCursor := { sc_lease_id : string; sc_generation : Z }.

Inductive TerminalUpdate :=
  | TerminalUpdate_Created (handle_id request_id : string) (argv : list string)
      (replay_generation : Z) (tool_call_id : string)
  | TerminalUpdate_Advanced (handle_id : string) (cursor : Z) (running : bool)
  | TerminalUpdate_Exited (handle_id output_ref : string) (exit_code : option Z).

(** ** Terminals *)

Definition of_handle (handle_id : string) (t : TerminalCursor) : bool := tm_handle_id t =s handle_id.

Definition apply_terminal (terminals : list TerminalCursor) (update : TerminalUpdate)
    : list TerminalCursor :=
  match update with
  | TerminalUpdate_Created handle_id request_id argv replay_generation tool_call_id =>
      if existsb (of_handle handle_id) terminals then
        update_first (of_handle handle_id)
          (λ t, { t with tm_replay_generation ::= λ g, Z.max g replay_generation }) terminals
      else
        terminals ++
          [{| tm_handle_id := handle_id; tm_request_id := request_id; tm_argv := argv;
              tm_replay_generation := replay_generation; tm_last_acknowledged_cursor := 0;
              tm_running := true; tm_output_ref := None; tm_exit_code := None;
              tm_tool_call_id := tool_call_id |}]
  | TerminalUpdate_Advanced handle_id cursor running =>
      update_first (of_handle handle_id)
        (λ t, { t with tm_last_acknowledged_cursor ::= λ c, Z.max c cursor;
                       tm_running := running && negb (is_some (tm_output_ref t)) }) terminals
  | TerminalUpdate_Exited handle_id output_ref exit_code =>
      update_first (of_handle handle_id)
        (λ t, { t with tm_running := false; tm_output_ref := Some output_ref;
                       tm_exit_code := exit_code }) terminals
  end.

(** ** The boundary *)

Inductive ResumeBoundary :=
  | ResumeBoundary_TurnStart
  | ResumeBoundary_Executing (tool_call_ids : list Z)
  | ResumeBoundary_AwaitingApproval (approval_id tool_call_id : Z) (intent_hash : string)
  | ResumeBoundary_AwaitingAnswer (question_id : string)
  | ResumeBoundary_Reconciling (tool_call_ids : list Z).

Definition ResumeBoundary_label (self : ResumeBoundary) : string :=
  match self with
  | ResumeBoundary_TurnStart => "TURN_START"
  | ResumeBoundary_Executing _ => "EXECUTING"
  | ResumeBoundary_AwaitingApproval _ _ _ => "AWAITING_APPROVAL"
  | ResumeBoundary_AwaitingAnswer _ => "AWAITING_ANSWER"
  | ResumeBoundary_Reconciling _ => "RECONCILING"
  end.

Inductive Reconciliation :=
  | Reconciliation_ReplaySafe
  | Reconciliation_InspectTarget
  | Reconciliation_HoldForReceipt.

Definition Reconciliation_for_effect (effect : EffectClass) : Reconciliation :=
  match effect with
  | EffectClass_ReadOnly => Reconciliation_ReplaySafe
  | EffectClass_ReversibleWrite => Reconciliation_InspectTarget
  | EffectClass_ProtectedWrite | EffectClass_ExternalSideEffect
  | EffectClass_SecretAccess | EffectClass_Destructive => Reconciliation_HoldForReceipt
  end.

Definition Reconciliation_label (self : Reconciliation) : string :=
  match self with
  | Reconciliation_ReplaySafe => "REPLAY_SAFE"
  | Reconciliation_InspectTarget => "TARGET_INSPECTED"
  | Reconciliation_HoldForReceipt => "HELD_FOR_RECEIPT"
  end.

Definition restart_reason (boot_generation : Z) : string :=
  "core restarted (boot generation " +:+ pretty boot_generation +:+
  ") after the call was dispatched and before its result was acknowledged".

(** ** Reconstruction *)

Record Input := {
  in_tool_calls : list ToolCall;
  in_approvals : list Approval;
  in_leases : list CapabilityLease;
  in_question : option PendingQuestion;
  in_reconciled : list Z;
  in_terminals : list TerminalCursor;
  in_now : Z
}.

Definition Input_default : Input :=
  {| in_tool_calls := []; in_approvals := []; in_leases := []; in_question := None;
     in_reconciled := []; in_terminals := []; in_now := 0 |}.

Record ProtocolState := {
  ps_version : string;
  ps_task_id : Z;
  ps_calls : list PendingCall;
  ps_approvals : list PendingApproval;
  ps_question : option PendingQuestion;
  ps_leases : list ActiveLease;
  ps_reconciled : list Z;
  ps_terminals : list TerminalCursor;
  ps_browsers : list BrowserCursor;
  ps_sandboxes : list SandboxCursor
}.

(** The approval a call waits for: its own, else the latest asked for it. *)
Definition awaited (approvals : list Approval) (c : ToolCall) : option Z :=
  match tc_approval_id c with
  | Some a => Some a
  | None =>
      ap_approval_id <$> List.find (λ a, ap_tool_call_id a =? tc_tool_call_id c) (rev approvals)
  end.

Definition phase_of (approvals : list Approval) (c : ToolCall) : option CallPhase :=
  match tc_state c with
  | ToolCallState_Proposed | ToolCallState_Validated | ToolCallState_PolicyChecked =>
      Some CallPhase_Proposed
  | ToolCallState_ApprovalPending => CallPhase_AwaitingApproval <$> awaited approvals c
  | ToolCallState_Dispatched | ToolCallState_Streaming => Some CallPhase_InFlight
  | ToolCallState_UnknownOutcome =>
      Some (CallPhase_UnknownOutcome (default "" (tc_unknown_outcome_reason c)))
  | ToolCallState_Succeeded | ToolCallState_Failed | ToolCallState_Cancelled => None
  end.

Definition pending_call (approvals : list Approval) (c : ToolCall) : option PendingCall :=
  phase ← phase_of approvals c;
  Some {| pc_tool_call_id := tc_tool_call_id c; pc_task_id := tc_task_id c;
          pc_run_id := tc_run_id c; pc_turn_id := tc_turn_id c; pc_call_id := tc_call_id c;
          pc_tool_name := tc_tool_name c; pc_effect_class := tc_effect_class c;
          pc_arguments_hash := tc_arguments_hash c; pc_arguments_ref := tc_arguments_ref c;
          pc_phase := phase; pc_generation := tc_generation c |}.

(** The derived order of [Option<usize>]. *)
Definition option_lt (a b : option nat) : bool :=
  match a, b with
  | None, Some _ => true
  | Some a, Some b => (a <? b)%nat
  | _, None => false
  end.

Definition of_task (task : Z) (reconciled : list Z) (c : ToolCall) : bool :=
  (tc_task_id c =? task) && negb (existsb (Z.eqb (tc_tool_call_id c)) reconciled).

Definition order_of (input : Input) (c : PendingCall) : option nat :=
  position (λ id, id =? pc_tool_call_id c) (tc_tool_call_id <$> in_tool_calls input).

Definition pending_calls (task : Z) (input : Input) : list PendingCall :=
  let calls := omap (pending_call (in_approvals input))
    (List.filter (of_task task (in_reconciled input)) (in_tool_calls input)) in
  let calls := sort_by (λ a b, pc_tool_call_id b <? pc_tool_call_id a) calls in
  sort_by (λ a b, option_lt (order_of input a) (order_of input b)) calls.

Definition pending_approvals (task : Z) (input : Input) : list PendingApproval :=
  (λ a, {| pa_approval_id := ap_approval_id a; pa_tool_call_id := ap_tool_call_id a;
           pa_tool_name := ap_tool_name a; pa_effect_class := ap_effect_class a;
           pa_intent_hash := ap_intent_hash a; pa_expires_at := ap_expires_at a;
           pa_expired := match ap_expires_at a with Some e => e <=? in_now input | None => false end |})
  <$> List.filter (λ a, (ap_task_id a =? task) && bool_decide (ap_state a = ApprovalState_Requested))
        (in_approvals input).

Definition active_leases (task : Z) (input : Input) : list ActiveLease :=
  (λ l, {| al_lease_id := cl_lease_id l; al_generation := cl_generation l;
           al_effect_ceiling := cl_effect_ceiling l;
           al_execution_profile := cl_execution_profile l |})
  <$> List.filter (λ l, (cl_task_id l =? task) && bool_decide (cl_state l = LeaseState_Active) &&
        match cl_expires_at l with Some e => in_now input <? e | None => true end)
        (in_leases input).

Definition reconstruct (task : Z) (input : Input) : ProtocolState :=
  {| ps_version := PROTOCOL_STATE_VERSION; ps_task_id := task;
     ps_calls := pending_calls task input; ps_approvals := pending_approvals task input;
     ps_question := in_question input; ps_leases := active_leases task input;
     ps_reconciled := in_reconciled input; ps_terminals := in_terminals input;
     ps_browsers := []; ps_sandboxes := [] |}.

Definition ProtocolState_empty (task : Z) : ProtocolState := reconstruct task Input_default.

(** Whether a call is the run's; every call is when no run is named, and a call of no
    run is every run's. *)
Definition mine (run : option Z) (run_id : option Z) : bool :=
  negb (is_some run) || negb (is_some run_id) || bool_decide (run_id = run).

Definition unsettled (c : PendingCall) : bool :=
  match pc_phase c with CallPhase_InFlight | CallPhase_UnknownOutcome _ => true | _ => false end.

Definition awaiting (c : PendingCall) : option (PendingCall * Z) :=
  match pc_phase c with CallPhase_AwaitingApproval a => Some (c, a) | _ => None end.

(** [find_map]. *)
Fixpoint find_map {A B} (f : A → option B) (l : list A) : option B :=
  match l with
  | [] => None
  | x :: l => match f x with Some y => Some y | None => find_map f l end
  end.

Definition boundary (self : ProtocolState) (run : option Z) : ResumeBoundary :=
  let calls := List.filter (λ c, mine run (pc_run_id c)) (ps_calls self) in
  let reconcile := pc_tool_call_id <$> List.filter unsettled calls in
  match reconcile with
  | _ :: _ => ResumeBoundary_Reconciling reconcile
  | [] =>
      match find_map awaiting calls with
      | Some (c, approval_id) =>
          ResumeBoundary_AwaitingApproval approval_id (pc_tool_call_id c) (pc_arguments_hash c)
      | None =>
          match ps_question self with
          | Some q => ResumeBoundary_AwaitingAnswer (pq_question_id q)
          | None =>
              let executing := pc_tool_call_id <$> calls in
              match executing with
              | [] => ResumeBoundary_TurnStart
              | _ => ResumeBoundary_Executing executing
              end
          end
      end
  end.

Definition find_call (self : ProtocolState) (run : Z) (call_id tool_name arguments_hash : string)
    : option PendingCall :=
  List.find (λ c, bool_decide (pc_run_id c = Some run) && bool_decide (pc_call_id c = Some call_id) &&
                  (pc_tool_name c =s tool_name) && (pc_arguments_hash c =s arguments_hash))
    (rev (ps_calls self)).

Definition call_by_id (self : ProtocolState) (id : Z) : option PendingCall :=
  List.find (λ c, pc_tool_call_id c =? id) (ps_calls self).

Definition is_quiescent (self : ProtocolState) : bool :=
  match ps_calls self, ps_approvals self, ps_question self with
  | [], [], None => true
  | _, _, _ => false
  end.

(** ** The order of the calls *)

Section Sorted.
  Context {A : Type} (lt : A → A → bool).
  Context (asym : ∀ a b, lt a b = true → lt b a = false).
  Context (trans : ∀ a b c, lt b a = false → lt c b = false → lt c a = false).

#[local] Abbreviation R := (λ a b, lt b a = false).

Lemma sorted_insert_sorted x l : StronglySorted R l → StronglySorted R (sorted_insert lt x l).
Proof.
  induction 1 as [|y l Hl IH Hy]; cbn; [by repeat constructor|].
  destruct (lt x y) eqn:E.
  - constructor; [by constructor|]. constructor; [by apply asym|].
    eapply Forall_impl; [exact Hy|]. intros z Hz. cbn in Hz. eauto.
  - constructor; [done|]. rewrite sorted_insert_perm. by constructor.
Qed.

Lemma sort_by_sorted l : StronglySorted R (sort_by lt l).
Proof.
  unfold sort_by. assert (StronglySorted R []) as Hn by constructor.
  revert Hn. generalize (@nil A). induction l as [|x l IH]; intros acc Ha; cbn; [done|].
  by apply IH, sorted_insert_sorted.
Qed.

Lemma strict_distinct k x y :
  StronglySorted (λ a b, lt a b = true) k → x ∈ k → y ∈ k →
  lt x y = false → lt y x = false → x = y.
Proof.
  intros Hk. revert x y. induction Hk as [|z k Hk IH Hz]; [set_solver|].
  rewrite Forall_forall in Hz. intros x y Hx Hy Exy Eyx.
  apply elem_of_cons in Hx as [->|Hx]; apply elem_of_cons in Hy as [->|Hy]; [done| | |eauto].
  - by rewrite (Hz _ Hy) in Exy.
  - by rewrite (Hz _ Hx) in Eyx.
Qed.

(** A list that is already in strict order is what sorting any permutation of it gives. *)
Lemma sort_by_unique l k :
  l ≡ₚ k → StronglySorted (λ a b, lt a b = true) k → sort_by lt l = k.
Proof.
  intros Hp Hk. apply (StronglySorted_unique_strong R).
  - intros x1 x2 H1 H2 E1 E2. rewrite sort_by_perm, Hp in H1. by apply (strict_distinct k).
  - apply sort_by_sorted.
  - induction Hk as [|z k' Hk IH Hz] in l, Hp |- *; constructor; [by eapply IH|].
    eapply Forall_impl; [exact Hz|]. intros y. apply asym.
  - by rewrite sort_by_perm.
Qed.

End Sorted.

Lemma option_lt_asym a b : option_lt a b = true → option_lt b a = false.
Proof. destruct a, b; cbn [option_lt]; try done. rewrite Nat.ltb_lt, Nat.ltb_ge. lia. Qed.

Lemma option_lt_trans a b c : option_lt b a = false → option_lt c b = false → option_lt c a = false.
Proof. destruct a, b, c; cbn [option_lt]; try done. rewrite !Nat.ltb_ge. lia. Qed.

Lemma position_app_notin pre l id :
  id ∉ pre → position (λ x, x =? id) (pre ++ l) = Nat.add (length pre) <$> position (λ x, x =? id) l.
Proof.
  induction pre as [|x pre IH]; cbn; intros Hn; [by destruct (position _ l)|].
  apply not_elem_of_cons in Hn as [Hx Hn]. destruct (Z.eqb_spec x id); [congruence|].
  rewrite IH by done. by destruct (position _ l).
Qed.

Lemma position_ids_sorted (ids : list Z) : NoDup ids →
  StronglySorted (λ a b, option_lt (position (λ x, x =? a) ids) (position (λ x, x =? b) ids) = true) ids.
Proof.
  intros Hn. assert (∀ pre l, ids = pre ++ l →
    StronglySorted (λ a b, option_lt (position (λ x, x =? a) ids) (position (λ x, x =? b) ids) = true) l)
    as Hg; [|by apply (Hg [])].
  intros pre l; revert pre. induction l as [|a l IH]; intros pre E; constructor.
  - apply (IH (pre ++ [a])). by rewrite <- app_assoc.
  - apply Forall_forall. intros b Hb. rewrite E in Hn. apply NoDup_app in Hn as (_ & Hd & Hn).
    apply NoDup_cons in Hn as [Ha Hn].
    rewrite E, !position_app_notin by (intros Hp%Hd; set_solver). cbn. rewrite Z.eqb_refl.
    destruct (Z.eqb_spec a b); [congruence|].
    destruct (position (λ x, x =? b) l) as [i|] eqn:Ep; cbn -[Nat.ltb]; [apply Nat.ltb_lt; lia|].
    exfalso. clear -Hb Ep. induction l as [|x l IH]; [set_solver|]. cbn in Ep.
    destruct (Z.eqb_spec x b); [done|]. apply elem_of_cons in Hb as [->|Hb]; [done|].
    destruct (position _ l) eqn:E'; [done|]. by apply IH.
Qed.

Lemma pending_call_id approvals c p : pending_call approvals c = Some p →
  pc_tool_call_id p = tc_tool_call_id c ∧ pc_run_id p = tc_run_id c ∧
  pc_arguments_hash p = tc_arguments_hash c ∧ phase_of approvals c = Some (pc_phase p).
Proof. unfold pending_call. destruct (phase_of approvals c); cbn; [|done]. by intros [= <-]. Qed.

(** The calls come out in the order the store gave them: what is sorted for is undone. *)
Lemma pending_calls_in_order task input :
  NoDup (tc_tool_call_id <$> in_tool_calls input) →
  pending_calls task input =
  omap (pending_call (in_approvals input))
    (List.filter (of_task task (in_reconciled input)) (in_tool_calls input)).
Proof.
  intros Hn. unfold pending_calls. apply sort_by_unique.
  - intros a b. apply option_lt_asym.
  - intros a b c. apply option_lt_trans.
  - apply sort_by_perm.
  - unfold order_of. apply position_ids_sorted in Hn. revert Hn.
    generalize (tc_tool_call_id <$> in_tool_calls input) at 1 2 4 5. intros ids.
    induction (in_tool_calls input) as [|c l IH]; cbn; intros Hs; [constructor|].
    apply StronglySorted_inv in Hs as [Hs Hc]. specialize (IH Hs).
    destruct (of_task _ _ c); [|done]. cbn.
    destruct (pending_call _ c) as [p|] eqn:Ep; [|done].
    apply pending_call_id in Ep as (Ep & _). constructor; [done|].
    apply Forall_forall. intros q Hq. apply list_elem_of_omap in Hq as (d & Hd & Hq).
    apply pending_call_id in Hq as (Hq & _). rewrite Ep, Hq.
    rewrite Forall_forall in Hc. apply Hc. apply list_elem_of_fmap. exists d. split; [done|].
    apply list_elem_of_In, List.filter_In in Hd as [Hd _]. by apply list_elem_of_In.
Qed.

(** ** What the logs say *)

(** The call was sent to the effector. *)
Definition sent (log : list (stored ToolCallEvent)) : bool :=
  existsb (λ e, match st_event e with ToolCallDispatched => true | _ => false end) log.

(** The call has a result, a refusal or a cancellation. *)
Definition ended (log : list (stored ToolCallEvent)) : bool :=
  existsb (λ e, match toolcall_target (st_event e) with
                | Some (ToolCallState_Succeeded | ToolCallState_Failed | ToolCallState_Cancelled) => true
                | _ => false
                end) log.

(** What the state of a projected call says about its log. *)
Definition history (log : list (stored ToolCallEvent)) (c : ToolCall) : Prop :=
  match tc_state c with
  | ToolCallState_Proposed | ToolCallState_Validated | ToolCallState_PolicyChecked
  | ToolCallState_ApprovalPending => sent log = false ∧ ended log = false
  | ToolCallState_Dispatched | ToolCallState_Streaming | ToolCallState_UnknownOutcome =>
      sent log = true ∧ ended log = false
  | ToolCallState_Succeeded | ToolCallState_Failed | ToolCallState_Cancelled => ended log = true
  end.

Lemma history_apply pre c ev c' :
  history pre c → ToolCall_apply (st_event ev) (st_at ev) c = (c', Ok tt) → history (pre ++ [ev]) c'.
Proof.
  unfold history, sent, ended. rewrite !existsb_app. cbn. rewrite !orb_false_r.
  intros Hc (_ & _ & H)%toolcall_apply_ok.
  destruct (st_event ev) as [| |[] ? []| | | | | | |]; cbn [toolcall_target] in *;
    destruct H as (Hcan & Hst & _); rewrite Hst; clear Hst;
    destruct (tc_state c); cbn in *; try discriminate Hcan;
    rewrite ?orb_true_r, ?orb_false_r; naive_solver.
Qed.

Lemma projected_history id log c :
  numbered 1 log → project_log id None log = Ok (Some c) → history log c.
Proof.
  apply project_history.
  - intros ev a. cbn. unfold history. destruct (st_event ev) eqn:E; cbn; intros; simplify_eq/=.
    by rewrite E.
  - intros pre a ev a'. cbn. apply history_apply.
Qed.

(** ** The boundary and the logs *)

Section Logs.
  Context (logs : Z → list (stored ToolCallEvent)).

(** Every call handed over is the projection of its log. *)
Definition logged (input : Input) : Prop :=
  Forall (λ c, numbered 1 (logs (tc_tool_call_id c)) ∧
               project_log (tc_tool_call_id c) None (logs (tc_tool_call_id c)) = Ok (Some c))
    (in_tool_calls input).

(** The calls of the task and of the run, or of no run, that were not reconciled. *)
Definition run_calls (task : Z) (input : Input) (run : option Z) : list ToolCall :=
  List.filter (λ c, bool_decide (tc_task_id c = task ∧ tc_tool_call_id c ∉ in_reconciled input ∧
                                 (run = None ∨ tc_run_id c = None ∨ tc_run_id c = run)))
    (in_tool_calls input).

Lemma run_calls_filter task input run :
  List.filter (λ c, of_task task (in_reconciled input) c && mine run (tc_run_id c)) (in_tool_calls input) =
  run_calls task input run.
Proof.
  apply List.filter_ext. intros c. unfold of_task, mine. apply eq_true_iff_eq.
  rewrite bool_decide_eq_true, !andb_true_iff, !orb_true_iff, !negb_true_iff, Z.eqb_eq,
    bool_decide_eq_true, existsb_false, Forall_forall.
  assert ((∀ x, x ∈ in_reconciled input → (tc_tool_call_id c =? x) = false) ↔
    tc_tool_call_id c ∉ in_reconciled input) as ->.
  { split; [intros H Hin; specialize (H _ Hin); lia|]. intros H x Hx. apply Z.eqb_neq. intros E; apply H; by rewrite E. }
  destruct run, (tc_run_id c); cbn; naive_solver.
Qed.

(** Sent, and nothing is known of what came of it. *)
Definition unacknowledged (c : ToolCall) : bool :=
  sent (logs (tc_tool_call_id c)) && negb (ended (logs (tc_tool_call_id c))).

(** Not sent and not over. *)
Definition unsent (c : ToolCall) : bool :=
  negb (sent (logs (tc_tool_call_id c))) && negb (ended (logs (tc_tool_call_id c))).

Definition waiting (c : ToolCall) : bool := bool_decide (tc_state c = ToolCallState_ApprovalPending).

(** No call waits for an approval anybody could give. *)
Definition nobody_asked (input : Input) (calls : list ToolCall) : Prop :=
  Forall (λ c, waiting c = true → awaited (in_approvals input) c = None) calls.

(** Where a run continues, read off the logs of its calls. *)
Definition resumes (task : Z) (input : Input) (run : option Z) (b : ResumeBoundary) : Prop :=
  let calls := run_calls task input run in
  let unknown := tc_tool_call_id <$> List.filter unacknowledged calls in
  let ready := tc_tool_call_id <$> List.filter (λ c, unsent c && negb (waiting c)) calls in
  match b with
  | ResumeBoundary_Reconciling ids => ids = unknown ∧ unknown ≠ []
  | ResumeBoundary_AwaitingApproval approval_id id intent =>
      unknown = [] ∧
      ∃ c l1 l2, calls = l1 ++ c :: l2 ∧ nobody_asked input l1 ∧ waiting c = true ∧ unsent c = true ∧
        tc_tool_call_id c = id ∧ tc_arguments_hash c = intent ∧
        awaited (in_approvals input) c = Some approval_id
  | ResumeBoundary_AwaitingAnswer question =>
      unknown = [] ∧ nobody_asked input calls ∧ pq_question_id <$> in_question input = Some question
  | ResumeBoundary_Executing ids =>
      unknown = [] ∧ nobody_asked input calls ∧ in_question input = None ∧ ids = ready ∧ ready ≠ []
  | ResumeBoundary_TurnStart =>
      unknown = [] ∧ nobody_asked input calls ∧ in_question input = None ∧ ready = []
  end.

Lemma filter_pending_mine approvals run l :
  List.filter (λ c, mine run (pc_run_id c)) (omap (pending_call approvals) l) =
  omap (pending_call approvals) (List.filter (λ c, mine run (tc_run_id c)) l).
Proof.
  induction l as [|c l IH]; cbn; [done|].
  destruct (pending_call approvals c) as [p|] eqn:E; cbn.
  - destruct (pending_call_id _ _ _ E) as (_ & -> & _).
    destruct (mine run (tc_run_id c)); cbn; rewrite ?E; by rewrite IH.
  - destruct (mine run (tc_run_id c)); cbn; rewrite ?E; by rewrite IH.
Qed.

Lemma filter_filter {A} (p q : A → bool) l :
  List.filter p (List.filter q l) = List.filter (λ x, q x && p x) l.
Proof.
  induction l as [|x l IH]; cbn; [done|]. destruct (q x); cbn; [|done].
  destruct (p x); by rewrite IH.
Qed.

#[local] Abbreviation known := (λ c : ToolCall, history (logs (tc_tool_call_id c)) c).

(** What a call's log says about the phase it is given. *)
Lemma phase_history approvals c : known c →
  match phase_of approvals c with
  | Some CallPhase_Proposed => unsent c = true ∧ waiting c = false ∧ unacknowledged c = false
  | Some (CallPhase_AwaitingApproval a) =>
      unsent c = true ∧ waiting c = true ∧ unacknowledged c = false ∧ awaited approvals c = Some a
  | Some _ => unsent c = false ∧ waiting c = false ∧ unacknowledged c = true
  | None =>
      unacknowledged c = false ∧ unsent c && negb (waiting c) = false ∧
      (waiting c = true → awaited approvals c = None)
  end.
Proof.
  unfold history, phase_of, unsent, unacknowledged, waiting. intros Hc.
  destruct (tc_state c); (rewrite Hc || destruct Hc as [-> ->]); rewrite ?andb_false_r; cbn; try done.
  destruct (awaited approvals c); done.
Qed.

(** The first call of [calls] that waits for an approval somebody can give. *)
Definition first_asked (approvals : list Approval) (calls : list ToolCall) (p : PendingCall) (a : Z)
    : Prop :=
  ∃ c l1 l2, calls = l1 ++ c :: l2 ∧
    Forall (λ c, waiting c = true → awaited approvals c = None) l1 ∧
    waiting c = true ∧ unsent c = true ∧ pc_tool_call_id p = tc_tool_call_id c ∧
    pc_arguments_hash p = tc_arguments_hash c ∧ awaited approvals c = Some a.

Lemma first_asked_cons approvals c calls p a :
  (waiting c = true → awaited approvals c = None) →
  first_asked approvals calls p a → first_asked approvals (c :: calls) p a.
Proof.
  intros Hc (c' & l1 & l2 & -> & H1 & H). exists c', (c :: l1), l2.
  split; [done|]. split; [by constructor|done].
Qed.

Lemma pending_phases approvals calls :
  Forall known calls →
  pc_tool_call_id <$> List.filter unsettled (omap (pending_call approvals) calls) =
    tc_tool_call_id <$> List.filter unacknowledged calls ∧
  (List.filter unacknowledged calls = [] →
   match find_map awaiting (omap (pending_call approvals) calls) with
   | Some (p, a) => first_asked approvals calls p a
   | None =>
       Forall (λ c, waiting c = true → awaited approvals c = None) calls ∧
       pc_tool_call_id <$> omap (pending_call approvals) calls =
       tc_tool_call_id <$> List.filter (λ c, unsent c && negb (waiting c)) calls
   end).
Proof.
  induction 1 as [|c calls Hc _ [IH1 IH2]]; [by repeat split|].
  apply (phase_history approvals) in Hc. cbn [omap list_omap List.filter].
  destruct (pending_call approvals c) as [p|] eqn:Ep.
  - destruct (pending_call_id _ _ _ Ep) as (Hid & _ & Hh & E). rewrite E in Hc. clear Ep.
    cbn [List.filter find_map]. unfold unsettled at 1, awaiting at 1.
    destruct (pc_phase p) as [|a| |r]; destruct Hc as (H1 & H2 & H3); cbn [fmap list_fmap].
    + rewrite H3, H1, H2. cbn. split; [done|]. intros H%IH2.
      destruct (find_map awaiting _) as [[q a]|].
      * apply first_asked_cons; [by rewrite H2|done].
      * destruct H as [Ha Hb]. split; [constructor; [by rewrite H2|done]|]. cbn. by rewrite Hid, Hb.
    + destruct H3 as [H3 H4]. rewrite H3. split; [done|]. intros _.
      exists c, [], calls. by repeat split.
    + rewrite H3. cbn. rewrite Hid, IH1. done.
    + rewrite H3. cbn. rewrite Hid, IH1. done.
  - assert (phase_of approvals c = None) as E by (by unfold pending_call in Ep; destruct (phase_of approvals c)).
    rewrite E in Hc. destruct Hc as (H1 & H2 & H3). rewrite H1, H2. split; [done|]. intros H%IH2.
    destruct (find_map awaiting _) as [[q a]|]; [by apply first_asked_cons|].
    destruct H as [Ha Hb]. split; [by constructor|done].
Qed.

(** C21: what a restarted Core continues with. When the calls handed over are the
    projections of their logs, the boundary of the resumed run is what the logs say:
    as long as a call of the run was sent and has no result, and was not reconciled,
    exactly those calls are reconciled and nothing else happens; only then does the
    run wait for the first approval still asked for, with the intent of that call,
    then for an open question, and only then are calls entered again, which are
    exactly the calls that were never sent. *)
Theorem resume_boundary_exact task input run :
  NoDup (tc_tool_call_id <$> in_tool_calls input) → logged input →
  resumes task input run (boundary (reconstruct task input) run).
Proof.
  intros Hn Hl. unfold boundary, resumes. cbn [ps_calls ps_question reconstruct].
  rewrite pending_calls_in_order, filter_pending_mine, filter_filter, run_calls_filter by done.
  assert (Forall known (run_calls task input run)) as Hk.
  { apply Forall_forall. intros c Hc. unfold run_calls in Hc.
    apply list_elem_of_In, List.filter_In in Hc as [Hc%list_elem_of_In _].
    unfold logged in Hl. rewrite Forall_forall in Hl. destruct (Hl c Hc). by eapply projected_history. }
  destruct (pending_phases (in_approvals input) _ Hk) as [H1 H2]. rewrite H1.
  destruct (List.filter unacknowledged (run_calls task input run)) as [|c l] eqn:Eu; [|done].
  cbn [fmap list_fmap]. specialize (H2 eq_refl).
  destruct (find_map awaiting _) as [[p a]|].
  - split; [done|]. destruct H2 as (c & l1 & l2 & E & Ha & Hw & Hs & Hi & Hh & Hx).
    exists c, l1, l2. by repeat split.
  - destruct H2 as [Ha Hb]. destruct (in_question input) as [q|]; [done|].
    rewrite Hb. generalize (tc_tool_call_id <$> List.filter (λ c, unsent c && negb (waiting c))
      (run_calls task input run)). by intros [|].
Qed.

End Logs.

(** ** Terminals and replayed logs *)

Definition handle_of (u : TerminalUpdate) : string :=
  match u with
  | TerminalUpdate_Created h _ _ _ _ | TerminalUpdate_Advanced h _ _ | TerminalUpdate_Exited h _ _ => h
  end.

Definition is_created (u : TerminalUpdate) : bool :=
  match u with TerminalUpdate_Created _ _ _ _ _ => true | _ => false end.

(** Only terminals that were created are updated. *)
Fixpoint announced (seen : list string) (log : list TerminalUpdate) : Prop :=
  match log with
  | [] => True
  | u :: log =>
      (is_created u = true ∨ handle_of u ∈ seen) ∧
      announced (handle_of u :: seen) log
  end.

(** What an update does to the terminal it names. *)
Definition act (u : TerminalUpdate) (t : TerminalCursor) : TerminalCursor :=
  if of_handle (handle_of u) t then
    match u with
    | TerminalUpdate_Created _ _ _ g _ => { t with tm_replay_generation ::= λ g', Z.max g' g }
    | TerminalUpdate_Advanced _ cursor running =>
        { t with tm_last_acknowledged_cursor ::= λ c, Z.max c cursor;
                 tm_running := running && negb (is_some (tm_output_ref t)) }
    | TerminalUpdate_Exited _ output_ref exit_code =>
        { t with tm_running := false; tm_output_ref := Some output_ref;
                 tm_exit_code := exit_code }
    end
  else t.

Definition acts (log : list TerminalUpdate) (t : TerminalCursor) : TerminalCursor :=
  foldl (λ t u, act u t) t log.

Lemma act_handle u t : tm_handle_id (act u t) = tm_handle_id t.
Proof. unfold act. destruct (of_handle _ t), u; done. Qed.

Lemma acts_cons u log t : acts (u :: log) t = acts log (act u t).
Proof. done. Qed.

Lemma acts_snoc u log t : acts (log ++ [u]) t = act u (acts log t).
Proof. unfold acts. by rewrite foldl_app. Qed.

Lemma acts_handle log t : tm_handle_id (acts log t) = tm_handle_id t.
Proof.
  revert t; induction log as [|u log IH]; intros t; [done|]. by rewrite acts_cons, IH, act_handle.
Qed.

(** A field that only grows. *)
Definition fold_max (f : TerminalUpdate → option Z) (log : list TerminalUpdate) (z : Z) : Z :=
  foldl (λ z u, match f u with Some g => Z.max z g | None => z end) z log.

Lemma fold_max_max f log z w : fold_max f log (Z.max z w) = Z.max z (fold_max f log w).
Proof.
  unfold fold_max. revert w. induction log as [|u log IH]; intros w; cbn; [done|].
  destruct (f u) as [g|]; [|done]. by rewrite <- Z.max_assoc, IH.
Qed.

Lemma fold_max_idem f log z : fold_max f log (fold_max f log z) = fold_max f log z.
Proof.
  assert (z ≤ fold_max f log z) as Hz.
  { rewrite <- (Z.max_id z) at 2. rewrite fold_max_max. lia. }
  rewrite <- (Z.max_l _ _ Hz), fold_max_max. lia.
Qed.

Definition generation_of (h : string) (u : TerminalUpdate) : option Z :=
  match u with TerminalUpdate_Created h' _ _ g _ => if h =s h' then Some g else None | _ => None end.

Definition cursor_of (h : string) (u : TerminalUpdate) : option Z :=
  match u with TerminalUpdate_Advanced h' c _ => if h =s h' then Some c else None | _ => None end.

(** Whether it runs and what it left. *)
Definition outcome : Type := bool * option string * option Z.

Definition tm_outcome (t : TerminalCursor) : outcome :=
  (tm_running t, tm_output_ref t, tm_exit_code t).

Definition outcome_step (h : string) (x : outcome) (u : TerminalUpdate) : outcome :=
  let '(r, o, c) := x in
  match u with
  | TerminalUpdate_Advanced h' _ running =>
      if h =s h' then (running && negb (is_some o), o, c) else x
  | TerminalUpdate_Exited h' o' c' => if h =s h' then (false, Some o', c') else x
  | _ => x
  end.

(** What a log does to the outcome: it settles it, or it says whether a terminal that
    has left nothing runs, or it says nothing. *)
Inductive outcome_effect (f : outcome → outcome) : Prop :=
  | effect_exited o c : (∀ x, f x = (false, Some o, c)) → outcome_effect f
  | effect_advanced b : (∀ r o c, f (r, o, c) = (b && negb (is_some o), o, c)) → outcome_effect f
  | effect_none : (∀ x, f x = x) → outcome_effect f.

Lemma outcome_classified h log : outcome_effect (λ x, foldl (outcome_step h) x log).
Proof.
  induction log as [|u log IH] using rev_ind; [by apply effect_none|].
  destruct IH as [o c E|b E|E], u as [?|h' ? running|h' o' c'];
    try (destruct (h =s h') eqn:Eh);
    first [ eapply effect_exited; intros [[r' o1] c1]; rewrite foldl_app, E; cbn; rewrite ?Eh, ?andb_false_r; by cbn
          | eapply effect_advanced; intros r' o1 c1; rewrite foldl_app, E; cbn; rewrite ?Eh; by cbn
          | eapply effect_none; intros x; rewrite foldl_app, E; destruct x as [[]]; cbn; rewrite ?Eh; by cbn ].
Qed.

Lemma outcome_idem h log x :
  foldl (outcome_step h) (foldl (outcome_step h) x log) log = foldl (outcome_step h) x log.
Proof.
  destruct (outcome_classified h log) as [o c E|b E|E]; [by rewrite !E| |by rewrite !E].
  destruct x as [[r o] c]. by rewrite !E.
Qed.

Lemma of_handle_sym h t : of_handle h t = (tm_handle_id t =s h).
Proof. done. Qed.

(** The fields of a terminal go their own way. *)
Lemma acts_fields log t :
  tm_replay_generation (acts log t) =
    fold_max (generation_of (tm_handle_id t)) log (tm_replay_generation t) ∧
  tm_last_acknowledged_cursor (acts log t) =
    fold_max (cursor_of (tm_handle_id t)) log (tm_last_acknowledged_cursor t) ∧
  tm_outcome (acts log t) = foldl (outcome_step (tm_handle_id t)) (tm_outcome t) log ∧
  tm_handle_id (acts log t) = tm_handle_id t ∧ tm_request_id (acts log t) = tm_request_id t ∧
  tm_argv (acts log t) = tm_argv t ∧ tm_tool_call_id (acts log t) = tm_tool_call_id t.
Proof.
  revert t; induction log as [|u log IH]; intros t; [done|]. rewrite acts_cons.
  destruct (IH (act u t)) as (-> & -> & -> & -> & -> & -> & ->). rewrite act_handle.
  unfold act, of_handle. cbn [fold_max foldl].
  destruct u as [h ? ? g ?|h c r|h o c]; cbn [handle_of]; unfold fold_max; cbn;
    destruct (tm_handle_id t =s h); done.
Qed.

Lemma terminal_ext t t' :
  tm_replay_generation t = tm_replay_generation t' →
  tm_last_acknowledged_cursor t = tm_last_acknowledged_cursor t' → tm_outcome t = tm_outcome t' →
  tm_handle_id t = tm_handle_id t' → tm_request_id t = tm_request_id t' → tm_argv t = tm_argv t' →
  tm_tool_call_id t = tm_tool_call_id t' → t = t'.
Proof. destruct t, t'. unfold tm_outcome. cbn. intros. by simplify_eq. Qed.

Lemma acts_idem log t : acts log (acts log t) = acts log t.
Proof.
  destruct (acts_fields log t) as (E1 & E2 & E3 & E4 & E5 & E6 & E7).
  destruct (acts_fields log (acts log t)) as (F1 & F2 & F3 & F4 & F5 & F6 & F7).
  apply terminal_ext; [| | |congruence..].
  - rewrite F1, E4, E1. apply fold_max_idem.
  - rewrite F2, E4, E2. apply fold_max_idem.
  - rewrite F3, E4, E3. apply outcome_idem.
Qed.

Lemma acts_generation log t : tm_replay_generation t ≤ tm_replay_generation (acts log t).
Proof.
  destruct (acts_fields log t) as (-> & _).
  rewrite <- (Z.max_id (tm_replay_generation t)) at 2. rewrite fold_max_max. lia.
Qed.

Abbreviation handles s := (tm_handle_id <$> s).

Lemma act_other u t : handle_of u ≠ tm_handle_id t → act u t = t.
Proof. intros H. unfold act, of_handle. destruct (String.eqb_spec (tm_handle_id t) (handle_of u)); congruence. Qed.

Lemma acts_other log t : Forall (λ u, handle_of u ≠ tm_handle_id t) log → acts log t = t.
Proof. induction 1 as [|u log Hu _ IH]; [done|]. by rewrite acts_cons, act_other. Qed.

(** On the terminals it knows an update acts one by one. *)
Lemma update_first_act u f s :
  NoDup (handles s) → (∀ t, of_handle (handle_of u) t = true → f t = act u t) →
  update_first (of_handle (handle_of u)) f s = act u <$> s.
Proof.
  intros Hn Hf. induction s as [|t s IH]; [done|]. cbn in *. apply NoDup_cons in Hn as [Ht Hn].
  destruct (of_handle (handle_of u) t) eqn:E.
  - rewrite Hf by done. f_equal. unfold of_handle in E. apply String.eqb_eq in E. clear IH.
    induction s as [|t' s IHs]; [done|]. cbn in *. apply not_elem_of_cons in Ht as [Ht Ht'].
    apply NoDup_cons in Hn as [_ Hn]. rewrite act_other by congruence. f_equal.
    by apply IHs.
  - rewrite IH by done. unfold act at 2. by rewrite E.
Qed.

Lemma apply_terminal_known s u :
  NoDup (handles s) → handle_of u ∈ handles s → apply_terminal s u = act u <$> s.
Proof.
  intros Hn Hu. rewrite <- (update_first_act u (act u)) by done.
  assert (existsb (of_handle (handle_of u)) s = true) as He.
  { apply existsb_true. apply list_elem_of_fmap in Hu as (t & Ht & Hin). exists t.
    split; [done|]. unfold of_handle. by apply String.eqb_eq. }
  assert (∀ f g : TerminalCursor → TerminalCursor, (∀ t, of_handle (handle_of u) t = true → f t = g t) →
    update_first (of_handle (handle_of u)) f s = update_first (of_handle (handle_of u)) g s) as Hx.
  { clear. intros f g Hfg. induction s as [|t s IH]; [done|]. cbn.
    destruct (of_handle _ t) eqn:E; [by rewrite Hfg|by rewrite IH]. }
  destruct u; cbn [apply_terminal handle_of] in *; rewrite ?He; apply Hx; intros t Ht;
    unfold act; cbn [handle_of]; by rewrite Ht.
Qed.

Lemma apply_terminal_new s h rq argv g tc :
  h ∉ handles s →
  apply_terminal s (TerminalUpdate_Created h rq argv g tc) =
  s ++ [{| tm_handle_id := h; tm_request_id := rq; tm_argv := argv; tm_replay_generation := g;
           tm_last_acknowledged_cursor := 0; tm_running := true; tm_output_ref := None;
           tm_exit_code := None; tm_tool_call_id := tc |}].
Proof.
  intros Hn. cbn. destruct (existsb (of_handle h) s) eqn:E; [|done].
  apply existsb_true in E as (t & Ht & E). unfold of_handle in E. apply String.eqb_eq in E.
  destruct Hn. apply list_elem_of_fmap. exists t. by rewrite E.
Qed.

(** What a log makes of the terminals: those it found, moved on, and those it created,
    each since its creation. *)
Record born (log : list TerminalUpdate) (t : TerminalCursor) : Prop := {
  born_fixed : acts log t = t;
  born_named : ∃ u, u ∈ log ∧ handle_of u = tm_handle_id t
}.

Lemma born_cons u log t : handle_of u ≠ tm_handle_id t → born log t → born (u :: log) t.
Proof.
  intros Hu [Hf (v & Hv & E)]. split.
  - by rewrite acts_cons, act_other.
  - exists v. split; [by right|done].
Qed.

Lemma fmap_acts_cons u log (s : list TerminalCursor) : acts (u :: log) <$> s = acts log <$> (act u <$> s).
Proof. rewrite <- list_fmap_compose. done. Qed.

Lemma handles_act u (s : list TerminalCursor) : handles (act u <$> s) = handles s.
Proof.
  rewrite <- list_fmap_compose. apply list_fmap_ext. intros i t _. apply act_handle.
Qed.

Lemma act_created_again h rq argv g tc t :
  g ≤ tm_replay_generation t → act (TerminalUpdate_Created h rq argv g tc) t = t.
Proof.
  intros Hg. unfold act. destruct (of_handle _ t); [|done]. destruct t; cbn in *.
  by rewrite Z.max_l.
Qed.

Lemma fmap_acts_other u (s : list TerminalCursor) : handle_of u ∉ handles s → act u <$> s = s.
Proof.
  induction s as [|t s IH]; [done|]. cbn. intros [H1 H2]%not_elem_of_cons.
  by rewrite act_other, IH.
Qed.

Lemma announced_weaken seen seen' log : seen ⊆ seen' → announced seen log → announced seen' log.
Proof.
  revert seen seen'; induction log as [|u log IH]; cbn; [done|]. intros seen seen' Hs [H1 H2].
  split; [set_solver|]. eapply IH; [|done]. set_solver.
Qed.

Lemma run_terminals log s :
  NoDup (handles s) → announced (handles s) log →
  ∃ new, foldl apply_terminal s log = (acts log <$> s) ++ new ∧
    NoDup (handles s ++ handles new) ∧ Forall (born log) new ∧
    Forall (λ u, handle_of u ∈ handles s ++ handles new) log.
Proof.
  revert s; induction log as [|u log IH]; intros s Hn Ha.
  { exists []. split_and!; [|by rewrite app_nil_r|done..]. cbn. rewrite app_nil_r. by rewrite list_fmap_id. }
  cbn in Ha. destruct Ha as [Hu Ha]. cbn [foldl].
  destruct (decide (handle_of u ∈ handles s)) as [Hin|Hin].
  - rewrite apply_terminal_known by done.
    destruct (IH (act u <$> s)) as (new & E & Hd & Hb & Hh).
    { by rewrite handles_act. }
    { rewrite handles_act. eapply announced_weaken; [|done]. set_solver. }
    rewrite handles_act in Hd, Hh. exists new. rewrite fmap_acts_cons.
    split_and!; [done|done| |constructor; [set_solver|done]].
    apply NoDup_app in Hd as (_ & Hd & _). rewrite Forall_forall in Hb |- *. intros t Ht.
    apply born_cons; [|by apply Hb]. intros E'. apply (Hd _ Hin).
    rewrite E'. by apply list_elem_of_fmap_2.
  - destruct Hu as [Hu|Hu]; [|done]. destruct u as [h rq argv g tc| |]; try discriminate Hu.
    cbn [handle_of] in *. rewrite apply_terminal_new by done.
    set (fresh := {| tm_handle_id := h |}).
    destruct (IH (s ++ [fresh])) as (new & E & Hd & Hb & Hh).
    { rewrite fmap_app. cbn. apply NoDup_app. split_and!; [done| |by apply NoDup_singleton]. set_solver. }
    { rewrite fmap_app. eapply announced_weaken; [|done]. set_solver. }
    rewrite fmap_app in Hd, Hh. exists (acts log fresh :: new).
    rewrite fmap_acts_cons, fmap_acts_other by done.
    rewrite fmap_cons, acts_handle. cbn [tm_handle_id fresh].
    rewrite <- app_assoc in Hd, Hh. cbn in Hd, Hh.
    split_and!; [|done| |constructor; [set_solver|done]].
    + rewrite E, fmap_app, <- app_assoc. done.
    + constructor.
      * split; [|eexists; split; [by left|by rewrite acts_handle]].
        rewrite acts_cons, act_created_again; [apply acts_idem|apply (acts_generation log fresh)].
      * apply NoDup_app in Hd as (_ & _ & [Hd _]%NoDup_cons).
        rewrite Forall_forall in Hb |- *. intros t Ht. apply born_cons; [|by apply Hb].
        cbn. intros ->. apply Hd. by apply list_elem_of_fmap_2.
Qed.

Lemma announced_app seen l1 l2 : announced seen (l1 ++ l2) →
  announced seen l1 ∧ ∃ seen', announced seen' l2 ∧ seen' ⊆ seen ++ (handle_of <$> l1).
Proof.
  revert seen; induction l1 as [|u l1 IH]; intros seen; cbn.
  - intros H. split; [done|]. exists seen. rewrite app_nil_r. done.
  - intros [Hu (H1 & seen' & H2 & Hs)%IH]. split; [done|]. exists seen'. split; [done|]. set_solver.
Qed.

Lemma replay_known log s :
  NoDup (handles s) → Forall (λ u, handle_of u ∈ handles s) log →
  foldl apply_terminal s log = acts log <$> s.
Proof.
  revert s; induction log as [|u log IH]; intros s Hn Hf; cbn [foldl].
  - by rewrite list_fmap_id.
  - apply Forall_cons in Hf as [Hu Hf]. rewrite apply_terminal_known by done.
    rewrite IH, fmap_acts_cons; [done|by rewrite handles_act|].
    eapply Forall_impl; [exact Hf|]. intros v. by rewrite handles_act.
Qed.

(** The last part of a log may be read again: in a log that updates a terminal only
    after it created it, applying any last part a second time changes nothing. *)
Theorem terminal_replay_idempotent pre suf :
  announced [] (pre ++ suf) →
  let s := foldl apply_terminal [] (pre ++ suf) in foldl apply_terminal s suf = s.
Proof.
  intros Ha s. apply announced_app in Ha as (Hp & seen & Hs & Hseen).
  destruct (run_terminals pre []) as (s0 & E0 & Hn0 & _ & Hh0); [constructor|done|].
  cbn in E0, Hn0, Hh0.
  destruct (run_terminals suf s0) as (new & E1 & Hn1 & Hb & Hh1); [done| |].
  { eapply announced_weaken; [|done]. intros h Hh%Hseen. cbn in Hh.
    apply list_elem_of_fmap in Hh as (u & -> & Hu). rewrite Forall_forall in Hh0. by apply Hh0. }
  assert (s = (acts suf <$> s0) ++ new) as -> by (unfold s; by rewrite foldl_app, E0, E1).
  assert (∀ l : list TerminalCursor, handles (acts suf <$> l) = handles l) as Hx.
  { intros l. rewrite <- list_fmap_compose. apply list_fmap_ext. intros i t _. apply acts_handle. }
  rewrite replay_known by (rewrite fmap_app, Hx; done).
  rewrite fmap_app. f_equal.
  - rewrite <- list_fmap_compose. apply list_fmap_ext. intros i t _. apply acts_idem.
  - rewrite <- (list_fmap_id new) at 2. apply Forall_fmap_ext_1.
    eapply Forall_impl; [exact Hb|]. by intros t [Ht _].
Qed.

(** ** Examples *)

Module ResumeExample.

Definition proposed (run : option Z) (name : string) : ToolCallEvent :=
  ToolCallProposed 1 None name "1" EffectClass_ReversibleWrite None ("hash-" +:+ name) run None None None.

(** A read that succeeded, a write in flight, a write that waits for an approval and a
    call just proposed. *)
Definition logs (id : Z) : list (stored ToolCallEvent) :=
  if id =? 10 then
    [Stored 1 (proposed (Some 5) "read") 1; Stored 2 ToolCallValidated 2;
     Stored 3 (ToolCallPolicyDecision true "ALLOW" false None) 3; Stored 4 ToolCallDispatched 4;
     Stored 5 (ToolCallSucceeded "r") 5]
  else if id =? 11 then
    [Stored 1 (proposed (Some 5) "write") 1; Stored 2 ToolCallValidated 2;
     Stored 3 (ToolCallPolicyDecision true "ALLOW" false None) 3; Stored 4 ToolCallDispatched 4]
  else if id =? 12 then
    [Stored 1 (proposed (Some 5) "delete") 1; Stored 2 ToolCallValidated 2;
     Stored 3 (ToolCallApprovalRequested 90 "ASK") 3]
  else if id =? 13 then
    [Stored 1 (proposed (Some 5) "push") 1; Stored 2 ToolCallValidated 2;
     Stored 3 (ToolCallPolicyDecision false "ASK" true None) 3]
  else [Stored 1 (proposed (Some 5) "list") 1].

Definition call (id : Z) : list ToolCall :=
  match project_log id None (logs id) with Ok (Some c) => [c] | _ => [] end.

Definition input (ids reconciled : list Z) : Input :=
  {| in_tool_calls := ids ≫= call; in_approvals := []; in_leases := []; in_question := None;
     in_reconciled := reconciled; in_terminals := []; in_now := 100 |}.

Lemma resume_boundary_exact_witness :
  let i := input [14; 12; 11; 10] [] in
  boundary (reconstruct 1 i) (Some 5) = ResumeBoundary_Reconciling [11] ∧
  resumes logs 1 i (Some 5) (boundary (reconstruct 1 i) (Some 5)).
Proof.
  split; [vm_compute; reflexivity|].
  apply (resume_boundary_exact logs 1 (input [14; 12; 11; 10] []) (Some 5)).
  - apply (bool_decide_unpack _). vm_compute. exact I.
  - repeat constructor; vm_compute; reflexivity.
Defined.

Example boundary_after_reconciliation :
  boundary (reconstruct 1 (input [14; 12; 11; 10] [11])) (Some 5) =
    ResumeBoundary_AwaitingApproval 90 12 "hash-delete" ∧
  boundary (reconstruct 1 (input [14; 11; 10] [11])) (Some 5) = ResumeBoundary_Executing [14] ∧
  boundary (reconstruct 1 (input [10] [])) (Some 5) = ResumeBoundary_TurnStart.
Proof. vm_compute. split_and!; reflexivity. Qed.

(** A call that was told it needs an approval, and whose approval was never recorded, is
    not outstanding. *)
Example approval_never_recorded :
  boundary (reconstruct 1 (input [13] [])) (Some 5) = ResumeBoundary_TurnStart ∧
  is_quiescent (reconstruct 1 (input [13] [])) = true ∧
  unsent logs <$> call 13 = [true].
Proof. vm_compute. split_and!; reflexivity. Qed.

Definition terminal_log : list TerminalUpdate :=
  [TerminalUpdate_Created "a" "r1" ["make"] 1 "c1"; TerminalUpdate_Advanced "a" 40 true;
   TerminalUpdate_Created "b" "r2" ["ls"] 1 "c2"; TerminalUpdate_Exited "b" "o" (Some 0);
   TerminalUpdate_Advanced "b" 7 true].

Lemma terminal_replay_idempotent_witness :
  let s := foldl apply_terminal [] terminal_log in
  tm_running <$> s = [true; false] ∧ foldl apply_terminal s (drop 1 terminal_log) = s.
Proof.
  split; [vm_compute; reflexivity|].
  apply (terminal_replay_idempotent (take 1 terminal_log) (drop 1 terminal_log)).
  cbn. set_solver.
Defined.

End ResumeExample.
