(* ===== verification/Tiers.v ===== *)
(** * Language tiers

    [crates/verification/src/tiers.rs]: the checks the claims about a language rest on,
    the records of the suites that ran, and what may be said about a file. The records
    shipped with the build are an argument. *)

From S2P Require Import Prelude RustStr.
#[local] Open Scope Z_scope.

Inductive Tier := Tier_C | Tier_B | Tier_A.

#[export] Instance Tier_eq_dec : EqDecision Tier.
Proof. solve_decision. Defined.

(** The derived order. *)
Definition tier_rank (t : Tier) : Z := match t with Tier_C => 0 | Tier_B => 1 | Tier_A => 2 end.

Definition Tier_label (self : Tier) : string :=
  match self with
  | Tier_A => "Tier A — full engineering intelligence"
  | Tier_B => "Tier B — validated structural support"
  | Tier_C => "Tier C — text-safe support"
  end.

Definition and_below (self : Tier) : list Tier :=
  match self with
  | Tier_A => [Tier_C; Tier_B; Tier_A]
  | Tier_B => [Tier_C; Tier_B]
  | Tier_C => [Tier_C]
  end.

Definition Tier_next (self : Tier) : option Tier :=
  match self with Tier_C => Some Tier_B | Tier_B => Some Tier_A | Tier_A => None end.

Record TierCheck := { tk_id : string; tk_tier : Tier; tk_proves : string }.

Definition CHECKS : list TierCheck :=
  [{| tk_id := "c1_text_edit_preserves_encoding_and_line_endings"; tk_tier := Tier_C;
      tk_proves := "edits never corrupt encoding or line endings" |};
   {| tk_id := "c2_exact_and_lexical_retrieval"; tk_tier := Tier_C;
      tk_proves := "exact and BM25 retrieval return revision-bound hits for this language" |};
   {| tk_id := "c3_configured_command_evidence"; tk_tier := Tier_C;
      tk_proves := "test or build evidence through a configured command is attributed to the task" |};
   {| tk_id := "b1_symbol_extraction"; tk_tier := Tier_B;
      tk_proves := "tree-sitter symbol extraction finds the definitions of a real fixture file" |};
   {| tk_id := "b2_build_output_diagnostics"; tk_tier := Tier_B;
      tk_proves := "diagnostics are parsed out of build or test output with a file and a line" |};
   {| tk_id := "b3_revision_bound_structural_edit"; tk_tier := Tier_B;
      tk_proves := "an edit against a stale revision is refused rather than applied" |};
   {| tk_id := "a1_language_service_symbols_and_references"; tk_tier := Tier_A;
      tk_proves := "the headless language service returns symbols and finds a known reference" |};
   {| tk_id := "a2_diagnostics_parity"; tk_tier := Tier_A;
      tk_proves := "the language service reports the defect the build reports, in the same file" |}].

Definition checks_of (tier : Tier) : list TierCheck :=
  List.filter (λ c, bool_decide (tk_tier c = tier)) CHECKS.

Record CheckOutcome := { co_id : string; co_tier : Tier; co_status : string; co_detail : string }.

Definition CheckOutcome_passed (self : CheckOutcome) : bool := co_status self =s "pass".

Record TierRecord := {
  tr_language : string;
  tr_fixture : string;
  tr_tier : Tier;
  tr_checks : list CheckOutcome;
  tr_suite_test : string;
  tr_not_claimed : list string
}.

Inductive RejectedRecord :=
  | RejectedRecord_Unearned (claimed : Tier) (earned : option Tier) (missing : list string)
  | RejectedRecord_Incomplete (absent : list string)
  | RejectedRecord_UnknownCheck (id : string).

(** Every check of the tier has an outcome that passed. *)
Definition tier_passed (checks : list CheckOutcome) (tier : Tier) : bool :=
  forallb (λ want, existsb (λ c, (co_id c =s tk_id want) && bool_decide (co_tier c = tk_tier want) &&
                                 CheckOutcome_passed c) checks) (checks_of tier).

Definition earned_tier (checks : list CheckOutcome) : option Tier :=
  List.find (λ t, forallb (tier_passed checks) (and_below t)) [Tier_A; Tier_B; Tier_C].

(** The checks of a tier and of those below it. *)
Definition wanted (tier : Tier) : list TierCheck := and_below tier ≫= checks_of.

Definition missing_for (tier : Tier) (checks : list CheckOutcome) : list string :=
  tk_id <$> List.filter (λ want, negb (existsb (λ c, (co_id c =s tk_id want) && CheckOutcome_passed c) checks))
    (wanted tier).

Definition verify_record (record : TierRecord) : result RejectedRecord unit :=
  match List.find (λ c, negb (existsb (λ k, tk_id k =s co_id c) CHECKS)) (tr_checks record) with
  | Some unknown => Err (RejectedRecord_UnknownCheck (co_id unknown))
  | None =>
      let absent := tk_id <$> List.filter (λ want, negb (existsb (λ c, co_id c =s tk_id want) (tr_checks record)))
        (wanted (tr_tier record)) in
      match absent with
      | _ :: _ => Err (RejectedRecord_Incomplete absent)
      | [] =>
          let earned := earned_tier (tr_checks record) in
          if negb (bool_decide (earned = Some (tr_tier record))) then
            Err (RejectedRecord_Unearned (tr_tier record) earned
                   (missing_for (tr_tier record) (tr_checks record)))
          else Ok tt
      end
  end.

Section Recorded.
  (** [recorded()]. *)
  Context (recorded : list TierRecord).

Definition tier_of (language : string) : option Tier :=
  tr_tier <$> List.find (λ r, (tr_language r =s language) && is_ok (verify_record r)) recorded.

Record LanguageState := {
  ls_language : string;
  ls_tier : option Tier;
  ls_structural : bool;
  ls_needs_opt_in : bool;
  ls_label : string;
  ls_degradation : list string
}.

Definition TEXT_ONLY : list string :=
  ["retrieval is exact and lexical text only; no structural or semantic claim";
   "verification uses only explicitly configured commands"].

Definition state_of (language : option string) : LanguageState :=
  let language := default "unknown" language in
  match tier_of language with
  | Some ((Tier_A | Tier_B) as tier) =>
      {| ls_language := language; ls_tier := Some tier; ls_structural := true;
         ls_needs_opt_in := false; ls_label := Tier_label tier; ls_degradation := [] |}
  | Some Tier_C =>
      {| ls_language := language; ls_tier := Some Tier_C; ls_structural := false;
         ls_needs_opt_in := false; ls_label := Tier_label Tier_C; ls_degradation := TEXT_ONLY |}
  | None =>
      {| ls_language := language; ls_tier := None; ls_structural := false; ls_needs_opt_in := true;
         ls_label := "Unsupported: no tier conformance suite has passed for " +:+ language;
         ls_degradation := TEXT_ONLY ++
           ["an edit needs the user's explicit per-task opt-in and carries unsupported_language provenance"] |}
  end.

Definition text_format (language : option string) : bool :=
  match language with
  | Some l => contains_str ["markdown"; "json"; "toml"; "yaml"; "text"; "csv"; "html"; "css"; "sql"] l
  | None => false
  end.

Definition state_of_path (path : string) (language : option string) : LanguageState :=
  if negb (is_some language) || text_format language then
    let state := state_of (Some "text") in
    {| ls_language := default "text" language; ls_tier := ls_tier state;
       ls_structural := ls_structural state; ls_needs_opt_in := ls_needs_opt_in state;
       ls_label :=
         if negb (is_some language) then
           ls_label state +:+ " (the file's language is not identified)"
         else ls_label state;
       ls_degradation := ls_degradation state |}
  else state_of language.

End Recorded.

(** ** What a claim rests on *)

(** Every check of the tier and of those below it passed. *)
Definition earns (checks : list CheckOutcome) (t : Tier) : Prop :=
  ∀ k, k ∈ CHECKS → tier_rank (tk_tier k) ≤ tier_rank t →
    ∃ c, c ∈ checks ∧ co_id c = tk_id k ∧ co_tier c = tk_tier k ∧ co_status c = "pass".

Lemma elem_of_and_below t u : u ∈ and_below t ↔ tier_rank u ≤ tier_rank t.
Proof.
  rewrite list_elem_of_In. destruct t, u; cbn; intuition (discriminate || lia).
Qed.

Lemma below_earns checks t : forallb (tier_passed checks) (and_below t) = true ↔ earns checks t.
Proof.
  rewrite forallb_true. setoid_rewrite elem_of_and_below. unfold earns, tier_passed, checks_of.
  assert (∀ k : TierCheck, existsb (λ c, (co_id c =s tk_id k) && bool_decide (co_tier c = tk_tier k) &&
      CheckOutcome_passed c) checks = true ↔
    ∃ c, c ∈ checks ∧ co_id c = tk_id k ∧ co_tier c = tk_tier k ∧ co_status c = "pass") as Hk.
  { intros k. rewrite existsb_true. f_equiv. intros c. unfold CheckOutcome_passed.
    rewrite !andb_true_iff, !String.eqb_eq, bool_decide_eq_true. naive_solver. }
  split.
  - intros H k Hin Hr. apply Hk. specialize (H _ Hr). rewrite forallb_true in H. apply H.
    rewrite list_elem_of_In, List.filter_In, <- list_elem_of_In. by rewrite bool_decide_eq_true.
  - intros H u Hu. rewrite forallb_true. intros k Hin.
    apply list_elem_of_In, List.filter_In in Hin as [Hin Hku]. apply bool_decide_eq_true in Hku.
    apply Hk. apply list_elem_of_In in Hin. apply H; [done|by rewrite Hku].
Qed.

Lemma earns_mono checks t u : tier_rank u ≤ tier_rank t → earns checks t → earns checks u.
Proof. intros Hr H k Hk Hu. apply H; [done|lia]. Qed.

(** The tier earned is the highest there is evidence for. *)
Lemma earned_tier_exact checks t :
  earned_tier checks = Some t ↔ earns checks t ∧ ∀ u, earns checks u → tier_rank u ≤ tier_rank t.
Proof.
  unfold earned_tier. cbn [List.find].
  destruct (forallb _ (and_below Tier_A)) eqn:EA; [|destruct (forallb _ (and_below Tier_B)) eqn:EB;
    [|destruct (forallb _ (and_below Tier_C)) eqn:EC]].
  all: rewrite <- ?not_true_iff_false, ?below_earns in *.
  - split; [intros [= <-]; split; [done|by intros []]|].
    intros [_ H]. specialize (H _ EA). destruct t; cbn in H; by try lia.
  - split; [intros [= <-]; split; [done|by intros []]|].
    intros [Ht H]. specialize (H _ EB). by destruct t; cbn in H; try lia.
  - split; [intros [= <-]; split; [done|by intros []]|]. intros [Ht H]. by destruct t.
  - split; [done|]. intros [Ht _]. by destruct t.
Qed.

(** A record that stands shows every check of its tier passed, and nothing more. *)
Lemma verify_record_exact r :
  verify_record r = Ok tt ↔
  (∀ c, c ∈ tr_checks r → ∃ k, k ∈ CHECKS ∧ tk_id k = co_id c) ∧
  earns (tr_checks r) (tr_tier r) ∧ ∀ u, earns (tr_checks r) u → tier_rank u ≤ tier_rank (tr_tier r).
Proof.
  unfold verify_record. destruct (List.find _ (tr_checks r)) as [c|] eqn:Ec.
  { split; [done|]. intros [H _]. apply List.find_some in Ec as [Hc He].
    apply negb_true_iff, existsb_false in He. rewrite Forall_forall in He.
    destruct (H c) as (k & Hk & E); [by apply list_elem_of_In|].
    specialize (He k Hk). by apply String.eqb_neq in He. }
  assert (∀ c, c ∈ tr_checks r → ∃ k, k ∈ CHECKS ∧ tk_id k = co_id c) as Hknown.
  { intros c Hc. apply find_none_forall in Ec. rewrite Forall_forall in Ec.
    specialize (Ec c Hc). apply negb_false_iff, existsb_true in Ec as (k & Hk & E%String.eqb_eq). eauto. }
  destruct (tk_id <$> _) as [|a absent] eqn:Ea.
  - case_bool_decide as Hd; cbn; rewrite earned_tier_exact in Hd; [naive_solver|].
    split; [done|]. naive_solver.
  - split; [done|]. intros (_ & He & _). exfalso.
    assert (a ∈ tk_id <$> List.filter (λ want, negb (existsb (λ c, co_id c =s tk_id want) (tr_checks r)))
      (wanted (tr_tier r))) as Ha by (rewrite Ea; by left).
    apply list_elem_of_fmap in Ha as (k & _ & Hk). apply list_elem_of_In, List.filter_In in Hk as [Hk Hn].
    apply list_elem_of_In, list_elem_of_bind in Hk as (t & Hk & Ht). apply elem_of_and_below in Ht.
    apply list_elem_of_In, List.filter_In in Hk as [Hk Hkt]. apply bool_decide_eq_true in Hkt as <-.
    destruct (He k) as (c & Hc & E & _); [by apply list_elem_of_In|done|].
    apply negb_true_iff, existsb_false in Hn. rewrite Forall_forall in Hn.
    specialize (Hn c Hc). by apply String.eqb_neq in Hn.
Qed.

(** Nothing structural is claimed about a file without a recorded pass of every check of
    the lower two tiers: for its language, or for text when the file is a text or data
    format or its language is not known; and where no opt-in is asked, the checks of the
    lowest tier passed. *)
Theorem structural_claim_rests_on_record recorded path language :
  let name := if text_format language then "text" else default "text" language in
  let state := state_of_path recorded path language in
  (ls_structural state = true →
   ∃ r, r ∈ recorded ∧ tr_language r = name ∧ earns (tr_checks r) Tier_B) ∧
  (ls_needs_opt_in state = false →
   ∃ r, r ∈ recorded ∧ tr_language r = name ∧ earns (tr_checks r) Tier_C).
Proof.
  intros name state.
  assert (ls_structural state = ls_structural (state_of recorded (Some name)) ∧
          ls_needs_opt_in state = ls_needs_opt_in (state_of recorded (Some name))) as [-> ->].
  { unfold state, state_of_path, name. destruct language as [l|]; [|done].
    cbn [is_some negb orb]. by destruct (text_format (Some l)). }
  clear state. unfold state_of. cbn [default id].
  assert (∀ t u, tier_of recorded name = Some t → tier_rank u ≤ tier_rank t →
    ∃ r, r ∈ recorded ∧ tr_language r = name ∧ earns (tr_checks r) u) as Ht.
  { intros t u. unfold tier_of. destruct (List.find _ recorded) as [r|] eqn:E; [|done]. cbn.
    intros [= <-] Hu. apply List.find_some in E as [Hr [Hn Hv]%andb_true_iff]. exists r.
    apply list_elem_of_In in Hr. apply String.eqb_eq in Hn. split_and!; [done..|].
    destruct (verify_record r) as [[]|] eqn:Er; [|done]. apply verify_record_exact in Er as (_ & He & _).
    by eapply earns_mono. }
  destruct (tier_of recorded name) as [[]|] eqn:E; cbn; (split; [|]); try done; intros _;
    eapply (Ht _ _ eq_refl); cbn; lia.
Qed.

Module TierExample.

Definition outcomes (status : string) : list CheckOutcome :=
  (λ k, {| co_id := tk_id k; co_tier := tk_tier k; co_status := status; co_detail := "" |}) <$> CHECKS.

Definition record (language : string) (tier : Tier) (checks : list CheckOutcome) : TierRecord :=
  {| tr_language := language; tr_fixture := "fixtures/" +:+ language; tr_tier := tier;
     tr_checks := checks; tr_suite_test := "suite"; tr_not_claimed := [] |}.

(** A record may not claim more, and not less, than its checks show. *)
Example records_verified :
  verify_record (record "rust" Tier_A (outcomes "pass")) = Ok tt ∧
  verify_record (record "rust" Tier_B (outcomes "pass")) =
    Err (RejectedRecord_Unearned Tier_B (Some Tier_A) []) ∧
  is_ok (verify_record (record "rust" Tier_C (outcomes "skip"))) = false.
Proof. vm_compute. split_and!; reflexivity. Qed.

Example unsupported_language :
  let s := state_of_path [record "rust" Tier_A (outcomes "pass")] "a.zig" (Some "zig") in
  (ls_structural s, ls_needs_opt_in s) = (false, true).
Proof. vm_compute. reflexivity. Qed.

End TierExample.
