(* ===== verification/Projects.v ===== *)
(** * Projects

    [crates/domain/src/project.rs] (the rules), the fold of [crates/event-store/src/
    projections.rs] into the tables [projects] and [project_members], and the commands of
    [services/modbit-core/src/projects.rs] that check against the tables and append one
    event. How the file system resolves a path is a class; it is the same throughout. *)

From stdpp Require Import gmap.
From S2P Require Import Prelude RustStr External Task.
#[local] Open Scope Z_scope.

Definition MAX_NAME_CHARS : Z := 80.
Definition MAX_MEMBERS : Z := 200.
Definition MAX_LIVE_PROJECTS_PER_WORKSPACE : Z := 50.

Definition COLORS : list string :=
  ["accent"; "ok"; "warn"; "danger"; "info"; "modeAsk"; "modePlan"; "modeDebug"].
Definition DEFAULT_COLOR : string := "accent".
Definition ICONS : list string :=
  ["folder"; "star"; "flag"; "bolt"; "book"; "bug"; "rocket"; "leaf"].
Definition DEFAULT_ICON : string := "folder".

(** A code and a sentence. *)
Definition Refusal : Type := string * string.

Inductive ProjectEvent :=
  | ProjectCreated (project_id : Z) (name color icon workspace_root : string)
  | ProjectRenamed (project_id : Z) (name color icon : string)
  | ProjectArchived (project_id : Z)
  | ProjectUnarchived (project_id : Z)
  | ProjectMemberAdded (project_id task_id : Z)
  | ProjectMemberRemoved (project_id task_id : Z).

Definition ProjectEvent_event_type (self : ProjectEvent) : string :=
  match self with
  | ProjectCreated _ _ _ _ _ => "ProjectCreated"
  | ProjectRenamed _ _ _ _ => "ProjectRenamed"
  | ProjectArchived _ => "ProjectArchived"
  | ProjectUnarchived _ => "ProjectUnarchived"
  | ProjectMemberAdded _ _ => "ProjectMemberAdded"
  | ProjectMemberRemoved _ _ => "ProjectMemberRemoved"
  end.

(** [char::is_control] on a character by its bytes. *)
Definition is_control (c : string) : bool :=
  match c with
  | String a "" => (byte_of a <? 32) || (byte_of a =? 127)
  | String a (String b "") => (byte_of a =? 194) && (128 <=? byte_of b) && (byte_of b <? 160)
  | _ => false
  end.

Section Rules.
  Context `{Lowercase}.

Definition name_key (name : string) : string := to_lowercase (trim name).

Definition check_name (name : string) : result Refusal string :=
  let n := trim name in
  if str_is_empty n then Err ("PROJECT_NAME_INVALID", "a project needs a name")
  else if MAX_NAME_CHARS <? Z.of_nat (length (chars n)) then
    Err ("PROJECT_NAME_INVALID", "a project name has at most 80 characters")
  else if existsb is_control (chars n) then
    Err ("PROJECT_NAME_INVALID", "a project name holds no control characters")
  else Ok n.

Definition check_color (color : string) (current : option string) : result Refusal string :=
  if str_is_empty color then Ok (default DEFAULT_COLOR current)
  else if contains_str COLORS color then Ok color
  else Err ("PROJECT_COLOR_INVALID",
            "`" +:+ color +:+ "` is not a palette role; use one of " +:+ Prelude.join ", " COLORS).

Definition check_icon (icon : string) (current : option string) : result Refusal string :=
  if str_is_empty icon then Ok (default DEFAULT_ICON current)
  else if contains_str ICONS icon then Ok icon
  else Err ("PROJECT_ICON_INVALID",
            "`" +:+ icon +:+ "` is not a project icon; use one of " +:+ Prelude.join ", " ICONS).

Record Candidate := {
  cd_task_id : Z;
  cd_origin : TaskOrigin;
  cd_state : TaskState;
  cd_archived : bool;
  cd_workspace_root : option string
}.

Record Target := {
  tg_project_id : Z;
  tg_name : string;
  tg_workspace_root : string;
  tg_archived : bool;
  tg_members : Z
}.

Definition is_top_level (origin : TaskOrigin) : bool :=
  match origin with Origin_Subagent | Origin_Review | Origin_Replay => false | _ => true end.

Definition is_draft (state : TaskState) (archived : bool) : bool :=
  match state with TaskState_Created | TaskState_Queued => negb archived | _ => false end.

Definition check_add (target : Target) (task : Candidate) (in_project : option (Z * string))
    : result Refusal unit :=
  if tg_archived target then
    Err ("PROJECT_ARCHIVED",
         "`" +:+ tg_name target +:+ "` is archived; restore it before adding to it")
  else if negb (is_top_level (cd_origin task)) then
    Err ("TASK_NOT_TOP_LEVEL",
         "only a top-level task can join a project; this task belongs to another task's work")
  else if is_draft (cd_state task) (cd_archived task) then
    Err ("TASK_IS_DRAFT", "a draft task cannot join a project; start it first")
  else
    _ ← match cd_workspace_root task with
        | Some root =>
            if root =s tg_workspace_root target then Ok tt
            else Err ("WORKSPACE_MISMATCH",
              "the task works in `" +:+ root +:+ "` and `" +:+ tg_name target +:+ "` belongs to `" +:+
              tg_workspace_root target +:+ "`; a project holds tasks of its own workspace only")
        | None => Err ("WORKSPACE_MISMATCH",
              "the task has no workspace, so it cannot join a workspace's project")
        end;
    match in_project with
    | Some (other, other_name) =>
        if negb (other =? tg_project_id target) then
          Err ("IN_ANOTHER_PROJECT",
               "the task is in `" +:+ other_name +:+
               "`; remove it from there first, a task is in one project at a time")
        else if MAX_MEMBERS <=? tg_members target then
          Err ("PROJECT_FULL", "a project holds at most 200 tasks")
        else Ok tt
    | None =>
        if MAX_MEMBERS <=? tg_members target then
          Err ("PROJECT_FULL", "a project holds at most 200 tasks")
        else Ok tt
    end.

(** ** The tables *)

Record ProjectRow := {
  pr_project_id : Z;
  pr_name : string;
  pr_name_key : string;
  pr_color : string;
  pr_icon : string;
  pr_workspace_root : string;
  pr_archived : bool;
  pr_created_at_ms : Z;
  pr_updated_at_ms : Z;
  pr_created_offset : Z;
  pr_last_offset : Z
}.

Record ProjectMemberRow := {
  pm_task_id : Z;
  pm_project_id : Z;
  pm_added_at_ms : Z;
  pm_added_offset : Z
}.

Record Tables := {
  tb_projects : gmap Z ProjectRow;
  tb_members : gmap Z ProjectMemberRow
}.

(** A stored event: its offset and its time. *)
Record StoredProject := { sp_offset : Z; sp_at : Z; sp_event : ProjectEvent }.

(** [UPDATE projects SET .. WHERE project_id = ..], which touches one row or none. *)
Definition stamp (ev : StoredProject) (r : ProjectRow) : ProjectRow :=
  { r with pr_updated_at_ms := sp_at ev; pr_last_offset := sp_offset ev }.

Definition update_project (id : Z) (ev : StoredProject) (f : ProjectRow → ProjectRow)
    (t : Tables) : Tables :=
  {| tb_projects := alter (λ r, stamp ev (f r)) id (tb_projects t); tb_members := tb_members t |}.

Definition touched (t : Tables) (id : Z) (what : string) : result string unit :=
  if is_some (tb_projects t !! id) then Ok tt
  else Err (what +:+ " names a project that does not exist").

Definition project_project (t : Tables) (ev : StoredProject) : result string Tables :=
  match sp_event ev with
  | ProjectCreated id name color icon root =>
      if is_some (tb_projects t !! id) then Err "UNIQUE constraint failed: projects.project_id"
      else
        Ok {| tb_members := tb_members t; tb_projects := <[id :=
          {| pr_project_id := id; pr_name := name; pr_name_key := name_key name; pr_color := color;
             pr_icon := icon; pr_workspace_root := root; pr_archived := false;
             pr_created_at_ms := sp_at ev; pr_updated_at_ms := sp_at ev;
             pr_created_offset := sp_offset ev; pr_last_offset := sp_offset ev |}]> (tb_projects t) |}
  | ProjectRenamed id name color icon =>
      _ ← touched t id "ProjectRenamed";
      Ok (update_project id ev (λ r, { r with pr_name := name; pr_name_key := name_key name;
                                              pr_color := color; pr_icon := icon }) t)
  | ProjectArchived id =>
      _ ← touched t id "ProjectArchived";
      Ok (update_project id ev (λ r, { r with pr_archived := true }) t)
  | ProjectUnarchived id =>
      _ ← touched t id "ProjectUnarchived";
      Ok (update_project id ev (λ r, { r with pr_archived := false }) t)
  | ProjectMemberAdded id task =>
      _ ← touched t id "ProjectMemberAdded";
      let t := update_project id ev (λ r, r) t in
      match tb_members t !! task with
      | Some m =>
          if negb (pm_project_id m =? id) then
            Err "ProjectMemberAdded names a task another project holds"
          else Ok t
      | None =>
          Ok {| tb_projects := tb_projects t; tb_members := <[task :=
            {| pm_task_id := task; pm_project_id := id; pm_added_at_ms := sp_at ev;
               pm_added_offset := sp_offset ev |}]> (tb_members t) |}
      end
  | ProjectMemberRemoved id task =>
      let t := update_project id ev (λ r, r) t in
      match tb_members t !! task with
      | Some m =>
          if pm_project_id m =? id then Ok {| tb_projects := tb_projects t; tb_members := delete task (tb_members t) |} else Ok t
      | None => Ok t
      end
  end.

(** ** The commands *)

(** [trim_start_matches] with a text. *)
Fixpoint trim_start_str (fuel : nat) (pat s : string) : string :=
  match fuel with
  | O => s
  | S fuel => match strip_prefix pat s with Some r => trim_start_str fuel pat r | None => s end
  end.

(** [canonicalize] and [resolve_path]. *)
Class Paths := {
  canonicalize : string → option string;
  resolve_path : string → string
}.

Context {paths_ : Paths} {ids_ : IdText}.

Definition same_path (a b : string) : bool := resolve_path a =s resolve_path b.

Definition canonical_root (root : string) : string :=
  let root := trim root in
  match canonicalize root with
  | Some p => p
  | None => trim_start_str (String.length root) "\\?\" root
  end.

(** The log of the projects, their tables, and the commands recorded. *)
Record Store := {
  so_log : list StoredProject;
  so_tables : Tables;
  so_commands : gset Z;
  so_offset : Z
}.

Definition append (st : Store) (command at_ : Z) (event : ProjectEvent) : result Refusal (Store * bool) :=
  let ev := {| sp_offset := so_offset st + 1; sp_at := at_; sp_event := event |} in
  match project_project (so_tables st) ev with
  | Err e => Err ("PROJECTION", e)
  | Ok t => Ok ({| so_log := so_log st ++ [ev]; so_tables := t;
                   so_commands := {[command]} ∪ so_commands st; so_offset := so_offset st + 1 |}, false)
  end.

(** A command that was recorded is answered again and changes nothing. *)
Definition replay (st : Store) (command : Z) : bool := bool_decide (command ∈ so_commands st).

(** The live projects of a workspace, without one. *)
Definition live_in (st : Store) (root : string) (except : option Z) : list ProjectRow :=
  List.filter (λ r, negb (pr_archived r) && negb (bool_decide (Some (pr_project_id r) = except)) &&
                    same_path (pr_workspace_root r) root)
    (snd <$> map_to_list (tb_projects (so_tables st))).

Definition check_unique (st : Store) (root name : string) (except : option Z) : result Refusal unit :=
  if existsb (λ r, name_key (pr_name r) =s name_key name) (live_in st root except) then
    Err ("PROJECT_NAME_TAKEN", "this workspace already has a project named `" +:+ name +:+ "`")
  else Ok tt.

(** The flag says whether the answer is a replay; the identity of a project is the one of
    the command that made it. *)
Definition create (st : Store) (command at_ : Z) (name color icon workspace_root : string)
    : result Refusal (Store * bool) :=
  if replay st command then Ok (st, true)
  else
    name ← check_name name;
    color ← check_color color None;
    icon ← check_icon icon None;
    if str_is_empty (trim workspace_root) then Err ("BAD_PAYLOAD", "workspace_root required")
    else
      let root := canonical_root workspace_root in
      _ ← check_unique st root name None;
      if MAX_LIVE_PROJECTS_PER_WORKSPACE <=? Z.of_nat (length (live_in st root None)) then
        Err ("PROJECT_LIMIT", "a workspace holds at most 50 live projects; archive one first")
      else append st command at_ (ProjectCreated command name color icon root).

Definition existing (st : Store) (id : Z) : result Refusal ProjectRow :=
  match tb_projects (so_tables st) !! id with
  | Some r => Ok r
  | None => Err ("UNKNOWN_PROJECT", id_text id)
  end.

Definition archived_refusal (row : ProjectRow) : Refusal :=
  ("PROJECT_ARCHIVED", "`" +:+ pr_name row +:+ "` is archived; restore it before changing it").

Definition rename (st : Store) (command at_ id : Z) (name color icon : string)
    : result Refusal (Store * bool) :=
  if replay st command then Ok (st, true)
  else
    row ← existing st id;
    if pr_archived row then Err (archived_refusal row)
    else
      name ← (if str_is_empty (trim name) then Ok (pr_name row) else check_name name);
      color ← check_color color (Some (pr_color row));
      icon ← check_icon icon (Some (pr_icon row));
      if (name =s pr_name row) && (color =s pr_color row) && (icon =s pr_icon row) then Ok (st, false)
      else
        _ ← check_unique st (pr_workspace_root row) name (Some id);
        append st command at_ (ProjectRenamed id name color icon).

Definition archive (st : Store) (command at_ id : Z) (want : bool) : result Refusal (Store * bool) :=
  if replay st command then Ok (st, true)
  else
    row ← existing st id;
    if Bool.eqb (pr_archived row) want then Ok (st, false)
    else if want then append st command at_ (ProjectArchived id)
    else
      _ ← check_unique st (pr_workspace_root row) (pr_name row) (Some id);
      append st command at_ (ProjectUnarchived id).

(** What the store knows of a task: its origin and state, whether its conversation is
    archived, and the workspace it belongs to ([workspace_of]). *)
Record TaskFacts := {
  tf_origin : TaskOrigin;
  tf_state : TaskState;
  tf_archived : bool;
  tf_workspace : option string
}.

Definition members_of (st : Store) (id : Z) : list ProjectMemberRow :=
  List.filter (λ m, pm_project_id m =? id) (snd <$> map_to_list (tb_members (so_tables st))).

Definition project_name (st : Store) (id : Z) (unknown : string) : string :=
  match tb_projects (so_tables st) !! id with Some r => pr_name r | None => unknown end.

Definition leave (st : Store) (command at_ id task_id : Z) (row : ProjectRow)
    (held : option ProjectMemberRow) : result Refusal (Store * bool) :=
  if pr_archived row then Err (archived_refusal row)
  else
    match held with
    | None => Ok (st, false)
    | Some h =>
        if negb (pm_project_id h =? id) then
          Err ("NOT_A_MEMBER",
               "the task is in `" +:+ project_name st (pm_project_id h) (id_text (pm_project_id h)) +:+
               "`, not in `" +:+ pr_name row +:+ "`")
        else append st command at_ (ProjectMemberRemoved id task_id)
    end.

Definition membership (st : Store) (command at_ id task_id : Z) (task : option TaskFacts) (add : bool)
    : result Refusal (Store * bool) :=
  if replay st command then Ok (st, true)
  else
    row ← existing st id;
    let held := tb_members (so_tables st) !! task_id in
    if negb add then leave st command at_ id task_id row held
    else
      task ← ok_or task ("UNKNOWN_TASK", id_text task_id);
      let same := match tf_workspace task with
                  | Some r => same_path r (pr_workspace_root row)
                  | None => false
                  end in
      let candidate :=
        {| cd_task_id := task_id; cd_origin := tf_origin task; cd_state := tf_state task;
           cd_archived := tf_archived task;
           cd_workspace_root := if same then Some (pr_workspace_root row) else tf_workspace task |} in
      let target :=
        {| tg_project_id := id; tg_name := pr_name row; tg_workspace_root := pr_workspace_root row;
           tg_archived := pr_archived row; tg_members := Z.of_nat (length (members_of st id)) |} in
      _ ← check_add target candidate
            ((λ h, (pm_project_id h, project_name st (pm_project_id h) "")) <$> held);
      if match held with Some h => pm_project_id h =? id | None => false end then Ok (st, false)
      else append st command at_ (ProjectMemberAdded id task_id).

(** One command of a person. *)
Inductive Command :=
  | CreateProject (command at_ : Z) (name color icon workspace_root : string)
  | RenameProject (command at_ id : Z) (name color icon : string)
  | ArchiveProject (command at_ id : Z) (archived : bool)
  | AddProjectMember (command at_ id task_id : Z) (task : option TaskFacts)
  | RemoveProjectMember (command at_ id task_id : Z).

Definition run (st : Store) (c : Command) : result Refusal (Store * bool) :=
  match c with
  | CreateProject k at_ name color icon root => create st k at_ name color icon root
  | RenameProject k at_ id name color icon => rename st k at_ id name color icon
  | ArchiveProject k at_ id archived => archive st k at_ id archived
  | AddProjectMember k at_ id task_id task => membership st k at_ id task_id task true
  | RemoveProjectMember k at_ id task_id => membership st k at_ id task_id None false
  end.

Definition Store_empty : Store :=
  {| so_log := []; so_tables := {| tb_projects := ∅; tb_members := ∅ |}; so_commands := ∅;
     so_offset := 0 |}.
(** ** What the commands keep *)

Record row_ok (id : Z) (r : ProjectRow) : Prop := {
  ro_id : pr_project_id r = id;
  ro_key : pr_name_key r = name_key (pr_name r);
  ro_name : pr_name r ≠ "" ∧ Z.of_nat (length (chars (pr_name r))) ≤ MAX_NAME_CHARS ∧
            existsb is_control (chars (pr_name r)) = false;
  ro_color : pr_color r ∈ COLORS;
  ro_icon : pr_icon r ∈ ICONS
}.

(** Two live projects of a workspace have different names. *)
Definition names_distinct (t : Tables) : Prop :=
  ∀ id1 id2 r1 r2,
    tb_projects t !! id1 = Some r1 → tb_projects t !! id2 = Some r2 →
    pr_archived r1 = false → pr_archived r2 = false →
    same_path (pr_workspace_root r1) (pr_workspace_root r2) = true →
    name_key (pr_name r1) = name_key (pr_name r2) → id1 = id2.

Definition count (t : Tables) (id : Z) : nat :=
  length (List.filter (λ m, pm_project_id m =? id) (snd <$> map_to_list (tb_members t))).

Record tables_inv (t : Tables) : Prop := {
  ti_rows : ∀ id r, tb_projects t !! id = Some r → row_ok id r;
  ti_members : ∀ task m, tb_members t !! task = Some m →
    pm_task_id m = task ∧ is_Some (tb_projects t !! pm_project_id m);
  ti_names : names_distinct t;
  ti_count : ∀ id, Z.of_nat (count t id) ≤ MAX_MEMBERS
}.

(** The tables as the fold of a log. *)
Definition rebuild (log : list StoredProject) : result string Tables :=
  foldl (λ acc ev, t ← acc; project_project t ev) (Ok {| tb_projects := ∅; tb_members := ∅ |}) log.

Inductive reachable : Store → Prop :=
  | reachable_empty : reachable Store_empty
  | reachable_run st c st' b : reachable st → run st c = Ok (st', b) → reachable st'.

Lemma same_path_sym a b : same_path a b = true → same_path b a = true.
Proof. unfold same_path. rewrite !String.eqb_eq. congruence. Qed.

Lemma check_name_ok name n : check_name name = Ok n →
  n ≠ "" ∧ Z.of_nat (length (chars n)) ≤ MAX_NAME_CHARS ∧ existsb is_control (chars n) = false.
Proof.
  unfold check_name. destruct (trim name) as [|a s] eqn:E; [done|]. cbn [str_is_empty].
  destruct (Z.ltb_spec MAX_NAME_CHARS (Z.of_nat (length (chars (String a s))))); [done|].
  destruct (existsb _ _) eqn:Ec; [done|]. intros [= <-]. by split_and!.
Qed.

Lemma check_color_ok color cur c : check_color color cur = Ok c →
  (∀ k, cur = Some k → k ∈ COLORS) → c ∈ COLORS.
Proof.
  unfold check_color. destruct (str_is_empty color).
  - intros [= <-] Hc. destruct cur; cbn; [by apply Hc|by left].
  - destruct (contains_str COLORS color) eqn:E; [|done]. intros [= <-] _. by apply contains_str_true.
Qed.

Lemma check_icon_ok icon cur c : check_icon icon cur = Ok c →
  (∀ k, cur = Some k → k ∈ ICONS) → c ∈ ICONS.
Proof.
  unfold check_icon. destruct (str_is_empty icon).
  - intros [= <-] Hc. destruct cur; cbn; [by apply Hc|by left].
  - destruct (contains_str ICONS icon) eqn:E; [|done]. intros [= <-] _. by apply contains_str_true.
Qed.

Lemma check_unique_ok st root name except id r :
  check_unique st root name except = Ok tt →
  tb_projects (so_tables st) !! id = Some r → pr_archived r = false →
  Some (pr_project_id r) ≠ except → same_path (pr_workspace_root r) root = true →
  name_key (pr_name r) ≠ name_key name.
Proof.
  unfold check_unique, live_in. destruct (existsb _ _) eqn:E; [done|]. intros _ Hr Ha Hx Hp.
  apply existsb_false in E. rewrite Forall_forall in E. apply String.eqb_neq, E.
  apply list_elem_of_In, List.filter_In. split.
  - apply list_elem_of_In, list_elem_of_fmap. exists (id, r). split; [done|].
    by apply elem_of_map_to_list.
  - rewrite Ha, Hp, andb_true_r. cbn. apply negb_true_iff. by apply bool_decide_eq_false.
Qed.

Lemma filter_length_perm {A} (p : A → bool) (l k : list A) :
  l ≡ₚ k → length (List.filter p l) = length (List.filter p k).
Proof.
  induction 1 as [|x l k _ IH|x y l|l k m _ IH1 _ IH2]; cbn; [done| | |congruence].
  - destruct (p x); cbn; by rewrite IH.
  - destruct (p x), (p y); done.
Qed.

Lemma count_insert t task m id :
  tb_members t !! task = None →
  count {| tb_projects := tb_projects t; tb_members := <[task := m]> (tb_members t) |} id =
  ((if (pm_project_id m =? id)%Z then 1 else 0) + count t id)%nat.
Proof.
  intros Hn. unfold count. cbn [tb_members].
  rewrite (filter_length_perm _ _ (m :: (snd <$> map_to_list (tb_members t)))).
  - cbn. by destruct (pm_project_id m =? id).
  - rewrite map_to_list_insert by done. done.
Qed.

Lemma count_delete t task m id :
  tb_members t !! task = Some m →
  (count {| tb_projects := tb_projects t; tb_members := delete task (tb_members t) |} id ≤ count t id)%nat.
Proof.
  intros Hn. unfold count. cbn [tb_members].
  rewrite (filter_length_perm _ (snd <$> map_to_list (tb_members t))
    (m :: (snd <$> map_to_list (delete task (tb_members t))))).
  - cbn. destruct (pm_project_id m =? id); cbn; lia.
  - by rewrite <- (map_to_list_delete _ _ _ Hn).
Qed.

(** A change of one row keeps the tables well formed when it keeps the row so and takes
    no name of a live project. *)
Lemma update_inv t ev id f :
  tables_inv t →
  (∀ r, tb_projects t !! id = Some r → row_ok id r → row_ok id (f r)) →
  (∀ r, tb_projects t !! id = Some r → pr_archived (f r) = false →
     ∀ id' r', id' ≠ id → tb_projects t !! id' = Some r' → pr_archived r' = false →
       same_path (pr_workspace_root r') (pr_workspace_root (f r)) = true →
       name_key (pr_name r') ≠ name_key (pr_name (f r))) →
  tables_inv (update_project id ev f t).
Proof.
  intros [Hr Hm Hn Hc] Hf Hu. unfold update_project. split; cbn [tb_projects tb_members].
  - intros id' r. destruct (decide (id' = id)) as [->|Hne].
    + rewrite lookup_alter_eq. destruct (tb_projects t !! id) as [r0|] eqn:E; cbn [fmap option_fmap option_map];
        [|done].
      intros [= <-]. destruct (Hf r0 eq_refl (Hr _ _ E)) as [H1 H2 H3 H4 H5].
      split; [exact H1|exact H2|exact H3|exact H4|exact H5].
    + rewrite lookup_alter_ne by done. apply Hr.
  - intros task m Ht. destruct (Hm _ _ Ht) as [? ?]. split; [done|].
    by rewrite lookup_alter_is_Some.
  - unfold names_distinct. cbn [tb_projects]. intros id1 id2 r1 r2.
    destruct (decide (id1 = id)) as [->|H1], (decide (id2 = id)) as [->|H2]; [done| | |].
    + rewrite lookup_alter_eq, lookup_alter_ne by done.
      destruct (tb_projects t !! id) as [r0|] eqn:E; cbn [fmap option_fmap option_map]; [|done].
      intros [= <-] E2 A1 A2 Hp Hk.
      exfalso. apply (Hu r0 eq_refl A1 id2 r2 H2 E2 A2); [by apply same_path_sym|symmetry; exact Hk].
    + rewrite lookup_alter_eq, lookup_alter_ne by done.
      destruct (tb_projects t !! id) as [r0|] eqn:E; cbn [fmap option_fmap option_map]; [|done].
      intros E1 [= <-] A1 A2 Hp Hk. exfalso. exact (Hu r0 eq_refl A2 id1 r1 H1 E1 A1 Hp Hk).
    + rewrite !lookup_alter_ne by done. apply Hn.
  - exact Hc.
Qed.

Lemma created_inv t ev id name color icon root t' :
  tables_inv t → sp_event ev = ProjectCreated id name color icon root → project_project t ev = Ok t' →
  (name ≠ "" ∧ Z.of_nat (length (chars name)) ≤ MAX_NAME_CHARS ∧ existsb is_control (chars name) = false) →
  color ∈ COLORS → icon ∈ ICONS →
  (∀ id' r', tb_projects t !! id' = Some r' → pr_archived r' = false →
     same_path (pr_workspace_root r') root = true → name_key (pr_name r') ≠ name_key name) →
  tables_inv t'.
Proof.
  intros [Hr Hm Hn Hc] Ee. unfold project_project. rewrite Ee.
  destruct (tb_projects t !! id) eqn:E; [done|]. cbn [is_some]. intros [= <-] Hname Hcol Hic Hu. split; cbn [tb_projects tb_members].
  - intros id' r. destruct (decide (id' = id)) as [->|Hne].
    + rewrite lookup_insert_eq. intros [= <-]. by split.
    + rewrite lookup_insert_ne by done. apply Hr.
  - intros task m Ht. destruct (Hm _ _ Ht) as [? Hs]. split; [done|].
    apply lookup_insert_is_Some'. by right.
  - unfold names_distinct. cbn [tb_projects]. intros id1 id2 r1 r2.
    destruct (decide (id1 = id)) as [->|H1], (decide (id2 = id)) as [->|H2]; [done| | |].
    + rewrite lookup_insert_eq, lookup_insert_ne by done. intros [= <-] E2 _ A2 Hp Hk. cbn in *.
      exfalso. apply (Hu id2 r2 E2 A2); [by apply same_path_sym|done].
    + rewrite lookup_insert_eq, lookup_insert_ne by done. intros E1 [= <-] A1 _ Hp Hk. cbn in *.
      exfalso. by apply (Hu id1 r1 E1 A1).
    + rewrite !lookup_insert_ne by done. apply Hn.
  - exact Hc.
Qed.

Lemma added_inv t ev id task t' :
  tables_inv t → sp_event ev = ProjectMemberAdded id task → project_project t ev = Ok t' →
  Z.of_nat (count t id) < MAX_MEMBERS → tables_inv t'.
Proof.
  intros Ht Ee. unfold project_project, touched. rewrite Ee.
  destruct (tb_projects t !! id) as [r|] eqn:E; [|done]. cbn [is_some mbind result_bind].
  assert (tables_inv (update_project id ev (λ r, r) t)) as Hu.
  { apply update_inv; [done..|]. intros r0 E0 A0 id' r' Hne Er' A' Hp Hk.
    apply Hne. eapply (ti_names _ Ht); eauto. }
  assert (is_Some (tb_projects (update_project id ev (λ r, r) t) !! id)) as Hs.
  { cbn [tb_projects update_project]. by rewrite lookup_alter_is_Some, E. }
  assert (count (update_project id ev (λ r, r) t) = count t) as Hcnt by done. revert Hu Hs Hcnt.
  generalize (update_project id ev (λ r, r) t). intros u [Hr Hm Hn Hc] Hs Hcnt.
  destruct (tb_members u !! task) as [m|] eqn:Em.
  - destruct (negb _); [done|]. by intros [= <-].
  - intros [= <-] Hlt. split; [done| |done|].
    + cbn [tb_projects tb_members]. intros task' m'. destruct (decide (task' = task)) as [->|Hne].
      * rewrite lookup_insert_eq. by intros [= <-].
      * rewrite lookup_insert_ne by done. apply Hm.
    + intros id'. rewrite count_insert by done. cbn. rewrite <- Hcnt in Hlt.
      destruct (Z.eqb_spec id id') as [<-|]; [lia|]. specialize (Hc id'). lia.
Qed.

Lemma removed_inv t ev id task t' :
  tables_inv t → sp_event ev = ProjectMemberRemoved id task → project_project t ev = Ok t' → tables_inv t'.
Proof.
  intros Ht Ee. unfold project_project. rewrite Ee.
  assert (tables_inv (update_project id ev (λ r, r) t)) as Hu.
  { apply update_inv; [done..|]. intros r0 E0 A0 id' r' Hne Er' A' Hp Hk.
    apply Hne. eapply (ti_names _ Ht); eauto. }
  revert Hu. generalize (update_project id ev (λ r, r) t). intros u Hu.
  destruct (tb_members u !! task) as [m|] eqn:Em; [|by intros [= <-]].
  destruct (_ =? _); [|by intros [= <-]]. intros [= <-]. destruct Hu as [Hr Hm Hn Hc]. split; [done| |done|].
  - cbn [tb_projects tb_members]. intros task' m' [_ Hl]%lookup_delete_Some. by apply Hm.
  - intros id'. specialize (Hc id'). pose proof (count_delete u task m id' Em). lia.
Qed.

Definition store_inv (st : Store) : Prop :=
  tables_inv (so_tables st) ∧ rebuild (so_log st) = Ok (so_tables st).

Lemma rebuild_snoc log ev : rebuild (log ++ [ev]) = (t ← rebuild log; project_project t ev).
Proof. unfold rebuild. by rewrite foldl_app. Qed.

Lemma append_inv st k at_ event st' b :
  store_inv st → append st k at_ event = Ok (st', b) →
  (∀ ev t', sp_event ev = event → project_project (so_tables st) ev = Ok t' → tables_inv t') →
  store_inv st'.
Proof.
  intros [Ht Hl]. unfold append. set (ev := {| sp_event := event |}).
  destruct (project_project (so_tables st) ev) as [t'|] eqn:E; [|done]. intros [= <- <-] Hp.
  split; [exact (Hp ev t' eq_refl E)|]. cbn [so_log so_tables]. by rewrite rebuild_snoc, Hl.
Qed.

Lemma create_inv st k at_ name color icon root st' b :
  store_inv st → create st k at_ name color icon root = Ok (st', b) → store_inv st'.
Proof.
  intros Hi. unfold create. destruct (replay st k); [by intros [= <- <-]|].
  intros (n & Hn%check_name_ok & (c & Hc & (i & Hic & H')%bind_ok)%bind_ok)%bind_ok.
  apply check_color_ok in Hc; [|done]. apply check_icon_ok in Hic; [|done]. revert H'.
  destruct (str_is_empty _); [done|]. intros ([] & Hu & H')%bind_ok. revert H'.
  destruct (_ <=? _); [done|]. intros Ha. eapply append_inv; [done|done|].
  intros ev t' Ee Et. destruct Hi as [Ht _].
  eapply created_inv; [exact Ht|exact Ee|exact Et|done..|]. intros id' r' E' A' Hp.
  by eapply check_unique_ok.
Qed.

Lemma existing_ok st id r : existing st id = Ok r → tb_projects (so_tables st) !! id = Some r.
Proof. unfold existing. destruct (_ !! _); [|done]. by intros [= <-]. Qed.

Lemma rename_inv st k at_ id name color icon st' b :
  store_inv st → rename st k at_ id name color icon = Ok (st', b) → store_inv st'.
Proof.
  intros Hi. unfold rename. destruct (replay st k); [by intros [= <- <-]|].
  intros (row & Hrow%existing_ok & H')%bind_ok. revert H'. destruct (pr_archived row) eqn:Ea; [done|].
  intros (n & Hn & (c & Hc & (i & Hic & H')%bind_ok)%bind_ok)%bind_ok. revert H'.
  destruct (_ && _ && _); [by intros [= <- <-]|]. intros ([] & Hu & Ha)%bind_ok.
  destruct Hi as [Ht Hl]. pose proof (ti_rows _ Ht _ _ Hrow) as Hok.
  eapply append_inv; [by split|done|]. intros ev t' Ee. unfold project_project, touched. rewrite Ee, Hrow.
  cbn [is_some mbind result_bind]. intros [= <-]. apply update_inv; [done| |].
  - intros r E [H1 H2 H3 H4 H5]. rewrite Hrow in E. injection E as <-. split.
    + exact H1.
    + done.
    + cbn [pr_name]. revert Hn. destruct (str_is_empty _); [by intros [= <-]|]. by intros ?%check_name_ok.
    + eapply check_color_ok; [exact Hc|]. by intros ? [= <-].
    + eapply check_icon_ok; [exact Hic|]. by intros ? [= <-].
  - intros r E _ id' r' Hne Er' A' Hp. rewrite Hrow in E. injection E as <-.
    eapply (check_unique_ok _ _ _ _ id' r' Hu); [done|done| |exact Hp].
    rewrite (ro_id _ _ (ti_rows _ Ht _ _ Er')). congruence.
Qed.

Lemma archive_inv st k at_ id want st' b :
  store_inv st → archive st k at_ id want = Ok (st', b) → store_inv st'.
Proof.
  intros Hi. unfold archive. destruct (replay st k); [by intros [= <- <-]|].
  intros (row & Hrow%existing_ok & H')%bind_ok. revert H'.
  destruct (Bool.eqb _ _); [by intros [= <- <-]|]. pose proof Hi as [Ht _].
  assert (∀ b0, ∀ r, tb_projects (so_tables st) !! id = Some r → row_ok id r →
    row_ok id { r with pr_archived := b0 }) as Hrow_ok.
  { intros b0 r _ [H1 H2 H3 H4 H5]. split; [exact H1|exact H2|exact H3|exact H4|exact H5]. }
  destruct want.
  - intros Ha. eapply append_inv; [done|done|]. intros ev t' Ee. unfold project_project, touched.
    rewrite Ee, Hrow. cbn [is_some mbind result_bind]. intros [= <-]. apply update_inv; [done|by apply Hrow_ok|done].
  - intros ([] & Hu & Ha)%bind_ok. eapply append_inv; [done|done|]. intros ev t' Ee.
    unfold project_project, touched. rewrite Ee, Hrow. cbn [is_some mbind result_bind]. intros [= <-].
    apply update_inv; [done|by apply Hrow_ok|].
    intros r E _ id' r' Hne Er' A' Hp. rewrite Hrow in E. injection E as <-.
    eapply (check_unique_ok _ _ _ _ id' r' Hu); [done|done| |exact Hp].
    rewrite (ro_id _ _ (ti_rows _ Ht _ _ Er')). congruence.
Qed.

Lemma check_add_room target task held : check_add target task held = Ok tt →
  tg_members target < MAX_MEMBERS ∧ tg_archived target = false ∧ is_top_level (cd_origin task) = true ∧
  cd_workspace_root task = Some (tg_workspace_root target) ∧
  ∀ other, held = Some other → other.1 = tg_project_id target.
Proof.
  unfold check_add. destruct (tg_archived target); [done|]. destruct (is_top_level _); [|done]. cbn [negb].
  destruct (is_draft _ _); [done|]. intros ([] & Hw & H')%bind_ok. revert H'.
  assert (cd_workspace_root task = Some (tg_workspace_root target)) as ->.
  { destruct (cd_workspace_root task) as [root|]; [|done].
    destruct (String.eqb_spec root (tg_workspace_root target)); [congruence|done]. }
  destruct held as [[other n]|].
  - destruct (Z.eqb_spec other (tg_project_id target)); [|done]. cbn [negb].
    destruct (Z.leb_spec MAX_MEMBERS (tg_members target)); [done|]. intros _. split_and!; [done..|].
    by intros ? [= <-].
  - destruct (Z.leb_spec MAX_MEMBERS (tg_members target)); [done|]. intros _. by split_and!.
Qed.

Lemma membership_inv st k at_ id task_id task add st' b :
  store_inv st → membership st k at_ id task_id task add = Ok (st', b) → store_inv st'.
Proof.
  intros Hi. unfold membership. destruct (replay st k); [by intros [= <- <-]|].
  intros (row & Hrow & H')%bind_ok. revert H'. pose proof Hi as [Ht _]. destruct add; cbn [negb].
  - intros (facts & _ & ([] & Hc%check_add_room & H')%bind_ok)%bind_ok. cbn [tg_members] in Hc.
    assert (append st k at_ (ProjectMemberAdded id task_id) = Ok (st', b) ∨ st' = st) as [Ha| ->]; [|..|done].
    { revert H'. destruct (tb_members (so_tables st) !! task_id) as [h|]; [|by left].
      destruct (pm_project_id h =? id); [intros [= <- <-]; by right|by left]. }
    eapply append_inv; [done|exact Ha|]. intros ev t' Ee Et.
    eapply added_inv; [exact Ht|exact Ee|exact Et|apply Hc].
  - unfold leave. destruct (pr_archived row); [done|].
    destruct (_ !! task_id) as [h|]; [|by intros [= <- <-]]. destruct (negb _); [done|].
    intros Ha. eapply append_inv; [done|exact Ha|]. intros ev t' Ee Et. by eapply removed_inv.
Qed.

(** C25: whatever commands are run, in whatever order and however often, the tables of the
    projects are the fold of their log; every project has a valid name, colour and icon;
    two live projects of a workspace never have the same name; every member is held by a
    project that exists, a task by at most one, and no project holds more tasks than
    allowed. *)
Theorem projects_reachable_inv st : reachable st → store_inv st.
Proof.
  induction 1 as [|st c st' b _ IH Hr].
  - split; [|done]. split; cbn [Store_empty so_tables tb_projects tb_members].
    + intros id r. by rewrite lookup_empty.
    + intros task m. by rewrite lookup_empty.
    + intros id1 id2 r1 r2. cbn [tb_projects]. by rewrite lookup_empty.
    + intros id. unfold count. cbn [tb_members]. by rewrite map_to_list_empty.
  - destruct c; cbn in Hr; eauto using create_inv, rename_inv, archive_inv, membership_inv.
Qed.

End Rules.

(** ** Examples *)

Module ProjectExample.

#[export] Instance lower : Lowercase := to_ascii_lowercase.
#[export] Instance ids : IdText := λ z, pretty z.
#[export] Instance paths : Paths := {| canonicalize p := Some p; resolve_path p := p |}.

Fixpoint runs (st : Store) (l : list Command) : option Store :=
  match l with
  | [] => Some st
  | c :: l => match run st c with Ok (st', _) => runs st' l | Err _ => None end
  end.

Definition live (st : Store) : nat := length (live_in st "/w" None).

Definition new (k : Z) : Command := CreateProject k k ("p" +:+ pretty k) "" "" "/w".

Definition facts : TaskFacts :=
  {| tf_origin := Origin_Cli; tf_state := TaskState_Running; tf_archived := false;
     tf_workspace := Some "/w" |}.

Definition first_steps : list Command :=
  [new 1; new 2; AddProjectMember 3 3 1 100 (Some facts); ArchiveProject 4 4 1 true].

Definition reached (l : list Command) : Store := default Store_empty (runs Store_empty l).

Lemma reached_reachable l : reachable (reached l).
Proof.
  unfold reached. assert (∀ st, reachable st → reachable (default Store_empty (runs st l))) as Hr;
    [|apply Hr; constructor].
  induction l as [|c l IH]; intros st Hst; cbn [runs]; [done|].
  destruct (run st c) as [[st' b]|] eqn:E; [|constructor]. apply IH. by econstructor.
Qed.

Lemma projects_reachable_inv_witness :
  live (reached first_steps) = 1%nat ∧ length (so_log (reached first_steps)) = 4%nat ∧
  store_inv (reached first_steps).
Proof.
  split; [vm_compute; reflexivity|]. split; [vm_compute; reflexivity|].
  apply (projects_reachable_inv (reached first_steps)). apply reached_reachable.
Defined.

Definition upto (n : nat) : list Z := Z.of_nat <$> seq 1 n.

(** A project that comes back is not counted: a workspace ends with more live projects
    than it may hold. *)
Example limit_passed :
  live (reached ((new <$> upto 50) ++ [ArchiveProject 60 60 1 true; new 61; ArchiveProject 62 62 1 false]))
  = 51%nat.
Proof. vm_compute. reflexivity. Qed.

(** Adding a task again is answered with the project, unless the project is full. *)
Example full_project_refuses_member :
  let st := reached (new 1 :: ((λ k, AddProjectMember (1000 + k) k 1 (2000 + k) (Some facts)) <$> upto 200)) in
  match run st (AddProjectMember 5000 5000 1 2001 (Some facts)) with
  | Err (code, _) => code = "PROJECT_FULL"
  | Ok _ => False
  end.
Proof. vm_compute. reflexivity. Qed.

End ProjectExample.
