(* ===== verification/Trajectory.v ===== *)
(** * Trajectory metrics

    [crates/core-runtime/src/trajectory.rs]: what the projected tasks and tool calls say
    about wasted work, and the goals that keep coming back. The Unicode table behind
    [char::to_lowercase] is a class. *)

From stdpp Require Import gmap sorting.
From S2P Require Import Prelude RustStr BTree StateMachine ToolCall Task.
#[local] Open Scope Z_scope.

Definition RECURRING_MIN : nat := 3.
Definition GOAL_KEY_CHARS : nat := 60.

Record TaskMetrics := {
  tm_task_id : Z;
  tm_calls : nat;
  tm_failed_calls : nat;
  tm_cancelled_calls : nat;
  tm_unknown_outcome_calls : nat;
  tm_repeated_calls : nat;
  tm_ended_badly : bool
}.

Record RecurringGoal := {
  rg_key : string;
  rg_task_ids : list Z;
  rg_ended_badly : nat
}.

(** The lower-case characters of a character. *)
Class CharLower := char_to_lowercase : string → list string.

(** [char::is_ascii_digit] and [char::is_whitespace] on a character by its bytes. *)
Definition char_is_digit (c : string) : bool :=
  match c with String a "" => is_ascii_digit a | _ => false end.

Definition char_is_whitespace (c : string) : bool :=
  match c with
  | String a "" => is_ws1 a
  | String a (String b "") => is_ws2 a b
  | String a (String b (String d "")) => is_ws3 a b d
  | _ => false
  end.

Section Trajectory.
  Context `{CharLower}.

(** The loop of [goal_key]: what is pushed for the characters left. *)
Fixpoint key_loop (cs : list string) (last_digit last_space : bool) : string :=
  match cs with
  | [] => ""
  | ch :: cs =>
      if char_is_digit ch then (if last_digit then "" else "#") +:+ key_loop cs true false
      else if char_is_whitespace ch then (if last_space then "" else " ") +:+ key_loop cs false true
      else ch +:+ key_loop cs false false
  end.

Definition goal_key (goal : string) : string :=
  take_chars GOAL_KEY_CHARS (trim_end (key_loop (chars goal ≫= char_to_lowercase) false true)).

Definition ended_badly (state : TaskState) : bool :=
  match state with TaskState_Failed | TaskState_Cancelled => true | _ => false end.

Definition call_key (call : ToolCall) : string * string := (tc_tool_name call, tc_arguments_hash call).

(** The loop over the calls; [seen] counts the calls with the same tool and arguments. *)
Definition metrics_step (acc : TaskMetrics * gmap (string * string) nat) (call : ToolCall)
    : TaskMetrics * gmap (string * string) nat :=
  let '(m, seen) := acc in
  let m := match tc_state call with
           | ToolCallState_Failed => { m with tm_failed_calls ::= S }
           | ToolCallState_Cancelled => { m with tm_cancelled_calls ::= S }
           | ToolCallState_UnknownOutcome => { m with tm_unknown_outcome_calls ::= S }
           | _ => m
           end in
  let n := default 0%nat (seen !! call_key call) in
  let m := if (0 <? n)%nat then { m with tm_repeated_calls ::= S } else m in
  (m, <[call_key call := S n]> seen).

Definition task_metrics (task : Task) (calls : list ToolCall) : TaskMetrics :=
  (foldl metrics_step
     ({| tm_task_id := ta_task_id task; tm_calls := length calls; tm_failed_calls := 0;
         tm_cancelled_calls := 0; tm_unknown_outcome_calls := 0; tm_repeated_calls := 0;
         tm_ended_badly := ended_badly (ta_state task) |}, ∅) calls).1.

Definition group (groups : bmap (list Task)) (task : Task) : bmap (list Task) :=
  let key := goal_key (ta_goal_text task) in
  if str_is_empty key then groups
  else binsert key (default [] (bget key groups) ++ [task]) groups.

Definition more_often (a b : RecurringGoal) : bool :=
  match Nat.compare (length (rg_task_ids b)) (length (rg_task_ids a)) with
  | Lt => true
  | Gt => false
  | Eq => match String.compare (rg_key a) (rg_key b) with Lt => true | _ => false end
  end.

Definition goal_of (kv : string * list Task) : RecurringGoal :=
  {| rg_key := kv.1; rg_task_ids := ta_task_id <$> kv.2;
     rg_ended_badly := length (List.filter (λ t, ended_badly (ta_state t)) kv.2) |}.

Definition recurring_goals (tasks : list Task) (min : nat) : list RecurringGoal :=
  sort_by more_often
    (goal_of <$> List.filter (λ kv, (Nat.max min 2 <=? length kv.2)%nat) (foldl group [] tasks)).

(** ** What is measured *)

Definition in_state (s : ToolCallState) (calls : list ToolCall) : nat :=
  length (List.filter (λ c, bool_decide (tc_state c = s)) calls).

Lemma metrics_fold calls : ∀ m seen,
  let '(m', seen') := foldl metrics_step (m, seen) calls in
  tm_failed_calls m' = (tm_failed_calls m + in_state ToolCallState_Failed calls)%nat ∧
  tm_cancelled_calls m' = (tm_cancelled_calls m + in_state ToolCallState_Cancelled calls)%nat ∧
  tm_unknown_outcome_calls m' =
    (tm_unknown_outcome_calls m + in_state ToolCallState_UnknownOutcome calls)%nat ∧
  tm_calls m' = tm_calls m ∧ tm_task_id m' = tm_task_id m ∧ tm_ended_badly m' = tm_ended_badly m ∧
  ((∀ k n, seen !! k = Some n → (0 < n)%nat) →
   (tm_repeated_calls m' + size seen' = tm_repeated_calls m + size seen + length calls)%nat ∧
   dom seen' = dom seen ∪ list_to_set (call_key <$> calls)).
Proof.
  induction calls as [|c calls IH]; intros m seen; cbn [foldl].
  { unfold in_state. cbn. split_and!; try lia; try done. intros _. split; [lia|set_solver]. }
  destruct (metrics_step (m, seen) c) as [m1 seen1] eqn:E. specialize (IH m1 seen1).
  destruct (foldl metrics_step (m1, seen1) calls) as [m' seen'].
  destruct IH as (I1 & I2 & I3 & I4 & I5 & I6 & I7).
  unfold metrics_step in E. injection E as Em Es.
  assert (seen1 = <[call_key c := S (default 0%nat (seen !! call_key c))]> seen) as Es' by done. clear Es.
  assert (∀ s, in_state s (c :: calls) = ((if bool_decide (tc_state c = s) then 1 else 0) + in_state s calls)%nat)
    as Hin by (intros s; unfold in_state; cbn; by case_bool_decide).
  rewrite !Hin, I1, I2, I3, I4, I5, I6. clear I1 I2 I3 I4 I5 I6.
  assert (tm_failed_calls m1 = (tm_failed_calls m + if bool_decide (tc_state c = ToolCallState_Failed) then 1 else 0)%nat ∧
    tm_cancelled_calls m1 = (tm_cancelled_calls m + if bool_decide (tc_state c = ToolCallState_Cancelled) then 1 else 0)%nat ∧
    tm_unknown_outcome_calls m1 = (tm_unknown_outcome_calls m +
      if bool_decide (tc_state c = ToolCallState_UnknownOutcome) then 1 else 0)%nat ∧
    tm_calls m1 = tm_calls m ∧ tm_task_id m1 = tm_task_id m ∧ tm_ended_badly m1 = tm_ended_badly m ∧
    tm_repeated_calls m1 = (tm_repeated_calls m +
      if (0 <? default 0 (seen !! call_key c))%nat then 1 else 0)%nat) as (-> & -> & -> & -> & -> & -> & Hrep).
  { rewrite <- Em. clear. generalize (0 <? default 0 (seen !! call_key c))%nat. intros b.
    destruct m, (tc_state c), b; cbn -[bool_decide]; repeat case_bool_decide; try congruence;
      split_and!; lia || done. }
  split_and!; [lia..|done|done|done|]. intros Hpos.
  destruct I7 as [I7 I8].
  { intros k n. rewrite Es'. rewrite lookup_insert_Some. intros [[<- <-]|[_ Hk]]; [lia|by eapply Hpos]. }
  rewrite I8, Es'. split.
  - rewrite Es' in I7. cbn [length]. rewrite Hrep in I7. destruct (seen !! call_key c) as [n|] eqn:Ec.
    + rewrite map_size_insert, Ec in I7. cbn in I7. specialize (Hpos _ _ Ec).
      destruct n; [lia|]. cbn in I7. lia.
    + rewrite map_size_insert, Ec in I7. cbn in I7. lia.
  - rewrite dom_insert_L, fmap_cons. cbn [list_to_set]. set_solver.
Qed.

(** The numbers of a task are counts of its calls: those that ended in each state, and
    as many repeated ones as there are calls beyond the different pairs of tool and
    arguments. *)
Theorem task_metrics_exact task calls :
  let m := task_metrics task calls in
  tm_calls m = length calls ∧ tm_failed_calls m = in_state ToolCallState_Failed calls ∧
  tm_cancelled_calls m = in_state ToolCallState_Cancelled calls ∧
  tm_unknown_outcome_calls m = in_state ToolCallState_UnknownOutcome calls ∧
  (tm_repeated_calls m + size (list_to_set (call_key <$> calls) : gset (string * string)) = length calls)%nat.
Proof.
  unfold task_metrics. set (m0 := {| tm_task_id := _ |}).
  pose proof (metrics_fold calls m0 ∅) as Hf. destruct (foldl metrics_step (m0, ∅) calls) as [m' seen'].
  cbv zeta. cbn [fst]. destruct Hf as (-> & -> & -> & -> & _ & _ & Hs). destruct Hs as [Hs Hd].
  { intros k n. by rewrite lookup_empty. }
  cbn. split_and!; [done..|].
  assert (size seen' = size (list_to_set (call_key <$> calls) : gset (string * string))) as <-.
  { rewrite <- size_dom, Hd. f_equal. set_solver. }
  rewrite map_size_empty in Hs. cbn in Hs. lia.
Qed.

(** The tasks of a key, in order. *)
Definition sharing (k : string) (tasks : list Task) : list Task :=
  List.filter (λ t, goal_key (ta_goal_text t) =s k) tasks.

Lemma groups_exact tasks :
  bmap_wf (foldl group [] tasks) ∧
  ∀ k, bget k (foldl group [] tasks) =
    if str_is_empty k then None
    else match sharing k tasks with [] => None | l => Some l end.
Proof.
  induction tasks as [|t tasks [Hw IH]] using rev_ind.
  { split; [constructor|]. intros k. by destruct (str_is_empty k). }
  rewrite foldl_app. cbn [foldl]. unfold group at 1 3. destruct (str_is_empty (goal_key (ta_goal_text t))) eqn:Ee.
  - split; [done|]. intros k. rewrite IH. unfold sharing. rewrite List.filter_app. cbn [List.filter].
    destruct (String.eqb_spec (goal_key (ta_goal_text t)) k) as [<-|]; [by rewrite Ee|].
    by rewrite app_nil_r.
  - split; [by apply binsert_wf|]. intros k. unfold sharing. rewrite List.filter_app. cbn [List.filter].
    destruct (String.eqb_spec (goal_key (ta_goal_text t)) k) as [<-|Hne].
    + rewrite bget_insert, IH, Ee. unfold sharing. destruct (List.filter _ tasks); done.
    + rewrite bget_insert_ne, IH, app_nil_r by done. done.
Qed.

(** The goals said to recur are exactly those that enough tasks share, each with its
    tasks in order and how many ended badly, the most frequent first. *)
Theorem recurring_goals_exact tasks min :
  (∀ g, g ∈ recurring_goals tasks min ↔
     rg_key g ≠ "" ∧ (Nat.max min 2 ≤ length (sharing (rg_key g) tasks))%nat ∧
     g = goal_of (rg_key g, sharing (rg_key g) tasks)) ∧
  StronglySorted (λ a b, - Z.of_nat (length (rg_task_ids a)) ≤ - Z.of_nat (length (rg_task_ids b)))
    (recurring_goals tasks min).
Proof.
  destruct (groups_exact tasks) as [Hw Hg]. split.
  - intros g. unfold recurring_goals. rewrite elem_of_sort_by, list_elem_of_fmap. split.
    + intros ([k v] & -> & Hin). apply list_elem_of_In, List.filter_In in Hin as [Hin Hl%Nat.leb_le].
      apply list_elem_of_In, (bget_unique _ _ _ (bmap_wf_NoDup _ Hw)) in Hin. rewrite Hg in Hin.
      cbn [rg_key goal_of fst snd] in *. destruct k as [|a k]; [done|]. cbn [str_is_empty] in Hin.
      destruct (sharing (String a k) tasks) as [|t l] eqn:E; [done|]. injection Hin as <-. done.
    + intros (Hk & Hl & ->). cbn [rg_key goal_of fst] in *. eexists. split; [reflexivity|].
      apply list_elem_of_In, List.filter_In. split; [|by apply Nat.leb_le].
      apply list_elem_of_In, bget_elem. rewrite Hg. destruct (rg_key g) as [|a k]; [done|].
      cbn [str_is_empty]. destruct (sharing (String a k) tasks); [cbn in Hl; lia|done].
  - apply sort_by_monotone; intros x y; unfold more_often;
      destruct (Nat.compare_spec (length (rg_task_ids y)) (length (rg_task_ids x))); try done; lia.
Qed.

End Trajectory.

#[local] Instance ascii_chars : CharLower := λ c, [to_ascii_lowercase c].

Example goals_share_a_key :
  goal_key "  Fix issue #1234  in Parser.rs " = "fix issue ## in parser.rs" ∧
  goal_key "fix issue #9 in parser.rs" = "fix issue ## in parser.rs" ∧ goal_key "   " = "".
Proof. vm_compute. split_and!; reflexivity. Qed.
