(* ===== verification/Feasibility.v ===== *)
(** * Confidence-adjusted feasibility

    [crates/providers/src/feasibility.rs]: what a conditional plan can be expected to do,
    and which of the plans is selected. An [f64] is a [spec_float] of the standard
    library's IEEE 754 arithmetic (a NaN is the quiet one), so that the definitions run. *)

From Stdlib Require Import Floats.SpecFloat.
From stdpp Require Import sorting.
From S2P Require Import Prelude RustStr BTree.
#[local] Open Scope Z_scope.

(** ** Numbers *)

Definition f64 : Set := spec_float.
Definition f64_0 : f64 := S754_zero false.
Definition f64_1 : f64 := S754_finite false 4503599627370496 (-52).
Definition f64_sub : f64 → f64 → f64 := SFsub 53 1024.
Definition f64_mul : f64 → f64 → f64 := SFmul 53 1024.
Definition f64_lt (a b : f64) : bool := match SFcompare a b with Some Lt => true | _ => false end.
Definition f64_le (a b : f64) : bool :=
  match SFcompare a b with Some (Lt | Eq) => true | _ => false end.

(** [clamp(lo, hi)]. *)
Definition f64_clamp (lo hi x : f64) : f64 :=
  let x := if f64_lt x lo then lo else x in if f64_lt hi x then hi else x.

(** The bits of the magnitude, and [total_cmp] as the comparison of the bits as an
    integer, those below the sign flipped when it is set. *)
Definition f64_bits (x : f64) : bool * Z :=
  match x with
  | S754_zero s => (s, 0)
  | S754_infinity s => (s, 2047 * 2 ^ 52)
  | S754_nan => (false, 4095 * 2 ^ 51)
  | S754_finite s m e =>
      (s, if Z.pos m <? 2 ^ 52 then Z.pos m else (e + 1075) * 2 ^ 52 + (Z.pos m - 2 ^ 52))
  end.

Definition total_key (x : f64) : Z := let '(s, b) := f64_bits x in if s then - b - 1 else b.

(** [{:.3}]: rounded to the nearest, to the even one of two. *)
Definition thousandths (m e : Z) : Z :=
  if 0 <=? e then m * 1000 * 2 ^ e
  else
    let d := 2 ^ (- e) in
    let q := (m * 1000) `div` d in
    let r := (m * 1000) `mod` d in
    if (d <? 2 * r) || ((2 * r =? d) && Z.odd q) then q + 1 else q.

Definition fixed3 (x : f64) : string :=
  let text (s : bool) (q : Z) : string :=
    let frac := pretty (1000 + q `mod` 1000) in
    (if s then "-" else "") +:+ pretty (q `div` 1000) +:+ "." +:+ str_drop 1 frac in
  match x with
  | S754_zero s => text s 0
  | S754_infinity s => if s then "-inf" else "inf"
  | S754_nan => "NaN"
  | S754_finite s m e => text s (thousandths (Z.pos m) e)
  end.

(** ** Data *)

Definition FEASIBILITY_VERSION : string := "feasibility-1".

Record Thresholds := {
  th_mode : string;
  th_tau : f64;
  th_delta : f64;
  th_min_samples : Z;
  th_switch_cost_minor : Z;
  th_thresholds_version : string
}.

Record LegEvidence := { le_key_id : string; le_lcb : f64; le_mean : f64; le_samples : Z }.

Record PlanQuality := {
  pq_lcb : f64;
  pq_mean : f64;
  pq_confident : bool;
  pq_missing : list string;
  pq_thin : list string
}.

(** The lower bound or the mean of two legs of which one has to succeed. *)
Definition compose (a b : f64) : f64 := f64_sub f64_1 (f64_mul (f64_sub f64_1 a) (f64_sub f64_1 b)).

Definition plan_quality (initial continuation : option LegEvidence) (initial_key : string)
    (continuation_key : option string) (t : Thresholds) : PlanQuality :=
  match initial with
  | None =>
      {| pq_lcb := f64_0; pq_mean := f64_0; pq_confident := false;
         pq_missing := initial_key ::
           match continuation_key, continuation with Some k, None => [k] | _, _ => [] end;
         pq_thin := [] |}
  | Some first =>
      let thin := if le_samples first <? th_min_samples t then [le_key_id first] else [] in
      let confident := negb (le_samples first <? th_min_samples t) in
      let '(lcb, mean, missing, thin) :=
        match continuation, continuation_key with
        | Some next, _ =>
            if le_samples next <? th_min_samples t then
              (le_lcb first, le_mean first, [], thin ++ [le_key_id next])
            else
              (compose (le_lcb first) (le_lcb next), compose (le_mean first) (le_mean next), [], thin)
        | None, Some k => (le_lcb first, le_mean first, [k], thin)
        | None, None => (le_lcb first, le_mean first, [], thin)
        end in
      {| pq_lcb := f64_clamp f64_0 f64_1 lcb; pq_mean := f64_clamp f64_0 f64_1 mean;
         pq_confident := confident; pq_missing := missing; pq_thin := thin |}
  end.

Record Candidate := {
  ca_plan_id : string;
  ca_worst_case_cost_minor : Z;
  ca_expected_cost_minor : Z;
  ca_quality : PlanQuality;
  ca_hard_eligible : bool;
  ca_ineligible_reason : string
}.

Record Exclusion := { ex_plan_id : string; ex_reason : string }.

Record Selection := {
  se_selected : option string;
  se_code : string;
  se_feasible : list string;
  se_exclusions : list Exclusion;
  se_selected_lcb : f64;
  se_tau : f64;
  se_target_met : bool;
  se_feasibility_version : string;
  se_thresholds_version : string
}.

(** ** Selection *)

Definition shortfall (q : PlanQuality) (t : Thresholds) : string :=
  match pq_missing q with
  | _ :: _ => "no observation for " +:+ Prelude.join ", " (pq_missing q)
  | [] =>
      if negb (pq_confident q) then
        "low confidence: " +:+ Prelude.join ", " (pq_thin q) +:+ " below the " +:+
        pretty (th_min_samples t) +:+ "-sample threshold"
      else if f64_le (f64_sub (th_tau t) (pq_lcb q)) (th_delta t) then
        "near: lower bound " +:+ fixed3 (pq_lcb q) +:+ " is within " +:+ fixed3 (th_delta t) +:+
        " of tau " +:+ fixed3 (th_tau t)
      else "lower bound " +:+ fixed3 (pq_lcb q) +:+ " is below tau " +:+ fixed3 (th_tau t)
  end.

Definition is_feasible (t : Thresholds) (c : Candidate) : bool :=
  ca_hard_eligible c && pq_confident (ca_quality c) && bool_decide (pq_missing (ca_quality c) = []) &&
  f64_le (th_tau t) (pq_lcb (ca_quality c)).

(** [Ordering::then_with]. *)
Definition then_with (a b : comparison) : comparison := match a with Eq => b | _ => a end.

Definition is_lt (c : comparison) : bool := match c with Lt => true | _ => false end.

(** Cheapest first. *)
Definition cheaper (a b : Candidate) : bool :=
  is_lt (then_with (ca_expected_cost_minor a ?= ca_expected_cost_minor b)
    (then_with (ca_worst_case_cost_minor a ?= ca_worst_case_cost_minor b)
      (then_with (total_key (pq_lcb (ca_quality b)) ?= total_key (pq_lcb (ca_quality a)))
        (String.compare (ca_plan_id a) (ca_plan_id b))))).

(** Best bound first. *)
Definition better (a b : Candidate) : bool :=
  is_lt (then_with (total_key (pq_lcb (ca_quality b)) ?= total_key (pq_lcb (ca_quality a)))
    (then_with (ca_expected_cost_minor a ?= ca_expected_cost_minor b)
      (String.compare (ca_plan_id a) (ca_plan_id b)))).

(** What the first loop says about a candidate that is not feasible. *)
Definition exclude (t : Thresholds) (c : Candidate) : option Exclusion :=
  if negb (ca_hard_eligible c) then
    Some {| ex_plan_id := ca_plan_id c; ex_reason := "not hard eligible: " +:+ ca_ineligible_reason c |}
  else if is_feasible t c then None
  else Some {| ex_plan_id := ca_plan_id c; ex_reason := shortfall (ca_quality c) t |}.

Definition excluded (id : string) (l : list Exclusion) : bool := existsb (λ e, ex_plan_id e =s id) l.

(** The loop that gives every plan but the chosen one a reason, unless it has one. *)
Definition exclude_others (chosen : string) (reason : Candidate → string) (plans : list Candidate)
    (exclusions : list Exclusion) : list Exclusion :=
  foldl (λ acc f,
    if negb (ca_plan_id f =s chosen) && negb (excluded (ca_plan_id f) acc) then
      acc ++ [{| ex_plan_id := ca_plan_id f; ex_reason := reason f |}]
    else acc) exclusions plans.

(** The plan in force, when it is feasible and the cheapest does not save enough. *)
Definition keeps (t : Thresholds) (current : option string) (cheapest : Candidate)
    (feasible : list Candidate) : option Candidate :=
  cur ← current;
  kept ← List.find (λ c, ca_plan_id c =s cur) feasible;
  if negb (ca_plan_id kept =s ca_plan_id cheapest) &&
     (sat_sub (ca_worst_case_cost_minor kept) (ca_worst_case_cost_minor cheapest) <?
      th_switch_cost_minor t)
  then Some kept else None.

Definition selection (t : Thresholds) (selected : option Candidate) (code : string)
    (feasible : list string) (exclusions : list Exclusion) (target_met : bool) : Selection :=
  {| se_selected := ca_plan_id <$> selected; se_code := code; se_feasible := feasible;
     se_exclusions := exclusions;
     se_selected_lcb := match selected with Some c => pq_lcb (ca_quality c) | None => f64_0 end;
     se_tau := th_tau t; se_target_met := target_met;
     se_feasibility_version := FEASIBILITY_VERSION;
     se_thresholds_version := th_thresholds_version t |}.

Definition select (candidates : list Candidate) (t : Thresholds) (current : option string) : Selection :=
  let exclusions := omap (exclude t) candidates in
  let feasible := sort_by cheaper (List.filter (is_feasible t) candidates) in
  match feasible with
  | cheapest :: _ =>
      let '(chosen, exclusions) :=
        match keeps t current cheapest feasible with
        | Some kept =>
            (kept, exclusions ++
               [{| ex_plan_id := ca_plan_id cheapest;
                   ex_reason := "saves " +:+
                     pretty (wrap64 (ca_worst_case_cost_minor kept - ca_worst_case_cost_minor cheapest)) +:+
                     " minor units, below the switch cost of " +:+ pretty (th_switch_cost_minor t) +:+
                     "; the plan in force is kept" |}])
        | None => (cheapest, exclusions)
        end in
      let exclusions := exclude_others (ca_plan_id chosen)
        (λ f, "feasible, but an expected " +:+ pretty (ca_expected_cost_minor f) +:+
              " minor units is not the lowest expected complete cost") feasible exclusions in
      selection t (Some chosen) "FEASIBLE" (ca_plan_id <$> feasible) exclusions true
  | [] =>
      let eligible := sort_by better (List.filter ca_hard_eligible candidates) in
      match cur ← current; List.find (λ c, ca_plan_id c =s cur) eligible with
      | Some cur =>
          selection t (Some cur) "QUALITY_FLOOR_INFEASIBLE" []
            (exclude_others (ca_plan_id cur)
               (λ _, "not confidence-feasible; the plan in force is kept") eligible exclusions) false
      | None =>
          match eligible with
          | best :: _ => selection t (Some best) "QUALITY_FLOOR_INFEASIBLE" [] exclusions false
          | [] => selection t None "NO_HARD_ELIGIBLE_PLAN" [] exclusions false
          end
      end
  end.

(** ** What a selection is worth *)

(** Eligible, and its lower bound, from enough observations of every leg, clears the
    floor. *)
Definition feasible (t : Thresholds) (c : Candidate) : Prop :=
  ca_hard_eligible c = true ∧ pq_confident (ca_quality c) = true ∧ pq_missing (ca_quality c) = [] ∧
  f64_le (th_tau t) (pq_lcb (ca_quality c)) = true.

Lemma is_feasible_iff t c : is_feasible t c = true ↔ feasible t c.
Proof. unfold is_feasible, feasible. rewrite !andb_true_iff, bool_decide_eq_true. naive_solver. Qed.

Lemma cheaper_sorted l :
  StronglySorted (λ x y, ca_expected_cost_minor x ≤ ca_expected_cost_minor y) (sort_by cheaper l).
Proof.
  apply sort_by_monotone; unfold cheaper; intros x y;
    destruct (Z.compare_spec (ca_expected_cost_minor x) (ca_expected_cost_minor y)); cbn; (done || lia).
Qed.

Lemma better_sorted l :
  StronglySorted (λ x y, - total_key (pq_lcb (ca_quality x)) ≤ - total_key (pq_lcb (ca_quality y)))
    (sort_by better l).
Proof.
  apply sort_by_monotone; unfold better; intros x y;
    destruct (Z.compare_spec (total_key (pq_lcb (ca_quality y))) (total_key (pq_lcb (ca_quality x))));
    cbn; (done || lia).
Qed.

Lemma sorted_least {A} (f : A → Z) x l y :
  StronglySorted (λ x y, f x ≤ f y) (x :: l) → y ∈ x :: l → f x ≤ f y.
Proof.
  intros [_ Hf]%StronglySorted_inv Hy. apply elem_of_cons in Hy as [->|Hy]; [lia|].
  rewrite Forall_forall in Hf. by apply Hf.
Qed.

Lemma elem_of_sorted_filter {lt} p (l : list Candidate) c :
  c ∈ sort_by lt (List.filter p l) ↔ c ∈ l ∧ p c = true.
Proof. by rewrite elem_of_sort_by, list_elem_of_In, List.filter_In, <- list_elem_of_In. Qed.

(** Every plan but the chosen one has a reason afterwards. *)
Lemma exclude_others_all chosen reason plans exclusions :
  exclusions ⊆ exclude_others chosen reason plans exclusions ∧
  ∀ c, c ∈ plans → ca_plan_id c ≠ chosen →
    ∃ e, e ∈ exclude_others chosen reason plans exclusions ∧ ex_plan_id e = ca_plan_id c.
Proof.
  unfold exclude_others. revert exclusions; induction plans as [|f plans IH]; intros acc; cbn [foldl].
  { split; [done|]. set_solver. }
  set (acc' := if _ && _ then _ else acc). destruct (IH acc') as [Hs Hc].
  assert (acc ⊆ acc') as Ha by (unfold acc'; destruct (_ && _); set_solver).
  split; [set_solver|]. intros c [->|Hin]%elem_of_cons Hne; [|by apply Hc].
  assert (∃ e, e ∈ acc' ∧ ex_plan_id e = ca_plan_id f) as (e & He & E); [|exists e; set_solver].
  unfold acc'. apply String.eqb_neq in Hne. rewrite Hne. cbn.
  destruct (excluded (ca_plan_id f) acc) eqn:Ee; cbn.
  - apply existsb_true in Ee as (e & He & E%String.eqb_eq). eauto.
  - eexists. split; [apply elem_of_app; right; by left|done].
Qed.

Lemma excluded_first t (candidates : list Candidate) c :
  c ∈ candidates → is_feasible t c = false →
  ∃ e, e ∈ omap (exclude t) candidates ∧ ex_plan_id e = ca_plan_id c.
Proof.
  intros Hc Hf. assert (∃ e, exclude t c = Some e ∧ ex_plan_id e = ca_plan_id c) as (e & He & E).
  { unfold exclude. rewrite Hf. destruct (ca_hard_eligible c); cbn; eauto. }
  exists e. split; [|done]. apply list_elem_of_omap. eauto.
Qed.

(** The reasons for a choice: what was chosen and why it may be. *)
Definition justified (candidates : list Candidate) (t : Thresholds) (current : option string)
    (c : Candidate) (target_met : bool) : Prop :=
  if target_met then
    feasible t c ∧
    ∃ cheapest, cheapest ∈ candidates ∧ feasible t cheapest ∧
      (∀ c', c' ∈ candidates → feasible t c' →
         ca_expected_cost_minor cheapest ≤ ca_expected_cost_minor c') ∧
      (c = cheapest ∨ current = Some (ca_plan_id c) ∧
         ca_worst_case_cost_minor c - ca_worst_case_cost_minor cheapest < th_switch_cost_minor t)
  else
    ca_hard_eligible c = true ∧ (∀ c', c' ∈ candidates → ¬ feasible t c') ∧
    (current = Some (ca_plan_id c) ∨
     (∀ c', c' ∈ candidates → ca_hard_eligible c' = true →
        current ≠ Some (ca_plan_id c') ∧
        total_key (pq_lcb (ca_quality c')) ≤ total_key (pq_lcb (ca_quality c)))).

Definition justified_selection (candidates : list Candidate) (t : Thresholds) (current : option string)
    (s : Selection) : Prop :=
  match se_selected s with
  | Some id =>
      ∃ c, c ∈ candidates ∧ ca_plan_id c = id ∧ se_selected_lcb s = pq_lcb (ca_quality c) ∧
        justified candidates t current c (se_target_met s)
  | None => se_target_met s = false ∧ Forall (λ c, ca_hard_eligible c = false) candidates
  end ∧
  ∀ c, c ∈ candidates → se_selected s ≠ Some (ca_plan_id c) →
    ∃ e, e ∈ se_exclusions s ∧ ex_plan_id e = ca_plan_id c.

Lemma select_feasible candidates t current cheapest rest :
  sort_by cheaper (List.filter (is_feasible t) candidates) = cheapest :: rest →
  justified_selection candidates t current (select candidates t current).
Proof.
  intros E. assert (∀ c, c ∈ cheapest :: rest ↔ c ∈ candidates ∧ is_feasible t c = true) as Hf.
  { intros c. rewrite <- E. apply elem_of_sorted_filter. }
  assert (∀ c', c' ∈ candidates → feasible t c' →
    ca_expected_cost_minor cheapest ≤ ca_expected_cost_minor c') as Hmin.
  { intros c' Hc' Hff. apply (sorted_least ca_expected_cost_minor cheapest rest).
    - rewrite <- E. apply cheaper_sorted.
    - apply Hf. by rewrite is_feasible_iff. }
  destruct (proj1 (Hf cheapest)) as [Hcc Hcf%is_feasible_iff]; [by left|].
  unfold select. rewrite E.
  set (choice := match keeps t current cheapest (cheapest :: rest) with Some _ => _ | None => _ end).
  assert (choice.1 ∈ candidates ∧ justified candidates t current choice.1 true ∧
          omap (exclude t) candidates ⊆ choice.2) as (Hin & Hj & Hx).
  { unfold choice. destruct (keeps _ _ _ _) as [kept|] eqn:Ek; cbn [fst snd].
    - unfold keeps in Ek. destruct current as [cur|]; [|done]. cbn [mbind option_bind] in Ek.
      destruct (List.find _ _) as [k|] eqn:Ef; [|done]. cbn [mbind option_bind] in Ek.
      destruct (_ && _) eqn:Eb; [|done]. injection Ek as ->. apply andb_true_iff in Eb as [_ Hs%Z.ltb_lt].
      apply List.find_some in Ef as [Hk Hid%String.eqb_eq]. apply list_elem_of_In, Hf in Hk as [Hk Hkf%is_feasible_iff].
      split_and!; [done| |set_solver]. split; [done|]. exists cheapest. split_and!; [done..|].
      right. rewrite Hid. split; [done|]. unfold sat_sub in Hs. lia.
    - split_and!; [done| |done]. split; [done|]. exists cheapest. split_and!; [done..|by left]. }
  destruct choice as [chosen exclusions]. cbn [fst snd] in *. split.
  - exists chosen. split; [done|]. split; [done|]. split; [done|exact Hj].
  - cbn [se_exclusions selection se_selected]. intros c Hc Hne. set (out := exclude_others _ _ _ _).
    destruct (exclude_others_all (ca_plan_id chosen) (λ f, "feasible, but an expected " +:+
      pretty (ca_expected_cost_minor f) +:+ " minor units is not the lowest expected complete cost")
      (cheapest :: rest) exclusions) as [Hs Ho]. fold out in Hs, Ho.
    destruct (is_feasible t c) eqn:Efc.
    + apply Ho; [by apply Hf|]. intros Eid. apply Hne. cbn. by rewrite Eid.
    + destruct (excluded_first t _ _ Hc Efc) as (e & He & Ei). exists e. split; [|done]. set_solver.
Qed.

Lemma select_infeasible candidates t current :
  sort_by cheaper (List.filter (is_feasible t) candidates) = [] →
  justified_selection candidates t current (select candidates t current).
Proof.
  intros E. assert (∀ c, c ∈ candidates → is_feasible t c = false) as Hn.
  { intros c Hc. apply not_true_iff_false. intros Hf.
    assert (c ∈ sort_by cheaper (List.filter (is_feasible t) candidates)) as Hin
      by (by apply elem_of_sorted_filter). rewrite E in Hin. set_solver. }
  assert (∀ c', c' ∈ candidates → ¬ feasible t c') as Hnf.
  { intros c' Hc' Hf%is_feasible_iff. by rewrite Hn in Hf. }
  assert (∀ (out : list Exclusion) c, omap (exclude t) candidates ⊆ out → c ∈ candidates →
    ∃ e, e ∈ out ∧ ex_plan_id e = ca_plan_id c) as Hx.
  { intros out c Hs Hc. destruct (excluded_first t _ _ Hc (Hn _ Hc)) as (e & He & Ei). exists e. set_solver. }
  unfold select. rewrite E. set (eligible := sort_by better _).
  assert (∀ c, c ∈ eligible ↔ c ∈ candidates ∧ ca_hard_eligible c = true) as He.
  { intros c. apply elem_of_sorted_filter. }
  destruct (cur ← current; List.find _ eligible) as [cur|] eqn:Ec.
  - destruct current as [id|]; [|done]. cbn in Ec. apply List.find_some in Ec as [Hin Hid%String.eqb_eq].
    apply list_elem_of_In, He in Hin as [Hin Hel]. split.
    + exists cur. do 3 (split; [done|]). split; [done|]. split; [done|]. left. by rewrite Hid.
    + intros c Hc _. apply Hx; [|done]. apply exclude_others_all.
  - destruct eligible as [|best rest] eqn:Eb; split.
    + split; [done|]. apply Forall_forall. intros c Hc. apply not_true_iff_false. intros Hel.
      assert (c ∈ []) as Hin by (by apply He). set_solver.
    + intros c Hc _. by apply Hx.
    + destruct (proj1 (He best)) as [Hb Hbe]; [by left|]. exists best. do 3 (split; [done|]).
      split; [done|]. split; [done|]. right. intros c' Hc' Hel. split.
      * intros ->. cbn [mbind option_bind] in Ec. apply find_none_forall in Ec. rewrite Forall_forall in Ec.
        assert (c' ∈ best :: rest) as Hin by (by apply He). specialize (Ec _ Hin).
        by rewrite String.eqb_refl in Ec.
      * assert (- total_key (pq_lcb (ca_quality best)) ≤ - total_key (pq_lcb (ca_quality c'))); [|lia].
        apply (sorted_least (λ c, - total_key (pq_lcb (ca_quality c))) best rest); [|by apply He].
        rewrite <- Eb. apply better_sorted.
    + intros c Hc _. by apply Hx.
Qed.

(** C24: a selection says what it rests on. The target is claimed only for an eligible
    plan whose bound, from enough observations, clears the floor, which is the cheapest
    of those by expected cost or the plan in force that the cheapest would not save
    enough against; otherwise no plan clears the floor, and the plan in force or the
    eligible plan with the best bound is taken; nothing is selected only when no plan is
    eligible; and every plan not selected has a reason. *)
Theorem selection_justified candidates t current :
  justified_selection candidates t current (select candidates t current).
Proof.
  destruct (sort_by cheaper (List.filter (is_feasible t) candidates)) as [|cheapest rest] eqn:E.
  - by apply select_infeasible.
  - by eapply select_feasible.
Qed.

(** ** Examples *)

Module FeasibilityExample.

(** 0.9, 0.95 and 0.8 to the nearest. *)
Definition p90 : f64 := S754_finite false 8106479329266893 (-53).
Definition p95 : f64 := S754_finite false 8556839292003942 (-53).
Definition p80 : f64 := S754_finite false 7205759403792794 (-53).

Definition t : Thresholds :=
  {| th_mode := "auto"; th_tau := p90; th_delta := p90; th_min_samples := 20;
     th_switch_cost_minor := 50; th_thresholds_version := "t1" |}.

Definition leg (lcb : f64) (samples : Z) : LegEvidence :=
  {| le_key_id := "k"; le_lcb := lcb; le_mean := f64_1; le_samples := samples |}.

Definition plan (id : string) (worst expected : Z) (q : PlanQuality) : Candidate :=
  {| ca_plan_id := id; ca_worst_case_cost_minor := worst; ca_expected_cost_minor := expected;
     ca_quality := q; ca_hard_eligible := true; ca_ineligible_reason := "" |}.

(** A perfect mean over three observations is not evidence; two legs of 0.8 make 0.96. *)
Example mean_is_not_evidence :
  let thin := plan "thin" 1 1 (plan_quality (Some (leg f64_1 3)) None "k" None t) in
  let two := plan "two" 90 80 (plan_quality (Some (leg p80 40)) (Some (leg p80 40)) "k" None t) in
  let s := select [thin; two] t None in
  (se_selected s, se_code s, se_target_met s, fixed3 (se_selected_lcb s)) =
    (Some "two", "FEASIBLE", true, "0.960") ∧
  ex_reason <$> se_exclusions s = ["low confidence: k below the 20-sample threshold"].
Proof. vm_compute. split; reflexivity. Qed.

(** The plan in force has the lower worst case: the difference wraps around in the
    reason. *)
Example saving_wraps :
  let q := plan_quality (Some (leg p95 40)) None "k" None t in
  let s := select [plan "new" 200 80 q; plan "cur" 100 90 q] t (Some "cur") in
  (se_selected s, ex_reason <$> se_exclusions s) =
  (Some "cur", ["saves 18446744073709551516 minor units, below the switch cost of 50; the plan in force is kept"]).
Proof. vm_compute. reflexivity. Qed.

End FeasibilityExample.
