(* ===== verification/Sandbox.v ===== *)
(** * The sandbox policy

    [crates/sandbox/src/policy.rs]: what a task is entitled to inside its sandbox, the
    policy compiled from it, and the decisions on paths and destinations taken under
    it. *)

From S2P Require Import Prelude RustStr RustPath.
#[local] Open Scope Z_scope.

(** ** Data *)

Record EgressRule := { eg_host : string; eg_port : Z; eg_capability : string }.

Record CredentialGrant := {
  cg_handle : string;
  cg_virtual_host : string;
  cg_target_url : string;
  cg_header : string;
  cg_value_prefix : string;
  cg_capability : string;
  cg_expires_at_ms : Z
}.

Definition live_at (self : CredentialGrant) (now_ms : Z) : bool := now_ms <? cg_expires_at_ms self.

(** The subtraction is plain: it wraps around in a release build. *)
Definition wrap_i64 (x : Z) : Z := (x - i64_min) `mod` (u64_max + 1) + i64_min.
Definition remaining_ms (self : CredentialGrant) (now_ms : Z) : Z :=
  Z.max (wrap_i64 (cg_expires_at_ms self - now_ms)) 0.

Record OrgAllow := { oa_entries : list string; oa_note : string }.

(** [host == suffix || host.ends_with(".suffix")]. *)
Definition under_suffix (host suffix : string) : bool :=
  (host =s suffix) || ends_with ("." +:+ suffix) host.

(** A pattern of a host: itself, or a [*.suffix] wildcard. *)
Definition host_ok (pattern host : string) : bool :=
  match strip_prefix "*." pattern with
  | Some suffix => under_suffix host suffix
  | None => host =s pattern
  end.

Definition parse_u16 : string → option Z := parse_unsigned u16_max.

(** An entry of the list by host and port. *)
Definition org_entry (e : string) : string * option Z :=
  match rsplit_once ":" e with
  | Some (h, p) =>
      if negb (str_is_empty h) && str_all is_ascii_digit p then (h, parse_u16 p) else (e, None)
  | None => (e, None)
  end.

Definition OrgAllow_admits (self : OrgAllow) (host : string) (port : Z) : bool :=
  let host := to_ascii_lowercase host in
  existsb (λ e,
    let e := to_ascii_lowercase (trim e) in
    if str_is_empty e then false
    else
      let '(eh, ep) := org_entry e in
      host_ok eh host && match ep with Some p => p =? port | None => true end) (oa_entries self).

Record NetworkPolicy := {
  np_egress : list EgressRule;
  np_credentials : list CredentialGrant;
  np_org_allow : option OrgAllow
}.

Definition grants_anything (self : NetworkPolicy) : bool :=
  negb (match np_egress self with [] => true | _ => false end) ||
  negb (match np_credentials self with [] => true | _ => false end).

Definition rule_admits (host : string) (port : Z) (r : EgressRule) : bool :=
  host_ok (to_ascii_lowercase (eg_host r)) host && ((eg_port r =? 0) || (eg_port r =? port)).

Definition NetworkPolicy_admits (self : NetworkPolicy) (host : string) (port : Z)
    : option EgressRule :=
  List.find (rule_admits (to_ascii_lowercase host) port) (np_egress self).

Definition org_refusal (self : NetworkPolicy) (host : string) (port : Z) : option OrgAllow :=
  o ← np_org_allow self; if OrgAllow_admits o host port then None else Some o.

Definition credential_for (self : NetworkPolicy) (virtual_host : string)
    : option CredentialGrant :=
  let h := to_ascii_lowercase virtual_host in
  List.find (λ c, to_ascii_lowercase (cg_virtual_host c) =s h) (np_credentials self).

Record Resources := {
  re_vcpus : Z;
  re_memory_mib : Z;
  re_workspace_mib : Z;
  re_max_processes : Z;
  re_max_output_bytes : Z;
  re_exec_timeout_ms : Z
}.

Definition Resources_default : Resources :=
  {| re_vcpus := 1; re_memory_mib := 512; re_workspace_mib := 256; re_max_processes := 64;
     re_max_output_bytes := 1024 * 1024; re_exec_timeout_ms := 300000 |}.

Record SandboxSpec := {
  sp_tenant_id : Z;
  sp_session_id : Z;
  sp_task_id : Z;
  sp_workspace_source : string;
  sp_protected_paths : list string;
  sp_network : NetworkPolicy;
  sp_resources : Resources;
  sp_browser : bool
}.

Definition GUEST_WORKSPACE : string := "/workspace".
Definition GUEST_CONTROL_PATHS : list string :=
  ["/init"; "/etc"; "/proc"; "/sys"; "/dev"; "/run/modbit"].

Record CompiledPolicy := {
  cp_spec : SandboxSpec;
  cp_workspace_root : string;
  cp_protected_paths : list string;
  cp_readable_roots : list string;
  cp_network_interface : bool;
  cp_egress : list EgressRule;
  cp_egress_proxy : bool;
  cp_browser : bool
}.

(** [SandboxError::Unsupported], the error [compile] returns. *)
Inductive SandboxError := SandboxError_Unsupported (what : string).

Definition is_slash (a : ascii) : bool := Ascii.eqb a "/".

(** The loop of [compile] over the protected paths of the spec. *)
Fixpoint compile_paths (paths : list string) : result SandboxError (list string) :=
  match paths with
  | [] => Ok []
  | p :: paths =>
      let rel := trim_start_by is_slash p in
      if str_is_empty rel || existsb (String.eqb "..") (split_on "/" rel) then
        Err (SandboxError_Unsupported
          ("protected path `" +:+ p +:+ "` is not a path under the workspace"))
      else
        rest ← compile_paths paths; Ok ((GUEST_WORKSPACE +:+ "/" +:+ rel) :: rest)
  end.

Definition compile (spec : SandboxSpec) : result SandboxError CompiledPolicy :=
  protected ← compile_paths (sp_protected_paths spec);
  Ok {| cp_spec := spec;
        cp_workspace_root := GUEST_WORKSPACE;
        cp_protected_paths := GUEST_CONTROL_PATHS ++ protected;
        cp_readable_roots := ["/usr"; "/lib"; "/bin"; "/tmp"];
        cp_network_interface := false;
        cp_egress := np_egress (sp_network spec);
        cp_egress_proxy := grants_anything (sp_network spec);
        cp_browser := sp_browser spec |}.

(** The message of the wire protocol. *)
Record GuestPolicy := {
  gp_workspace_root : string;
  gp_protected_paths : list string;
  gp_readable_roots : list string;
  gp_max_output_bytes : Z;
  gp_max_processes : Z;
  gp_exec_timeout_ms : Z;
  gp_egress_proxy : bool;
  gp_browser : bool
}.

Definition guest_policy (self : CompiledPolicy) : GuestPolicy :=
  {| gp_workspace_root := cp_workspace_root self;
     gp_protected_paths := cp_protected_paths self;
     gp_readable_roots := cp_readable_roots self;
     gp_max_output_bytes := re_max_output_bytes (sp_resources (cp_spec self));
     gp_max_processes := re_max_processes (sp_resources (cp_spec self));
     gp_exec_timeout_ms := re_exec_timeout_ms (sp_resources (cp_spec self));
     gp_egress_proxy := cp_egress_proxy self;
     gp_browser := cp_browser self |}.

(** ** Paths in the guest *)

Definition normalize_step (out : list string) (seg : string) : list string :=
  if str_is_empty seg || (seg =s ".") then out
  else if seg =s ".." then removelast out
  else out ++ [seg].

Definition normal_segments (path : string) : list string :=
  foldl normalize_step [] (split_on "/" path).

Definition normalize (path : string) : string := "/" +:+ Prelude.join "/" (normal_segments path).

(** The path is [root] or under it. *)
Definition at_or_under (p root : string) : bool := (p =s root) || starts_with (root +:+ "/") p.

Definition write_allowed (policy : GuestPolicy) (path : string) : result (string * string) unit :=
  let p := normalize path in
  if negb (starts_with (trim_end_by is_slash (gp_workspace_root policy) +:+ "/") p) &&
     negb (p =s gp_workspace_root policy) then
    Err ("OUTSIDE_WORKSPACE", "`" +:+ path +:+ "` is outside " +:+ gp_workspace_root policy)
  else
    match List.find (λ prot, at_or_under p (trim_end_by is_slash prot)) (gp_protected_paths policy) with
    | Some prot =>
        Err ("PROTECTED_PATH",
             "`" +:+ path +:+ "` is protected (" +:+ trim_end_by is_slash prot +:+ ")")
    | None => Ok tt
    end.

Definition read_allowed (policy : GuestPolicy) (path : string) : result (string * string) unit :=
  let p := normalize path in
  if existsb (λ r, at_or_under p (trim_end_by is_slash r))
       (gp_workspace_root policy :: gp_readable_roots policy)
  then Ok tt
  else Err ("OUTSIDE_WORKSPACE", "`" +:+ path +:+ "` is not readable").

Definition map_to_host (workspace_host guest_workspace guest_path : string) : option string :=
  let p := normalize guest_path in
  rel ← strip_prefix (trim_end_by is_slash guest_workspace) p;
  Some (path_join workspace_host (trim_start_by is_slash rel)).

(** ** Paths by their segments *)

Definition plain_seg (s : string) : Prop :=
  s ≠ "" ∧ s ≠ "." ∧ s ≠ ".." ∧ contains_char "/" s = false.

Lemma split_on_pieces c s : Forall (λ p, contains_char c p = false) (split_on c s).
Proof.
  unfold split_on. induction s as [|a s IH]; [by repeat constructor|]. cbn.
  destruct (Ascii.eqb_spec a c) as [->|Hne]; [by constructor|].
  destruct (split_by _ s) as [|p ps]; [repeat constructor|].
  - unfold contains_char, str_any. cbn. destruct (Ascii.eqb_spec c a); [congruence|done].
  - apply Forall_cons in IH as [Hp Hps]. constructor; [|done].
    unfold contains_char, str_any in *. cbn. destruct (Ascii.eqb_spec c a); [congruence|done].
Qed.

Lemma split_on_app c a b : split_on c (a +:+ String c b) = split_on c a ++ split_on c b.
Proof.
  unfold split_on. induction a as [|x a IH]; cbn [split_by].
  - change ("" +:+ String c b) with (String c b). cbn. by rewrite Ascii.eqb_refl.
  - rewrite str_app_cons. cbn [split_by]. destruct (Ascii.eqb x c); [by rewrite IH|].
    rewrite IH. destruct (split_by _ a) as [|p ps] eqn:E; [by apply split_by_nonempty in E|done].
Qed.

Lemma normalize_step_plain out seg :
  Forall plain_seg out → contains_char "/" seg = false → Forall plain_seg (normalize_step out seg).
Proof.
  intros Ho Hs. unfold normalize_step. destruct (str_is_empty seg) eqn:E0; [done|].
  destruct (String.eqb_spec seg "."); [done|]. destruct (String.eqb_spec seg ".."); cbn.
  - rewrite removelast_firstn_len. by apply Forall_take.
  - apply Forall_app_2; [done|]. repeat constructor; try done. by intros ->.
Qed.

Lemma normal_plain path : Forall plain_seg (normal_segments path).
Proof.
  unfold normal_segments. pose proof (split_on_pieces "/" path) as Hp.
  assert (∀ out, Forall plain_seg out → Forall plain_seg (foldl normalize_step out (split_on "/" path)))
    as Hf; [|by apply Hf].
  induction Hp as [|s l Hs Hl IH]; intros out Ho; [done|]. cbn. apply IH.
  by apply normalize_step_plain.
Qed.

Definition slashed (segs : list string) : string := "/" +:+ Prelude.join "/" segs.

Lemma split_slashed segs :
  segs ≠ [] → Forall plain_seg segs → split_on "/" (slashed segs) = "" :: segs.
Proof.
  intros Hne Hp. unfold slashed. change ("/" +:+ Prelude.join "/" segs)
    with ("" +:+ String "/" (Prelude.join (String "/" "") segs)).
  rewrite split_on_app, split_on_join_inv; [done|done|].
  eapply Forall_impl; [done|]. by intros s (_ & _ & _ & ?).
Qed.

Lemma join_app l k :
  l ≠ [] → k ≠ [] →
  Prelude.join "/" (l ++ k) = Prelude.join "/" l +:+ "/" +:+ Prelude.join "/" k.
Proof.
  intros Hl Hk. induction l as [|x l IH]; [done|]. destruct l as [|y l].
  - cbn [app]. by destruct k.
  - change (Prelude.join "/" ((x :: y :: l) ++ k))
      with (x +:+ "/" +:+ Prelude.join "/" ((y :: l) ++ k)).
    rewrite IH by done. change (Prelude.join "/" (x :: y :: l)) with (x +:+ "/" +:+ Prelude.join "/" (y :: l)).
    by rewrite !str_app_assoc.
Qed.

(** A path is under another when the segments say so. *)
Lemma at_or_under_segments segs ps :
  ps ≠ [] → Forall plain_seg segs → Forall plain_seg ps →
  at_or_under (slashed segs) (slashed ps) = true ↔ ps `prefix_of` segs.
Proof.
  intros Hne Hs Hp. unfold at_or_under. rewrite orb_true_iff, String.eqb_eq, starts_with_true. split.
  - intros [E|[r E]].
    + destruct segs as [|s segs].
      { apply (f_equal (split_on "/")) in E. rewrite (split_slashed ps) in E by done.
        change (split_on "/" (slashed [])) with [""; ""] in E. injection E as <-.
        apply Forall_cons in Hp as [(? & _) _]. done. }
      apply (f_equal (split_on "/")) in E. rewrite !split_slashed in E by done.
      injection E as ->. done.
    + apply (f_equal (split_on "/")) in E.
      rewrite str_app_assoc in E. change ("/" +:+ r) with (String "/" r) in E.
      rewrite split_on_app, (split_slashed ps) in E by done.
      destruct segs as [|s segs].
      * change (split_on "/" (slashed [])) with [""; ""] in E. destruct ps as [|x [|]]; [done| |].
        -- injection E as <- E. apply Forall_cons in Hp as [(? & _) _]. done.
        -- injection E as <- E. apply Forall_cons in Hp as [(? & _) _]. done.
      * rewrite split_slashed in E by done. injection E as ->. by eexists.
  - intros [k ->]. destruct k as [|x k]; [left; by rewrite app_nil_r|]. right.
    exists (Prelude.join "/" (x :: k)). unfold slashed. rewrite join_app by done.
    by rewrite !str_app_assoc.
Qed.

(** The segments of a protected path as the spec gives it. *)
Definition protected_segments (p : string) : list string := split_on "/" (trim_start_by is_slash p).

Lemma trim_end_slashed segs :
  segs ≠ [] → Forall plain_seg segs → trim_end_by is_slash (slashed segs) = slashed segs.
Proof.
  intros Hne Hp. destruct segs as [|x segs _] using rev_ind; [done|].
  apply Forall_app in Hp as [_ [(Hx & _ & _ & Hs) _]%Forall_cons].
  assert (∃ t, slashed (segs ++ [x]) = t +:+ x) as [t ->].
  { unfold slashed. destruct segs as [|y l]; [by exists "/"|].
    rewrite join_app by done. exists ("/" +:+ Prelude.join "/" (y :: l) +:+ "/").
    by rewrite !str_app_assoc. }
  destruct (str_snoc x) as [->|(u & a & ->)]; [done|].
  unfold trim_end_by. rewrite <- str_app_assoc, str_rev_app.
  change (str_rev (String a "")) with (String a "").
  assert (is_slash a = false) as Ha.
  { rewrite contains_char_app in Hs. apply orb_false_iff in Hs as [_ Hs].
    unfold contains_char, str_any, str_all in Hs. unfold is_slash. rewrite Ascii.eqb_sym.
    by destruct (Ascii.eqb "/" a). }
  rewrite str_app_cons. cbn [trim_start_by]. rewrite Ha.
  change (String a ("" +:+ str_rev (t +:+ u))) with (String a "" +:+ str_rev (t +:+ u)).
  by rewrite str_rev_app, str_rev_involutive.
Qed.

Lemma compile_paths_ok paths out :
  compile_paths paths = Ok out →
  out = (λ p, GUEST_WORKSPACE +:+ "/" +:+ trim_start_by is_slash p) <$> paths.
Proof.
  revert out; induction paths as [|p paths IH]; intros out; cbn; [by intros [= <-]|].
  destruct (_ || _); [done|]. intros (rest & Hr & [= <-])%bind_ok. by rewrite (IH rest Hr).
Qed.

Lemma protected_slashed p :
  GUEST_WORKSPACE +:+ "/" +:+ trim_start_by is_slash p
  = slashed ("workspace" :: protected_segments p).
Proof.
  unfold slashed, protected_segments. pose proof (split_on_join "/" (trim_start_by is_slash p)) as E.
  destruct (split_on "/" (trim_start_by is_slash p)) as [|x l] eqn:Es.
  { unfold split_on in Es. by apply split_by_nonempty in Es. }
  change (Prelude.join "/" ("workspace" :: x :: l))
    with ("workspace" +:+ "/" +:+ Prelude.join (String "/" "") (x :: l)).
  by rewrite E.
Qed.

Lemma find_none_iff {A} (f : A → bool) l : List.find f l = None ↔ ∀ x, x ∈ l → f x = false.
Proof. rewrite find_none_forall. apply Forall_forall. Qed.

Lemma workspace_plain : Forall plain_seg ["workspace"].
Proof. repeat constructor; done. Qed.

Lemma plain_one s : plain_seg s → Forall plain_seg [s].
Proof. intros Hs. constructor; [exact Hs|constructor]. Qed.

(** None of the control paths is under the workspace. *)
Lemma control_apart c rest :
  c ∈ GUEST_CONTROL_PATHS → Forall plain_seg ("workspace" :: rest) →
  at_or_under (slashed ("workspace" :: rest)) (trim_end_by is_slash c) = false.
Proof.
  intros Hc Hr. apply not_true_iff_false. intros Hu.
  assert (∃ x l, trim_end_by is_slash c = slashed (x :: l) ∧ x ≠ "workspace" ∧
    Forall plain_seg (x :: l)) as (x & l & E & Hx & Hp).
  { unfold GUEST_CONTROL_PATHS in Hc. set_unfold in Hc.
    destruct_or! Hc; subst c;
      [exists "init", [] | exists "etc", [] | exists "proc", [] | exists "sys", [] | exists "dev", []
      | exists "run", ["modbit"]]; (split; [done|]); (split; [done|]); repeat constructor; done. }
  rewrite E in Hu. apply at_or_under_segments in Hu as [k Hk]; [|done..]. injection Hk as <- _. done.
Qed.

(** No protected path of a compiled policy covers a path of the workspace. *)
Lemma protected_none paths rest :
  Forall plain_seg ("workspace" :: rest) →
  Forall (λ p, Forall plain_seg (protected_segments p)) paths →
  List.find (λ prot, at_or_under (slashed ("workspace" :: rest)) (trim_end_by is_slash prot))
    (GUEST_CONTROL_PATHS ++
     ((λ p, GUEST_WORKSPACE +:+ "/" +:+ trim_start_by is_slash p) <$> paths)) = None ↔
  ∀ p, p ∈ paths → ¬ protected_segments p `prefix_of` rest.
Proof.
  intros Hn Hplain. rewrite find_none_iff. rewrite Forall_forall in Hplain. split.
  - intros Hall p Hp Hpre. specialize (Hplain p Hp).
    assert (Forall plain_seg ("workspace" :: protected_segments p)) as Hw
      by (constructor; [repeat split; done|done]).
    specialize (Hall (GUEST_WORKSPACE +:+ "/" +:+ trim_start_by is_slash p)).
    rewrite elem_of_app, list_elem_of_fmap in Hall.
    specialize (Hall (or_intror (ex_intro _ p (conj eq_refl Hp)))).
    rewrite protected_slashed, trim_end_slashed in Hall by done.
    apply not_true_iff_false in Hall. apply Hall, at_or_under_segments; [done..|].
    by apply prefix_cons.
  - intros Hall x [Hx|(p & -> & Hp)%list_elem_of_fmap]%elem_of_app; [by apply control_apart|].
    specialize (Hplain p Hp).
    assert (Forall plain_seg ("workspace" :: protected_segments p)) as Hw
      by (constructor; [repeat split; done|done]).
    rewrite protected_slashed, trim_end_slashed by done. apply not_true_iff_false.
    intros Hu%at_or_under_segments; [|done..]. apply (Hall p Hp). by apply prefix_cons_inv_2 in Hu.
Qed.

(** C19: what a sandbox may write. Under a compiled policy whose protected paths are
    spelled plainly, the guest may write a path exactly when, with [.] and [..] taken
    out, it is the workspace or lies in it and is neither one of the protected paths
    nor below one; so nothing outside the workspace and none of the guest's control
    paths can be written, whatever the path says. *)
Theorem guest_write_exact spec c path :
  compile spec = Ok c →
  Forall (λ p, Forall plain_seg (protected_segments p)) (sp_protected_paths spec) →
  write_allowed (guest_policy c) path = Ok tt ↔
  ∃ rest, normal_segments path = "workspace" :: rest ∧
    ∀ p, p ∈ sp_protected_paths spec → ¬ protected_segments p `prefix_of` rest.
Proof.
  unfold compile. intros (prot & Hc & [= <-])%bind_ok Hplain.
  apply compile_paths_ok in Hc as ->. unfold write_allowed, guest_policy. cbn [gp_workspace_root
    gp_protected_paths cp_workspace_root cp_protected_paths].
  pose proof (normal_plain path) as Hn. unfold normalize. fold (slashed (normal_segments path)).
  set (segs := normal_segments path) in *. rewrite <- negb_orb, orb_comm.
  change (trim_end_by is_slash GUEST_WORKSPACE) with GUEST_WORKSPACE.
  fold (at_or_under (slashed segs) GUEST_WORKSPACE).
  destruct (at_or_under (slashed segs) GUEST_WORKSPACE) eqn:Eu; cbn [negb].
  2: { split; [done|]. intros (rest & E & _). apply not_true_iff_false in Eu. destruct Eu.
       apply (at_or_under_segments segs ["workspace"]); [done|done|apply workspace_plain|].
       rewrite E. by exists rest. }
  apply (at_or_under_segments segs ["workspace"]) in Eu as [rest Es];
    [|done|done|apply workspace_plain].
  rewrite Es in *. cbn [app] in *.
  pose proof (protected_none (sp_protected_paths spec) rest Hn Hplain) as Hf.
  destruct (List.find _ _) as [x|]; split; intros Hx; try done.
  - destruct Hx as (rest' & [= <-] & Hall). by apply Hf in Hall.
  - exists rest. split; [done|]. by apply Hf.
Qed.

(** What it may read: the workspace and the four system trees. *)
Lemma guest_read_exact spec c path :
  compile spec = Ok c →
  read_allowed (guest_policy c) path = Ok tt ↔
  ∃ root rest, root ∈ ["workspace"; "usr"; "lib"; "bin"; "tmp"] ∧ normal_segments path = root :: rest.
Proof.
  unfold compile. intros (prot & _ & [= <-])%bind_ok.
  unfold read_allowed, guest_policy. cbn [gp_workspace_root gp_readable_roots cp_workspace_root
    cp_readable_roots]. unfold normalize. fold (slashed (normal_segments path)).
  pose proof (normal_plain path) as Hn.
  assert (∀ r, plain_seg r → at_or_under (slashed (normal_segments path)) (slashed [r]) = true ↔
    ∃ rest, normal_segments path = r :: rest) as Hr.
  { intros r Hp. rewrite at_or_under_segments; [|done|done|by apply plain_one].
    split; [by intros [k ->]; exists k|intros [k ->]; by exists k]. }
  assert (existsb (λ r, at_or_under (slashed (normal_segments path)) (trim_end_by is_slash r))
    [GUEST_WORKSPACE; "/usr"; "/lib"; "/bin"; "/tmp"] = true ↔
    ∃ root rest, root ∈ ["workspace"; "usr"; "lib"; "bin"; "tmp"] ∧ normal_segments path = root :: rest)
    as <-; [|by destruct (existsb _ _)].
  change [GUEST_WORKSPACE; "/usr"; "/lib"; "/bin"; "/tmp"]
    with (slashed <$> [["workspace"]; ["usr"]; ["lib"]; ["bin"]; ["tmp"]]).
  rewrite existsb_true. split.
  - intros (x & (y & -> & Hy)%list_elem_of_fmap & Hu).
    assert (∃ r, y = [r] ∧ r ∈ ["workspace"; "usr"; "lib"; "bin"; "tmp"] ∧ plain_seg r)
      as (r & -> & Hin & Hp).
    { set_unfold in Hy. destruct_or! Hy; subst y; eexists; (split; [done|]); (split; [set_solver|]);
        repeat split; done. }
    rewrite trim_end_slashed in Hu by (done || by apply plain_one).
    apply Hr in Hu as [rest ?]; [|done]. eauto.
  - intros (r & rest & Hin & E). exists (slashed [r]). split.
    { apply list_elem_of_fmap. exists [r]. split; [done|]. set_unfold in Hin. set_solver. }
    assert (plain_seg r) as Hp by (rewrite E in Hn; by apply Forall_cons in Hn as [? _]).
    rewrite trim_end_slashed by (done || by apply plain_one). apply Hr; eauto.
Qed.

(** ** Examples *)

Definition sample_spec (paths : list string) : SandboxSpec :=
  {| sp_tenant_id := 1; sp_session_id := 2; sp_task_id := 3; sp_workspace_source := "/tmp/ws";
     sp_protected_paths := paths;
     sp_network := {| np_egress := []; np_credentials := []; np_org_allow := None |};
     sp_resources := Resources_default; sp_browser := false |}.

(** The decision under the policy compiled from the spec. *)
Definition may_write (paths : list string) (path : string) : option bool :=
  c ← result_ok (compile (sample_spec paths)); Some (is_ok (write_allowed (guest_policy c) path)).

Lemma guest_write_exact_witness :
  may_write ["/.git/hooks"; "secrets"] "/workspace/a/../.git/config" = Some true ∧
  ∃ c rest, compile (sample_spec ["/.git/hooks"; "secrets"]) = Ok c ∧
    normal_segments "/workspace/a/../.git/config" = "workspace" :: rest.
Proof.
  split; [vm_compute; reflexivity|].
  destruct (compile (sample_spec ["/.git/hooks"; "secrets"])) as [c|e] eqn:E; [|discriminate E].
  destruct (proj1 (guest_write_exact _ c "/workspace/a/../.git/config" E
    ltac:(repeat constructor; vm_compute; discriminate || reflexivity)))
    as (rest & Hs & _).
  - injection E as <-. vm_compute. reflexivity.
  - exists c, rest. auto.
Defined.

Example protected_refused :
  may_write ["/.git/hooks"; "secrets"] "/workspace/.git/hooks/pre-commit" = Some false ∧
  may_write ["/.git/hooks"; "secrets"] "/workspace/../etc/passwd" = Some false.
Proof. vm_compute. split; reflexivity. Qed.

(** A protected path that is not spelled plainly is accepted and protects nothing. *)
Example dotted_path_unprotected :
  may_write ["./secrets"] "/workspace/secrets" = Some true ∧
  may_write ["a//b"] "/workspace/a/b" = Some true.
Proof. vm_compute. split; reflexivity. Qed.

(** A sibling of the workspace is mapped into it. *)
Example sibling_mapped :
  map_to_host "/host/ws" "/workspace" "/workspace-old/a" = Some "/host/ws/-old/a".
Proof. vm_compute. reflexivity. Qed.

(** An entry whose port is out of range admits every port. *)
Example org_port_out_of_range :
  OrgAllow_admits {| oa_entries := ["api.example.com:70000"]; oa_note := "" |} "api.example.com" 22
  = true.
Proof. vm_compute. reflexivity. Qed.
