(* ===== verification/VerifPlan.v ===== *)
(** * The verification plan

    [crates/verification/src/plan.rs]: the checks derived from what a repository holds,
    from the commands it declares and from those a task adds. The working tree is a
    class: which relative paths exist, and the text of a file. *)

From S2P Require Import Prelude RustStr BTree AutoDef Filter Hooks.
#[local] Open Scope Z_scope.

(** [report::RunnerFamily]. *)
Inductive RunnerFamily :=
  | RunnerFamily_Vitest
  | RunnerFamily_Jest
  | RunnerFamily_Pytest
  | RunnerFamily_Cargo
  | RunnerFamily_ConfiguredCommand.

Definition CONFIGURED_ID_PREFIX : string := "configured:".

Record CheckCommand := {
  cc_id : string;
  cc_family : RunnerFamily;
  cc_argv : list string;
  cc_mandatory : bool;
  cc_reporter_file : option string
}.

Definition is_repo_defined (self : CheckCommand) : bool := starts_with CONFIGURED_ID_PREFIX (cc_id self).

Record ExternalDiagnosticsInput := {
  ed_source : string;
  ed_source_version : string;
  ed_workspace_revision : Z;
  ed_batch_ref : string;
  ed_count : Z;
  ed_paths : list string
}.

Record VerificationPlan := {
  vp_version : Z;
  vp_stacks : list string;
  vp_commands : list CheckCommand;
  vp_acceptance_named : list string;
  vp_declared_changes : list (string * string);
  vp_environment_inputs : list string;
  vp_limitations : list string;
  vp_external_diagnostics : list ExternalDiagnosticsInput
}.

Class Root := {
  root_exists : string → bool;
  root_read : string → option string
}.

Section Plan.
  Context `{JsonRead}.

(** One entry of the declared commands. *)
Definition configured_command (c : jvalue) : option CheckCommand :=
  argv ← match jget c "argv" with
         | Some (Jarray l) => Some (omap (λ v, match v with Jstring s => Some s | _ => None end) l)
         | _ => None
         end;
  match argv with
  | [] => None
  | _ =>
      id ← match str_of c "id" with Some i => if str_is_empty i then None else Some i | None => None end;
      Some {| cc_id := CONFIGURED_ID_PREFIX +:+ id; cc_family := RunnerFamily_ConfiguredCommand;
              cc_argv := argv;
              cc_mandatory := match jget c "mandatory" with Some (Jbool b) => b | _ => true end;
              cc_reporter_file := str_of c "reporter_file" |}
  end.

Definition configured_commands_from (text : string) : list CheckCommand :=
  match json_from_str text with
  | Err _ => []
  | Ok v =>
      take 8 (omap configured_command match jget v "commands" with Some (Jarray l) => l | _ => [] end)
  end.

Context `{Root}.

Definition configured_commands : list CheckCommand :=
  match root_read ".modbit/verification.json" with
  | Some text => configured_commands_from text
  | None => []
  end.

Definition node_package_manager (package_json : string) : string :=
  let declared := v ← result_ok (json_from_str package_json); str_of v "packageManager" in
  match d ← declared; List.find (λ m, starts_with m d) ["pnpm"; "yarn"; "bun"; "npm"] with
  | Some m => m
  | None =>
      if root_exists "pnpm-lock.yaml" then "pnpm"
      else if root_exists "yarn.lock" then "yarn"
      else if root_exists "bun.lockb" || root_exists "bun.lock" then "bun"
      else "npm"
  end.

Definition node_scripts (package_json : string) : list (string * string) :=
  match v ← result_ok (json_from_str package_json); jget v "scripts" with
  | Some (Jobject o) =>
      omap (λ kv, match kv.2 with Jstring s => Some (kv.1, s) | _ => None end) o
  | _ => []
  end.

(** A Unix build. *)
Definition local_bin (name : string) : string := "node_modules/.bin/" +:+ name.

(** The plan under construction. *)
Record Draft := {
  dr_stacks : list string;
  dr_commands : list CheckCommand;
  dr_env_inputs : list string;
  dr_limitations : list string
}.

Definition push_command (id : string) (family : RunnerFamily) (argv : list string) (mandatory : bool)
    (reporter_file : option string) (d : Draft) : Draft :=
  { d with dr_commands ::= λ l, l ++
      [{| cc_id := id; cc_family := family; cc_argv := argv; cc_mandatory := mandatory;
          cc_reporter_file := reporter_file |}] }.

Definition push_stack (stack : string) (d : Draft) : Draft :=
  { d with dr_stacks ::= λ l, l ++ [stack] }.

Definition push_env (input : string) (d : Draft) : Draft :=
  { d with dr_env_inputs ::= λ l, l ++ [input] }.

Definition push_limitation (text : string) (d : Draft) : Draft :=
  { d with dr_limitations ::= λ l, l ++ [text] }.

Definition rust_checks (d : Draft) : Draft :=
  if root_exists "Cargo.toml" then
    let d := push_env "Cargo.lock" (push_stack "rust" d) in
    let d := push_command "build:cargo" RunnerFamily_ConfiguredCommand ["cargo"; "build"; "--offline"]
               true None d in
    push_command "suite:cargo" RunnerFamily_Cargo
      ["cargo"; "test"; "--offline"; "--"; "--test-threads=1"] true None d
  else d.

(** The first of the names that is a script with a text. *)
Definition script (scripts : list (string * string)) (names : list string) : option string :=
  List.find (λ n, existsb (λ kv, (kv.1 =s n) && negb (str_is_empty (trim kv.2))) scripts) names.

Definition script_text (scripts : list (string * string)) (name : string) : string :=
  match List.find (λ kv, kv.1 =s name) scripts with Some kv => kv.2 | None => "" end.

Definition lockfile (manager : string) : string :=
  if manager =s "pnpm" then "pnpm-lock.yaml"
  else if manager =s "yarn" then "yarn.lock"
  else if manager =s "bun" then "bun.lockb"
  else "package-lock.json".

Definition typecheck (manager : string) (scripts : list (string * string)) (d : Draft) : Draft :=
  let build := script scripts ["build"; "compile"] in
  let build_covers_tsc :=
    match build with Some b => str_contains "tsc" (script_text scripts b) | None => false end in
  match script scripts ["typecheck"; "type-check"; "check-types"; "types:check"; "check:types"] with
  | Some name =>
      push_command "typecheck:node" RunnerFamily_ConfiguredCommand [manager; "run"; name] true None d
  | None =>
      if negb build_covers_tsc && root_exists "tsconfig.json" && root_exists (local_bin "tsc") then
        push_command "typecheck:tsc" RunnerFamily_ConfiguredCommand [local_bin "tsc"; "--noEmit"] true
          None d
      else d
  end.

Definition node_suite (manager pkg : string) (scripts : list (string * string)) (d : Draft) : Draft :=
  let has_test_script :=
    existsb (λ kv, (kv.1 =s "test") && negb (str_contains "no test specified" kv.2) &&
                   negb (str_is_empty (trim kv.2))) scripts in
  if str_contains "vitest" pkg then
    push_command "suite:vitest" RunnerFamily_Vitest
      ["node"; "node_modules/vitest/vitest.mjs"; "run"; "--reporter=json";
       "--outputFile=.modbit-vitest.json"] true (Some ".modbit-vitest.json") d
  else if has_test_script then
    push_limitation "node test script has no structured reporter; HEURISTIC evidence"
      (push_command "suite:npm-test" RunnerFamily_ConfiguredCommand
         (if manager =s "bun" then ["bun"; "run"; "test"] else [manager; "test"]) true None d)
  else d.

Definition node_checks (d : Draft) : Draft :=
  if root_exists "package.json" then
    let d := push_stack "node" d in
    let pkg := default "" (root_read "package.json") in
    let manager := node_package_manager pkg in
    let d := push_env (lockfile manager) d in
    let scripts := node_scripts pkg in
    let d := typecheck manager scripts d in
    let d := match script scripts ["build"; "compile"] with
             | Some name => push_command "build:node" RunnerFamily_ConfiguredCommand
                              [manager; "run"; name] true None d
             | None => d
             end in
    let d := match script scripts ["lint"] with
             | Some name => push_command "lint:node" RunnerFamily_ConfiguredCommand
                              [manager; "run"; name] false None d
             | None => d
             end in
    let d := node_suite manager pkg scripts d in
    if existsb (λ c, ends_with ":node" (cc_id c) || (cc_id c =s "typecheck:tsc")) (dr_commands d) then
      push_limitation
        "node build, type-check and lint checks are exit-code based; their evidence is HEURISTIC" d
    else d
  else d.

Definition go_checks (d : Draft) : Draft :=
  if root_exists "go.mod" then
    let d := push_env "go.sum" (push_stack "go" d) in
    let d := push_command "build:go" RunnerFamily_ConfiguredCommand ["go"; "build"; "./..."] true None d in
    let d := push_command "vet:go" RunnerFamily_ConfiguredCommand ["go"; "vet"; "./..."] false None d in
    let d := push_command "suite:go" RunnerFamily_ConfiguredCommand ["go"; "test"; "./..."] true None d in
    push_limitation "go checks are exit-code based; their evidence is HEURISTIC" d
  else d.

Definition python_checks (d : Draft) : Draft :=
  if root_exists "pyproject.toml" || root_exists "pytest.ini" then
    push_command "suite:pytest" RunnerFamily_Pytest
      ["python3"; "-m"; "pytest"; "-q"; "--junitxml=.modbit-pytest.xml"] true
      (Some ".modbit-pytest.xml") (push_stack "python" d)
  else d.

Definition has_id (l : list CheckCommand) (c : CheckCommand) : bool :=
  existsb (λ x, cc_id x =s cc_id c) l.

Definition add_configured (d : Draft) (c : CheckCommand) : Draft :=
  if negb (has_id (dr_commands d) c) then
    { push_limitation ("`" +:+ cc_id c +:+
        "` is a repository-configured command; its evidence is HEURISTIC (exit code and output)") d
      with dr_commands ::= λ l, l ++ [c] }
  else d.

Definition add_extra (d : Draft) (c : CheckCommand) : Draft :=
  if negb (has_id (dr_commands d) c) then { d with dr_commands ::= λ l, l ++ [c] } else d.

Definition detected : Draft :=
  python_checks (go_checks (node_checks (rust_checks
    {| dr_stacks := []; dr_commands := []; dr_env_inputs := []; dr_limitations := [] |}))).

Definition derive_with_configured (task_named : list string) (extra_commands : list CheckCommand)
    (configured : option string) : VerificationPlan :=
  let d := detected in
  let d := foldl add_configured d
    match configured with Some text => configured_commands_from text | None => [] end in
  let d := foldl add_extra d extra_commands in
  let d := match dr_commands d with
           | [] => push_limitation
                     "no configured runner detected; verification needs a configured command" d
           | _ => d
           end in
  {| vp_version := 1; vp_stacks := dr_stacks d; vp_commands := dr_commands d;
     vp_acceptance_named := task_named; vp_declared_changes := [];
     vp_environment_inputs := dr_env_inputs d; vp_limitations := dr_limitations d;
     vp_external_diagnostics := [] |}.

Definition derive (task_named : list string) (extra_commands : list CheckCommand) : VerificationPlan :=
  derive_with_configured task_named extra_commands (root_read ".modbit/verification.json").

(** ** What an agent can and cannot change *)

Definition ids (d : Draft) : list string := cc_id <$> dr_commands d.

(** The ids of the checks the plan knows of itself. *)
Definition KNOWN : list string :=
  ["build:cargo"; "suite:cargo"; "typecheck:node"; "typecheck:tsc"; "build:node"; "lint:node";
   "suite:vitest"; "suite:npm-test"; "build:go"; "vet:go"; "suite:go"; "suite:pytest"].

Lemma ids_push id family argv mandatory reporter d L :
  ids d `sublist_of` L → ids (push_command id family argv mandatory reporter d) `sublist_of` L ++ [id].
Proof. intros Hd. unfold ids, push_command. cbn. rewrite fmap_app. by apply sublist_app. Qed.

Lemma ids_skip d L k : ids d `sublist_of` L → ids d `sublist_of` L ++ k.
Proof. apply sublist_inserts_r. Qed.

Lemma ids_limitation t d : ids (push_limitation t d) = ids d.
Proof. done. Qed.

Ltac pushed :=
  repeat first [ apply ids_push | done ].

Lemma rust_ids d L : ids d `sublist_of` L → ids (rust_checks d) `sublist_of` L ++ ["build:cargo"; "suite:cargo"].
Proof.
  intros Hd. unfold rust_checks. destruct (root_exists _); [|by apply ids_skip].
  change (["build:cargo"; "suite:cargo"]) with (["build:cargo"] ++ ["suite:cargo"]). rewrite app_assoc.
  pushed.
Qed.

Lemma typecheck_ids manager scripts d L :
  ids d `sublist_of` L →
  ids (typecheck manager scripts d) `sublist_of` L ++ ["typecheck:node"; "typecheck:tsc"].
Proof.
  intros Hd. unfold typecheck. change (["typecheck:node"; "typecheck:tsc"])
    with (["typecheck:node"] ++ ["typecheck:tsc"]). rewrite app_assoc.
  destruct (script _ _) as [name|]; [apply ids_skip; pushed|].
  destruct (_ && _ && _); [|by do 2 apply ids_skip]. apply ids_push. by apply ids_skip.
Qed.

Lemma suite_ids manager pkg scripts d L :
  ids d `sublist_of` L →
  ids (node_suite manager pkg scripts d) `sublist_of` L ++ ["suite:vitest"; "suite:npm-test"].
Proof.
  intros Hd. unfold node_suite. change (["suite:vitest"; "suite:npm-test"])
    with (["suite:vitest"] ++ ["suite:npm-test"]). rewrite app_assoc.
  destruct (str_contains _ pkg); [apply ids_skip; pushed|].
  destruct (existsb _ scripts); [|by do 2 apply ids_skip].
  rewrite ids_limitation. apply ids_push. by apply ids_skip.
Qed.

Lemma node_ids d L :
  ids d `sublist_of` L →
  ids (node_checks d) `sublist_of` L ++ ["typecheck:node"; "typecheck:tsc"; "build:node"; "lint:node";
    "suite:vitest"; "suite:npm-test"].
Proof.
  intros Hd. unfold node_checks. destruct (root_exists _); [|by apply ids_skip].
  set (d0 := push_env _ _). assert (ids d0 `sublist_of` L) as Hd0 by done. clearbody d0.
  set (scripts := node_scripts _). set (manager := node_package_manager _).
  apply (typecheck_ids manager scripts) in Hd0. revert Hd0. generalize (typecheck manager scripts d0).
  intros d1 Hd1.
  set (d2 := match script scripts ["build"; "compile"] with Some _ => _ | None => d1 end).
  assert (ids d2 `sublist_of` (L ++ ["typecheck:node"; "typecheck:tsc"]) ++ ["build:node"]) as Hd2.
  { unfold d2. destruct (script _ _); [by apply ids_push|by apply ids_skip]. }
  clearbody d2. set (d3 := match script scripts ["lint"] with Some _ => _ | None => d2 end).
  assert (ids d3 `sublist_of` ((L ++ ["typecheck:node"; "typecheck:tsc"]) ++ ["build:node"]) ++
    ["lint:node"]) as Hd3.
  { unfold d3. destruct (script _ _); [by apply ids_push|by apply ids_skip]. }
  clearbody d3. apply (suite_ids manager (default "" (root_read "package.json")) scripts) in Hd3.
  revert Hd3. rewrite <- !app_assoc. cbn [app]. intros Hd3.
  destruct (existsb _ (dr_commands _)); by rewrite ?ids_limitation.
Qed.

Lemma go_ids d L : ids d `sublist_of` L → ids (go_checks d) `sublist_of` L ++ ["build:go"; "vet:go"; "suite:go"].
Proof.
  intros Hd. unfold go_checks. destruct (root_exists _); [|by apply ids_skip]. rewrite ids_limitation.
  change (["build:go"; "vet:go"; "suite:go"]) with (["build:go"] ++ ["vet:go"] ++ ["suite:go"]).
  rewrite !app_assoc. pushed.
Qed.

Lemma python_ids d L : ids d `sublist_of` L → ids (python_checks d) `sublist_of` L ++ ["suite:pytest"].
Proof.
  intros Hd. unfold python_checks. destruct (_ || _); [by apply ids_push|by apply ids_skip].
Qed.

Lemma detected_ids : ids detected `sublist_of` KNOWN.
Proof.
  unfold detected. change KNOWN with (((([] ++ ["build:cargo"; "suite:cargo"]) ++
    ["typecheck:node"; "typecheck:tsc"; "build:node"; "lint:node"; "suite:vitest"; "suite:npm-test"]) ++
    ["build:go"; "vet:go"; "suite:go"]) ++ ["suite:pytest"]).
  by apply python_ids, go_ids, node_ids, rust_ids.
Qed.

Lemma has_id_iff l c : has_id l c = true ↔ cc_id c ∈ cc_id <$> l.
Proof.
  unfold has_id. rewrite existsb_true, list_elem_of_fmap. setoid_rewrite String.eqb_eq. naive_solver.
Qed.

(** Adding commands keeps those there are and takes the first of each new id. *)
Lemma fold_add (add : Draft → CheckCommand → Draft) extra d :
  (∀ d c, dr_commands (add d c) = if has_id (dr_commands d) c then dr_commands d else dr_commands d ++ [c]) →
  NoDup (ids d) →
  ∃ new, dr_commands (foldl add d extra) = dr_commands d ++ new ∧ new `sublist_of` extra ∧
    NoDup (ids (foldl add d extra)) ∧
    Forall (λ c, cc_id c ∈ ids (foldl add d extra)) extra.
Proof.
  intros Ha. revert d; induction extra as [|c extra IH]; intros d Hn; cbn [foldl].
  { exists []. by rewrite app_nil_r. }
  assert (NoDup (ids (add d c)) ∧ cc_id c ∈ ids (add d c)) as [Hn' Hc].
  { unfold ids in *. rewrite Ha. destruct (has_id _ c) eqn:E.
    - apply has_id_iff in E. done.
    - apply not_true_iff_false in E. rewrite has_id_iff in E. rewrite fmap_app. cbn.
      split; [|set_solver]. apply NoDup_app. split_and!; [done|set_solver|apply NoDup_singleton]. }
  destruct (IH _ Hn') as (new & E & Hs & Hnd & Hf). rewrite Ha in E.
  assert (cc_id c ∈ ids (foldl add (add d c) extra)) as Hin.
  { unfold ids in *. rewrite E. rewrite Ha in Hc. rewrite fmap_app. apply elem_of_app. by left. }
  destruct (has_id (dr_commands d) c).
  - exists new. split_and!; [done|by constructor|done|by constructor].
  - exists (c :: new). rewrite E, <- app_assoc. split_and!; [done|by constructor|done|by constructor].
Qed.

Lemma add_extra_commands d c :
  dr_commands (add_extra d c) = if has_id (dr_commands d) c then dr_commands d else dr_commands d ++ [c].
Proof. unfold add_extra. by destruct (has_id _ c). Qed.

Lemma add_configured_commands d c :
  dr_commands (add_configured d c) =
  if has_id (dr_commands d) c then dr_commands d else dr_commands d ++ [c].
Proof. unfold add_configured. by destruct (has_id _ c). Qed.

Lemma configured_prefixed text c : c ∈ configured_commands_from text → is_repo_defined c = true.
Proof.
  unfold configured_commands_from. destruct (json_from_str text); [|set_solver].
  intros Hc. apply elem_of_take in Hc as (i & Hi & _). apply list_elem_of_lookup_2, list_elem_of_omap in Hi
    as (v & _ & Hv). unfold configured_command in Hv. revert Hv.
  destruct (jget v "argv") as [[]|]; try done. cbn [mbind option_bind]. destruct (omap _ l); [done|].
  destruct (str_of v "id") as [i'|]; [|done]. destruct (str_is_empty i'); [done|].
  cbn [mbind option_bind]. intros Hv. injection Hv as <-. apply (starts_with_app CONFIGURED_ID_PREFIX i').
Qed.

(** What a task may do to the plan. The checks found in the repository come first
    and stay as they are, whatever the repository declares and the task adds; what the
    repository declares is marked as its own and takes nothing's place; of what the task
    adds the first of each new id is appended, and nothing is lost: every id asked for is
    in the plan, once. *)
Theorem plan_only_grows named extra configured :
  let declared := match configured with Some text => configured_commands_from text | None => [] end in
  let commands := vp_commands (derive_with_configured named extra configured) in
  ∃ own added,
    commands = dr_commands detected ++ own ++ added ∧
    own `sublist_of` declared ∧ added `sublist_of` extra ∧
    NoDup (cc_id <$> commands) ∧
    Forall (λ c, is_repo_defined c = false) (dr_commands detected) ∧
    Forall (λ c, is_repo_defined c = true) own ∧
    (∀ c, c ∈ declared ++ extra → cc_id c ∈ cc_id <$> commands).
Proof.
  intros declared commands.
  assert (NoDup (ids detected)) as Hn.
  { eapply sublist_NoDup; [|apply detected_ids]. apply (bool_decide_unpack _). by vm_compute. }
  destruct (fold_add add_configured declared detected add_configured_commands Hn)
    as (own & Eo & Hso & Hno & Hfo).
  destruct (fold_add add_extra extra (foldl add_configured detected declared) add_extra_commands Hno)
    as (added & Ea & Hsa & Hna & Hfa).
  set (d := foldl add_extra (foldl add_configured detected declared) extra) in *.
  assert (commands = dr_commands d) as ->.
  { unfold commands, derive_with_configured. fold declared d. cbn [vp_commands].
    by destruct (dr_commands d) eqn:E; cbn [dr_commands push_limitation]. }
  exists own, added. rewrite Ea, Eo, <- app_assoc. split_and!; [done..|rewrite app_assoc, <- Eo, <- Ea; done| | |].
  - apply Forall_forall. intros c Hc. unfold is_repo_defined. apply not_true_iff_false.
    assert (cc_id c ∈ KNOWN) as Hk.
    { eapply elem_of_sublist; [|apply detected_ids]. by apply list_elem_of_fmap_2. }
    revert Hk. generalize (cc_id c). apply Forall_forall.
    repeat constructor; by vm_compute.
  - apply Forall_forall. intros c Hc. eapply elem_of_sublist in Hc; [|exact Hso].
    unfold declared in Hc. destruct configured; [by eapply configured_prefixed|set_solver].
  - rewrite app_assoc, <- Eo, <- Ea. rewrite Forall_forall in Hfo, Hfa.
    intros c [Hc|Hc]%elem_of_app; [|by apply Hfa]. apply Hfo in Hc. unfold ids in *.
    rewrite Ea, fmap_app. apply elem_of_app. by left.
Qed.

End Plan.

(** ** Examples *)

Module PlanExample.

#[export] Instance json : JsonRead := λ s,
  if s =s "cfg" then
    Ok (Jobject [("commands", Jarray [
          Jobject [("argv", Jarray [Jstring "make"; Jstring "check"]); ("id", Jstring "suite:cargo")];
          Jobject [("argv", Jarray []); ("id", Jstring "empty")]])])
  else Err "bad".

#[export] Instance tree : Root :=
  {| root_exists p := p =s "Cargo.toml"; root_read _ := None |}.

Definition extra (id : string) : CheckCommand :=
  {| cc_id := id; cc_family := RunnerFamily_ConfiguredCommand; cc_argv := ["true"];
     cc_mandatory := false; cc_reporter_file := None |}.

(** An id of a detected check cannot be taken over, by the repository or by the task. *)
Example checks_not_replaced :
  (λ c, (cc_id c, cc_mandatory c)) <$>
    vp_commands (derive_with_configured [] [extra "suite:cargo"; extra "mine"] (Some "cfg")) =
  [("build:cargo", true); ("suite:cargo", true); ("configured:suite:cargo", true); ("mine", false)].
Proof. vm_compute. reflexivity. Qed.

End PlanExample.
