(* ===== verification/Tools.v ===== *)
(** * Tools and the policy port

    [crates/tools/src/registry.rs]: a tool's metadata, what a call of it can
    report, and the registry; [crates/tools/src/policy.rs]: the question the
    pipeline asks the capability kernel and the policy used without a Core; the
    shape of a shell tool of [crates/tools/src/direct.rs]. *)

From S2P Require Import Prelude RustStr BTree External ToolCall AutoDef Filter ToolProjection.
From S2P Require Import Kernel ShellAcc ShellClass Hooks.
#[local] Open Scope Z_scope.

Inductive Idempotency := Idempotent | NonIdempotent.

Record CallFacts := {
  cf_argv : option (list string);
  cf_outside_workspace_write : bool;
  cf_protected_path : bool;
  cf_dependency_install : bool
}.

Definition CallFacts_default : CallFacts :=
  {| cf_argv := None; cf_outside_workspace_write := false; cf_protected_path := false;
     cf_dependency_install := false |}.

Record ToolSpec := {
  ts_name : string;
  ts_version : string;
  ts_description : string;
  ts_input_schema : jvalue;
  ts_output_schema : jvalue;
  ts_effect_class : EffectClass;
  ts_required_capabilities : list string;
  ts_execution_profiles : list string;
  ts_timeout_ms : Z;
  ts_output_budget_bytes : Z;
  ts_idempotency : Idempotency;
  ts_compensation : option string
}.

Definition ToolSpec_reversibility (self : ToolSpec) : Reversibility :=
  Reversibility_of (ts_effect_class self) (is_some (ts_compensation self)).

(** Byte buffers are strings. *)
Record ToolOutcome := {
  to_ok : bool;
  to_structured_output : jvalue;
  to_stdout : option string;
  to_stderr : option string;
  to_workspace_revision_after : option Z;
  to_error_code : option string;
  to_error_message : option string;
  to_infra_failure : bool;
  to_unknown_outcome : option string
}.

Definition ToolOutcome_default : ToolOutcome :=
  {| to_ok := false; to_structured_output := Jnull; to_stdout := None; to_stderr := None;
     to_workspace_revision_after := None; to_error_code := None; to_error_message := None;
     to_infra_failure := false; to_unknown_outcome := None |}.

Definition ToolOutcome_ok (v : jvalue) : ToolOutcome :=
  { ToolOutcome_default with to_ok := true; to_structured_output := v }.

Definition ToolOutcome_fail (code message : string) : ToolOutcome :=
  { ToolOutcome_default with
    to_ok := false; to_error_code := Some code; to_error_message := Some message }.

Definition ToolOutcome_infra (code message : string) : ToolOutcome :=
  { ToolOutcome_fail code message with to_infra_failure := true }.

(** ** The question to the kernel *)

Record ExecContext := { ec_cwd : string; ec_path : string }.

Record PathTarget := { pt_capability : string; pt_path : string }.

Record PolicyRequest := {
  pr_tool_name : string;
  pr_effect_class : EffectClass;
  pr_required_capabilities : list string;
  pr_execution_profile : string;
  pr_has_workspace : bool;
  pr_has_lease : bool;
  pr_intent_hash : string;
  pr_paths : list PathTarget;
  pr_command : option (list string);
  pr_exec : option ExecContext;
  pr_outside_workspace_write : bool;
  pr_protected_path : bool;
  pr_dependency_install : bool;
  pr_declared_escalation : string;
  pr_bound_intent : option jvalue
}.

(** [v.get(key).and_then(Value::as_array)]. *)
Definition array_of (v : jvalue) (key : string) : list jvalue :=
  match jget v key with Some (Jarray l) => l | _ => [] end.

Definition path_targets (required_capabilities : list string) (args : jvalue)
    : list PathTarget :=
  match List.find (contains_str required_capabilities) ["fs.write"; "fs.read"] with
  | None => []
  | Some capability =>
      let paths :=
        match str_of args "path" with Some p => [p] | None => [] end
        ++ strings_of args "paths"
        ++ omap (λ o, str_of o "path") (array_of args "ops") in
      (λ p, {| pt_capability := capability; pt_path := p |}) <$> paths
  end.

Inductive PolicyDecision :=
  | PolicyDecision_Allow (rule : string) (approval_id : option string)
  | PolicyDecision_ApprovalRequired (reason scope_json : string)
  | PolicyDecision_Deny (code reason : string) (approval_required : bool).

Definition PROFILES_SERVED : list string :=
  ["local_trusted"; "review_isolated"; "local_autonomous"; "plan"].

(** The derived [Serialize] of an effect class is its wire name; a list of
    strings is an array. *)
Definition jstrings (l : list string) : jvalue := Jarray (Jstring <$> l).

Definition ProfilePolicy_decide `{ValueText} (req : PolicyRequest) : PolicyDecision :=
  if negb (contains_str PROFILES_SERVED (pr_execution_profile req)) then
    PolicyDecision_Deny "PROFILE_UNSUPPORTED"
      ("execution profile " +:+ tick (pr_execution_profile req) +:+
       " is not served by this build") false
  else if (pr_execution_profile req =s "plan") &&
          negb (bool_decide (pr_effect_class req = EffectClass_ReadOnly)) then
    PolicyDecision_Deny "PLAN_MODE"
      (effect_debug (pr_effect_class req) +:+
       " effects are absent in plan mode; the task's product is its plan") false
  else
    match pr_effect_class req with
    | EffectClass_ReadOnly => PolicyDecision_Allow "local_trusted:read_only" None
    | EffectClass_ReversibleWrite =>
        if pr_has_workspace req then
          PolicyDecision_Allow "local_trusted:reversible_write_in_workspace" None
        else
          PolicyDecision_Deny "NO_WORKSPACE" "reversible writes need an approved workspace root"
            false
    | _ =>
        PolicyDecision_ApprovalRequired
          (effect_debug (pr_effect_class req) +:+
           " effects require an approval bound to the intent hash")
          (value_text (jobject
             [("tool", Jstring (pr_tool_name req));
              ("effect_class", Jstring (effect_wire (pr_effect_class req)));
              ("capabilities", jstrings (pr_required_capabilities req));
              ("execution_profile", Jstring (pr_execution_profile req));
              ("intent_hash", Jstring (pr_intent_hash req))]))
    end.

(** ** Tools

    A tool acts on the world [W]: the workspace, the broker, the browser. [C] is
    the context of one invocation. *)
Section tools.
Context {W C : Type}.

Record Tool := {
  t_spec : ToolSpec;
  t_effect_of : jvalue → EffectClass;
  t_effect_in_profile : jvalue → string → EffectClass;
  t_call_facts : jvalue → string → CallFacts;
  t_effect_reason : jvalue → string → option string;
  t_prepare : C → jvalue → W → W * result ToolOutcome (option jvalue);
  t_invoke : C → jvalue → W → W * ToolOutcome
}.

(** A tool that overrides none of the trait's default methods. *)
Definition plain_tool (spec : ToolSpec) (invoke : C → jvalue → W → W * ToolOutcome) : Tool :=
  let effect_of := λ _, ts_effect_class spec in
  {| t_spec := spec;
     t_effect_of := effect_of;
     t_effect_in_profile := λ args _, effect_of args;
     t_call_facts := λ _ _, CallFacts_default;
     t_effect_reason := λ _ _, None;
     t_prepare := λ _ _ w, (w, Ok None);
     t_invoke := invoke |}.

(** The [tool!] macro with a classifier: [shell.exec] and its like. *)
Definition classified_tool (classify : jvalue → ShellEffect) (spec : ToolSpec)
    (invoke : C → jvalue → W → W * ToolOutcome) : Tool :=
  { plain_tool spec invoke with
    t_effect_of := λ args, se_class (classify args);
    t_effect_in_profile := λ args profile, class_in (classify args) profile;
    t_effect_reason := λ args profile, reason_in (classify args) profile;
    t_call_facts := λ args _,
      {| cf_argv := rule_argv args;
         cf_outside_workspace_write := se_outside_workspace (classify args);
         cf_protected_path := se_protected_path (classify args);
         cf_dependency_install := se_dependency_install (classify args) |} }.

Definition ToolRegistry : Type := bmap Tool.

Definition ToolRegistry_new : ToolRegistry := [].

(** [jsonschema::validator_for]: the error of a schema it does not accept. *)
Definition register (validator_for : jvalue → option string) (tool : Tool)
    (self : ToolRegistry) : ToolRegistry * result string unit :=
  let spec := t_spec tool in
  let name := tick (ts_name spec) in
  if Nat.ltb (length (split_on "." (ts_name spec))) 2 || contains_char " " (ts_name spec) then
    (self, Err ("tool name " +:+ name +:+ " must be namespace.name"))
  else if negb (is_some (jget (ts_input_schema spec) "type")) &&
          negb (is_some (jget (ts_input_schema spec) "$ref")) then
    (self, Err ("tool " +:+ name +:+ " has no input schema"))
  else
    match validator_for (ts_input_schema spec) with
    | Some e => (self, Err ("tool " +:+ name +:+ " input schema invalid: " +:+ e))
    | None =>
        if is_some (bget (ts_name spec) self) then
          (self, Err ("tool " +:+ name +:+ " already registered"))
        else (binsert (ts_name spec) tool self, Ok tt)
    end.

Definition registry_get (self : ToolRegistry) (name : string) : option Tool := bget name self.

Definition registry_specs (self : ToolRegistry) : list ToolSpec := (t_spec ∘ snd) <$> self.

Definition registry_project (self : ToolRegistry) (names : list string) : list ToolSpec :=
  omap (λ n, t_spec <$> bget n self) names.

(** What every registry built with [register] satisfies: in order, each tool
    under its own name, each schema one the validator accepts. *)
Definition registry_wf (validator_for : jvalue → option string) (self : ToolRegistry) : Prop :=
  bmap_wf self ∧
  ∀ name tool, bget name self = Some tool →
    ts_name (t_spec tool) = name ∧ validator_for (ts_input_schema (t_spec tool)) = None.

Lemma register_wf validator_for tool self :
  registry_wf validator_for self → registry_wf validator_for (register validator_for tool self).1.
Proof.
  intros [Hwf Hget]. unfold register.
  destruct (_ || _); [done|]. destruct (_ && _); [done|].
  destruct (validator_for _) eqn:Hv; [done|].
  destruct (bget (ts_name (t_spec tool)) self) eqn:E; cbn; [done|].
  split; [by apply binsert_wf|]. intros name t Ht.
  destruct (decide (name = ts_name (t_spec tool))) as [->|Hne].
  - rewrite bget_insert in Ht. by simplify_eq.
  - rewrite bget_insert_ne in Ht; auto.
Qed.

(** Metadata is immutable: a registered tool is never replaced or lost. *)
Lemma register_keeps validator_for tool self name t :
  bget name self = Some t → bget name (register validator_for tool self).1 = Some t.
Proof.
  intros Ht. unfold register.
  destruct (_ || _); [done|]. destruct (_ && _); [done|].
  destruct (validator_for _); [done|].
  destruct (bget (ts_name (t_spec tool)) self) eqn:E; cbn; [done|].
  rewrite bget_insert_ne; [done|congruence].
Qed.

End tools.
Arguments Tool : clear implicits.
Arguments ToolRegistry : clear implicits.
