(* ===== verification/Pipeline.v ===== *)
(** * The invocation pipeline

    [crates/tools/src/pipeline.rs]: every tool call of the Core goes through
    [ToolRuntime::invoke]. The hooks, the tool, the kernel's port, the dispatch
    journal and the object sink act on a world [W]; the model also keeps the list
    of the calls made to them, in order, so that what happens before what can be
    stated. Locals of the function are fields of [PState]; an early [return] is
    the error of the [SE] monad. *)

From S2P Require Import Prelude RustStr BTree RustPath External ToolCall AutoDef Filter.
From S2P Require Import ToolProjection ShellAcc Hooks Tools.
#[local] Open Scope Z_scope.

(** ** Texts and secrets *)

Definition carried (secrets : list string) (s : string) : bool :=
  existsb (λ k, (8 <=? str_len k) && str_contains k s) secrets.

(** [walk] of [carries_secret]: the path of the first text that carries one. *)
Fixpoint secret_walk (secrets : list string) (v : jvalue) (path : string) : option string :=
  match v with
  | Jstring s => if carried secrets s then Some path else None
  | Jarray a =>
      (fix go (i : nat) (l : list jvalue) : option string :=
         match l with
         | [] => None
         | x :: l =>
             match secret_walk secrets x (path +:+ "[" +:+ pretty i +:+ "]") with
             | Some p => Some p
             | None => go (S i) l
             end
         end) O a
  | Jobject o =>
      (fix go (l : list (string * jvalue)) : option string :=
         match l with
         | [] => None
         | (k, x) :: l =>
             match secret_walk secrets x (if str_is_empty path then k else path +:+ "." +:+ k) with
             | Some p => Some p
             | None => go l
             end
         end) o
  | _ => None
  end.

Definition carries_secret (args : jvalue) (secrets : list string) : option string :=
  if forallb (λ k, str_len k <? 8) secrets then None else secret_walk secrets args "".

(** [sort] of [canonical]: the value rebuilt, its objects collected into maps. *)
Fixpoint sort_value (v : jvalue) : jvalue :=
  match v with
  | Jobject m => jobject ((λ kv, (kv.1, sort_value kv.2)) <$> m)
  | Jarray a => Jarray (sort_value <$> a)
  | other => other
  end.

Definition canonical `{ValueText} (v : jvalue) : string := value_text (sort_value v).

Section texts.
Context `{ValueText} `{JsonRead} `{Sha256}.

Definition arguments_hash (arguments_json : string) : option string :=
  match json_from_str arguments_json with
  | Ok v => if is_object v then Some (sha256_hex (canonical v)) else None
  | Err _ => None
  end.

(** The intent an approval binds: the arguments and what the tool bound. *)
Definition intent_hash (args : jvalue) (bound : option jvalue) : string :=
  match bound with
  | None => sha256_hex (canonical args)
  | Some bound =>
      sha256_hex (canonical (jobject [("arguments", args); ("bound", bound)]))
  end.

End texts.

(** ** Environment of a process *)

Record ProcessEnvironment := { pe_env : bmap string; pe_path : list string }.

(** [std::env::join_paths]: an entry with the separator in it is refused. *)
Definition join_paths (l : list string) : option string :=
  if existsb (contains_char ":") l then None else Some (Prelude.join ":" l).

(** [PATH] is the variable of the Core's own environment. *)
Definition search_path (self : ProcessEnvironment) (host_path : option string) : string :=
  default "" (join_paths (pe_path self ++
    match host_path with Some host => split_on ":" host | None => [] end)).

Definition ProcessEnvironment_apply (self : ProcessEnvironment) (host_path : option string)
    (env : bmap string) : bmap string :=
  let env := foldl (λ env kv, if is_some (bget kv.1 env) then env else binsert kv.1 kv.2 env)
               env (pe_env self) in
  match pe_path self with
  | [] => env
  | _ => if is_some (bget "PATH" env) then env
         else binsert "PATH" (search_path self host_path) env
  end.

(** ** Results *)

Inductive ToolStatus :=
  | ToolStatus_Success
  | ToolStatus_ApplicationFailure
  | ToolStatus_InfraFailure
  | ToolStatus_Cancelled
  | ToolStatus_UnknownOutcome
  | ToolStatus_PolicyDenied
  | ToolStatus_ApprovalPending
  | ToolStatus_InvalidArguments
  | ToolStatus_UnknownTool.

#[export] Instance ToolStatus_eq : EqDecision ToolStatus.
Proof. solve_decision. Defined.

Definition ToolStatus_wire (s : ToolStatus) : string :=
  match s with
  | ToolStatus_Success => "SUCCESS"
  | ToolStatus_ApplicationFailure => "APPLICATION_FAILURE"
  | ToolStatus_InfraFailure => "INFRA_FAILURE"
  | ToolStatus_Cancelled => "CANCELLED"
  | ToolStatus_UnknownOutcome => "UNKNOWN_OUTCOME"
  | ToolStatus_PolicyDenied => "POLICY_DENIED"
  | ToolStatus_ApprovalPending => "APPROVAL_PENDING"
  | ToolStatus_InvalidArguments => "INVALID_ARGUMENTS"
  | ToolStatus_UnknownTool => "UNKNOWN_TOOL"
  end.

Record ToolCallResult := {
  tr_tool_call_id : Z;
  tr_tool_name : string;
  tr_status : ToolStatus;
  tr_structured_output : jvalue;
  tr_stdout_ref : option string;
  tr_stderr_ref : option string;
  tr_produced_artifact_ids : list string;
  tr_effect_receipt_ids : list string;
  tr_workspace_revision_after : option Z;
  tr_error_code : option string;
  tr_error_message : option string;
  tr_arguments_hash : string
}.

Record StageRecord := { sr_stage : string; sr_outcome : string }.

Record PipelineOutcome := {
  po_result : ToolCallResult;
  po_stages : list StageRecord;
  po_policy : option PolicyDecision;
  po_effect_class : option EffectClass;
  po_tool_version : option string
}.

Record DispatchRecord := {
  dr_tool_call_id : Z;
  dr_tool_name : string;
  dr_tool_version : string;
  dr_effect_class : EffectClass;
  dr_arguments_hash : string;
  dr_decision : PolicyDecision
}.

(** [Verdict::deny]: a verdict can only tighten. *)
Definition Verdict_deny (code reason : string) (denied : option (string * string))
    : option (string * string) :=
  match denied with None => Some (code, reason) | Some d => Some d end.

Definition jint (n : Z) : jvalue := Jnumber (pretty n) true.

Definition jopt {A} (f : A → jvalue) (o : option A) : jvalue :=
  match o with Some a => f a | None => Jnull end.

(** The derived [Serialize] of a result. *)
Definition result_value `{IdText} (r : ToolCallResult) : jvalue :=
  jobject
    [("tool_call_id", Jstring (id_text (tr_tool_call_id r)));
     ("tool_name", Jstring (tr_tool_name r));
     ("status", Jstring (ToolStatus_wire (tr_status r)));
     ("structured_output", tr_structured_output r);
     ("stdout_ref", jopt Jstring (tr_stdout_ref r));
     ("stderr_ref", jopt Jstring (tr_stderr_ref r));
     ("produced_artifact_ids", jstrings (tr_produced_artifact_ids r));
     ("effect_receipt_ids", jstrings (tr_effect_receipt_ids r));
     ("workspace_revision_after", jopt jint (tr_workspace_revision_after r));
     ("error_code", jopt Jstring (tr_error_code r));
     ("error_message", jopt Jstring (tr_error_message r));
     ("arguments_hash", Jstring (tr_arguments_hash r))].

(** The [Debug] texts the stages carry. *)
Definition debug_opt `{DebugStr} (o : option string) : string :=
  match o with Some s => "Some(" +:+ debug_str s +:+ ")" | None => "None" end.

Definition PolicyDecision_debug `{DebugStr} (d : PolicyDecision) : string :=
  match d with
  | PolicyDecision_Allow rule approval_id =>
      "Allow { rule: " +:+ debug_str rule +:+ ", approval_id: " +:+ debug_opt approval_id +:+ " }"
  | PolicyDecision_ApprovalRequired reason scope_json =>
      "ApprovalRequired { reason: " +:+ debug_str reason +:+ ", scope_json: " +:+
      debug_str scope_json +:+ " }"
  | PolicyDecision_Deny code reason approval_required =>
      "Deny { code: " +:+ debug_str code +:+ ", reason: " +:+ debug_str reason +:+
      ", approval_required: " +:+ (if approval_required then "true" else "false") +:+ " }"
  end.

(** ** The ports and the context of an invocation *)

Section invoke.
Context {W : Type}.

Definition CapabilityPort : Type := PolicyRequest → W → W * PolicyDecision.

Record HookPort := {
  hp_before : HookPoint → string → EffectClass → jvalue → W → W * HookEffect;
  hp_after : HookPoint → string → EffectClass → jvalue → W → W * HookEffect
}.

(** The fields the pipeline reads or writes; the other ports are only the tools'. *)
Record InvokeContext := {
  ic_task_id : Z;
  ic_execution_profile : string;
  ic_capability_lease_id : option Z;
  ic_has_workspace : bool;
  ic_workspace_root : option string;
  ic_sink : string → W → W * result string string;
  ic_output_budget_bytes : Z;
  ic_kernel : option CapabilityPort;
  ic_tool_call_id : option Z;
  ic_journal : option (DispatchRecord → W → W * result string unit);
  ic_effect_class : option EffectClass;
  ic_secrets_in_custody : list string;
  ic_environment : option ProcessEnvironment;
  ic_hooks : option HookPort;
  ic_approval_id : option string;
  ic_intent_hash : option string
}.

(** A call to something outside the pipeline, with what it was given and, where
    it matters, what it answered and in which world it was asked. *)
Inductive Call :=
  | AskedHooks (point : HookPoint) (args : jvalue) (effect : HookEffect)
  | Prepared (args : jvalue)
  | Decided (asked_in : W) (req : PolicyRequest) (decision : PolicyDecision)
  | Journaled (record : DispatchRecord) (answer : result string unit)
  | Invoked (ctx : InvokeContext) (args : jvalue)
  | Stored (bytes : string)
  | ToldHooks (point : HookPoint) (result : jvalue).

Record PState := {
  ps_world : W;
  ps_calls : list Call;
  ps_stages : list StageRecord;
  ps_denied : option (string * string);
  ps_args : jvalue;
  ps_args_hash : string;
  ps_effect_class : EffectClass;
  ps_bound_intent : option jvalue
}.

Definition PM (A : Type) : Type := SE PState PipelineOutcome A.

Definition call {A} (f : W → W * A) (as_call : A → Call) : PM A := λ s,
  let '(w, a) := f (ps_world s) in
  ({ s with ps_world := w; ps_calls ::= λ l, l ++ [as_call a] }, Ok a).

Definition push_stage (stage outcome : string) : PM unit :=
  se_mod (λ s, { s with ps_stages ::= λ l,
    l ++ [{| sr_stage := stage; sr_outcome := outcome |}] }).

Definition deny_verdict (code reason : string) : PM unit :=
  se_mod (λ s, { s with ps_denied ::= Verdict_deny code reason }).

Definition when (b : bool) (m : PM unit) : PM unit := if b then m else mret tt.

Context `{ValueText} `{JsonRead} `{Sha256} `{DebugStr} `{IdText}.

(** [jsonschema]: the errors of an instance, each with its path; the [PATH] of
    the Core's environment; the runtime. *)
Context (iter_errors : jvalue → jvalue → list string) (host_path : option string)
  (registry : ToolRegistry W InvokeContext) (policy : CapabilityPort).

Context (ctx : InvokeContext) (tool_call_id : Z) (tool_name arguments_json : string).

Definition base (status : ToolStatus) (args_hash : string) (code msg : option string)
    : ToolCallResult :=
  {| tr_tool_call_id := tool_call_id; tr_tool_name := tool_name; tr_status := status;
     tr_structured_output := Jnull; tr_stdout_ref := None; tr_stderr_ref := None;
     tr_produced_artifact_ids := []; tr_effect_receipt_ids := [];
     tr_workspace_revision_after := None; tr_error_code := code; tr_error_message := msg;
     tr_arguments_hash := args_hash |}.

(** [return PipelineOutcome { .. }] with the stages pushed so far. *)
Definition return_outcome {A} (result : ToolCallResult) (policy : option PolicyDecision)
    (effect_class : option EffectClass) (tool_version : option string) : PM A := λ s,
  (s, Err {| po_result := result; po_stages := ps_stages s; po_policy := policy;
             po_effect_class := effect_class; po_tool_version := tool_version |}).

(** *** 1. Normalize *)

Definition normalize : PM unit :=
  match json_from_str arguments_json with
  | Ok v =>
      if is_object v then
        se_mod (λ s, { s with ps_args := v; ps_args_hash := intent_hash v None }) ≫= λ _,
        push_stage "normalize" ("sha256:" +:+ intent_hash v None)
      else
        push_stage "normalize" "arguments must be a JSON object" ≫= λ _,
        return_outcome (base ToolStatus_InvalidArguments "" (Some "ARGUMENTS_NOT_OBJECT")
          (Some "arguments must be a JSON object")) None None None
  | Err e =>
      push_stage "normalize" ("invalid JSON: " +:+ e) ≫= λ _,
      return_outcome (base ToolStatus_InvalidArguments "" (Some "ARGUMENTS_NOT_JSON") (Some e))
        None None None
  end.

Definition resolve : PM (Tool W InvokeContext) :=
  se_get ≫= λ s,
  match registry_get registry tool_name with
  | Some tool => mret tool
  | None =>
      push_stage "resolve" "unknown tool" ≫= λ _,
      return_outcome (base ToolStatus_UnknownTool (ps_args_hash s) (Some "UNKNOWN_TOOL")
        (Some (tick tool_name +:+ " is not registered"))) None None None
  end.

Section tool.
Context (tool : Tool W InvokeContext).
Abbreviation spec := (t_spec tool).

(** *** 2. Validate and classify *)

Definition schema_errors (args : jvalue) : list string := iter_errors (ts_input_schema spec) args.

Definition validate : PM unit :=
  se_get ≫= λ s,
  match schema_errors (ps_args s) with
  | [] => push_stage "validate" "ok"
  | errors =>
      push_stage "validate" (Prelude.join "; " errors) ≫= λ _,
      return_outcome (base ToolStatus_InvalidArguments (ps_args_hash s) (Some "SCHEMA_VIOLATION")
        (Some (Prelude.join "; " errors))) None (Some (ts_effect_class spec))
        (Some (ts_version spec))
  end.

(** What the tool says of these arguments, never below the registered class. *)
Definition call_class (args : jvalue) : EffectClass :=
  effect_max (t_effect_in_profile tool args (ic_execution_profile ctx)) (ts_effect_class spec).

Definition classify : PM unit :=
  se_mod (λ s, { s with ps_effect_class := call_class (ps_args s) }) ≫= λ _,
  se_get ≫= λ s,
  if effect_gt (ps_effect_class s) (ts_effect_class spec) then
    match t_effect_reason tool (ps_args s) (ic_execution_profile ctx) with
    | Some why => push_stage "classify" (effect_debug (ps_effect_class s) +:+ ": " +:+ why)
    | None => mret tt
    end
  else mret tt.

Definition custody : PM unit :=
  se_get ≫= λ s,
  match carries_secret (ps_args s) (ic_secrets_in_custody ctx) with
  | Some field =>
      deny_verdict "SECRET_EXFILTRATION_BLOCKED"
        ("the arguments of " +:+ tick (ts_name spec) +:+ " (at " +:+ tick field +:+
         ") carry a credential in the Core's custody; a secret never leaves the Core through a tool call, whatever content asked for it")
  | None => mret tt
  end.

(** *** 2b. Hooks before the call *)

Definition take_rewrite (point : HookPoint) (rewritten : jvalue) : PM unit :=
  match schema_errors rewritten with
  | [] =>
      se_mod (λ s, { s with ps_args := rewritten; ps_args_hash := intent_hash rewritten None;
                            ps_effect_class := call_class rewritten }) ≫= λ _,
      push_stage "hooks" (HookPoint_label point +:+ " rewrote the arguments: sha256:" +:+
                          intent_hash rewritten None) ≫= λ _,
      match carries_secret rewritten (ic_secrets_in_custody ctx) with
      | Some field =>
          deny_verdict "SECRET_EXFILTRATION_BLOCKED"
            ("a hook's rewrite of " +:+ tick (ts_name spec) +:+ " (at " +:+ tick field +:+
             ") carries a credential in the Core's custody")
      | None => mret tt
      end
  | errors =>
      deny_verdict "HOOK_REWRITE_INVALID"
        ("a hook's rewrite of " +:+ tick (ts_name spec) +:+ " breaks its schema: " +:+
         Prelude.join "; " errors)
  end.

Definition take_denial (e : HookEffect) : PM unit :=
  match he_denied e with Some (code, reason) => deny_verdict code reason | None => mret tt end.

Definition push_hook_stage (label : string) (e : HookEffect) : PM unit :=
  match he_records e with
  | [] => mret tt
  | records =>
      push_stage "hooks" (label +:+ ": " +:+ Prelude.join ", "
        ((λ r, hr_hook r +:+ " " +:+ HookOutcome_label (hr_outcome r)) <$> records))
  end.

(** One turn of the loop over the two points; [verdict] is asked at its end. *)
Definition before_point (hooks : HookPort) (point : HookPoint) : PM unit :=
  se_get ≫= λ s,
  if bool_decide (point = BeforeChange) && negb (is_change (ps_effect_class s)) then mret tt
  else
    call (hp_before hooks point (ts_name spec) (ps_effect_class s) (ps_args s))
      (AskedHooks point (ps_args s)) ≫= λ e,
    match he_arguments e with
    | Some rewritten => take_rewrite point rewritten
    | None => mret tt
    end ≫= λ _,
    take_denial e ≫= λ _,
    push_hook_stage (HookPoint_label point) e.

Definition hooks_before : PM unit :=
  se_get ≫= λ s,
  match ps_denied s, ic_hooks ctx with
  | None, Some hooks =>
      before_point hooks BeforeTool ≫= λ _,
      se_get ≫= λ s,
      when (negb (is_some (ps_denied s))) (before_point hooks BeforeChange)
  | _, _ => mret tt
  end.

(** *** 2c. What the tool decides before a person is asked *)

Definition prepare : PM unit :=
  se_get ≫= λ s,
  if is_some (ps_denied s) then mret tt
  else
    call (t_prepare tool ctx (ps_args s)) (λ _, Prepared (ps_args s)) ≫= λ prepared,
    match prepared with
    | Ok None => mret tt
    | Ok (Some bound) =>
        se_mod (λ s, { s with ps_args_hash := intent_hash (ps_args s) (Some bound) }) ≫= λ _,
        push_stage "prepare" ("bound sha256:" +:+ intent_hash (ps_args s) (Some bound)) ≫= λ _,
        se_mod (λ s, { s with ps_bound_intent := Some bound })
    | Err o =>
        push_stage "prepare"
          ("refused before any approval: " +:+ default "" (to_error_code o)) ≫= λ _,
        return_outcome
          { base (if to_infra_failure o then ToolStatus_InfraFailure
                  else ToolStatus_InvalidArguments)
              (ps_args_hash s) (to_error_code o) (to_error_message o)
            with tr_structured_output := to_structured_output o }
          None (Some (ps_effect_class s)) (Some (ts_version spec))
    end.

(** *** 3. Policy *)

Definition exec_context (args : jvalue) : ExecContext :=
  let root := default "" (ic_workspace_root ctx) in
  {| ec_cwd := match str_of args "cwd" with
               | Some rel => if str_is_empty rel then root else path_join root rel
               | None => root
               end;
     ec_path := match ic_environment ctx with
                | Some e => search_path e host_path
                | None => default "" host_path
                end |}.

Definition policy_request (s : PState) : PolicyRequest :=
  let args := ps_args s in
  let facts := t_call_facts tool args (ic_execution_profile ctx) in
  {| pr_tool_name := ts_name spec;
     pr_effect_class := ps_effect_class s;
     pr_required_capabilities := ts_required_capabilities spec;
     pr_execution_profile := ic_execution_profile ctx;
     pr_has_workspace := ic_has_workspace ctx;
     pr_has_lease := is_some (ic_capability_lease_id ctx);
     pr_intent_hash := ps_args_hash s;
     pr_paths := path_targets (ts_required_capabilities spec) args;
     pr_command := cf_argv facts;
     pr_exec := (λ _, exec_context args) <$> cf_argv facts;
     pr_outside_workspace_write := cf_outside_workspace_write facts;
     pr_protected_path := cf_protected_path facts;
     pr_dependency_install := cf_dependency_install facts;
     pr_declared_escalation := default "" (str_of args "escalation");
     pr_bound_intent := ps_bound_intent s |}.

Definition port : CapabilityPort := default policy (ic_kernel ctx).

Definition decide_policy : PM PolicyDecision :=
  se_get ≫= λ s,
  call (port (policy_request s)) (Decided (ps_world s) (policy_request s)) ≫= λ decision,
  when (negb (contains_str (ts_execution_profiles spec) (ic_execution_profile ctx)))
    (deny_verdict "PROFILE_NOT_ALLOWED"
       ("tool " +:+ tick (ts_name spec) +:+ " does not run under " +:+
        tick (ic_execution_profile ctx))) ≫= λ _,
  match decision with
  | PolicyDecision_Deny code reason _ => deny_verdict code reason
  | _ => mret tt
  end ≫= λ _,
  push_stage "policy" (PolicyDecision_debug decision) ≫= λ _,
  mret decision.

(** Before a person is asked, the permission hooks see the call. *)
Definition permission_hooks (decision : PolicyDecision) : PM unit :=
  se_get ≫= λ s,
  match decision, ps_denied s, ic_hooks ctx with
  | PolicyDecision_ApprovalRequired _ _, None, Some hooks =>
      call (hp_before hooks PermissionRequest (ts_name spec) (ps_effect_class s) (ps_args s))
        (AskedHooks PermissionRequest (ps_args s)) ≫= λ e,
      take_denial e ≫= λ _,
      push_hook_stage "permission_request" e
  | _, _, _ => mret tt
  end.

(** The call goes on only if it needs no approval and nothing denied it. *)
Definition guard_verdict (decision : PolicyDecision) : PM unit :=
  se_get ≫= λ s,
  match ps_denied s with
  | None =>
      match decision with
      | PolicyDecision_ApprovalRequired reason _ =>
          return_outcome (base ToolStatus_ApprovalPending (ps_args_hash s)
            (Some "APPROVAL_REQUIRED") (Some reason)) (Some decision)
            (Some (ps_effect_class s)) (Some (ts_version spec))
      | _ => mret tt
      end
  | Some (code, reason) =>
      return_outcome (base ToolStatus_PolicyDenied (ps_args_hash s) (Some code) (Some reason))
        (Some decision) (Some (ps_effect_class s)) (Some (ts_version spec))
  end.

(** *** 4. Journal the dispatch *)

Definition dispatch_record (decision : PolicyDecision) (s : PState) : DispatchRecord :=
  {| dr_tool_call_id := tool_call_id;
     dr_tool_name := ts_name spec;
     dr_tool_version := ts_version spec;
     dr_effect_class := ps_effect_class s;
     dr_arguments_hash := ps_args_hash s;
     dr_decision := decision |}.

Definition journal_dispatch (decision : PolicyDecision) : PM unit :=
  se_get ≫= λ s,
  match ic_journal ctx with
  | None => mret tt
  | Some dispatching =>
      let record := dispatch_record decision s in
      call (dispatching record) (Journaled record) ≫= λ answer,
      match answer with
      | Ok _ => push_stage "journal" "dispatched"
      | Err e =>
          push_stage "journal" ("not journaled: " +:+ e) ≫= λ _,
          return_outcome (base ToolStatus_InfraFailure (ps_args_hash s) (Some "JOURNAL_FAILED")
            (Some ("the dispatch could not be journaled: " +:+ e))) (Some decision)
            (Some (ps_effect_class s)) (Some (ts_version spec))
      end
  end.

(** *** 5. Execute *)

Definition call_context (decision : PolicyDecision) (s : PState) : InvokeContext :=
  { ctx with
    ic_tool_call_id := Some tool_call_id;
    ic_effect_class := Some (ps_effect_class s);
    ic_intent_hash := Some (ps_args_hash s);
    ic_approval_id := match decision with
                      | PolicyDecision_Allow _ approval_id => approval_id
                      | _ => None
                      end }.

Definition execute (decision : PolicyDecision) : PM ToolOutcome :=
  se_get ≫= λ s,
  call (t_invoke tool (call_context decision s) (ps_args s))
    (λ _, Invoked (call_context decision s) (ps_args s)) ≫= λ outcome,
  push_stage "execute" (if to_ok outcome then "ok"
                        else default "failed" (to_error_code outcome)) ≫= λ _,
  mret outcome.

(** *** 6. Postprocess *)

Definition spill (bytes : option string) : PM (option string) :=
  match bytes with
  | None => mret None
  | Some b =>
      call (ic_sink ctx b) (λ _, Stored b) ≫= λ stored,
      match stored with
      | Ok h => mret (Some h)
      | Err e => push_stage "postprocess" ("spill failed: " +:+ e) ≫= λ _, mret None
      end
  end.

Definition output_budget : Z :=
  if 0 <? ic_output_budget_bytes ctx then ic_output_budget_bytes ctx
  else ts_output_budget_bytes spec.

Definition bound_output (structured : jvalue) : PM jvalue :=
  let text := value_text structured in
  if output_budget <? str_len text then
    call (ic_sink ctx text) (λ _, Stored text) ≫= λ stored,
    match stored with
    | Ok hash =>
        mret (jobject
          [("output_ref", Jstring hash); ("byte_length", jint (str_len text));
           ("mime", Jstring "application/json");
           ("preview", Jstring (take_chars (Z.to_nat (Z.min output_budget 2048)) text));
           ("truncated", Jbool true)])
    | Err e => push_stage "postprocess" ("spill failed: " +:+ e) ≫= λ _, mret structured
    end
  else mret structured.

Definition status_of (outcome : ToolOutcome) : ToolStatus :=
  match to_unknown_outcome outcome with
  | Some _ => ToolStatus_UnknownOutcome
  | None =>
      if to_ok outcome then ToolStatus_Success
      else if to_infra_failure outcome then ToolStatus_InfraFailure
      else if bool_decide (to_error_code outcome = Some "CANCELLED") then ToolStatus_Cancelled
      else ToolStatus_ApplicationFailure
  end.

Definition option_or {A} (a b : option A) : option A := match a with Some _ => a | None => b end.

Definition postprocess (outcome : ToolOutcome) : PM ToolCallResult :=
  bound_output (to_structured_output outcome) ≫= λ structured,
  spill (to_stdout outcome) ≫= λ stdout_ref,
  spill (to_stderr outcome) ≫= λ stderr_ref,
  push_stage "postprocess" ("inline " +:+ pretty (str_len (value_text structured)) +:+
    " bytes; stdout_ref=" +:+ debug_opt stdout_ref) ≫= λ _,
  se_get ≫= λ s,
  mret {| tr_tool_call_id := tool_call_id; tr_tool_name := ts_name spec;
          tr_status := status_of outcome; tr_structured_output := structured;
          tr_stdout_ref := stdout_ref; tr_stderr_ref := stderr_ref;
          tr_produced_artifact_ids := []; tr_effect_receipt_ids := [];
          tr_workspace_revision_after := to_workspace_revision_after outcome;
          tr_error_code := option_or (to_error_code outcome)
                             ((λ _, "UNKNOWN_OUTCOME") <$> to_unknown_outcome outcome);
          tr_error_message := option_or (to_error_message outcome) (to_unknown_outcome outcome);
          tr_arguments_hash := ps_args_hash s |}.

(** *** 7. Hooks after the call *)

Definition after_point (hooks : HookPort) (view : jvalue) (point : HookPoint) : PM unit :=
  se_get ≫= λ s,
  if bool_decide (point = AfterChange) && negb (is_change (ps_effect_class s)) then mret tt
  else
    call (hp_after hooks point (ts_name spec) (ps_effect_class s) view)
      (λ _, ToldHooks point view) ≫= λ e,
    push_hook_stage (HookPoint_label point) e.

Definition hooks_after (result : ToolCallResult) : PM unit :=
  match ic_hooks ctx with
  | Some hooks =>
      after_point hooks (result_value result) AfterTool ≫= λ _,
      after_point hooks (result_value result) AfterChange
  | None => mret tt
  end.

(** Everything up to the effector: the decision it runs under. *)
Definition authorize : PM PolicyDecision :=
  validate ≫= λ _,
  classify ≫= λ _,
  custody ≫= λ _,
  hooks_before ≫= λ _,
  prepare ≫= λ _,
  decide_policy ≫= λ decision,
  permission_hooks decision ≫= λ _,
  guard_verdict decision ≫= λ _,
  journal_dispatch decision ≫= λ _,
  mret decision.

(** What follows the effector. *)
Definition finish (decision : PolicyDecision) (outcome : ToolOutcome) : PM PipelineOutcome :=
  postprocess outcome ≫= λ result,
  hooks_after result ≫= λ _,
  se_get ≫= λ s,
  mret {| po_result := result; po_stages := ps_stages s; po_policy := Some decision;
          po_effect_class := Some (ps_effect_class s);
          po_tool_version := Some (ts_version spec) |}.

Definition effect (decision : PolicyDecision) : PM PipelineOutcome :=
  execute decision ≫= finish decision.

End tool.

Definition start (w : W) : PState :=
  {| ps_world := w; ps_calls := []; ps_stages := []; ps_denied := None; ps_args := Jnull;
     ps_args_hash := ""; ps_effect_class := EffectClass_ReadOnly; ps_bound_intent := None |}.

Definition pipeline : PM PipelineOutcome :=
  normalize ≫= λ _,
  resolve ≫= λ tool,
  authorize tool ≫= λ decision,
  effect tool decision.

(** [ToolRuntime::invoke]: the world and the calls it leaves, and its outcome. *)
Definition invoke (w : W) : (W * list Call) * PipelineOutcome :=
  let '(s, r) := pipeline (start w) in
  ((ps_world s, ps_calls s), match r with Ok out | Err out => out end).

(** ** Proofs

    A step that succeeds, through a bind. *)
Lemma pm_bind_ok {A B} (m : PM A) (f : A → PM B) s s' b :
  (m ≫= f) s = (s', Ok b) ↔ ∃ s1 a, m s = (s1, Ok a) ∧ f a s1 = (s', Ok b).
Proof.
  unfold mbind, se_bind. destruct (m s) as [s1 [a|e]]; [naive_solver|].
  split; [done|]. intros (? & ? & ? & ?). congruence.
Qed.

Lemma pm_get_ok s s' (t : PState) : (se_get : PM PState) s = (s', Ok t) ↔ s' = s ∧ t = s.
Proof. unfold se_get. naive_solver. Qed.

Lemma pm_ret_ok {A} (a b : A) s s' : (mret a : PM A) s = (s', Ok b) ↔ s' = s ∧ b = a.
Proof. unfold mret, se_ret. naive_solver. Qed.

Lemma pm_call_ok {A} (f : W → W * A) c s s' a :
  call f c s = (s', Ok a) ↔
  a = (f (ps_world s)).2 ∧
  s' = { s with ps_world := (f (ps_world s)).1; ps_calls ::= λ l, l ++ [c a] }.
Proof. unfold call. destruct (f _). naive_solver. Qed.

(** *** Steps that never reach the effector *)

Definition is_invoked (c : Call) : bool := match c with Invoked _ _ => true | _ => false end.

Definition quiet {A} (m : PM A) : Prop := ∀ s, ∃ post,
  ps_calls (m s).1 = ps_calls s ++ post ∧ Forall (λ c, is_invoked c = false) post.

Lemma quiet_ret {A} (a : A) : quiet (mret a).
Proof. intros s. exists []. by rewrite app_nil_r. Qed.

Lemma quiet_get : quiet se_get.
Proof. intros s. exists []. by rewrite app_nil_r. Qed.

Lemma quiet_bind {A B} (m : PM A) (f : A → PM B) :
  quiet m → (∀ a, quiet (f a)) → quiet (m ≫= f).
Proof.
  intros Hm Hf s. destruct (Hm s) as (p1 & E1 & F1). unfold mbind, se_bind.
  destruct (m s) as [s1 [a|e]]; cbn in *; [|eauto].
  destruct (Hf a s1) as (p2 & E2 & F2). exists (p1 ++ p2).
  rewrite E2, E1, app_assoc. split; [done|]. by apply Forall_app.
Qed.

Lemma quiet_mod (f : PState → PState) : (∀ s, ps_calls (f s) = ps_calls s) → quiet (se_mod f).
Proof. intros Hf s. exists []. by rewrite app_nil_r; cbn. Qed.

Lemma quiet_call {A} (f : W → W * A) c : (∀ a, is_invoked (c a) = false) → quiet (call f c).
Proof.
  intros Hc s. unfold call. destruct (f _) as [w a]. exists [c a]. split; [done|]. auto.
Qed.

Lemma quiet_stage stage outcome : quiet (push_stage stage outcome).
Proof. by apply quiet_mod. Qed.

Lemma quiet_deny code reason : quiet (deny_verdict code reason).
Proof. by apply quiet_mod. Qed.

Lemma quiet_return {A} r p c v : quiet (return_outcome r p c v : PM A).
Proof. intros s. exists []. by rewrite app_nil_r. Qed.

Create HintDb quiet discriminated.
Hint Resolve quiet_ret quiet_get quiet_stage quiet_deny quiet_return : quiet.

Ltac quiet :=
  repeat match goal with
  | |- ∀ _, quiet _ => intros ?
  | |- quiet (_ ≫= _) => apply quiet_bind
  | |- quiet (match ?x with _ => _ end) => destruct x
  | |- quiet (when ?b _) => unfold when; destruct b
  | |- quiet (se_mod _) => apply quiet_mod; done
  | |- quiet (call _ _) => apply quiet_call; done
  | |- quiet _ => solve [auto with quiet nocore]
  end.

Lemma quiet_normalize : quiet normalize.
Proof. unfold normalize. quiet. Qed.

Lemma quiet_resolve : quiet resolve.
Proof. unfold resolve. quiet. Qed.

Lemma quiet_denial e : quiet (take_denial e).
Proof. unfold take_denial. quiet. Qed.

Lemma quiet_hook_stage label e : quiet (push_hook_stage label e).
Proof. unfold push_hook_stage. quiet. Qed.
Hint Resolve quiet_denial quiet_hook_stage : quiet.

Lemma quiet_rewrite tool point v : quiet (take_rewrite tool point v).
Proof. unfold take_rewrite. quiet. Qed.
Hint Resolve quiet_rewrite : quiet.

Lemma quiet_before tool hooks point : quiet (before_point tool hooks point).
Proof. unfold before_point. quiet. Qed.
Hint Resolve quiet_before : quiet.

Lemma quiet_authorize tool : quiet (authorize tool).
Proof.
  unfold authorize, validate, classify, custody, hooks_before, prepare, decide_policy,
    permission_hooks, guard_verdict, journal_dispatch. quiet.
Qed.

Lemma quiet_spill bytes : quiet (spill bytes).
Proof. unfold spill. quiet. Qed.
Hint Resolve quiet_spill : quiet.

Lemma quiet_finish tool d outcome : quiet (finish tool d outcome).
Proof.
  unfold finish, postprocess, bound_output, hooks_after, after_point. cbv zeta. quiet.
Qed.

(** *** Steps that always answer *)

Definition returns {A} (m : PM A) (P : A → Prop) : Prop := ∀ s, ∃ s' a, m s = (s', Ok a) ∧ P a.
Definition answers {A} (m : PM A) : Prop := returns m (λ _, True).

Lemma returns_bind {A B} (m : PM A) (f : A → PM B) P Q :
  returns m P → (∀ a, P a → returns (f a) Q) → returns (m ≫= f) Q.
Proof.
  intros Hm Hf s. destruct (Hm s) as (s1 & a & E & Hp).
  destruct (Hf a Hp s1) as (s2 & b & E2 & Hb).
  exists s2, b. split; [|done]. apply pm_bind_ok. eauto.
Qed.

Lemma returns_ret {A} (a : A) (P : A → Prop) : P a → returns (mret a) P.
Proof. intros Ha s. by exists s, a. Qed.

Lemma answers_mod f : answers (se_mod f).
Proof. intros s. by exists (f s), tt. Qed.

Lemma answers_get : answers se_get.
Proof. intros s. by exists s, s. Qed.

Lemma answers_call {A} (f : W → W * A) c : answers (call f c).
Proof. intros s. unfold call. destruct (f _) as [w a]. by eexists _, a. Qed.

Ltac answers :=
  repeat match goal with
  | |- ∀ _, _ => intros ?
  | |- answers _ => unfold answers
  | |- returns (_ ≫= _) _ => apply (returns_bind _ _ (λ _, True))
  | |- returns (match ?x with _ => _ end) _ => destruct x
  | |- returns (push_stage _ _) _ => apply answers_mod
  | |- returns se_get _ => apply answers_get
  | |- returns (call _ _) _ => apply answers_call
  | |- returns (mret _) _ => apply returns_ret; done
  end.

Lemma answers_finish tool d outcome :
  returns (finish tool d outcome) (λ out, tr_status (po_result out) = status_of outcome).
Proof.
  unfold finish. apply (returns_bind _ _ (λ r, tr_status r = status_of outcome)).
  - unfold postprocess, bound_output, spill. cbv zeta. answers.
  - intros r Hr. unfold hooks_after, after_point, push_hook_stage. answers.
Qed.

(** *** What holds of the arguments at every step after the custody check *)

Definition hooks_agreed (calls : list Call) : Prop :=
  ∀ point args e, AskedHooks point args e ∈ calls → he_denied e = None.

Definition shaped (tool : Tool W InvokeContext) (s : PState) : Prop :=
  schema_errors tool (ps_args s) = [] ∧
  ps_effect_class s = call_class tool (ps_args s) ∧
  ps_args_hash s = intent_hash (ps_args s) (ps_bound_intent s).

Definition clean (s : PState) : Prop :=
  ps_denied s = None →
  carries_secret (ps_args s) (ic_secrets_in_custody ctx) = None ∧ hooks_agreed (ps_calls s).

(** Takes a successful run apart, step by step. *)
Ltac steps H :=
  repeat match type of H with
  | (_ ≫= _) _ = (_, Ok _) => apply pm_bind_ok in H
  | ∃ s1 a, _ => let s1 := fresh "s" in let a := fresh "a" in
      let Hx := fresh "Hx" in destruct H as (s1 & a & Hx & H); steps Hx
  | se_get _ = (_, Ok _) => apply pm_get_ok in H as [-> ->]
  | (mret _) _ = (_, Ok _) => apply pm_ret_ok in H as [-> ?]; subst
  | call _ _ _ = (_, Ok _) => apply pm_call_ok in H as [-> ->]
  | push_stage _ _ _ = (_, Ok _) => injection H as <-
  | deny_verdict _ _ _ = (_, Ok _) => injection H as <-
  | se_mod _ _ = (_, Ok _) => injection H as <-
  | return_outcome _ _ _ _ _ = (_, Ok _) => discriminate H
  end.

Lemma normalize_ok s s' u :
  normalize s = (s', Ok u) →
  is_object (ps_args s') = true ∧ json_from_str arguments_json = Ok (ps_args s') ∧
  ps_args_hash s' = intent_hash (ps_args s') None ∧ ps_calls s' = ps_calls s ∧
  ps_denied s' = ps_denied s ∧ ps_bound_intent s' = ps_bound_intent s.
Proof.
  unfold normalize. intros Hr. destruct (json_from_str _) as [v|e] eqn:Hj.
  - destruct (is_object v) eqn:Ho; steps Hr. cbn. done.
  - steps Hr.
Qed.

Lemma resolve_ok s s' tool :
  resolve s = (s', Ok tool) → s' = s ∧ registry_get registry tool_name = Some tool.
Proof.
  unfold resolve. intros Hr. steps Hr. destruct (registry_get _ _); steps Hr. done.
Qed.

Section tool_proofs.
Context (tool : Tool W InvokeContext).

Lemma validate_ok s s' u :
  validate tool s = (s', Ok u) → schema_errors tool (ps_args s) = [] ∧
  ∃ l, s' = { s with ps_stages := l }.
Proof.
  unfold validate. intros Hr. steps Hr. destruct (schema_errors _ _); steps Hr.
  split; [done|]. by eexists.
Qed.

Lemma classify_ok s s' u :
  classify tool s = (s', Ok u) →
  ∃ l, s' = { s with ps_stages := l; ps_effect_class := call_class tool (ps_args s) }.
Proof.
  unfold classify. intros Hr. steps Hr. cbn in Hr.
  destruct (effect_gt _ _); [destruct (t_effect_reason _ _ _)|]; steps Hr;
    by eexists.
Qed.

Lemma deny_some code reason d : Verdict_deny code reason d ≠ None.
Proof. by destruct d. Qed.

Lemma custody_ok s s' u :
  custody tool s = (s', Ok u) →
  ps_args s' = ps_args s ∧ ps_args_hash s' = ps_args_hash s ∧
  ps_effect_class s' = ps_effect_class s ∧ ps_bound_intent s' = ps_bound_intent s ∧
  ps_calls s' = ps_calls s ∧
  (ps_denied s' = None → carries_secret (ps_args s) (ic_secrets_in_custody ctx) = None).
Proof.
  unfold custody. intros Hr. steps Hr. destruct (carries_secret _ _); steps Hr; [|done].
  repeat split. intros Hn. by apply deny_some in Hn.
Qed.

Lemma take_rewrite_ok point v s s' u :
  take_rewrite tool point v s = (s', Ok u) → ps_bound_intent s = None → shaped tool s →
  shaped tool s' ∧ ps_bound_intent s' = None ∧ ps_calls s' = ps_calls s ∧
  (ps_denied s' = None → ps_denied s = None ∧
   carries_secret (ps_args s') (ic_secrets_in_custody ctx) = None).
Proof.
  destruct s as [w calls stages denied args hash class bound]. cbn [ps_bound_intent ps_calls].
  unfold take_rewrite. intros Hr -> (Hc1 & Hc2 & Hc3).
  destruct (schema_errors tool v) eqn:He; steps Hr;
    [destruct (carries_secret v _) eqn:Hs; steps Hr|].
  all: unfold shaped; split_and!; auto; try (intros Hn; by apply deny_some in Hn).
Qed.

Lemma take_denial_ok e s s' u :
  take_denial e s = (s', Ok u) →
  s' = { s with ps_denied := ps_denied s' } ∧
  (ps_denied s' = None → ps_denied s = None ∧ he_denied e = None).
Proof.
  unfold take_denial. intros Hr. destruct (he_denied e) as [[code reason]|]; steps Hr.
  - cbn. split; [done|]. intros Hn. by apply deny_some in Hn.
  - by destruct s.
Qed.

Lemma push_hook_stage_ok label e s s' u :
  push_hook_stage label e s = (s', Ok u) → s' = { s with ps_stages := ps_stages s' }.
Proof.
  unfold push_hook_stage. intros Hr. destruct (he_records e); steps Hr; [by destruct s|done].
Qed.

Lemma hooks_agreed_snoc calls point args e :
  hooks_agreed calls → he_denied e = None → hooks_agreed (calls ++ [AskedHooks point args e]).
Proof.
  intros Ha He p a e' [Hin|Hin]%elem_of_app; [by eapply Ha|].
  apply list_elem_of_singleton in Hin. by simplify_eq.
Qed.

Lemma before_point_ok hooks point s s' u :
  before_point tool hooks point s = (s', Ok u) → ps_bound_intent s = None →
  shaped tool s → clean s →
  shaped tool s' ∧ clean s' ∧ ps_bound_intent s' = None.
Proof.
  unfold before_point. intros Hr Hb Hsh Hcl. steps Hr.
  destruct (_ && _); steps Hr; [done|].
  destruct (hp_before _ _ _ _ _ _) as [w' e]; cbn [fst snd] in *.
  assert (shaped tool s0 ∧ ps_bound_intent s0 = None ∧
    ps_calls s0 = ps_calls s ++ [AskedHooks point (ps_args s) e] ∧
    (ps_denied s0 = None → ps_denied s = None ∧
     carries_secret (ps_args s0) (ic_secrets_in_custody ctx) = None)) as (Hsh0 & Hb0 & Hc0 & Hd0).
  { destruct (he_arguments e); steps Hx.
    - apply take_rewrite_ok in Hx as (? & ? & ? & ?); done.
    - split_and!; try done. intros Hd. split; [done|]. by apply Hcl. }
  apply take_denial_ok in Hx0 as [E1 Hd1]. apply push_hook_stage_ok in Hr.
  rewrite Hr, E1. split_and!; [done| |done].
  intros Hd. destruct (Hd1 Hd) as [Hd2 He]. destruct (Hd0 Hd2) as [Hd3 Hs].
  split; [done|]. change (hooks_agreed (ps_calls s0)). rewrite Hc0.
  apply hooks_agreed_snoc; [|done]. by apply Hcl.
Qed.

Lemma hooks_before_ok s s' u :
  hooks_before tool s = (s', Ok u) → ps_bound_intent s = None →
  shaped tool s → clean s →
  shaped tool s' ∧ clean s' ∧ ps_bound_intent s' = None.
Proof.
  unfold hooks_before, when. intros Hr Hb Hsh Hcl. steps Hr.
  destruct (ps_denied s), (ic_hooks ctx) as [hooks|]; steps Hr; try done.
  apply before_point_ok in Hx as (? & ? & ?); [|done..].
  destruct (negb _); steps Hr; [|done]. by eapply before_point_ok.
Qed.

Lemma prepare_ok s s' u :
  prepare tool s = (s', Ok u) → ps_bound_intent s = None → shaped tool s → clean s →
  shaped tool s' ∧ clean s'.
Proof.
  unfold prepare. intros Hr Hb Hsh Hcl. steps Hr. destruct (is_some _); steps Hr; [done|].
  destruct (t_prepare _ _ _ _) as [w' p]; cbn [fst snd] in *.
  assert (hooks_agreed (ps_calls s) → hooks_agreed (ps_calls s ++ [Prepared (ps_args s)])) as Ha.
  { intros Ha point a e [Hin|Hin]%elem_of_app; [by eapply Ha|].
    by apply list_elem_of_singleton in Hin. }
  destruct p as [[bound|]|o]; steps Hr.
  - destruct Hsh as (? & ? & ?). split; [by split_and!|].
    intros Hd. destruct (Hcl Hd). auto.
  - split; [done|]. intros Hd. destruct (Hcl Hd). auto.
Qed.

(** The call is the same: only the world, the trace and the verdict moved. *)
Definition same_call (s s' : PState) : Prop :=
  ps_args s' = ps_args s ∧ ps_args_hash s' = ps_args_hash s ∧
  ps_effect_class s' = ps_effect_class s ∧ ps_bound_intent s' = ps_bound_intent s.

Lemma same_call_trans s1 s2 s3 : same_call s1 s2 → same_call s2 s3 → same_call s1 s3.
Proof. unfold same_call. intuition congruence. Qed.

Lemma shaped_same s s' : same_call s s' → shaped tool s → shaped tool s'.
Proof. intros (E1 & E2 & E3 & E4). unfold shaped. by rewrite E1, E2, E3, E4. Qed.

(** The kernel was asked about exactly this state, and its answer is not a
    denial unless the verdict is. *)
Lemma policy_request_same s s' :
  same_call s s' → policy_request tool s' = policy_request tool s.
Proof. intros (E1 & E2 & E3 & E4). unfold policy_request. by rewrite E1, E2, E3, E4. Qed.

Lemma decide_policy_ok s s' d :
  decide_policy tool s = (s', Ok d) →
  same_call s s' ∧ d = (port (policy_request tool s) (ps_world s)).2 ∧
  ps_calls s' = ps_calls s ++ [Decided (ps_world s) (policy_request tool s) d] ∧
  (ps_denied s' = None → ps_denied s = None ∧
   ic_execution_profile ctx ∈ ts_execution_profiles (t_spec tool) ∧
   match d with PolicyDecision_Deny _ _ _ => False | _ => True end).
Proof.
  unfold decide_policy, when. intros Hr. steps Hr. destruct (port _ _) as [w' d']; cbn [fst snd] in *.
  destruct (contains_str _ _) eqn:Hp; cbn [negb] in *; steps Hx;
    destruct d'; steps Hx0; split_and!; try done.
  all: try (intros Hn; by apply deny_some in Hn).
  all: intros Hn; split_and!; [done|by apply contains_str_true|done].
Qed.

Lemma guard_verdict_ok d s s' u :
  guard_verdict tool d s = (s', Ok u) →
  s' = s ∧ ps_denied s = None ∧
  match d with PolicyDecision_ApprovalRequired _ _ => False | _ => True end.
Proof.
  unfold guard_verdict. intros Hr. steps Hr.
  destruct (ps_denied s) as [[]|] eqn:Hd; steps Hr. destruct d; steps Hr; done.
Qed.

(** What the journal was told, when there is one. *)
Definition journal_calls (d : PolicyDecision) (s : PState) : list Call :=
  match ic_journal ctx with
  | Some _ => [Journaled (dispatch_record tool d s) (Ok tt)]
  | None => []
  end.

Lemma journal_dispatch_ok d s s' u :
  journal_dispatch tool d s = (s', Ok u) →
  same_call s s' ∧
  ps_calls s' = ps_calls s ++ journal_calls d s' ∧ ps_denied s' = ps_denied s.
Proof.
  unfold journal_dispatch, journal_calls. intros Hr. steps Hr.
  destruct (ic_journal ctx) as [j|]; steps Hr; [|by rewrite app_nil_r].
  destruct (j _ _) as [w' [[]|e]]; cbn [fst snd] in *; steps Hr. done.
Qed.

Lemma permission_hooks_allow rule ap s s' u :
  permission_hooks tool (PolicyDecision_Allow rule ap) s = (s', Ok u) → s' = s.
Proof. unfold permission_hooks. intros Hr. steps Hr. by steps Hr. Qed.

(** A permission hook changes the verdict only. *)
Lemma permission_hooks_deny d s s' u :
  permission_hooks tool d s = (s', Ok u) → ps_denied s' = None → ps_denied s = None.
Proof.
  unfold permission_hooks. intros Hr. steps Hr. destruct d; steps Hr; try done.
  destruct (ps_denied s) eqn:Hd; steps Hr; [congruence|done].
Qed.

Lemma authorize_ok s s' d :
  authorize tool s = (s', Ok d) → ps_bound_intent s = None → ps_calls s = [] →
  ps_args_hash s = intent_hash (ps_args s) None →
  ∃ pre w rule approval, d = PolicyDecision_Allow rule approval ∧
    ps_calls s' = pre ++ Decided w (policy_request tool s') d :: journal_calls d s' ∧
    d = (port (policy_request tool s') w).2 ∧
    hooks_agreed pre ∧ shaped tool s' ∧
    carries_secret (ps_args s') (ic_secrets_in_custody ctx) = None ∧
    ic_execution_profile ctx ∈ ts_execution_profiles (t_spec tool).
Proof.
  unfold authorize. intros Hr Hb Hc0 Hh. steps Hr.
  apply validate_ok in Hx as [Hv [l1 ->]]. apply classify_ok in Hx0 as [l2 ->].
  apply custody_ok in Hx1 as (Ea & Eh & Ee & Eb & Ec & Hs).
  assert (shaped tool s3 ∧ clean s3) as [Hsh Hcl].
  { unfold shaped, clean. rewrite Ea, Eh, Ee, Eb, Ec. split; [split_and!|]; try done.
    - change (ps_args_hash s = intent_hash (ps_args s) (ps_bound_intent s)). by rewrite Hb.
    - intros Hd. split; [by apply Hs|]. change (hooks_agreed (ps_calls s)). rewrite Hc0. intros ??? Hin%not_elem_of_nil. done. }
  apply hooks_before_ok in Hx2 as (Hsh3 & Hcl3 & Hb3); [|by rewrite Eb|done..].
  apply prepare_ok in Hx3 as (Hsh4 & Hcl4); [|done..].
  apply decide_policy_ok in Hx4 as (E5 & Ed5 & Ec5 & Hd5).
  pose proof (permission_hooks_deny _ _ _ _ Hx5) as Hd6.
  apply guard_verdict_ok in Hx6 as (-> & Hd & Hnot).
  destruct Hd5 as (Hd4 & Hprof & Hnd); [auto|].
  destruct a5 as [rule ap| |]; [|done..].
  apply permission_hooks_allow in Hx5 as ->.
  apply journal_dispatch_ok in Hx7 as (E8 & Ec8 & _).
  pose proof (same_call_trans _ _ _ E5 E8) as E. destruct (Hcl4 Hd4) as [Hsec Hagr].
  exists (ps_calls s5), (ps_world s5), rule, ap. rewrite (policy_request_same _ _ E), Ec8, Ec5, <- app_assoc.
  split_and!; try done; [by eapply shaped_same|]. by rewrite (proj1 E).
Qed.

Lemma execute_ok d s s' o :
  execute tool d s = (s', Ok o) →
  ps_calls s' = ps_calls s ++ [Invoked (call_context d s) (ps_args s)].
Proof. unfold execute. intros Hr. steps Hr. by subst. Qed.

(** The effector runs first and once, and nothing after it fails the call. *)
Lemma effect_calls d s : ∃ s1 out post,
  effect tool d s = (s1, Ok out) ∧
  ps_calls s1 = ps_calls s ++ Invoked (call_context d s) (ps_args s) :: post ∧
  Forall (λ c, is_invoked c = false) post ∧
  ∃ o, tr_status (po_result out) = status_of o.
Proof.
  assert (∃ s1 o, execute tool d s = (s1, Ok o)) as (s1 & o & He).
  { unfold execute, mbind, se_bind, se_get, call.
    destruct (t_invoke _ _ _ _). by repeat eexists. }
  destruct (quiet_finish tool d o s1) as (post & Hp & Hf).
  destruct (answers_finish tool d o s1) as (s2 & out & E & Hout). rewrite E in Hp. cbn [fst] in Hp.
  exists s2, out, post. split_and!; [|rewrite Hp, (execute_ok _ _ _ _ He), <- app_assoc; done|done|].
  - unfold effect. apply pm_bind_ok. eauto.
  - eauto.
Qed.

End tool_proofs.

(** *** A whole call *)

(** Either the call ends before the effector, or it is authorized and the
    effector's part runs to its end. *)
Lemma pipeline_cases w :
  (∃ s out, pipeline (start w) = (s, Err out) ∧
     Forall (λ c, is_invoked c = false) (ps_calls s)) ∨
  (∃ tool s1 d s out post, registry_get registry tool_name = Some tool ∧
     (∃ s0, authorize tool s0 = (s1, Ok d) ∧ ps_bound_intent s0 = None ∧ ps_calls s0 = [] ∧
        ps_args_hash s0 = intent_hash (ps_args s0) None) ∧
     pipeline (start w) = (s, Ok out) ∧
     ps_calls s = ps_calls s1 ++ Invoked (call_context d s1) (ps_args s1) :: post ∧
     Forall (λ c, is_invoked c = false) (ps_calls s1 ++ post) ∧
     ∃ o, tr_status (po_result out) = status_of o).
Proof.
  assert (quiet (normalize ≫= λ _, resolve ≫= λ tool, authorize tool ≫= λ d, mret (tool, d)))
    as Hq.
  { apply quiet_bind; [apply quiet_normalize|intros _].
    apply quiet_bind; [apply quiet_resolve|intros tool].
    apply quiet_bind; [apply quiet_authorize|]. quiet. }
  destruct (Hq (start w)) as (pre & Hpre & Hf). cbn in Hpre. subst pre.
  unfold pipeline, mbind, se_bind in *.
  destruct (normalize (start w)) as [s1 [[]|out]] eqn:Hn; [|by left; eauto].
  destruct (resolve s1) as [s2 [tool|out]] eqn:Hr; [|by left; eauto].
  destruct (authorize tool s2) as [s3 [d|out]] eqn:Ha; [|by left; eauto].
  right. apply normalize_ok in Hn as (_ & _ & Hh & Hc & _ & Hb).
  apply resolve_ok in Hr as [-> Hget].
  destruct (effect_calls tool d s3) as (s4 & out & post & He & Hcalls & Hpost & Hst).
  exists tool, s3, d, s4, out, post. split_and!; eauto 10.
  by apply Forall_app.
Qed.

(** What the effector runs on: arguments the tool's schema accepts, with no text
    of a credential in them, under a profile the tool allows; and what was asked
    of the kernel is this call. *)
Record guarded (tool : Tool W InvokeContext) (req : PolicyRequest) (args : jvalue) : Prop := {
  g_schema : schema_errors tool args = [];
  g_secrets : carries_secret args (ic_secrets_in_custody ctx) = None;
  g_profile : ic_execution_profile ctx ∈ ts_execution_profiles (t_spec tool);
  g_asked_tool : pr_tool_name req = ts_name (t_spec tool) ∧
    pr_required_capabilities req = ts_required_capabilities (t_spec tool) ∧
    pr_execution_profile req = ic_execution_profile ctx;
  g_asked_class : pr_effect_class req = call_class tool args;
  g_asked_intent : pr_intent_hash req = intent_hash args (pr_bound_intent req);
  g_asked_paths : pr_paths req = path_targets (ts_required_capabilities (t_spec tool)) args;
  g_asked_facts :
    let facts := t_call_facts tool args (ic_execution_profile ctx) in
    pr_command req = cf_argv facts ∧
    pr_outside_workspace_write req = cf_outside_workspace_write facts ∧
    pr_protected_path req = cf_protected_path facts ∧
    pr_dependency_install req = cf_dependency_install facts
}.

Lemma request_guarded tool s :
  shaped tool s → carries_secret (ps_args s) (ic_secrets_in_custody ctx) = None →
  ic_execution_profile ctx ∈ ts_execution_profiles (t_spec tool) →
  guarded tool (policy_request tool s) (ps_args s).
Proof. intros (Hv & He & Hh) Hs Hp. by split. Qed.

(** The journal's entry for the decision, in its place just before the effect. *)
Definition dispatch_entry (tool : Tool W InvokeContext) (req : PolicyRequest)
    (d : PolicyDecision) : list Call :=
  match ic_journal ctx with
  | None => []
  | Some _ =>
      [Journaled
         {| dr_tool_call_id := tool_call_id;
            dr_tool_name := ts_name (t_spec tool);
            dr_tool_version := ts_version (t_spec tool);
            dr_effect_class := pr_effect_class req;
            dr_arguments_hash := pr_intent_hash req;
            dr_decision := d |} (Ok tt)]
  end.

Lemma invoked_once pre d jr c args post c' args' :
  Forall (λ x, is_invoked x = false) (pre ++ post) →
  Forall (λ x, is_invoked x = false) (d :: jr) →
  Invoked c' args' ∈ pre ++ d :: jr ++ Invoked c args :: post → c' = c ∧ args' = args.
Proof.
  rewrite !Forall_forall. intros Hn1 Hn2 Hin.
  assert (Invoked c' args' ∈ pre ++ post ∨ Invoked c' args' ∈ d :: jr ∨
    Invoked c' args' = Invoked c args) as [Hx|[Hx|Hx]] by set_solver.
  - by apply Hn1 in Hx.
  - by apply Hn2 in Hx.
  - by injection Hx as -> ->.
Qed.

(** The state in which an authorized call reaches its effector. *)
Lemma authorized_calls tool s0 s1 d post :
  authorize tool s0 = (s1, Ok d) → ps_bound_intent s0 = None → ps_calls s0 = [] →
  ps_args_hash s0 = intent_hash (ps_args s0) None →
  Forall (λ c, is_invoked c = false) (ps_calls s1 ++ post) →
  ∃ w req rule approval pre, d = PolicyDecision_Allow rule approval ∧
    guarded tool req (ps_args s1) ∧
    call_context d s1 = { ctx with
      ic_tool_call_id := Some tool_call_id; ic_effect_class := Some (pr_effect_class req);
      ic_intent_hash := Some (pr_intent_hash req); ic_approval_id := approval } ∧
    ps_calls s1 = pre ++ Decided w req d :: dispatch_entry tool req d ∧
    d = (port req w).2 ∧ hooks_agreed pre ∧ Forall (λ c, is_invoked c = false) (pre ++ post).
Proof.
  intros Ha Hb Hc Hh Hq.
  apply authorize_ok in Ha as (pre & w & rule & ap & -> & Hcalls & Hw & Hag & Hsh & Hs & Hp); [|done..].
  exists w, (policy_request tool s1), rule, ap, pre. split_and!; try done.
  - by apply request_guarded.
  - rewrite Hcalls in Hq. apply Forall_app in Hq as [[Hpre _]%Forall_app Hpost].
    by apply Forall_app.
Qed.

Lemma invoked_authorized w c args :
  Invoked c args ∈ (invoke w).1.2 →
  ∃ tool asked_in req rule approval pre post,
    registry_get registry tool_name = Some tool ∧ guarded tool req args ∧
    c = { ctx with
          ic_tool_call_id := Some tool_call_id; ic_effect_class := Some (pr_effect_class req);
          ic_intent_hash := Some (pr_intent_hash req); ic_approval_id := approval } ∧
    (invoke w).1.2 =
      pre ++ Decided asked_in req (PolicyDecision_Allow rule approval) ::
      dispatch_entry tool req (PolicyDecision_Allow rule approval) ++ Invoked c args :: post ∧
    PolicyDecision_Allow rule approval = (port req asked_in).2 ∧
    hooks_agreed pre ∧ Forall (λ c, is_invoked c = false) (pre ++ post).
Proof.
  unfold invoke. intros Hin.
  destruct (pipeline_cases w) as [(s & out & E & Hq)|
    (tool & s1 & d & s & out & post & Hget & (s0 & Ha & Hb & Hc & Hh) & E & Hcalls & Hq & _)];
    rewrite E in Hin |- *; cbn [fst snd] in Hin |- *.
  { rewrite Forall_forall in Hq. by apply Hq in Hin. }
  destruct (authorized_calls tool s0 s1 d post Ha Hb Hc Hh Hq)
    as (w' & req & rule & ap & pre & -> & Hg & Hctx & Hcs & Hw & Hag & Hno).
  rewrite Hcs, <- app_assoc in Hcalls. cbn [app] in Hcalls. rewrite Hcalls in Hin |- *.
  apply invoked_once in Hin as [-> ->];
    [|done|unfold dispatch_entry; destruct (ic_journal ctx); repeat constructor].
  exists tool, w', req, rule, ap, pre, post. by rewrite Hctx.
Qed.

(** C5: a tool acts only on what was authorized. Whenever the effector runs, it
    runs once, on arguments its schema accepts and of which no string value, at any
    depth, contains a credential in the Core's custody that is 8 bytes or longer (object
    keys and shorter credentials are not looked at: [secret_in_a_key]), under a profile
    the tool allows, after no hook that was asked had anything against it; the kernel
    (or the default policy where there is none), asked in the world of that moment,
    answered Allow to a request for exactly these arguments, their effect class and
    their intent hash; the dispatch is on the journal, when there is one, between that
    answer and the effect; and the effector is told the class, the intent and the
    approval it was authorized under. *)
Theorem effect_authorized w c args :
  Invoked c args ∈ (invoke w).1.2 →
  ∃ tool asked_in req rule approval pre post,
    registry_get registry tool_name = Some tool ∧ guarded tool req args ∧
    c = { ctx with
          ic_tool_call_id := Some tool_call_id; ic_effect_class := Some (pr_effect_class req);
          ic_intent_hash := Some (pr_intent_hash req); ic_approval_id := approval } ∧
    (invoke w).1.2 =
      pre ++ Decided asked_in req (PolicyDecision_Allow rule approval) ::
      dispatch_entry tool req (PolicyDecision_Allow rule approval) ++ Invoked c args :: post ∧
    PolicyDecision_Allow rule approval = (port req asked_in).2 ∧
    hooks_agreed pre ∧ Forall (λ c, is_invoked c = false) (pre ++ post).
Proof. apply invoked_authorized. Qed.

(** C6: a refused call has no effect: a call that ends unknown, invalid, denied or
    waiting for an approval never reached its effector. *)
Theorem refused_without_effect w :
  tr_status (po_result (invoke w).2) ∈
    [ToolStatus_UnknownTool; ToolStatus_InvalidArguments; ToolStatus_PolicyDenied;
     ToolStatus_ApprovalPending] →
  Forall (λ c, is_invoked c = false) (invoke w).1.2.
Proof.
  unfold invoke.
  destruct (pipeline_cases w) as [(s & out & E & Hq)|
    (tool & s1 & d & s & out & post & _ & _ & E & _ & _ & o & Ho)];
    rewrite E; cbn [fst snd]; [done|].
  intros Hst. rewrite Ho in Hst. unfold status_of in Hst.
  destruct (to_unknown_outcome o), (to_ok o), (to_infra_failure o); try set_solver.
  destruct (bool_decide _); set_solver.
Qed.

End invoke.

(** ** Credentials in the arguments *)

Fixpoint secret_walk_none secrets (v : jvalue) {struct v} : ∀ path,
  secret_walk secrets v path = None ↔ Forall (λ s, carried secrets s = false) (strings_in v).
Proof.
  intros path. destruct v as [|b|t i|x|l|m]; cbn [secret_walk strings_in]; try by split.
  - rewrite Forall_singleton. by destruct (carried secrets x).
  - generalize O. induction l as [|y l IH]; intros n; [by split|]. cbn [map concat].
    pose proof (secret_walk_none secrets y (path +:+ "[" +:+ pretty n +:+ "]")) as Hy.
    clear secret_walk_none. specialize (IH (S n)). rewrite Forall_app. destruct (secret_walk _ _ _); naive_solver.
  - induction m as [|[k y] m IH]; [by split|]. cbn [map concat snd].
    pose proof (secret_walk_none secrets y (if str_is_empty path then k else path +:+ "." +:+ k))
      as Hy.
    clear secret_walk_none. rewrite Forall_app. destruct (secret_walk _ _ _); naive_solver.
Qed.

Lemma carried_false secrets s :
  carried secrets s = false ↔
  Forall (λ k, 8 ≤ str_len k → str_contains k s = false) secrets.
Proof.
  unfold carried. rewrite existsb_false. apply Forall_iff. intros k.
  rewrite andb_false_iff, Z.leb_gt. split.
  - intros [?|?] ?; [lia|done].
  - intros Hk. destruct (decide (8 ≤ str_len k)); [by right; auto|left; lia].
Qed.

(** C7: the custody check is exact on the texts of the arguments: a call passes it
    if and only if no string value anywhere in its arguments, however deep, contains
    a credential of eight bytes or more. *)
Theorem custody_exact args secrets :
  carries_secret args secrets = None ↔
  ∀ s k, s ∈ strings_in args → k ∈ secrets → 8 ≤ str_len k → str_contains k s = false.
Proof.
  assert ((∀ s k, s ∈ strings_in args → k ∈ secrets → 8 ≤ str_len k → str_contains k s = false) ↔
    Forall (λ s, carried secrets s = false) (strings_in args)) as ->.
  { rewrite Forall_forall. setoid_rewrite carried_false. setoid_rewrite Forall_forall.
    naive_solver. }
  unfold carries_secret. destruct (forallb _ _) eqn:E; [|apply secret_walk_none].
  split; [intros _|done]. apply Forall_forall. intros s _. apply carried_false, Forall_forall.
  intros k Hk Hlen. rewrite forallb_true in E. apply E, Z.ltb_lt in Hk. lia.
Qed.

(** The name of an argument is not a text the check looks at. *)
Example secret_in_a_key :
  carries_secret (Jobject [("env", Jobject [("hunter2hunter2", Jstring "1")])])
    ["hunter2hunter2"] = None.
Proof. reflexivity. Qed.

(** ** Examples *)

Module PipelineExample.

#[local] Instance text : ValueText := λ _, "{}".
#[local] Instance debug : DebugStr := λ s, s.
#[local] Instance ids : IdText := λ _, "id".
#[local] Instance sha : Sha256 := λ s, s.
#[local] Instance reader : JsonRead := λ s,
  if s =s "read" then Ok (Jobject [("path", Jstring "src/main.rs")]) else Err "expected value".

(** The world is the log of what was done to it. *)
Definition world : Type := list string.

Definition read_spec : ToolSpec :=
  {| ts_name := "fs.read"; ts_version := "1"; ts_description := "";
     ts_input_schema := Jobject [("type", Jstring "object")]; ts_output_schema := Jnull;
     ts_effect_class := EffectClass_ReadOnly; ts_required_capabilities := ["fs.read"];
     ts_execution_profiles := ["local_trusted"]; ts_timeout_ms := 1000;
     ts_output_budget_bytes := 1000; ts_idempotency := Idempotent; ts_compensation := None |}.

Definition read_tool : Tool world (@InvokeContext world) :=
  plain_tool read_spec (λ _ _ w, (w ++ ["read"], ToolOutcome_ok (Jstring "fn main() {}"))).

Definition context : @InvokeContext world :=
  {| ic_task_id := 1; ic_execution_profile := "local_trusted"; ic_capability_lease_id := None;
     ic_has_workspace := true; ic_workspace_root := Some "/w"; ic_sink := λ _ w, (w, Ok "h");
     ic_output_budget_bytes := 0; ic_kernel := None; ic_tool_call_id := None;
     ic_journal := Some (λ _ w, (w ++ ["journal"], Ok tt)); ic_effect_class := None;
     ic_secrets_in_custody := ["hunter2hunter2"]; ic_environment := None; ic_hooks := None;
     ic_approval_id := None; ic_intent_hash := None |}.

Definition run (json : string) :=
  invoke (λ _ _, []) None [("fs.read", read_tool)] (λ r w, (w, ProfilePolicy_decide r))
    context 7 "fs.read" json [].

Example journal_before_effect : (run "read").1.1 = ["journal"; "read"].
Proof. reflexivity. Qed.

Lemma effect_authorized_witness :
  ∃ c args tool req, Invoked c args ∈ (run "read").1.2 ∧
    guarded (λ _ _, []) context tool req args ∧ pr_effect_class req = EffectClass_ReadOnly.
Proof.
  assert (∃ c, Invoked c (Jobject [("path", Jstring "src/main.rs")]) ∈ (run "read").1.2) as [c Hin].
  { eexists. vm_compute. do 3 right. left. }
  destruct (effect_authorized (λ _ _, []) None [("fs.read", read_tool)]
    (λ r w, (w, ProfilePolicy_decide r)) context 7 "fs.read" "read" [] _ _ Hin)
    as (tool & _ & req & rule & ap & pre & post & Ht & Hg & _).
  exists c, (Jobject [("path", Jstring "src/main.rs")]), tool, req. split_and!; [done..|].
  rewrite (g_asked_class _ _ _ _ _ Hg). injection Ht as <-. reflexivity.
Defined.

Lemma refused_without_effect_witness :
  Forall (λ c, is_invoked c = false) (run "not json").1.2.
Proof.
  apply (refused_without_effect (λ _ _, []) None [("fs.read", read_tool)]
    (λ r w, (w, ProfilePolicy_decide r)) context 7 "fs.read" "not json" []).
  vm_compute. set_solver.
Defined.

End PipelineExample.
