(* ===== verification/CorePort.v ===== *)
(** * The Core's port to the kernel

    [KernelPort] of [services/modbit-core/src/tools.rs], with which the Core binds
    a task's lease, approval, configuration, mode and run mode to the pipeline's
    question, and [argv_drives_gui] of [services/modbit-core/src/computer.rs]. The
    last section puts the parts together: pipeline, port, kernel, run mode and
    shell classifier. *)

From S2P Require Import Prelude RustStr BTree RustPath External ToolCall Approval Lease Mode.
From S2P Require Import RunMode Config Assurance Kernel AutoDef Filter ToolProjection.
From S2P Require Import ShellAcc ShellRead ShellClass ShellTotal ShellNest Hooks Tools Pipeline.
#[local] Open Scope Z_scope.

(** [RunContext] of [run_control.rs]. *)
Record RunContext := {
  rx_mode : RunMode;
  rx_task_id : string;
  rx_repo_root : string;
  rx_rules : list AllowRule
}.

Record KernelPort := {
  kp_kernel : PolicyEnvelope;
  kp_lease : option CapabilityLease;
  kp_approval : option Approval;
  kp_emergency_stopped : bool;
  kp_projection : option (list string);
  kp_config : ResolvedConfig;
  kp_root : option string;
  kp_mode : TaskMode;
  kp_run : RunContext;
  kp_deny_gui_shell : bool
}.

Definition GUI_DRIVERS : list string :=
  ["osascript"; "cliclick"; "xdotool"; "ydotool"; "wmctrl"; "nircmd"; "autohotkey"; "sendkeys";
   "sendinput"; "cgevent"; "pyautogui"; "system events"; "automator"; "screencapture"; "scrot";
   "mouse_event"; "keybd_event"].

Definition argv_drives_gui (argv : list string) : bool :=
  let lower := to_ascii_lowercase (Prelude.join " " argv) in
  existsb (λ d, str_contains d lower) GUI_DRIVERS.

(** One segment of a path; [None] when it climbs out of the root. *)
Definition target_step (parts : option (list string)) (seg : string) : option (list string) :=
  parts ← parts;
  if (seg =s "") || (seg =s ".") then Some parts
  else if seg =s ".." then
    match rev parts with [] => None | _ :: rest => Some (rev rest) end
  else Some (parts ++ [seg]).

Definition target_parts (path : string) : option (list string) :=
  if starts_with "/" path || starts_with "\" path || contains_char ":" path then None
  else foldl target_step (Some []) (split_by is_slash path).

Definition resource_targets (root : option string) (paths : list PathTarget)
    : list ResourceTarget :=
  match trim_end_by is_slash <$> root with
  | None => []
  | Some root =>
      omap (λ p,
        parts ← target_parts (pt_path p);
        Some {| rt_capability := pt_capability p;
                rt_resource := match parts with
                               | [] => root
                               | _ => root +:+ "/" +:+ Prelude.join "/" parts
                               end |}) paths
  end.

(** [v["intent"] = bound]; on a value that is neither an object nor null the code
    would panic, and a scope is the text of an object the kernel printed. *)
Definition set_intent (v bound : jvalue) : jvalue :=
  match v with
  | Jobject m => Jobject (binsert "intent" bound m)
  | Jnull => Jobject [("intent", bound)]
  | _ => v
  end.

Section port.
Context `{Json} `{IdText} `{Lowercase} `{ValueText} `{JsonRead}.

(** The clock and the file system, as the world answers. *)
Context {W : Type} (now : W → Z) (is_runnable : W → string → bool).

Definition run_policy (self : KernelPort) (req : PolicyRequest) (w : W) : RunPolicy :=
  {| rp_mode := rx_mode (kp_run self);
     rp_task_id := rx_task_id (kp_run self);
     rp_repo_root := rx_repo_root (kp_run self);
     rp_rules := rx_rules (kp_run self);
     rp_argv := pr_command req;
     rp_programs :=
       match pr_command req, pr_exec req with
       | Some argv, Some exec =>
           resolve_programs (is_runnable w) argv (ec_cwd exec) (ec_path exec)
       | _, _ => []
       end;
     rp_ask_classes :=
       ask_classes (pr_effect_class req) (pr_required_capabilities req)
         (pr_outside_workspace_write req) (pr_protected_path req) (pr_declared_escalation req);
     rp_dependency_install := pr_dependency_install req;
     rp_contained :=
       ((pr_execution_profile req =s PROFILE_CLOUD_ISOLATED) ||
        (pr_execution_profile req =s PROFILE_REVIEW_ISOLATED)) &&
       negb (bool_decide (pr_effect_class req = EffectClass_ExternalSideEffect)) &&
       negb (existsb (λ c, (c =s "network.egress") || (c =s "external.call"))
               (pr_required_capabilities req)) |}.

Definition kernel_request (self : KernelPort) (req : PolicyRequest) (w : W) : KernelRequest :=
  {| kr_tool_name := pr_tool_name req;
     kr_effect_class := pr_effect_class req;
     kr_required_capabilities := pr_required_capabilities req;
     kr_execution_profile := pr_execution_profile req;
     kr_mode := kp_mode self;
     kr_lease := kp_lease self;
     kr_targets := resource_targets (kp_root self) (pr_paths req);
     kr_approval := kp_approval self;
     kr_intent_hash := pr_intent_hash req;
     kr_config := Some (kp_config self);
     kr_run := Some (run_policy self req w);
     kr_emergency_stopped := kp_emergency_stopped self;
     kr_now := now w |}.

Definition of_kernel (req : PolicyRequest) (d : KernelDecision) : PolicyDecision :=
  match d with
  | KernelDecision_Allow rule approval_id =>
      PolicyDecision_Allow rule (id_text <$> approval_id)
  | KernelDecision_Deny code reason => PolicyDecision_Deny code reason false
  | KernelDecision_ApprovalRequired reason scope_json =>
      PolicyDecision_ApprovalRequired reason
        match pr_bound_intent req with
        | Some bound =>
            value_text
              (set_intent (default (Jobject []) (result_ok (json_from_str scope_json))) bound)
        | None => scope_json
        end
  end.

Definition gui_shell (self : KernelPort) (req : PolicyRequest) : bool :=
  kp_deny_gui_shell self &&
  match pr_command req with Some argv => argv_drives_gui argv | None => false end.

Definition not_projected (self : KernelPort) (req : PolicyRequest) : bool :=
  match kp_projection self with
  | Some p => negb (contains_str p (pr_tool_name req))
  | None => false
  end.

Definition KernelPort_decide (self : KernelPort) (req : PolicyRequest) (w : W)
    : W * PolicyDecision :=
  (w,
   match posture_denial (kp_mode self) (pr_effect_class req) (pr_required_capabilities req) with
   | Some (KernelDecision_Deny code reason) => PolicyDecision_Deny code reason false
   | _ =>
       if gui_shell self req then
         PolicyDecision_Deny "GUI_DRIVE_VIA_SHELL_REFUSED"
           "the shell is for non-GUI work in this role; operate the interface with the computer.* tools, which are typed, latched and approved per call"
           false
       else if not_projected self req then
         PolicyDecision_Deny "TOOL_NOT_PROJECTED"
           (tick (pr_tool_name req) +:+
            " is not in this turn's tool projection; declare what it needs in `plan.update` (files in expected_files, effects in protected_effects) or find it with tool.search, and call it once it is projected")
           false
       else of_kernel req (CapabilityKernel_decide (kp_kernel self) (kernel_request self req w))
   end).

(** What the port allows, the kernel allowed for the same question; a tool the
    model was not offered and a command that drives the interface it never asks
    about. *)
Lemma port_allow self req w rule ap :
  (KernelPort_decide self req w).2 = PolicyDecision_Allow rule ap →
  (∃ ap', ap = id_text <$> ap' ∧
     CapabilityKernel_decide (kp_kernel self) (kernel_request self req w) =
       KernelDecision_Allow rule ap') ∧
  (∀ p, kp_projection self = Some p → pr_tool_name req ∈ p) ∧
  (kp_deny_gui_shell self = true → ∀ argv, pr_command req = Some argv →
     argv_drives_gui argv = false).
Proof.
  unfold KernelPort_decide. cbn [snd]. intros Hd.
  assert (gui_shell self req = false ∧ not_projected self req = false ∧
    of_kernel req (CapabilityKernel_decide (kp_kernel self) (kernel_request self req w)) =
      PolicyDecision_Allow rule ap) as (Hg & Hp & Ho).
  { destruct (posture_denial _ _ _) as [[]|], (gui_shell self req), (not_projected self req);
      done. }
  split_and!.
  - destruct (CapabilityKernel_decide _ _); cbn in Ho; simplify_eq. eauto.
  - intros p E. unfold not_projected in Hp. rewrite E in Hp.
    by apply negb_false_iff, contains_str_true in Hp.
  - intros E argv Ec. unfold gui_shell in Hg. by rewrite E, Ec in Hg.
Qed.

End port.

(** ** Paths stay inside the root *)

Definition plain_segment (seg : string) : Prop :=
  seg ≠ "" ∧ seg ≠ "." ∧ seg ≠ ".." ∧ str_any is_slash seg = false.

Lemma split_by_segments p s : Forall (λ seg, str_any p seg = false) (split_by p s).
Proof.
  induction s as [|a s IH]; cbn; [by repeat constructor|].
  destruct (p a) eqn:Ha; [by constructor|].
  destruct (split_by p s) as [|x l].
  - repeat constructor. unfold str_any. cbn. by rewrite Ha.
  - apply Forall_cons in IH as [Hx Hl]. constructor; [|done].
    unfold str_any in *. cbn. by rewrite Ha.
Qed.

Lemma target_step_plain segs parts out :
  Forall (λ seg, str_any is_slash seg = false) segs → Forall plain_segment parts →
  foldl target_step (Some parts) segs = Some out → Forall plain_segment out.
Proof.
  revert parts. induction segs as [|seg segs IH]; intros parts Hs Hp Hf; [by simplify_eq/=|].
  apply Forall_cons in Hs as [Hseg Hs]. cbn in Hf.
  assert (∀ l : list string, foldl target_step None l = None) as Hnone
    by (induction l; done).
  destruct (seg =s "") eqn:E1; cbn in Hf; [by eapply IH|].
  destruct (seg =s ".") eqn:E2; cbn in Hf; [by eapply IH|].
  destruct (seg =s "..") eqn:E3; cbn in Hf.
  - destruct (rev parts) as [|x rest] eqn:Er; [by rewrite Hnone in Hf|].
    eapply IH; [done| |done]. apply Forall_rev. apply Forall_rev in Hp.
    change (Forall plain_segment (rev parts)) in Hp. rewrite Er in Hp. by inversion Hp.
  - bool_to_prop. eapply IH; [done| |done]. apply Forall_app. by repeat constructor.
Qed.

(** The resources a call is checked against are inside the task's root: each is
    the root itself or the root followed by plain names (no empty, dot or dot-dot
    segment, no separator inside one), under the capability its path was listed
    with; an absolute path, a drive or a path that climbs out is never one. *)
Theorem resource_targets_inside root paths t :
  t ∈ resource_targets root paths →
  ∃ r p parts, root = Some r ∧ p ∈ paths ∧ rt_capability t = pt_capability p ∧
    Forall plain_segment parts ∧
    rt_resource t = Prelude.join "/" (trim_end_by is_slash r :: parts).
Proof.
  unfold resource_targets. destruct root as [r|]; cbn [fmap option_fmap option_map];
    [|by intros ?%not_elem_of_nil].
  intros (p & Hp & Ht)%list_elem_of_omap. apply bind_Some in Ht as (parts & Hparts & Ht).
  exists r, p, parts. simplify_eq. cbn [rt_capability rt_resource].
  unfold target_parts in Hparts. destruct (_ || _); [done|].
  split_and!; try done.
  eapply target_step_plain; [apply split_by_segments|constructor|exact Hparts].
Qed.

(** Paths that become no resource the lease is checked for. An absolute path inside
    the root is one of them, which the file service accepts
    ([WsExample.absolute_inside_accepted]). *)
Example dropped_targets :
  let targets root path :=
    resource_targets root [{| pt_capability := "fs.write"; pt_path := path |}] in
  targets (Some "/repo") "/repo/src/main.rs" = [] ∧ targets (Some "/repo") "C:x" = [] ∧
  targets (Some "/repo") "a/../../b" = [] ∧ targets None "src/main.rs" = [].
Proof. by vm_compute. Qed.

(** ** The parts together *)

Lemma class_in_le e profile : effect_le (se_class e) (class_in e profile).
Proof.
  unfold class_in. destruct (negb _); [apply Z.le_refl|].
  destruct (se_unclassified e).
  - eapply effect_le_trans; [|apply effect_max_le_l]. apply effect_max_le_l.
  - apply effect_max_le_l.
Qed.

(** A nested destructive command makes the call destructive. *)
Lemma nested_destructive k args inner profile :
  runs k (strings_of args "argv") inner → raises EffectClass_Destructive inner →
  (k ≤ MAX_DEPTH)%nat → class_in (classify_args args) profile = EffectClass_Destructive.
Proof.
  intros Hr Hi Hk.
  destruct (nested_raise k _ inner EffectClass_Destructive (str_of args "stdin") Hr Hi Hk)
    as [why Hw].
  assert (effect_le EffectClass_Destructive (class_in (classify_args args) profile)) as Hle.
  { eapply effect_le_trans; [|apply class_in_le]. unfold classify_args.
    by apply (run_raise EffectClass_Destructive why). }
  by destruct (class_in _ _).
Qed.

Lemma effect_max_destructive e : effect_max EffectClass_Destructive e = EffectClass_Destructive.
Proof. by destruct e. Qed.

(** No run mode lets a deletion pass its always-ask class. *)
Lemma deletion_asks p :
  AskClass_Deletion ∈ rp_ask_classes p → asking p ≠ [].
Proof.
  intros Hd Hnil. assert (AskClass_Deletion ∈ asking p) as Hin; [|by rewrite Hnil in Hin;
    apply not_elem_of_nil in Hin].
  unfold asking. apply elem_of_list_filter_bool. split; [done|].
  by rewrite andb_false_r.
Qed.

Lemma destructive_ask_class caps o p esc :
  AskClass_Deletion ∈ ask_classes EffectClass_Destructive caps o p esc.
Proof.
  unfold ask_classes. apply elem_of_dedup, elem_of_sort_by. cbn [bool_decide].
  rewrite !elem_of_app. do 4 right. left. by left.
Qed.

Section core.
Context `{J : Json} `{IT : IdText} `{LC : Lowercase} `{VT : ValueText} `{JR : JsonRead}
  `{SH : Sha256} `{DS : DebugStr}.
Context {W : Type} (now : W → Z) (is_runnable : W → string → bool).
Context (iter_errors : jvalue → jvalue → list string) (host_path : option string)
  (registry : ToolRegistry W (@InvokeContext W)) (policy : @CapabilityPort W)
  (ctx : @InvokeContext W) (tool_call_id : Z) (tool_name arguments_json : string).
Context (kp : KernelPort)
  (Hport : ic_kernel ctx = Some (KernelPort_decide now is_runnable kp)).

#[local] Abbreviation call :=
  (invoke iter_errors host_path registry policy ctx tool_call_id tool_name arguments_json).

(** An effect of the Core: the kernel allowed it, for the request the pipeline
    made of its arguments. *)
Lemma core_effect w c args :
  Invoked c args ∈ (call w).1.2 →
  ∃ tool req w' rule approval, registry_get registry tool_name = Some tool ∧
    guarded iter_errors ctx tool req args ∧ ic_intent_hash c = Some (pr_intent_hash req) ∧
    Decided w' req (PolicyDecision_Allow rule approval) ∈ (call w).1.2 ∧
    (∀ p, kp_projection kp = Some p → pr_tool_name req ∈ p) ∧
    (kp_deny_gui_shell kp = true → ∀ argv, pr_command req = Some argv →
       argv_drives_gui argv = false) ∧
    ∃ lease, within_authority (kp_kernel kp) (kernel_request now is_runnable kp req w') lease ∧
      (must_ask (kp_kernel kp) (kernel_request now is_runnable kp req w') →
       pr_execution_profile req ∉ pe_no_approval_profiles (kp_kernel kp) ∧
       approved (kernel_request now is_runnable kp req w')).
Proof.
  intros (tool & w' & req & rule & ap & pre & post & Hget & Hg & -> & Hcalls & Hd & _)
    %invoked_authorized.
  unfold port in Hd. rewrite Hport in Hd. cbn [default] in Hd.
  symmetry in Hd. apply port_allow in Hd as ((ap' & _ & Hk) & Hproj & Hgui).
  exists tool, req, w', rule, ap. split_and!; try done.
  - rewrite Hcalls, elem_of_app. right. left.
  - apply decide_allow_iff. eauto.
Qed.

(** C4: what runs is within the authority of the task, as far as the kernel was asked
    about it. When a tool of a Core task
    runs, the kernel had been asked, in the world of that moment, about the very
    arguments it runs on and had allowed them; the tool was in the turn's projection,
    where there is one; in a role that denies it, the command is not one that drives the
    interface; and the kernel's specification holds of that question: within the lease,
    the envelope, the posture of the mode and the configuration, and approved if it had
    to be asked about. The lease's selectors are checked for the paths that
    [resource_targets] keeps, the relative ones that stay inside the task's root: an
    absolute path, one with a colon, one that climbs out, and every path of a task
    without a root is no target of the question ([dropped_targets]), and the theorem says
    nothing of those. *)
Theorem core_effect_within_authority w c args :
  Invoked c args ∈ (call w).1.2 →
  ∃ tool req w' rule approval, registry_get registry tool_name = Some tool ∧
    guarded iter_errors ctx tool req args ∧ ic_intent_hash c = Some (pr_intent_hash req) ∧
    Decided w' req (PolicyDecision_Allow rule approval) ∈ (call w).1.2 ∧
    (∀ p, kp_projection kp = Some p → pr_tool_name req ∈ p) ∧
    (kp_deny_gui_shell kp = true → ∀ argv, pr_command req = Some argv →
       argv_drives_gui argv = false) ∧
    ∃ lease, within_authority (kp_kernel kp) (kernel_request now is_runnable kp req w') lease ∧
      (must_ask (kp_kernel kp) (kernel_request now is_runnable kp req w') →
       pr_execution_profile req ∉ pe_no_approval_profiles (kp_kernel kp) ∧
       approved (kernel_request now is_runnable kp req w')).
Proof. apply core_effect. Qed.

(** C3: no destructive command runs unasked behind the wrappers and shells the
    classifier knows. Let the envelope ask about destructive effects, and the ids of
    the durable rules be distinct. When a shell tool of a Core task runs a command line
    that reaches, through the wrappers and the scripts of quoted words of [runs] (no
    [env -S], no [busybox sh], no other way to run a command) and within the depth
    limit, a command that is destructive on its own, then the
    trace has the kernel's answer Allow to the question about this call, asked in a world
    [w'], and at the time of [w'] either the task's approval authorizes exactly this
    intent hash, or durable rules made for such effects cover every simple command. *)
Theorem destructive_command_approved spec body w c args k inner :
  registry_get registry tool_name = Some (classified_tool classify_args spec body) →
  EffectClass_Destructive ∈ pe_approval_effects (kp_kernel kp) →
  NoDup (ar_rule_id <$> rx_rules (kp_run kp)) →
  runs k (strings_of args "argv") inner → raises EffectClass_Destructive inner →
  (k ≤ MAX_DEPTH)%nat →
  Invoked c args ∈ (call w).1.2 →
  ∃ req w' rule approval, ic_intent_hash c = Some (pr_intent_hash req) ∧
    Decided w' req (PolicyDecision_Allow rule approval) ∈ (call w).1.2 ∧
    pr_intent_hash req = intent_hash args (pr_bound_intent req) ∧
    ((∃ a, kp_approval kp = Some a ∧
        Approval_authorizes a (pr_intent_hash req) (now w') = true) ∨
     asking (run_policy is_runnable kp req w') ≠ [] ∧
     covered_by_rules (run_policy is_runnable kp req w') (now w')).
Proof.
  intros Hget Hgated Hnd Hruns Hraises Hk Hin.
  destruct (core_effect w c args Hin)
    as (tool & req & w' & rule & ap & Hget' & Hg & Hih & Hdec & _ & _ & lease & _ & Hask).
  rewrite Hget in Hget'. injection Hget' as <-.
  assert (pr_effect_class req = EffectClass_Destructive) as Hcls.
  { rewrite (g_asked_class _ _ _ _ _ Hg). unfold call_class.
    change (t_effect_in_profile _ args ?p) with (class_in (classify_args args) p).
    by rewrite (nested_destructive k args inner), effect_max_destructive. }
  exists req, w', rule, ap. split; [done|]. split; [done|]. split; [apply (g_asked_intent _ _ _ _ _ Hg)|].
  destruct Hask as [_ [Ha|[[rule' Hrun] _]]]; [by right; left; cbn; rewrite Hcls|by left|right].
  assert (asking (run_policy is_runnable kp req w') ≠ []) as Hne.
  { apply deletion_asks. cbn [rp_ask_classes run_policy]. rewrite Hcls.
    apply destructive_ask_class. }
  split; [done|]. unfold run_approves, run_decision in Hrun.
  destruct (computer_control _); [done|]. cbn [fmap option_fmap option_map kr_run kernel_request] in Hrun.
  destruct (RunPolicy_decide _ _) eqn:Hd; [|done].
  apply run_approve_cases in Hd as [_ [?|[? _]]]; done.
Qed.

End core.

(** ** Examples *)

Module CoreExample.
#[local] Existing Instances Example.json Example.idtext Example.lowercase Example.sha256
  Example.debug.
#[local] Instance text : ValueText := λ _, "{}".

(** [sudo -u root env A=1 bash -e -lc "'cd' ... && 'timeout' '5' 'rm' '-fr' 'x'"]. *)
Definition rm_args : jvalue := Jobject [("argv", Jarray (Jstring <$> hidden_rm))].
#[local] Instance reader : JsonRead := λ _, Ok rm_args.

Definition shell_spec : ToolSpec :=
  {| ts_name := "shell.exec"; ts_version := "1"; ts_description := "";
     ts_input_schema := Jobject [("type", Jstring "object")]; ts_output_schema := Jnull;
     ts_effect_class := EffectClass_ReversibleWrite; ts_required_capabilities := ["shell.exec"];
     ts_execution_profiles := [PROFILE_LOCAL_TRUSTED]; ts_timeout_ms := 1000;
     ts_output_budget_bytes := 1000; ts_idempotency := NonIdempotent; ts_compensation := None |}.

Definition world : Type := list string.
Definition body (_ : @InvokeContext world) (_ : jvalue) (w : world) : world * ToolOutcome :=
  (w ++ ["shell"], ToolOutcome_ok Jnull).
Definition shell : Tool world (@InvokeContext world) :=
  classified_tool classify_args shell_spec body.

Definition port (approval : option Approval) : KernelPort :=
  {| kp_kernel := PolicyEnvelope_default; kp_lease := Some KernelExample.lease;
     kp_approval := approval; kp_emergency_stopped := false; kp_projection := Some ["shell.exec"];
     kp_config := ResolvedConfig_default; kp_root := Some "/repo"; kp_mode := TaskMode_Agent;
     kp_run := {| rx_mode := RunMode_RunEverything; rx_task_id := "t"; rx_repo_root := "/repo";
                  rx_rules := [] |};
     kp_deny_gui_shell := true |}.

Definition now (_ : world) : Z := 10.
Definition runnable (_ : world) (_ : string) : bool := true.

Definition context (approval : option Approval) : @InvokeContext world :=
  {| ic_task_id := 1; ic_execution_profile := PROFILE_LOCAL_TRUSTED;
     ic_capability_lease_id := Some 7; ic_has_workspace := true;
     ic_workspace_root := Some "/repo"; ic_sink := λ _ w, (w, Ok "h");
     ic_output_budget_bytes := 0;
     ic_kernel := Some (KernelPort_decide now runnable (port approval));
     ic_tool_call_id := None; ic_journal := Some (λ _ w, (w ++ ["journal"], Ok tt));
     ic_effect_class := None; ic_secrets_in_custody := []; ic_environment := None;
     ic_hooks := None; ic_approval_id := None; ic_intent_hash := None |}.

Definition run (approval : option Approval) :=
  invoke (λ _ _, []) (Some "/bin") [("shell.exec", shell)] (λ r w, (w, ProfilePolicy_decide r))
    (context approval) 7 "shell.exec" "{}" [].

(** A person approved this very call. *)
Definition approved_rm : Approval :=
  { KernelExample.approval with ap_tool_name := "shell.exec";
      ap_effect_class := EffectClass_Destructive; ap_intent_hash := "{}" }.

(** Even where the run mode lets everything run, the hidden removal waits for a
    person; with the approval it runs. *)
Example hidden_rm_waits :
  tr_status (po_result (run None).2) = ToolStatus_ApprovalPending ∧ (run None).1.1 = [].
Proof. vm_compute. by split. Qed.

Example approved_rm_runs : (run (Some approved_rm)).1.1 = ["journal"; "shell"].
Proof. vm_compute. reflexivity. Qed.

(** The arguments the effector was called with. *)
Definition invoked_args {W : Type} (c : @Call W) : option jvalue :=
  match c with Invoked _ args => Some args | _ => None end.

Lemma invoked_by {W : Type} (l : list (@Call W)) args :
  omap invoked_args l = [args] → ∃ c, Invoked c args ∈ l.
Proof.
  intros E. assert (args ∈ omap invoked_args l) as Hin by (rewrite E; left).
  apply list_elem_of_omap in Hin as ([] & ? & ?); simplify_eq/=. eauto.
Qed.

Lemma approved_rm_invoked : ∃ c, Invoked c rm_args ∈ (run (Some approved_rm)).1.2.
Proof. apply invoked_by. vm_compute. reflexivity. Qed.

Lemma core_effect_within_authority_witness :
  ∃ c tool req, Invoked c rm_args ∈ (run (Some approved_rm)).1.2 ∧
    guarded (λ _ _, []) (context (Some approved_rm)) tool req rm_args ∧
    pr_tool_name req ∈ ["shell.exec"].
Proof.
  destruct approved_rm_invoked as [c Hc]. pose proof Hc as Hrun. unfold run in Hrun.
  destruct (core_effect_within_authority now runnable (λ _ _, []) (Some "/bin")
    [("shell.exec", shell)] (λ r w, (w, ProfilePolicy_decide r)) (context (Some approved_rm))
    7 "shell.exec" "{}" (port (Some approved_rm)) eq_refl [] c rm_args Hrun)
    as (tool & req & w' & rule & ap & _ & Hg & _ & _ & Hp & _).
  exists c, tool, req. split_and!; [done..|]. by apply Hp.
Defined.

Lemma destructive_command_approved_witness :
  ∃ c req w', Invoked c rm_args ∈ (run (Some approved_rm)).1.2 ∧
    ((∃ a, Some approved_rm = Some a ∧
        Approval_authorizes a (pr_intent_hash req) (now w') = true) ∨
     asking (run_policy runnable (port (Some approved_rm)) req w') ≠ [] ∧
     covered_by_rules (run_policy runnable (port (Some approved_rm)) req w') (now w')).
Proof.
  destruct approved_rm_invoked as [c Hc]. pose proof Hc as Hrun. unfold run in Hrun.
  destruct (destructive_command_approved now runnable (λ _ _, []) (Some "/bin")
    [("shell.exec", shell)] (λ r w, (w, ProfilePolicy_decide r)) (context (Some approved_rm))
    7 "shell.exec" "{}" (port (Some approved_rm)) eq_refl shell_spec body [] c rm_args 5
    ["rm"; "-fr"; "x"]) as (req & w' & _ & _ & _ & _ & _ & Hor).
  - reflexivity.
  - vm_compute. do 3 right. left.
  - constructor.
  - exact hidden_rm_runs.
  - by apply rm_recursive_raises.
  - vm_compute. lia.
  - exact Hrun.
  - exists c, req, w'. by split.
Defined.

Lemma resource_targets_inside_witness :
  ∃ r p parts, Some "/repo/" = Some r ∧ p ∈ [{| pt_capability := "fs.read"; pt_path := "a/../b" |}] ∧
    Forall plain_segment parts ∧ "/repo/b" = Prelude.join "/" (trim_end_by is_slash r :: parts).
Proof.
  destruct (resource_targets_inside (Some "/repo/")
    [{| pt_capability := "fs.read"; pt_path := "a/../b" |}]
    {| rt_capability := "fs.read"; rt_resource := "/repo/b" |}) as (r & p & parts & ? & ? & _ & ? & ?).
  - vm_compute. left.
  - by exists r, p, parts.
Defined.

End CoreExample.
